(* ===== verification/_CoqProject ===== *)
-Q . S2P
Prelude.v
Platform.v
Memory.v
Sv39.v
PtTree.v
PageMap.v
PageTable.v
Tlb.v
TlbRel.v
ZephyrMmu.v
ZephyrFault.v
ZSuite.v
ZKernelMem.v
ZSuiteRuns.v
ZSanity.v
Console.v
Machine.v
MTrap.v
STrap.v
Hart.v
Faults.v
Interrupts.v
SuiteMmu.v
SuiteFault.v
SuiteIrq.v
AllHarts.v
QemuCopy.v
Builds.v
SuiteRuns.v
AnyClock.v
P2Run.v
Atomics.v
Typed.v
Boot.v
ZAtomics.v
Weak.v
ZDual.v
ZThreads.v
DualCore.v
DualLoops.v
WeakLoops.v
WeakMessages.v
Wake.v
ZTimer.v
App.v
