(* ===== verification/Prelude.v ===== *)
(** * Verification of the RV64 bare-metal test suite and its Zephyr port

    The repository is a bring-up test suite for an RV64 chip: programs that run in
    S-mode on the bare metal and exercise paging, faults, translation caches,
    interrupts, atomics and a second hart ([rv64gcv-baremetal-testsuite-main]), the
    same programs on top of Zephyr ([zephyr-suite]), the Sv39 MMU support added to
    Zephyr for them ([zephyr-changes/zephyr-riscv-port.patch]), and the example
    application of the Zephyr template ([app], [drivers], [lib]).  This library
    models the C code of these parts, together with as much of the hart as their
    behaviour depends on, and proves what the parts promise each other.

    ** The files

    Foundations:
    - [Prelude]: words as [Z] with their wrap-around, C operators, reflexive
      transitive closure, shared tactics.
    - [Platform]: the constants of [common/platform.h] and [common/asm_defs.h].
    - [Memory]: physical memory, a finite map of 64-bit words with 32- and 16-bit
      accesses.
    - [Sv39]: the architecture's page-table walk ([hw_walk]) and translation with
      permissions and A/D bits ([translate]); trees of tables.
    - [PtTree], [PageMap]: what one store into a table does to every translation;
      [PtState] and [PtStateLaws], the interface of a page-table allocator, and the
      descent that links missing tables, proved against it once for both pools.
    - [Tlb]: a hart that may answer from cached walks; [coherent] caches; what
      [sfence.vma] with and without an address restores.
    - [TlbRel]: when harts that use different cached walks answer alike.

    The suite's page tables: [PageTable] ([common/smode.c]: [pt_alloc_page],
    [pt_reset], [pt_setup_identity_kernel], [pt_map_page], [pt_walk]; state: memory
    and [pt_pool_next_page]).

    The Zephyr MMU: [ZephyrMmu] (the patch's [mmu.c]: [alloc_table], [map_page],
    [unmap_page], [arch_mem_map], [arch_mem_unmap], [z_riscv_mmu_map_raw],
    [z_riscv_mmu_pte_lookup], [z_riscv_mmu_init]; state: memory, [mmu_table_used],
    [kernel_root], [satp], cached walks), [ZephyrFault] (the hook in
    [z_riscv_fault], the suite's resolvers [p1c_fixup] and [p2_fixup], an access
    with its retries).

    One hart running the suite:
    - [Console]: the printers of [smode.c] over the UART and HTIF byte sinks, and
      the words that report the verdict.
    - [Machine]: the hart's state ([world]), the environment's choices ([env]), the
      state monad [M] whose runs end in a value, in a verdict or out of fuel.
    - [MTrap]: [m_trap_handler]; [STrap]: [s_trap_handler], both trap vectors of
      [boot.S], [ecall] and the SBI calls of [test.h].
    - [Hart]: when interrupts are taken, and an access with translation, fault,
      handler and retry.
    - [Faults], [Interrupts]: the contracts of the two handlers.
    - [SuiteMmu], [SuiteFault], [SuiteIrq], [Atomics]: the test programs P0, P1A,
      P1B; P1C, P1D; P2; the atomics of [test.h] and P3.
    - [AllHarts]: every hart follows the reference hart, function by function.
      [QemuCopy]: the QEMU copy of [smode.c] and [m_trap.c]
      ([src/baremetal/common]), translated from its own text; [Builds]: its functions
      do what the original's do, and its runs end alike.
      [SuiteRuns]: the programs' runs from the boot state.  [AnyClock], [P2Run]: P2
      with any clock, on an abstract interrupt machine that the hart implements.
    - [Typed]: the invariant of the whole state: the timer's line between the modes
      (a pending STIP has MTIE clear, a deadline has it set) and the C types.
    - [Boot]: a machine for the instructions of [boot.S], the code of [_start] and
      of the two trap vectors, and what they promise the C code.

    The Zephyr suite: [ZSuite] (P1A to P1D as programs over [ZephyrMmu] and
    [ZephyrFault]), [ZSuiteRuns] (they pass on every hart), [ZKernelMem] (P1B's tests
    through [k_mem_map], against the class [KernelMem], which the port implements),
    [ZSanity] (P0, and P2.4), [ZTimer] (the rest of P2, against the class [ClockApi]
    of the kernel's timer queue, clock handler, semaphore and interrupt lock), [ZAtomics]
    (P3 with interrupts between its statements, against the class [KernelApi] of the
    kernel functions it calls), [ZDual] (the threads of P4, against the class [SmpApi] of
    the kernel's atomics, spin lock and semaphores), [ZThreads] (P4's tests with their
    workers, against the class [ThreadApi] of the kernel's threads and their placement).

    Two harts: [Weak] (a shared memory of messages and views, with sequentially
    consistent or weakly ordered loads; executable, with state exploration),
    [DualCore] (P4.0, P4.1), [DualLoops] (P4.2 to P4.4, for any number of rounds),
    [WeakLoops] (P4.3 and P4.4 in every weakly ordered run), [WeakMessages] (the Zephyr
    suite's messages likewise, against the class [OrderApi]), [Wake]
    ([core1_smode_park_loop] and [wake_core1_smode]).

    [App]: [app/src/main.c], [drivers/blink], [drivers/sensor], [lib/custom].

    ** How code and model correspond

    A C function is a definition of the same name where Rocq allows it; a handler's
    branches, early returns and console output are those of the source.  Words are
    [Z] with the wrap-around written where an operation can overflow.  Page-table
    pointers are physical addresses: the code dereferences them through the identity
    mapping ([PageTable.pt_setup_identity_kernel_translates] shows it translates them to
    themselves).  What the architecture leaves open is a field of [env] or an
    argument: which cached walks a hart uses, whether it manages A and D, when a
    store-conditional fails, how fast the clock runs; in [ZAtomics], whether an interrupt is
    taken before a statement.  Code that is not in the
    repository (Zephyr's kernel, SBI firmware) is a parameter; the parts of the kernel
    the tests call are the classes [KernelMem], [KernelApi], [SmpApi], [ThreadApi],
    [IrqApi], [OrderApi] and [ClockApi] with their documented behaviour as laws, and each has an
    instance.  [w_stale] of [Machine] is
    not state of the program: it records that an access met a cached walk the tables
    no longer give, and nothing reads it but the proofs.

    ** The theorems

    - Page tables: mapping a page makes the hart translate exactly its addresses
      as asked, from exactly the pages it lacks, whether the pool has them or not
      ([pt_map_page_translates], [_frame]);
      any sequence of calls implements a finite map ([pt_map_page_refines]); the
      walkers find the entry the hart uses; the boot maps are what they should be.
    - Zephyr MMU: [arch_mem_map], [arch_mem_unmap], [z_riscv_mmu_map_raw],
      [unmap_page] and [z_riscv_mmu_init] on whole regions, termination of the loops
      included.
    - Faults: fix and retry succeeds at the first retry, skip resumes after the
      instruction, and the faults that are never repaired.
    - Interrupts: forwarded exactly once, held while masked, panics report; the same
      of the Zephyr suite's timer tests, against the kernel's laws ([ZTimer]): a law
      says what the clock handler does when the hart takes its interrupt, however late;
      that an expiry runs once, in the timer interrupt and not while interrupts are
      locked is proved.  [ZTimer.short] (2^30 ticks) keeps the periodic test's [int] in range.
    - Boot: [_start] ends and leaves both harts where the C code expects them; the
      trap vectors do what [s_vector] and [m_trap] say and give back every register.
    - The timer's line ([programs_keep_timer_line]): in every run no expiry is
      forwarded twice and no deadline is set with its interrupt disabled, and no handler
      or program takes a register or an [int] out of its range.
    - Builds: each function of the QEMU copy does what the original's does, and its
      programs run alike, up to the verdict's word; so one evaluated run stands for both
      builds.
    - Two harts: mutual exclusion, totals, alternation, in every interleaving, with
      the end reachable from every state; hand-over of functions to hart 1; and the
      runs that the missing fences and the lost wake-ups allow.  In every weakly
      ordered run: P4.3's exclusion, P4.4's alternation, the Zephyr suite's messages.
    - The Zephyr suite's threads, against the kernel's laws; its tests as wholes: an
      assertion fails only after a wait has run out ([zephyr_p4_tests_pass]).
    - Programs: the single-hart programs and the Zephyr MMU suite end in their
      passing verdict on every hart, by simulations ([AllHarts.Lockstep],
      [ZSuiteRuns.Lockstep]) of one evaluated run.  Where P1D.2 reads through an
      entry that changed without a fence, a hart follows one of two runs
      ([AllHarts.Either]).
    - P2 ends in its passing verdict however fast the clock runs
      ([p2_passes_any_clock]); the evaluated runs take 100 ticks a turn.
    - Console: printers and verdicts read back.

    ** Bounds and fuel

    The loops of the Zephyr MMU have the number of pages as fuel ([pages_of]), and
    the theorems prove it enough.  An access may be retried [Hart.retries] times
    ([z_retries] in [ZSuite]); [fault_fix_and_retry] needs one, and
    [user_fault_never_ends] holds for every number.  [Hart.deliver] takes at most as
    many interrupts as its fuel; the theorems need four ([AnyClock.deliver_settles]).
    [cas_d] has the number of failures of store-conditionals as fuel.  The spin loops of P2 count down the
    source's own timeouts, and [P2Run] shows that no timeout is used up.
    P4's loops and the explored state spaces of [DualCore] and [Wake] have no fuel: the
    theorems quantify over reachable states.

    ** Not modelled

    The linker script (its symbols are parameters); the wait for [tohost] in the panic
    path; the spin lock around the Zephyr MMU's operations; in [Weak], the reordering of
    a load with a later store of the same hart; the [.aq] and [.rl] bits of one-hart
    code; the console output of the Zephyr suite, and with it P0.1, which only prints;
    in [ZTimer], waits without end ([K_FOREVER]), which the suite does not use; scripts,
    documentation and build files. *)

From stdpp Require Export base gmap list strings.
From Stdlib Require Export ZArith Lia Bool Btauto.
#[global] Open Scope Z_scope.

(** ** Machine words

    The C code computes on [uint64_t], [uint32_t], [uint16_t] and [int].  A
    word is a [Z]; the wrap-around of an operation is written where the
    operation can overflow. *)

Definition wrap64 (x : Z) : Z := x mod 2 ^ 64.
Definition wrap32 (x : Z) : Z := x mod 2 ^ 32.

(** [(int)x] of a 32-bit pattern, and the result of [int] arithmetic. *)
Definition s32 (x : Z) : Z := (x + 2 ^ 31) mod 2 ^ 32 - 2 ^ 31.
(** [(int64_t)x] of a 64-bit pattern. *)
Definition s64 (x : Z) : Z := (x + 2 ^ 63) mod 2 ^ 64 - 2 ^ 63.

Declare Scope c_scope.
Delimit Scope c_scope with c.
Infix ".&" := Z.land (at level 40, left associativity) : c_scope.
Infix ".|" := Z.lor (at level 50, left associativity) : c_scope.
Infix ".^" := Z.lxor (at level 50, left associativity) : c_scope.
(** Shifts of a [uint64_t]: the left shift drops the bits beyond 63. *)
Definition shl64 (x n : Z) : Z := wrap64 (Z.shiftl x n).
Infix ".<<" := shl64 (at level 38, left associativity) : c_scope.
Infix ".>>" := Z.shiftr (at level 38, left associativity) : c_scope.
(** [~x] of a [uint64_t]. *)
Definition not64 (x : Z) : Z := wrap64 (Z.lnot x).
#[global] Open Scope c_scope.

(** The truth value of the C condition [x & m]. *)
Definition tst (x m : Z) : bool := negb (x .& m =? 0).

#[global] Arguments wrap64 : simpl never.
#[global] Arguments wrap32 : simpl never.
#[global] Arguments s32 : simpl never.
#[global] Arguments s64 : simpl never.
#[global] Arguments shl64 : simpl never.
#[global] Arguments not64 : simpl never.
#[global] Arguments tst : simpl never.

(** ** Tactics *)

(** Splits every hypothesis that is a conjunction or an existential. *)
Ltac destr_all :=
  repeat match goal with
  | H : _ /\ _ |- _ => destruct H
  | H : exists _, _ |- _ => destruct H
  end.

(** Turns boolean comparisons in the context and the goal into [Prop]. *)
Ltac zbool :=
  repeat match goal with
  | H : (_ =? _) = true |- _ => apply Z.eqb_eq in H
  | H : (_ =? _) = false |- _ => apply Z.eqb_neq in H
  | H : (_ <? _) = true |- _ => apply Z.ltb_lt in H
  | H : (_ <? _) = false |- _ => apply Z.ltb_ge in H
  | H : (_ <=? _) = true |- _ => apply Z.leb_le in H
  | H : (_ <=? _) = false |- _ => apply Z.leb_gt in H
  | H : negb _ = true |- _ => apply negb_true_iff in H
  | H : negb _ = false |- _ => apply negb_false_iff in H
  | H : _ && _ = true |- _ => apply andb_true_iff in H; destruct H
  | H : _ || _ = false |- _ => apply orb_false_iff in H; destruct H
  end.

(** Reduces the boolean connectives only. *)
Ltac bsimpl := cbn [negb andb orb].

(** Case analysis on the scrutinee of the first [if]/[match] of the goal. *)
Ltac case_goal :=
  match goal with
  | |- context [if ?b then _ else _] => destruct b eqn:?
  | |- context [match ?b with _ => _ end] => destruct b eqn:?
  end.

(** ** Bit-level lemmas, collected in the rewrite database [bits] *)

Create HintDb bits.
Create Rewrite HintDb bits.
#[export] Hint Rewrite Z.land_spec Z.lor_spec Z.lxor_spec Z.ldiff_spec
  Z.bits_0 andb_false_r andb_true_r andb_false_l andb_true_l
  orb_false_r orb_true_r orb_false_l orb_true_l
  xorb_false_r xorb_false_l : bits.
#[export] Hint Rewrite Z.shiftl_spec Z.shiftr_spec Z.lnot_spec
  Z.mod_pow2_bits_low Z.mod_pow2_bits_high using lia : bits.

(** Decides an equation of words bit by bit. *)
Ltac bitwise :=
  apply Z.bits_inj'; intros ?i ?Hi; autorewrite with bits; try btauto.

Lemma wrap64_range x : 0 <= wrap64 x < 2 ^ 64.
Proof. apply Z.mod_pos_bound. lia. Qed.

Lemma wrap64_small x : 0 <= x < 2 ^ 64 -> wrap64 x = x.
Proof. apply Z.mod_small. Qed.

Lemma wrap64_idem x : wrap64 (wrap64 x) = wrap64 x.
Proof. apply wrap64_small, wrap64_range. Qed.

Lemma wrap32_range x : 0 <= wrap32 x < 2 ^ 32.
Proof. apply Z.mod_pos_bound. lia. Qed.

Lemma wrap32_small x : 0 <= x < 2 ^ 32 -> wrap32 x = x.
Proof. apply Z.mod_small. Qed.

Lemma s32_small x : - 2 ^ 31 <= x < 2 ^ 31 -> s32 x = x.
Proof. intros. unfold s32. rewrite Z.mod_small; lia. Qed.

Lemma s32_idem x : s32 (s32 x) = s32 x.
Proof. unfold s32. Z.div_mod_to_equations. lia. Qed.

Lemma s32_add_l x y : s32 (s32 x + y) = s32 (x + y).
Proof.
  unfold s32. replace ((x + 2 ^ 31) mod 2 ^ 32 - 2 ^ 31 + y + 2 ^ 31) with ((x + 2 ^ 31) mod 2 ^ 32 + y) by lia.
  rewrite Zplus_mod_idemp_l. do 2 f_equal. lia.
Qed.

Lemma s64_small x : - 2 ^ 63 <= x < 2 ^ 63 -> s64 x = x.
Proof. intros. unfold s64. rewrite Z.mod_small; lia. Qed.

#[export] Hint Resolve wrap64_range wrap32_range : bits.

Lemma shl64_small x n : 0 <= n -> 0 <= x * 2 ^ n < 2 ^ 64 -> x .<< n = x * 2 ^ n.
Proof. intros. unfold shl64. rewrite Z.shiftl_mul_pow2 by lia. by apply wrap64_small. Qed.

Lemma shr_div x n : 0 <= n -> x .>> n = x / 2 ^ n.
Proof. apply Z.shiftr_div_pow2. Qed.

(** A word split into a field of [n] low bits and the rest. *)
Lemma lor_field h f n :
  0 <= n -> 0 <= f < 2 ^ n -> Z.shiftl h n .| f = h * 2 ^ n + f.
Proof.
  intros Hn Hf. rewrite <- Z.shiftl_mul_pow2 by lia.
  rewrite Z.add_nocarry_lxor, <- Z.lxor_lor; try done;
    apply Z.bits_inj'; intros i Hi; rewrite Z.land_spec, Z.bits_0;
    (destruct (Z.lt_ge_cases i n); [rewrite Z.shiftl_spec_low by lia; done|]);
    rewrite <- (Z.mod_small f (2 ^ n)) by lia;
    rewrite Z.mod_pow2_bits_high by lia; apply andb_false_r.
Qed.

Lemma land_field h f n m :
  0 <= n -> 0 <= f < 2 ^ n -> 0 <= m < 2 ^ n -> (h * 2 ^ n + f) .& m = f .& m.
Proof.
  intros Hn Hf Hm. rewrite <- lor_field by lia. bitwise.
  destruct (Z.lt_ge_cases i n).
  - by rewrite Z.testbit_neg_r by lia.
  - rewrite <- (Z.mod_small m (2 ^ n)) by lia.
    rewrite Z.mod_pow2_bits_high by lia. btauto.
Qed.

Lemma shr_field h f n : 0 <= n -> 0 <= f < 2 ^ n -> (h * 2 ^ n + f) .>> n = h.
Proof.
  intros. rewrite shr_div by lia. rewrite Z.div_add_l by lia.
  rewrite Z.div_small; lia.
Qed.

(** Testing a one-bit mask is testing the bit. *)
Lemma tst_bit x n : 0 <= n -> tst x (2 ^ n) = Z.testbit x n.
Proof.
  intros Hn. unfold tst.
  destruct (Z.testbit x n) eqn:E.
  - apply negb_true_iff, Z.eqb_neq. intros H0.
    assert (Z.testbit (x .& 2 ^ n) n = false) as Hb by (rewrite H0; apply Z.bits_0).
    rewrite Z.land_spec, E, Z.pow2_bits_true in Hb by lia. done.
  - apply negb_false_iff, Z.eqb_eq. bitwise.
    rewrite Z.pow2_bits_eqb by lia. destruct (Z.eqb_spec n i); subst; [rewrite E|]; btauto.
Qed.

Lemma tst_lor x m1 m2 : tst x (m1 .| m2) = tst x m1 || tst x m2.
Proof.
  unfold tst. rewrite Z.land_lor_distr_r, <- negb_andb. f_equal.
  destruct (Z.eqb_spec (x .& m1) 0) as [->|H1]; simpl.
  - by rewrite Z.lor_0_l.
  - apply Z.eqb_neq. intros [? ?]%Z.lor_eq_0_iff. done.
Qed.

Lemma tst_lor_l x y m : tst (x .| y) m = tst x m || tst y m.
Proof.
  unfold tst. rewrite Z.land_lor_distr_l, <- negb_andb. f_equal.
  destruct (Z.eqb_spec (x .& m) 0) as [->|H1]; simpl.
  - by rewrite Z.lor_0_l.
  - apply Z.eqb_neq. intros [? ?]%Z.lor_eq_0_iff. done.
Qed.

Lemma land_range n x y : 0 <= n -> 0 <= x < 2 ^ n -> 0 <= x .& y < 2 ^ n.
Proof.
  intros Hn Hx. rewrite <- (Z.mod_small x (2 ^ n)) by done.
  rewrite <- Z.land_ones, <- Z.land_assoc, (Z.land_comm (Z.ones n)), Z.land_assoc, Z.land_ones by done.
  apply Z.mod_pos_bound. lia.
Qed.

Lemma ldiff_range n x y : 0 <= n -> 0 <= x < 2 ^ n -> 0 <= Z.ldiff x y < 2 ^ n.
Proof. intros. rewrite Z.ldiff_land. by apply land_range. Qed.

Lemma lor_range n x y : 0 <= n -> 0 <= x < 2 ^ n -> 0 <= y < 2 ^ n -> 0 <= x .| y < 2 ^ n.
Proof.
  intros Hn Hx Hy. split; [apply Z.lor_nonneg; lia|].
  destruct (decide (x .| y = 0)) as [->|Hne]; [lia|].
  assert (0 <= x .| y) by (apply Z.lor_nonneg; lia).
  apply Z.log2_lt_pow2; [lia|]. rewrite Z.log2_lor by lia.
  assert (forall z, 0 <= z < 2 ^ n -> z = 0 \/ Z.log2 z < n) as Hl.
  { intros z Hz. destruct (decide (z = 0)); [by left|right].
    apply Z.log2_lt_pow2; lia. }
  destruct (Hl x Hx) as [->|], (Hl y Hy) as [->|]; try (rewrite Z.lor_0_l in Hne);
    change (Z.log2 0) with 0; try lia; try done.
  - pose proof (Z.log2_nonneg y); lia.
  - pose proof (Z.log2_nonneg x); lia.
Qed.

(** Inverts an equation of results without reducing the states in it. *)
Lemma some_pair_inv {A B} (a c : A) (b d : B) : Some (a, b) = Some (c, d) -> a = c /\ b = d.
Proof. by intros [= -> ->]. Qed.

(** ** The reflexive-transitive closure of a step relation *)

Section Star.
Context {A : Type} (R : A -> A -> Prop).

Inductive star : A -> A -> Prop :=
| star_refl a : star a a
| star_step a b c : R a b -> star b c -> star a c.

Lemma star_one a b : R a b -> star a b.
Proof. eauto using star. Qed.

Lemma star_trans a b c : star a b -> star b c -> star a c.
Proof. induction 1; eauto using star. Qed.

(** An invariant of the steps holds in every reachable state. *)
Lemma star_invariant (I : A -> Prop) a b :
  (forall x y, I x -> R x y -> I y) -> star a b -> I a -> I b.
Proof. intros Hstep. induction 1; eauto. Qed.

(** Where some step always keeps [I] and lowers [m], the goal can be reached. *)
Lemma star_live (I goal : A -> Prop) (m : A -> nat) a :
  (forall x, I x -> goal x \/ exists y, R x y /\ I y /\ (m y < m x)%nat) ->
  I a -> exists b, star a b /\ I b /\ goal b.
Proof.
  intros Hlive. remember (m a) as k eqn:Ek. revert a Ek.
  induction k as [k IH] using lt_wf_ind. intros a -> Ha.
  destruct (Hlive a Ha) as [Hg|(b & Hab & Hb & Hlt)]; [eauto using star|].
  destruct (IH _ Hlt b eq_refl Hb) as (c & Hc & ?). eauto using star.
Qed.
End Star.

#[export] Hint Constructors star : core.
