(* ===== verification/Platform.v ===== *)
(** * The constants of the platform

    [common/platform.h] (and the assembly twin [common/asm_defs.h]): the memory
    map, the Sv39 page-table constants, the trap causes, the CSR bits and the
    SBI function numbers, one definition per macro, under the macro's name. *)

From S2P Require Import Prelude.

(** ** SRAM and peripherals *)

Definition SRAM_SIZE : Z := 0x00200000.
Definition SRAM_BASE : Z := 0x80000000.
Definition SRAM_END : Z := SRAM_BASE + SRAM_SIZE.

Definition DEBUG_BASE : Z := 0x00000000.
Definition DEBUG_SIZE : Z := 0x00001000.
Definition BOOTROM_BASE : Z := 0x00001000.
Definition BOOTROM_SIZE : Z := 0x00001000.

Definition CLINT_BASE : Z := 0x02000000.
Definition CLINT_SIZE : Z := 0x0000C000.
Definition CLINT_MSIP (hart : Z) : Z := CLINT_BASE + 0x0000 + hart * 4.
Definition CLINT_MTIMECMP (hart : Z) : Z := CLINT_BASE + 0x4000 + hart * 8.
Definition CLINT_MTIME : Z := CLINT_BASE + 0xBFF8.

Definition PLIC_BASE : Z := 0x0C000000.
Definition PLIC_SIZE : Z := 0x04000000.

Definition UART0_BASE : Z := 0x10000000.
Definition UART0_SIZE : Z := 0x00001000.
(** [UART_REG_SHIFT] is a build option: 0 for Spike and QEMU, 2 for RTL. *)
Definition UART0_THR (UART_REG_SHIFT : Z) : Z := UART0_BASE + Z.shiftl 0x00 UART_REG_SHIFT.
Definition UART0_LSR (UART_REG_SHIFT : Z) : Z := UART0_BASE + Z.shiftl 0x05 UART_REG_SHIFT.
Definition UART0_LSR_THRE : Z := Z.shiftl 1 5.

Definition SPI0_BASE : Z := 0x10001000.
Definition SPI0_SIZE : Z := 0x00001000.
Definition GPIO_BASE : Z := 0x10002000.
Definition GPIO_SIZE : Z := 0x00001000.
Definition DMA_BASE : Z := 0x10003000.
Definition DMA_SIZE : Z := 0x00001000.

Definition HTIF_TOHOST : Z := SRAM_END - 0x1000.
Definition HTIF_FROMHOST : Z := SRAM_END - 0x0FF8.

Definition NUM_HARTS : Z := 2.
Definition HART_0 : Z := 0.
Definition HART_1 : Z := 1.
Definition STACK_SIZE : Z := 0x4000.

(** ** Sv39 *)

Definition PGSHIFT : Z := 12.
Definition PGSIZE : Z := Z.shiftl 1 PGSHIFT.
Definition MEGAPAGE_SIZE : Z := PGSIZE * 512.
Definition GIGAPAGE_SIZE : Z := MEGAPAGE_SIZE * 512.
Definition PTES_PER_PT : Z := 512.
Definition PTE_PPN_SHIFT : Z := 10.

Definition PTE_V : Z := 0x001.
Definition PTE_R : Z := 0x002.
Definition PTE_W : Z := 0x004.
Definition PTE_X : Z := 0x008.
Definition PTE_U : Z := 0x010.
Definition PTE_G : Z := 0x020.
Definition PTE_A : Z := 0x040.
Definition PTE_D : Z := 0x080.

Definition SATP_MODE_BARE : Z := 0.
Definition SATP_MODE_SV39 : Z := 8.
Definition SATP_MODE_SV48 : Z := 9.
Definition SATP_MODE_SHIFT : Z := 60.

(** ** Trap causes *)

Definition CAUSE_INST_MISALIGNED : Z := 0.
Definition CAUSE_INST_ACCESS : Z := 1.
Definition CAUSE_ILLEGAL_INST : Z := 2.
Definition CAUSE_BREAKPOINT : Z := 3.
Definition CAUSE_LOAD_MISALIGNED : Z := 4.
Definition CAUSE_LOAD_ACCESS : Z := 5.
Definition CAUSE_STORE_MISALIGNED : Z := 6.
Definition CAUSE_STORE_ACCESS : Z := 7.
Definition CAUSE_ECALL_UMODE : Z := 8.
Definition CAUSE_ECALL_SMODE : Z := 9.
Definition CAUSE_ECALL_MMODE : Z := 11.
Definition CAUSE_INST_PAGE_FAULT : Z := 12.
Definition CAUSE_LOAD_PAGE_FAULT : Z := 13.
Definition CAUSE_STORE_PAGE_FAULT : Z := 15.

Definition IRQ_S_SOFT : Z := 1.
Definition IRQ_M_SOFT : Z := 3.
Definition IRQ_S_TIMER : Z := 5.
Definition IRQ_M_TIMER : Z := 7.
Definition IRQ_S_EXT : Z := 9.
Definition IRQ_M_EXT : Z := 11.

(** ** CSR bits *)

Definition MSTATUS_SIE : Z := Z.shiftl 1 1.
Definition MSTATUS_MIE : Z := Z.shiftl 1 3.
Definition MSTATUS_SPIE : Z := Z.shiftl 1 5.
Definition MSTATUS_MPIE : Z := Z.shiftl 1 7.
Definition MSTATUS_SPP : Z := Z.shiftl 1 8.
Definition MSTATUS_MPP_MASK : Z := Z.shiftl 3 11.
Definition MSTATUS_MPP_S : Z := Z.shiftl 1 11.
Definition MSTATUS_MPP_M : Z := Z.shiftl 3 11.
Definition MSTATUS_SUM : Z := Z.shiftl 1 18.
Definition MSTATUS_MXR : Z := Z.shiftl 1 19.

Definition MIP_SSIP : Z := Z.shiftl 1 1.
Definition MIP_MSIP : Z := Z.shiftl 1 3.
Definition MIP_STIP : Z := Z.shiftl 1 5.
Definition MIP_MTIP : Z := Z.shiftl 1 7.
Definition MIP_SEIP : Z := Z.shiftl 1 9.
Definition MIP_MEIP : Z := Z.shiftl 1 11.
Definition SIP_SSIP : Z := MIP_SSIP.
Definition SIP_STIP : Z := MIP_STIP.
Definition SIP_SEIP : Z := MIP_SEIP.

(** ** SBI and delegation *)

Definition SBI_SET_TIMER : Z := 0.
Definition SBI_SEND_IPI : Z := 1.
Definition SBI_CLEAR_IPI : Z := 2.

Definition MEDELEG_DEFAULT : Z := 0x0000B3FF.
Definition MEDELEG_WITH_SBI : Z := 0x0000B1FF.

(** [asm_defs.h] redefines [MEDELEG_DEFAULT]; [boot.S] includes that file and
    not [platform.h], so this is the value hart 0 and hart 1 boot with. *)
Definition asm_MEDELEG_DEFAULT : Z := 0xB1FF.
Definition asm_MIDELEG_DEFAULT : Z := 0x222.

Definition PMP_R : Z := 0x01.
Definition PMP_W : Z := 0x02.
Definition PMP_X : Z := 0x04.
Definition PMP_NAPOT : Z := 0x18.
Definition PMP_TOR : Z := 0x08.

(** ** Derived facts used by the other files *)

Lemma PGSIZE_val : PGSIZE = 4096. Proof. reflexivity. Qed.

(** Each flag test is a test of one bit. *)
Lemma tst_V e : tst e PTE_V = Z.testbit e 0. Proof. apply (tst_bit e 0). lia. Qed.
Lemma tst_R e : tst e PTE_R = Z.testbit e 1. Proof. apply (tst_bit e 1). lia. Qed.
Lemma tst_W e : tst e PTE_W = Z.testbit e 2. Proof. apply (tst_bit e 2). lia. Qed.
Lemma tst_X e : tst e PTE_X = Z.testbit e 3. Proof. apply (tst_bit e 3). lia. Qed.
Lemma tst_U e : tst e PTE_U = Z.testbit e 4. Proof. apply (tst_bit e 4). lia. Qed.
Lemma tst_A e : tst e PTE_A = Z.testbit e 6. Proof. apply (tst_bit e 6). lia. Qed.
Lemma tst_D e : tst e PTE_D = Z.testbit e 7. Proof. apply (tst_bit e 7). lia. Qed.

#[export] Hint Rewrite tst_V tst_R tst_W tst_X tst_U tst_A tst_D : bits.
