(* ===== verification/Memory.v ===== *)
(** * Physical memory

    The programs access memory as naturally aligned 64-bit words (page-table
    entries, test data) and, in a few places, as 32-bit words and 16-bit
    halfwords (planted instructions, the halfword at [sepc]).  Memory is a
    finite map from the index of a 64-bit word (address / 8) to its value; a
    word that was never written reads 0, the state in which QEMU starts guest
    RAM; theorems quantify over arbitrary maps. *)

From S2P Require Import Prelude.

Abbreviation mem := (gmap Z Z).

Definition rd64 (m : mem) (a : Z) : Z := wrap64 (default 0 (m !! (a / 8))).
Definition wr64 (m : mem) (a v : Z) : mem := <[a / 8 := v]> m.

(** Little-endian sub-word accesses. *)
Definition rd32 (m : mem) (a : Z) : Z := wrap32 (rd64 m a .>> (8 * (a mod 8))).
Definition rd16 (m : mem) (a : Z) : Z := (rd64 m a .>> (8 * (a mod 8))) mod 2 ^ 16.
Definition wr32 (m : mem) (a v : Z) : mem :=
  let s := 8 * (a mod 8) in
  wr64 m a (Z.ldiff (rd64 m a) (Z.shiftl (Z.ones 32) s) .| Z.shiftl (wrap32 v) s).

(** [for (i = 0; i < n; i++) page[i] = 0] over 64-bit words. *)
Fixpoint zero_words (m : mem) (a : Z) (n : nat) : mem :=
  match n with
  | O => m
  | S n' => zero_words (wr64 m a 0) (a + 8) n'
  end.

#[global] Arguments rd64 : simpl never.
#[global] Arguments wr64 : simpl never.
#[global] Arguments rd32 : simpl never.
#[global] Arguments rd16 : simpl never.
#[global] Arguments wr32 : simpl never.

(** ** Laws *)

Lemma rd64_range m a : 0 <= rd64 m a < 2 ^ 64.
Proof. apply wrap64_range. Qed.

Lemma rd64_wr64_same m a b v : a / 8 = b / 8 -> rd64 (wr64 m a v) b = wrap64 v.
Proof. intros H. unfold rd64, wr64. by rewrite <- H, lookup_insert_eq. Qed.

Lemma rd64_wr64_eq m a v : 0 <= v < 2 ^ 64 -> rd64 (wr64 m a v) a = v.
Proof. intros. rewrite rd64_wr64_same by done. by apply wrap64_small. Qed.

Lemma rd64_wr64_ne m a b v : a / 8 <> b / 8 -> rd64 (wr64 m a v) b = rd64 m b.
Proof. intros H. unfold rd64, wr64. by rewrite lookup_insert_ne. Qed.

(** Aligned accesses at different addresses do not interfere. *)
Lemma rd64_wr64_other m a b v :
  a mod 8 = 0 -> b mod 8 = 0 -> a <> b -> rd64 (wr64 m a v) b = rd64 m b.
Proof. intros Ha Hb Hne. apply rd64_wr64_ne. intros E.
  apply Hne. rewrite (Z.div_mod a 8), (Z.div_mod b 8) by lia. lia. Qed.

Lemma rd64_zero_out m a n b :
  a mod 8 = 0 -> b mod 8 = 0 -> b < a \/ a + 8 * Z.of_nat n <= b ->
  rd64 (zero_words m a n) b = rd64 m b.
Proof.
  revert m a. induction n as [|n IH]; intros m a Ha Hb Hout; simpl; [done|].
  rewrite IH; [| |done|lia].
  - apply rd64_wr64_other; lia.
  - rewrite Z.add_mod, Ha by lia. done.
Qed.

Lemma rd64_zero_in m a n i :
  a mod 8 = 0 -> 0 <= i < Z.of_nat n -> rd64 (zero_words m a n) (a + 8 * i) = 0.
Proof.
  revert m a i. induction n as [|n IH]; intros m a i Ha Hi; simpl; [lia|].
  destruct (decide (i = 0)) as [->|].
  - rewrite rd64_zero_out.
    + rewrite rd64_wr64_same; [done|f_equal; lia].
    + rewrite Z.add_mod, Ha by lia. done.
    + rewrite Z.add_mod, Ha by lia. done.
    + lia.
  - replace (a + 8 * i) with (a + 8 + 8 * (i - 1)) by lia.
    apply IH; [|lia]. rewrite Z.add_mod, Ha by lia. done.
Qed.

Lemma rd32_wr32_same m a v : a mod 4 = 0 -> rd32 (wr32 m a v) a = wrap32 v.
Proof.
  intros Ha. unfold rd32, wr32. rewrite rd64_wr64_same by done.
  assert (a mod 8 = 0 \/ a mod 8 = 4) as Hs.
  { pose proof (Z.div_mod a 8). pose proof (Z.mod_pos_bound a 8).
    pose proof (Z.div_mod a 4). lia. }
  unfold wrap32, wrap64. bitwise.
  destruct (Z.lt_ge_cases i 32); [|by rewrite !Z.mod_pow2_bits_high by lia].
  rewrite !Z.mod_pow2_bits_low, Z.shiftr_spec by lia.
  rewrite Z.mod_pow2_bits_low by (destruct Hs as [-> | ->]; lia).
  rewrite Z.lor_spec, Z.ldiff_spec, !Z.shiftl_spec by lia.
  replace (i + 8 * (a mod 8) - 8 * (a mod 8)) with i by lia.
  rewrite Z.testbit_ones_nonneg, Z.mod_pow2_bits_low by lia.
  destruct (Z.ltb_spec i 32); [|lia]. btauto.
Qed.

Lemma mod4_mod8 a : a mod 4 = 0 -> a mod 8 = 0 \/ a mod 8 = 4.
Proof. intros. Z.div_mod_to_equations. lia. Qed.

(** A 32-bit store leaves every other aligned 32-bit word alone. *)
Lemma rd32_wr32_other m a b v :
  a mod 4 = 0 -> b mod 4 = 0 -> a <> b -> rd32 (wr32 m a v) b = rd32 m b.
Proof.
  intros Ha Hb Hne. unfold rd32, wr32. destruct (decide (a / 8 = b / 8)) as [E|E].
  2: { by rewrite rd64_wr64_ne by done. }
  rewrite rd64_wr64_same by done.
  assert (rd64 m a = rd64 m b) as -> by (unfold rd64; by rewrite E).
  assert (a mod 8 = 0 /\ b mod 8 = 4 \/ a mod 8 = 4 /\ b mod 8 = 0) as Hs.
  { destruct (mod4_mod8 a Ha), (mod4_mod8 b Hb); try tauto; exfalso; apply Hne;
      rewrite (Z.div_mod a 8), (Z.div_mod b 8) by lia; congruence. }
  unfold wrap32, wrap64. bitwise.
  destruct (Z.lt_ge_cases i 32); [|by rewrite !Z.mod_pow2_bits_high by lia].
  rewrite !Z.mod_pow2_bits_low, !Z.shiftr_spec by lia.
  rewrite Z.mod_pow2_bits_low by (destruct Hs as [[_ ->] | [_ ->]]; lia).
  rewrite Z.lor_spec, Z.ldiff_spec, !Z.shiftl_spec by lia.
  destruct Hs as [[-> ->] | [-> ->]].
  - rewrite Z.testbit_ones_nonneg, Z.mod_pow2_bits_high by lia.
    destruct (Z.ltb_spec (i + 8 * 4 - 8 * 0) 32); [lia|]. btauto.
  - rewrite !(Z.testbit_neg_r _ (i + 8 * 0 - 8 * 4)) by lia. btauto.
Qed.
