(* ===== verification/Sv39.v ===== *)
(** * Sv39 translation and the theory of page-table trees

    The first part is the architecture: what a hart does with the page tables
    when it translates an address in S-mode (RISC-V privileged ISA, "Sv39").  It
    is the yardstick against which the C code that builds and walks page tables
    is verified.

    The second part is the theory both page-table implementations share
    ([common/smode.c] and the Zephyr [mmu.c]): a tree of tables reached by paths
    of indices, the invariant that no table is reached twice, and what one store
    into one table does to the translation of every address. *)

From S2P Require Import Prelude Platform Memory.

(** ** Page-table entries *)

(** [(e >> PTE_PPN_SHIFT) << PGSHIFT]: the physical address an entry holds. *)
Definition pte_pa (e : Z) : Z := (e .>> PTE_PPN_SHIFT) .<< PGSHIFT.

(** An entry from a physical address and ten low bits. *)
Definition pte_mk (pa f : Z) : Z := ((pa .>> PGSHIFT) .<< PTE_PPN_SHIFT) .| f.

Definition PTE_RWX : Z := PTE_R .| PTE_W .| PTE_X.

Definition pte_reserved (e : Z) : bool := negb (e .>> 54 =? 0).

(** A valid entry without R, W and X points to the next table. *)
Definition pte_ptr (e : Z) : bool := tst e PTE_V && negb (tst e PTE_RWX).

#[global] Arguments pte_pa : simpl never.
#[global] Arguments pte_mk : simpl never.
#[global] Arguments pte_reserved : simpl never.
#[global] Arguments pte_ptr : simpl never.

(** A page of RAM: 4 KB aligned, within the 56-bit physical address space. *)
Definition is_page (t : Z) : Prop := t mod 4096 = 0 /\ 0 <= t < 2 ^ 56.

Section Pte.
Implicit Types pa f e : Z.

Lemma pte_mk_arith pa f :
  0 <= pa < 2 ^ 56 -> 0 <= f < 1024 -> pte_mk pa f = pa / 4096 * 2 ^ 10 + f.
Proof.
  intros Hpa Hf. unfold pte_mk, PGSHIFT, PTE_PPN_SHIFT.
  rewrite shr_div by lia. change (2 ^ 12) with 4096.
  assert (0 <= pa / 4096 < 2 ^ 44) by (split; [apply Z.div_pos|apply Z.div_lt_upper_bound]; lia).
  rewrite shl64_small by lia.
  rewrite <- lor_field, Z.shiftl_mul_pow2 by lia. done.
Qed.

Lemma pte_mk_range pa f :
  0 <= pa < 2 ^ 56 -> 0 <= f < 1024 -> 0 <= pte_mk pa f < 2 ^ 54.
Proof.
  intros Hpa Hf. rewrite pte_mk_arith by lia.
  assert (0 <= pa / 4096 < 2 ^ 44) by (split; [apply Z.div_pos|apply Z.div_lt_upper_bound]; lia).
  lia.
Qed.

Lemma pte_mk_tst pa f m :
  0 <= pa < 2 ^ 56 -> 0 <= f < 1024 -> 0 <= m < 1024 -> tst (pte_mk pa f) m = tst f m.
Proof.
  intros. unfold tst. rewrite pte_mk_arith by lia. by rewrite land_field by lia.
Qed.

Lemma pte_mk_ppn pa f :
  0 <= pa < 2 ^ 56 -> 0 <= f < 1024 -> pte_mk pa f .>> 10 = pa / 4096.
Proof. intros. rewrite pte_mk_arith by lia. apply shr_field; lia. Qed.

Lemma pte_mk_pa pa f :
  0 <= pa < 2 ^ 56 -> 0 <= f < 1024 -> pte_pa (pte_mk pa f) = pa - pa mod 4096.
Proof.
  intros. unfold pte_pa. rewrite pte_mk_ppn by lia. unfold PGSHIFT.
  assert (0 <= pa / 4096 < 2 ^ 44) by (split; [apply Z.div_pos|apply Z.div_lt_upper_bound]; lia).
  rewrite shl64_small by lia. change (2 ^ 12) with 4096.
  rewrite (Z.div_mod pa 4096) at 2 by lia. lia.
Qed.

Lemma pte_mk_page pa f : is_page pa -> 0 <= f < 1024 -> pte_pa (pte_mk pa f) = pa.
Proof. intros [Ha ?] ?. rewrite pte_mk_pa by lia. lia. Qed.

Lemma pte_mk_reserved pa f :
  0 <= pa < 2 ^ 56 -> 0 <= f < 1024 -> pte_reserved (pte_mk pa f) = false.
Proof.
  intros Hpa Hf. pose proof (pte_mk_range pa f Hpa Hf).
  unfold pte_reserved. rewrite shr_div, Z.div_small by lia. done.
Qed.

Lemma pte_pa_page e : e .>> 54 = 0 -> 0 <= e -> is_page (pte_pa e).
Proof.
  intros He Hnn. rewrite shr_div in He by lia.
  assert (e < 2 ^ 54). { apply Z.div_small_iff in He; lia. }
  unfold pte_pa, PTE_PPN_SHIFT, PGSHIFT, is_page. rewrite shr_div by lia.
  assert (0 <= e / 2 ^ 10 < 2 ^ 44) by (split; [apply Z.div_pos|apply Z.div_lt_upper_bound]; lia).
  rewrite shl64_small by lia. split; [|lia]. apply Z_mod_mult.
Qed.
End Pte.

(** ** The architecture: walking the tables *)

(** Virtual page number [l] of an address (2 for the root table, 0 for the leaf). *)
Definition vpn (va : Z) (l : nat) : Z := (va .>> (12 + 9 * Z.of_nat l)) .& 0x1FF.
Definition vpath (va : Z) : list Z := [vpn va 2; vpn va 1; vpn va 0].

(** The walk from table [t] along the remaining indices: the level, address and
    value of the leaf entry, or [None] where the hart raises a page fault. *)
Fixpoint hw_walk (m : mem) (t : Z) (p : list Z) : option (nat * Z * Z) :=
  match p with
  | [] => None
  | i :: p' =>
      let a := t + 8 * i in
      let e := rd64 m a in
      if negb (tst e PTE_V) || (negb (tst e PTE_R) && tst e PTE_W) || pte_reserved e
      then None
      else if tst e PTE_R || tst e PTE_X then Some (length p', a, e)
      else if tst e (PTE_A .| PTE_D .| PTE_U) then None
      else hw_walk m (pte_pa e) p'
  end.

Inductive access := Fetch | Load | Store.
#[export] Instance access_eq_dec : EqDecision access.
Proof. solve_decision. Defined.

Definition fault_cause (acc : access) : Z :=
  match acc with
  | Fetch => CAUSE_INST_PAGE_FAULT
  | Load => CAUSE_LOAD_PAGE_FAULT
  | Store => CAUSE_STORE_PAGE_FAULT
  end.

(** What the translation of an S-mode access depends on beside the tables:
    [sstatus.SUM], [sstatus.MXR], and whether the hart sets A and D itself
    (Svadu) or raises a page fault when they are clear (Svade). *)
Record hwctx := { hw_sum : bool; hw_mxr : bool; hw_svadu : bool }.

Definition leaf_perm (c : hwctx) (acc : access) (e : Z) : bool :=
  match acc with
  | Fetch => tst e PTE_X
  | Load => tst e PTE_R || (hw_mxr c && tst e PTE_X)
  | Store => tst e PTE_W
  end.

(** S-mode may not touch a user page, except for data with SUM set. *)
Definition leaf_user (c : hwctx) (acc : access) (e : Z) : bool :=
  negb (tst e PTE_U) || (hw_sum c && negb (bool_decide (acc = Fetch))).

(** The PPN bits below the superpage size must be zero. *)
Definition leaf_aligned (l : nat) (e : Z) : bool :=
  (e .>> 10) .& Z.ones (9 * Z.of_nat l) =? 0.

Definition leaf_ad (acc : access) (e : Z) : bool :=
  tst e PTE_A && (negb (bool_decide (acc = Store)) || tst e PTE_D).

Definition leaf_ok (c : hwctx) (acc : access) (l : nat) (e : Z) : bool :=
  leaf_perm c acc e && leaf_user c acc e && leaf_aligned l e &&
  (hw_svadu c || leaf_ad acc e).

Definition leaf_pa (l : nat) (e va : Z) : Z :=
  pte_pa e + va mod 2 ^ (12 + 9 * Z.of_nat l).

(** The entry after an access by a hart that manages A and D. *)
Definition leaf_touch (c : hwctx) (acc : access) (e : Z) : Z :=
  if hw_svadu c
  then e .| PTE_A .| (if bool_decide (acc = Store) then PTE_D else 0)
  else e.

(** Bits 63..39 of a virtual address repeat bit 38. *)
Definition canonical (va : Z) : bool :=
  (va .>> 38 =? 0) || (va .>> 38 =? Z.ones 26).

(** Translation: the physical address and the memory after the A/D update, or
    [None] for a page fault. *)
Definition translate (c : hwctx) (m : mem) (root : Z) (acc : access) (va : Z)
    : option (Z * mem) :=
  if canonical va then
    match hw_walk m root (vpath va) with
    | Some (l, a, e) =>
        if leaf_ok c acc l e
        then Some (leaf_pa l e va,
                   if leaf_touch c acc e =? e then m else wr64 m a (leaf_touch c acc e))
        else None
    | None => None
    end
  else None.

(** ** Trees of tables *)

(** The table reached from [t] along a path of indices, the way the C code
    descends: follow an entry when it is valid and has no permission bit. *)
Fixpoint tbl (m : mem) (t : Z) (p : list Z) : option Z :=
  match p with
  | [] => Some t
  | i :: p' =>
      let e := rd64 m (t + 8 * i) in
      if pte_ptr e then tbl m (pte_pa e) p' else None
  end.

Definition idx_ok (i : Z) : Prop := 0 <= i < 512.
Definition path_ok (p : list Z) : Prop := Forall idx_ok p /\ (length p <= 2)%nat.

(** A pointer entry as both implementations write it. *)
Definition ptr_entry (child : Z) : Z := ((child .>> PGSHIFT) .<< PTE_PPN_SHIFT) .| PTE_V.

(** The invariant: tables are allocated pages, no table is reached by two
    paths, and the pointer entries above the last level are clean. *)
Record wf_tables (m : mem) (root : Z) (used : Z -> Prop) : Prop := {
  wf_root : used root;
  wf_page t : used t -> is_page t;
  wf_used p t : path_ok p -> tbl m root p = Some t -> used t;
  wf_inj p q t : path_ok p -> path_ok q ->
    tbl m root p = Some t -> tbl m root q = Some t -> p = q;
  wf_clean p t i : path_ok p -> (length p <= 1)%nat -> idx_ok i ->
    tbl m root p = Some t -> pte_ptr (rd64 m (t + 8 * i)) = true ->
    exists c, is_page c /\ rd64 m (t + 8 * i) = ptr_entry c
}.

Lemma vpn_range va l : idx_ok (vpn va l).
Proof.
  unfold vpn, idx_ok. change 0x1FF with (Z.ones 9). rewrite Z.land_ones by lia.
  apply Z.mod_pos_bound. lia.
Qed.

Lemma vpath_ok va : Forall idx_ok (vpath va).
Proof. repeat constructor; apply vpn_range. Qed.

#[export] Hint Resolve vpn_range vpath_ok : core.

(** *** Pointer entries *)

Lemma ptr_entry_facts c :
  is_page c ->
  0 <= ptr_entry c < 2 ^ 64 /\ pte_ptr (ptr_entry c) = true /\
  pte_pa (ptr_entry c) = c /\ pte_reserved (ptr_entry c) = false /\
  tst (ptr_entry c) PTE_V = true /\ tst (ptr_entry c) PTE_R = false /\
  tst (ptr_entry c) PTE_W = false /\ tst (ptr_entry c) PTE_X = false /\
  tst (ptr_entry c) (PTE_A .| PTE_D .| PTE_U) = false.
Proof.
  intros Hc. pose proof Hc as [? ?]. change (ptr_entry c) with (pte_mk c PTE_V).
  assert (0 <= PTE_V < 1024) by (unfold PTE_V; lia).
  pose proof (pte_mk_range c PTE_V). unfold pte_ptr.
  rewrite !pte_mk_tst, pte_mk_page, pte_mk_reserved by (first [done | split; done]).
  repeat split; first [lia | reflexivity].
Qed.

(** *** Virtual page numbers as arithmetic *)

Lemma vpn_arith va l : vpn va l = va / 2 ^ (12 + 9 * Z.of_nat l) mod 512.
Proof.
  unfold vpn. change 0x1FF with (Z.ones 9).
  rewrite Z.land_ones, shr_div by lia. done.
Qed.

(** The virtual page number of a canonical address is determined by the path. *)
Lemma vpath_inj va va' :
  canonical va = true -> canonical va' = true ->
  vpath va = vpath va' -> va / 4096 = va' / 4096.
Proof.
  unfold canonical, vpath. rewrite !vpn_arith, !shr_div by lia.
  change (Z.ones 26) with (2 ^ 26 - 1).
  change (12 + 9 * Z.of_nat 2) with 30. change (12 + 9 * Z.of_nat 1) with 21.
  change (12 + 9 * Z.of_nat 0) with 12. change 4096 with (2 ^ 12).
  intros Hc Hc' [= E2 E1 E0].
  assert (forall n, 0 <= n -> va / 2 ^ (12 + n) = va / 2 ^ 12 / 2 ^ n /\
            va' / 2 ^ (12 + n) = va' / 2 ^ 12 / 2 ^ n) as Hsplit.
  { intros n Hn. rewrite Z.pow_add_r, !Z.div_div by lia. done. }
  destruct (Hsplit 26) as [H26 H26']; [lia|]. destruct (Hsplit 18) as [H18 H18']; [lia|].
  destruct (Hsplit 9) as [H9 H9']; [lia|].
  change (12 + 26) with 38 in *. change (12 + 18) with 30 in *. change (12 + 9) with 21 in *.
  rewrite H26 in Hc. rewrite H26' in Hc'. rewrite H18, H18' in E2. rewrite H9, H9' in E1.
  set (q := va / 2 ^ 12) in *. set (q' := va' / 2 ^ 12) in *.
  apply orb_true_iff in Hc, Hc'. rewrite !Z.eqb_eq in Hc, Hc'.
  Z.div_mod_to_equations. lia.
Qed.

(** Addresses of one page have one path. *)
Lemma page_path va va' : va / 4096 = va' / 4096 -> vpath va = vpath va'.
Proof.
  intros E. unfold vpath. rewrite !vpn_arith.
  assert (forall n, 0 <= n -> va / 2 ^ (12 + n) = va' / 2 ^ (12 + n)) as Hn.
  { intros n Hn. rewrite Z.pow_add_r, <- !Z.div_div by lia.
    change (2 ^ 12) with 4096. by rewrite E. }
  rewrite !Hn by lia. done.
Qed.

Lemma canonical_page va va' : va / 4096 = va' / 4096 -> canonical va = canonical va'.
Proof.
  intros E. unfold canonical. rewrite !shr_div by lia.
  assert (forall x, x / 2 ^ 38 = x / 4096 / 2 ^ 26) as H
    by (intros x; by rewrite Z.div_div by lia).
  by rewrite !H, E.
Qed.

(** A canonical low address has its gigabyte as root index. *)
Lemma vpn2_low va : 0 <= va < 2 ^ 38 -> vpn va 2 = va / 2 ^ 30 /\ canonical va = true.
Proof.
  intros H. split.
  - rewrite vpn_arith. change (12 + 9 * Z.of_nat 2) with 30. apply Z.mod_small.
    Z.div_mod_to_equations. lia.
  - unfold canonical. rewrite shr_div, Z.div_small by lia. done.
Qed.

(** Conversely, a small root index of a canonical address is its gigabyte. *)
Lemma canonical_vpn2 va k :
  0 <= va -> canonical va = true -> vpn va 2 = k -> k < 256 -> va / 2 ^ 30 = k.
Proof.
  unfold canonical. rewrite vpn_arith, !shr_div by lia. change (Z.ones 26) with (2 ^ 26 - 1).
  change (12 + 9 * Z.of_nat 2) with 30.
  intros Hva Hc E Hk. apply orb_true_iff in Hc. rewrite !Z.eqb_eq in Hc.
  replace (va / 2 ^ 38) with (va / 2 ^ 30 / 2 ^ 8) in Hc
    by (rewrite Z.div_div by lia; done).
  change (2 ^ 8) with 256 in Hc.
  assert (0 <= va / 2 ^ 30) by (apply Z.div_pos; lia).
  generalize dependent (va / 2 ^ 30). intros q. Z.div_mod_to_equations. lia.
Qed.
