(* ===== verification/PtTree.v ===== *)
(** * What a store into a page table does to translation

    Lemmas on the table trees of [Sv39]: walks only read the entries on their
    path; linking a fresh zeroed table under an invalid entry changes no
    translation; writing a non-pointer entry changes exactly the translations
    that go through it.  The second half states the interface of a page-table
    allocator and, against it, the descent both implementations perform
    ([ensure_child], [map_at]), with its specification. *)

From S2P Require Import Prelude Platform Memory Sv39.

(** ** Slots of different tables are different words *)

Lemma slot_aligned t i : is_page t -> (t + 8 * i) mod 8 = 0.
Proof.
  intros [Ht _]. rewrite (Z.mul_comm 8), Z_mod_plus_full.
  apply Z.mod_divide; [lia|]. apply Z.mod_divide in Ht as [k ->]; [|lia].
  exists (512 * k). lia.
Qed.

Lemma slot_inj t i t' j :
  is_page t -> is_page t' -> idx_ok i -> idx_ok j ->
  (t + 8 * i) / 8 = (t' + 8 * j) / 8 -> t = t' /\ i = j.
Proof.
  unfold idx_ok. intros [Ht _] [Ht' _] Hi Hj H.
  apply Z.mod_divide in Ht as [k ->]; [|lia]. apply Z.mod_divide in Ht' as [k' ->]; [|lia].
  replace (k * 4096 + 8 * i) with ((512 * k + i) * 8) in H by lia.
  replace (k' * 4096 + 8 * j) with ((512 * k' + j) * 8) in H by lia.
  rewrite !Z.div_mul in H by lia. lia.
Qed.

(** ** Paths *)

Lemma tbl_app m t q r : tbl m t (q ++ r) = tbl m t q ≫= fun t' => tbl m t' r.
Proof.
  revert t. induction q as [|i q IH]; intros t; simpl; [done|].
  destruct (pte_ptr _); [apply IH|done].
Qed.

Lemma tbl_snoc m root q i t :
  tbl m root q = Some t ->
  tbl m root (q ++ [i]) =
    if pte_ptr (rd64 m (t + 8 * i)) then Some (pte_pa (rd64 m (t + 8 * i))) else None.
Proof. intros H. rewrite tbl_app, H. done. Qed.

(** The entries on the way to a last-level table. *)
Lemma tbl_two m t i j x :
  tbl m t [i; j] = Some x ->
  tst (rd64 m (t + 8 * i)) PTE_V = true /\ tst (rd64 m (t + 8 * i)) PTE_RWX = false /\
  tst (rd64 m (pte_pa (rd64 m (t + 8 * i)) + 8 * j)) PTE_V = true /\
  tst (rd64 m (pte_pa (rd64 m (t + 8 * i)) + 8 * j)) PTE_RWX = false /\
  pte_pa (rd64 m (pte_pa (rd64 m (t + 8 * i)) + 8 * j)) = x.
Proof.
  cbn [tbl]. unfold pte_ptr. generalize (rd64 m (t + 8 * i)) as e. intros e.
  generalize (rd64 m (pte_pa e + 8 * j)) as f. intros f H.
  destruct (tst e PTE_V), (tst e PTE_RWX), (tst f PTE_V), (tst f PTE_RWX); try done.
  by injection H as ->.
Qed.

Lemma path_ok_app q r : path_ok (q ++ r) -> path_ok q.
Proof. intros [H1 H2]. apply Forall_app in H1 as [? ?]. rewrite length_app in H2. split; [done|lia]. Qed.

Lemma path_ok_nil : path_ok [].
Proof. split; [constructor|simpl; lia]. Qed.

Lemma path_ok_snoc q i : path_ok q -> (length q <= 1)%nat -> idx_ok i -> path_ok (q ++ [i]).
Proof.
  intros [H1 _] H2 Hi. split; [apply Forall_app; auto|rewrite length_app; simpl; lia].
Qed.

#[export] Hint Resolve path_ok_nil path_ok_snoc : core.

(** The table index of a slot on the way to [r]. *)
Lemma split_path_ok q i (r r' : list Z) :
  r = q ++ i :: r' -> Forall idx_ok r -> (length r <= 3)%nat -> path_ok q /\ idx_ok i.
Proof.
  intros -> HF Hl. apply Forall_app in HF as [? HF]. inversion HF; subst.
  rewrite length_app in Hl; simpl in Hl. split; [split; [done|lia]|done].
Qed.

(** ** Locality: a walk depends on the entries along its path only *)

Definition same_along (m m' : mem) (root : Z) (r : list Z) : Prop :=
  forall q i r' t, r = q ++ i :: r' -> tbl m root q = Some t ->
    rd64 m' (t + 8 * i) = rd64 m (t + 8 * i).

Lemma hw_walk_local m m' root r :
  same_along m m' root r -> hw_walk m' root r = hw_walk m root r.
Proof.
  intros Hs.
  enough (forall r' q t, r = q ++ r' -> tbl m root q = Some t ->
            hw_walk m' t r' = hw_walk m t r') as H by (by apply (H r [])).
  induction r' as [|i r' IH]; intros q t Hr Hq; simpl; [done|].
  rewrite (Hs q i r' t) by done.
  remember (rd64 m (t + 8 * i)) as e eqn:He.
  destruct (tst e PTE_V) eqn:HV; bsimpl; [|done].
  destruct (tst e PTE_R) eqn:HR; bsimpl; [done|].
  destruct (tst e PTE_W) eqn:HW; bsimpl; [done|].
  destruct (pte_reserved e) eqn:Hres; bsimpl; [done|].
  destruct (tst e PTE_X) eqn:HX; bsimpl; [done|].
  destruct (tst e (PTE_A .| PTE_D .| PTE_U)) eqn:Hadu; bsimpl; [done|].
  apply (IH (q ++ [i])); [by rewrite <- app_assoc|].
  rewrite (tbl_snoc _ _ _ _ t) by done. rewrite <- He. unfold pte_ptr, PTE_RWX.
  by rewrite !tst_lor, HV, HR, HW, HX.
Qed.

Lemma tbl_local m m' root r :
  same_along m m' root r -> tbl m' root r = tbl m root r.
Proof.
  intros Hs.
  enough (forall r' q t, r = q ++ r' -> tbl m root q = Some t ->
            tbl m' t r' = tbl m t r') as H by (by apply (H r [])).
  induction r' as [|i r' IH]; intros q t Hr Hq; simpl; [done|].
  rewrite (Hs q i r' t) by done.
  destruct (pte_ptr _) eqn:HP; [|done].
  apply (IH (q ++ [i])); [by rewrite <- app_assoc|].
  by rewrite (tbl_snoc _ _ _ _ t), HP.
Qed.

(** The walk passes through a table that the path reaches. *)
Lemma hw_walk_app m root used q t r :
  wf_tables m root used -> path_ok q -> tbl m root q = Some t ->
  hw_walk m root (q ++ r) = hw_walk m t r.
Proof.
  intros Hwf. revert t r. induction q as [|i q IH] using rev_ind; intros t r Hok Ht.
  { by injection Ht as ->. }
  pose proof (path_ok_app _ _ Hok) as Hq.
  assert (length q <= 1)%nat by (destruct Hok as [_ Hl]; rewrite length_app in Hl; simpl in Hl; lia).
  assert (idx_ok i) by (destruct Hok as [HF _]; apply Forall_app in HF as [_ HF]; by inversion HF).
  destruct (tbl m root q) as [t'|] eqn:Eq; [|by rewrite tbl_app, Eq in Ht].
  rewrite (tbl_snoc _ _ _ _ t') in Ht by done.
  destruct (pte_ptr _) eqn:HP; [|done].
  destruct (wf_clean _ _ _ Hwf q t' i) as (c & Hc & He); [done..|].
  rewrite <- app_assoc, (IH t') by done. cbn [hw_walk app]. rewrite He in *.
  destruct (ptr_entry_facts c Hc) as (_ & _ & Hpa & -> & -> & -> & -> & -> & ->).
  bsimpl. rewrite Hpa in *. by injection Ht as ->.
Qed.

(** Two memories that agree on the tables in use have the same tree. *)
Definition agree_on (used : Z -> Prop) (m m' : mem) : Prop :=
  forall t i, used t -> idx_ok i -> rd64 m' (t + 8 * i) = rd64 m (t + 8 * i).

Lemma agree_same_along m m' root used r :
  wf_tables m root used -> agree_on used m m' -> Forall idx_ok r -> (length r <= 3)%nat ->
  same_along m m' root r.
Proof.
  intros Hwf Ha HF Hl q i r' t Hr Hq.
  destruct (split_path_ok q i r r' Hr HF Hl). apply Ha; [|done].
  eapply wf_used; eauto.
Qed.

Lemma wf_agree m m' root used :
  wf_tables m root used -> agree_on used m m' -> wf_tables m' root used.
Proof.
  intros Hwf Ha.
  assert (forall p, path_ok p -> tbl m' root p = tbl m root p) as Ht.
  { intros p [Hp Hl]. apply tbl_local. eapply agree_same_along; eauto. }
  constructor.
  - apply (wf_root _ _ _ Hwf).
  - apply (wf_page _ _ _ Hwf).
  - intros p t Hp. rewrite Ht by done. by apply (wf_used _ _ _ Hwf).
  - intros p q t Hp Hq. rewrite !Ht by done. by apply (wf_inj _ _ _ Hwf).
  - intros p t i Hp Hl Hi. rewrite Ht by done. intros Hpt.
    assert (used t) by (eapply wf_used; eauto). rewrite (Ha t i) by done.
    by apply (wf_clean _ _ _ Hwf p).
Qed.

Lemma hw_walk_agree m m' root used r :
  wf_tables m root used -> agree_on used m m' -> Forall idx_ok r -> (length r <= 3)%nat ->
  hw_walk m' root r = hw_walk m root r.
Proof. intros. apply hw_walk_local. eapply agree_same_along; eauto. Qed.

(** ** Writing one slot *)

(** [m'] is [m] with the slot [i] of table [t] holding [v], on the used tables. *)
Record slot_written (used : Z -> Prop) (m m' : mem) (t i v : Z) : Prop := {
  sw_slot : rd64 m' (t + 8 * i) = v;
  sw_other t' j : used t' -> idx_ok j -> (t', j) <> (t, i) ->
    rd64 m' (t' + 8 * j) = rd64 m (t' + 8 * j)
}.

Lemma wr64_slot_written m root used t i v :
  wf_tables m root used -> used t -> idx_ok i -> 0 <= v < 2 ^ 64 ->
  slot_written used m (wr64 m (t + 8 * i) v) t i v.
Proof.
  intros Hwf Ht Hi Hv. split; [by apply rd64_wr64_eq|].
  intros t' j Ht' Hj Hne. apply rd64_wr64_ne. intros E.
  apply slot_inj in E as [-> ->]; eauto using wf_page.
Qed.

Section SlotWrite.
Context (m m' : mem) (root : Z) (used : Z -> Prop) (p : list Z) (t i v : Z).
Context (Hwf : wf_tables m root used) (Hp : path_ok p) (Hi : idx_ok i).
Context (Ht : tbl m root p = Some t) (Hsw : slot_written used m m' t i v).

(** A path that does not pass through the slot is unaffected. *)
Lemma slot_same_along r :
  Forall idx_ok r -> (length r <= 3)%nat -> ~ (p ++ [i] `prefix_of` r) ->
  same_along m m' root r.
Proof using Hwf Hp Ht Hsw.
  intros HF Hl Hnp q j r' t' Hr Hq.
  destruct (split_path_ok q j r r' Hr HF Hl).
  apply (sw_other _ _ _ _ _ _ Hsw); [by eapply wf_used|done|].
  intros [= -> ->]. apply Hnp. exists r'.
  rewrite (wf_inj _ _ _ Hwf p q t) by done. by rewrite <- app_assoc.
Qed.

Lemma slot_tbl_other q :
  path_ok q -> ~ (p ++ [i] `prefix_of` q) -> tbl m' root q = tbl m root q.
Proof using Hwf Hp Ht Hsw.
  intros [HF Hl] Hnp. apply tbl_local, slot_same_along; [done|lia|done].
Qed.

Lemma slot_walk_other r :
  Forall idx_ok r -> (length r <= 3)%nat -> ~ (p ++ [i] `prefix_of` r) ->
  hw_walk m' root r = hw_walk m root r.
Proof using Hwf Hp Ht Hsw. intros. by apply hw_walk_local, slot_same_along. Qed.

Lemma not_prefix_self : ~ (p ++ [i] `prefix_of` p).
Proof using. intros [k Hk%(f_equal length)]. rewrite !length_app in Hk. simpl in Hk. lia. Qed.

Lemma slot_tbl_self : tbl m' root p = Some t.
Proof using Hwf Hp Ht Hsw.
  rewrite slot_tbl_other by (done || apply not_prefix_self). done.
Qed.

(** *** Writing an entry that is not a pointer *)

Section NonPointer.
Context (Hv : (length p <= 1)%nat -> pte_ptr v = false).

Lemma slot_tbl_sub q x : path_ok q -> tbl m' root q = Some x -> tbl m root q = Some x.
Proof using All.
  intros Hq Hx. destruct (decide (p ++ [i] `prefix_of` q)) as [[q' ->]|Hn];
    [|by rewrite <- slot_tbl_other].
  exfalso. destruct Hq as [_ Hl]. rewrite !length_app in Hl. simpl in Hl.
  rewrite tbl_app in Hx. rewrite (tbl_snoc _ _ _ _ t) in Hx by apply slot_tbl_self.
  rewrite (sw_slot _ _ _ _ _ _ Hsw), Hv in Hx by lia. done.
Qed.

Lemma slot_wf : wf_tables m' root used.
Proof using All.
  constructor.
  - apply (wf_root _ _ _ Hwf).
  - apply (wf_page _ _ _ Hwf).
  - intros q x Hq Hx%slot_tbl_sub; [|done]. by eapply wf_used.
  - intros q r x Hq Hr Hqx%slot_tbl_sub Hrx%slot_tbl_sub; [|done..].
    by eapply wf_inj.
  - intros q x j Hq Hl Hj Hx Hptr. apply slot_tbl_sub in Hx; [|done].
    destruct (decide ((x, j) = (t, i))) as [[= -> ->]|Hne].
    + rewrite (sw_slot _ _ _ _ _ _ Hsw) in Hptr.
      assert (p = q) as -> by (by eapply wf_inj). by rewrite Hv in Hptr.
    + assert (used x) by (by eapply wf_used).
      rewrite (sw_other _ _ _ _ _ _ Hsw) in Hptr |- * by done.
      by eapply wf_clean.
Qed.

(** A write at the last level concerns no upper entry. *)
Lemma slot_upper q j x :
  length p = 2%nat -> path_ok q -> (length q <= 1)%nat -> idx_ok j ->
  tbl m' root q = Some x ->
  tbl m root q = Some x /\ rd64 m' (x + 8 * j) = rd64 m (x + 8 * j).
Proof using All.
  intros Hlp Hq Hlq Hj Hx. apply slot_tbl_sub in Hx; [|done]. split; [done|].
  apply (sw_other _ _ _ _ _ _ Hsw); [by eapply wf_used|done|].
  intros [= -> ->]. assert (p = q) as -> by (by eapply wf_inj). lia.
Qed.

(** The walk through the slot ends at the entry written there. *)
Lemma slot_walk_self r' : hw_walk m' root (p ++ i :: r') = hw_walk m' t (i :: r').
Proof using All.
  apply (hw_walk_app m' root used); [apply slot_wf|done|apply slot_tbl_self].
Qed.
End NonPointer.

(** *** Linking a fresh zeroed table under an invalid entry *)

Section Link.
Context (c : Z) (Hc : is_page c) (Hfresh : ~ used c) (Hlen : (length p <= 1)%nat).
Context (Hzero : forall j, idx_ok j -> rd64 m' (c + 8 * j) = 0).
Context (Hinv : tst (rd64 m (t + 8 * i)) PTE_V = false) (Hbr : v = ptr_entry c).

Definition used' (x : Z) : Prop := x = c \/ used x.

Lemma link_tbl_new : tbl m' root (p ++ [i]) = Some c.
Proof using All.
  rewrite (tbl_snoc _ _ _ _ t) by apply slot_tbl_self.
  rewrite (sw_slot _ _ _ _ _ _ Hsw), Hbr.
  by destruct (ptr_entry_facts c Hc) as (_ & -> & -> & _).
Qed.

(** Every table of the new tree is the fresh one or an old one. *)
Lemma link_tbl_inv q x :
  path_ok q -> tbl m' root q = Some x ->
  (q = p ++ [i] /\ x = c) \/ (tbl m root q = Some x /\ ~ (p ++ [i] `prefix_of` q)).
Proof using All.
  intros Hq Hx. destruct (decide (p ++ [i] `prefix_of` q)) as [[q' ->]|Hn];
    [left|right; by rewrite <- slot_tbl_other].
  rewrite tbl_app, link_tbl_new in Hx. cbn [mbind option_bind] in Hx.
  destruct q' as [|j q']; [by injection Hx as ->; rewrite app_nil_r|].
  exfalso. cbn [tbl] in Hx.
  assert (idx_ok j) by (destruct Hq as [HF _]; apply Forall_app in HF as [_ HF]; by inversion HF).
  rewrite Hzero in Hx by done. done.
Qed.

Lemma link_wf : wf_tables m' root used'.
Proof using All.
  constructor.
  - right. apply (wf_root _ _ _ Hwf).
  - intros x [->|Hx]; [done|by eapply wf_page].
  - intros q x Hq [[-> ->]|[Hx _]]%link_tbl_inv; [by left| |done].
    right. by eapply wf_used.
  - intros q r x Hq Hr Hqx%link_tbl_inv Hrx%link_tbl_inv; [|done..].
    destruct Hqx as [[-> ->]|[Hqx _]], Hrx as [[-> Hxc]|[Hrx _]]; [done| | |by eapply wf_inj].
    + destruct Hfresh. by eapply wf_used.
    + destruct Hfresh. rewrite <- Hxc. by eapply (wf_used _ _ _ Hwf q).
  - intros q x j Hq Hl Hj [[-> ->]|[Hx Hn]]%link_tbl_inv Hptr; [| |done].
    + rewrite Hzero in Hptr by done. done.
    + destruct (decide ((x, j) = (t, i))) as [[= -> ->]|Hne].
      { exists c. split; [done|]. by rewrite (sw_slot _ _ _ _ _ _ Hsw). }
      assert (used x) by (by eapply wf_used).
      rewrite (sw_other _ _ _ _ _ _ Hsw) in Hptr |- * by done.
      by eapply wf_clean.
Qed.

(** An upper entry that was absent or a pointer still is. *)
Lemma link_no_leaf q j x :
  path_ok q -> idx_ok j -> tbl m' root q = Some x ->
  (tbl m root q = Some x -> tst (rd64 m (x + 8 * j)) PTE_V = true ->
     pte_ptr (rd64 m (x + 8 * j)) = true) ->
  tst (rd64 m' (x + 8 * j)) PTE_V = true ->
  pte_ptr (rd64 m' (x + 8 * j)) = true.
Proof using All.
  intros Hq Hj Hx Hold HV.
  destruct (link_tbl_inv q x Hq Hx) as [[-> ->]|[Hx' _]].
  { by rewrite Hzero in HV. }
  destruct (decide ((x, j) = (t, i))) as [[= -> ->]|Hne].
  { rewrite (sw_slot _ _ _ _ _ _ Hsw), Hbr. apply (ptr_entry_facts c Hc). }
  assert (used x) by (by eapply wf_used).
  rewrite (sw_other _ _ _ _ _ _ Hsw) in HV |- * by done. auto.
Qed.

(** No translation changes. *)
Lemma link_walk r :
  Forall idx_ok r -> (length r <= 3)%nat -> hw_walk m' root r = hw_walk m root r.
Proof using All.
  intros HF Hl. destruct (decide (p ++ [i] `prefix_of` r)) as [[r' ->]|Hn];
    [|by apply slot_walk_other].
  transitivity (@None (nat * Z * Z)).
  - rewrite (hw_walk_app m' root used' _ c); [|apply link_wf|auto|apply link_tbl_new].
    destruct r' as [|j r']; [done|]. cbn [hw_walk].
    assert (idx_ok j) by (apply Forall_app in HF as [_ HF]; by inversion HF).
    by rewrite Hzero by done.
  - rewrite <- app_assoc, (hw_walk_app m root used _ t) by done.
    cbn [hw_walk app]. by rewrite Hinv.
Qed.
End Link.
End SlotWrite.

#[export] Instance wf_tables_proper m root :
  Proper (pointwise_relation Z iff ==> iff) (wf_tables m root).
Proof.
  assert (forall u v, pointwise_relation Z iff u v -> wf_tables m root u -> wf_tables m root v) as H.
  { intros u v Huv [? ? ? ? ?]. constructor; eauto.
    - by apply Huv.
    - intros t ?%Huv. auto.
    - intros p t ? ?. apply Huv. eauto. }
  intros u v Huv. split; apply H; [done|by symmetry].
Qed.

(** A zeroed root is a tree. *)
Lemma zero_root_wf m root (used : Z -> Prop) :
  used root -> (forall t, used t -> is_page t) ->
  (forall j, idx_ok j -> rd64 m (root + 8 * j) = 0) -> wf_tables m root used.
Proof.
  intros Hu Hpg Hz.
  assert (forall p t, path_ok p -> tbl m root p = Some t -> p = [] /\ t = root) as Hnil.
  { intros [|i p] t [HF _] Ht; [by injection Ht as ->|].
    apply Forall_cons in HF as [Hi _]. cbn [tbl] in Ht. by rewrite Hz in Ht. }
  constructor; try done.
  - intros p t Hp Ht. by destruct (Hnil p t Hp Ht) as [_ ->].
  - intros p q t Hp Hq Ht Ht'. by destruct (Hnil p t Hp Ht) as [-> _], (Hnil q t Hq Ht') as [-> _].
  - intros p t i Hp _ Hi Ht HP. destruct (Hnil p t Hp Ht) as [_ ->]. by rewrite Hz in HP.
Qed.

(** ** The interface of a page-table allocator

    [st_alloc] hands out a zeroed page; [st_used] are the pages handed out so
    far; [st_room] is how many more the pool can give. *)

Class PtState (St : Type) := {
  st_mem : St -> mem;
  st_put : St -> Z -> Z -> St;
  st_alloc : St -> option (Z * St);
  st_used : St -> Z -> Prop;
  st_room : St -> Z
}.

Class PtStateLaws (St : Type) `{PtState St} := {
  st_mem_put s a v : st_mem (st_put s a v) = wr64 (st_mem s) a v;
  st_used_put s a v x : st_used (st_put s a v) x <-> st_used s x;
  st_room_put s a v : st_room (st_put s a v) = st_room s;
  st_alloc_ok s : 0 < st_room s ->
    exists c s', st_alloc s = Some (c, s') /\ is_page c /\ ~ st_used s c /\
      (forall x, st_used s' x <-> x = c \/ st_used s x) /\
      st_room s' = st_room s - 1 /\
      (forall j, idx_ok j -> rd64 (st_mem s') (c + 8 * j) = 0) /\
      (forall a, a mod 8 = 0 -> a < c \/ c + 4096 <= a ->
         rd64 (st_mem s') a = rd64 (st_mem s) a)
}.

(** ** The descent of both implementations *)

Section Descend.
Context {St : Type} `{PtStateLaws St}.
Implicit Types s : St.

(** [if (!( *pte & PTE_V)) *pte = branch(alloc()); tbl = pa( *pte);] *)
Definition ensure_child s (t i : Z) : option (Z * St) :=
  let e := rd64 (st_mem s) (t + 8 * i) in
  if tst e PTE_V then Some (pte_pa e, s)
  else match st_alloc s with
       | None => None
       | Some (c, s1) =>
           let s2 := st_put s1 (t + 8 * i) (ptr_entry c) in
           Some (pte_pa (rd64 (st_mem s2) (t + 8 * i)), s2)
       end.

Fixpoint descend s (t : Z) (p : list Z) : option (Z * St) :=
  match p with
  | [] => Some (t, s)
  | i :: p' =>
      match ensure_child s t i with
      | Some (t', s') => descend s' t' p'
      | None => None
      end
  end.

(** Create the tables along [p], then write the slot [i] of the last one. *)
Definition map_at s (root : Z) (p : list Z) (i v : Z) : option St :=
  match descend s root p with
  | Some (t, s') => Some (st_put s' (t + 8 * i) v)
  | None => None
  end.

Definition tables_ok s (root : Z) : Prop := wf_tables (st_mem s) root (st_used s).

(** No entry on the way along [p] is a (super)page leaf. *)
Definition no_leaf_on (m : mem) (t : Z) (p : list Z) : Prop :=
  forall q i r x, p = q ++ i :: r -> tbl m t q = Some x ->
    tst (rd64 m (x + 8 * i)) PTE_V = true -> pte_ptr (rd64 m (x + 8 * i)) = true.

(** The same, as a computation. *)
Fixpoint no_leafb (m : mem) (t : Z) (p : list Z) : bool :=
  match p with
  | [] => true
  | i :: p' =>
      let e := rd64 m (t + 8 * i) in
      if tst e PTE_V then pte_ptr e && no_leafb m (pte_pa e) p' else true
  end.

Lemma no_leafb_sound m t p : no_leafb m t p = true -> no_leaf_on m t p.
Proof.
  revert t. induction p as [|j p IH]; intros t Hb q i r x Hp Hx HV.
  { by destruct q. }
  cbn [no_leafb] in Hb. destruct q as [|j' q]; simplify_eq/=.
  - rewrite HV in Hb. by apply andb_true_iff in Hb as [? _].
  - destruct (pte_ptr (rd64 m (t + 8 * j'))) eqn:HP; [|done].
    assert (tst (rd64 m (t + 8 * j')) PTE_V = true) as HV'
      by (unfold pte_ptr in HP; by apply andb_true_iff in HP as [? _]).
    rewrite HV' in Hb. bsimpl. by eapply IH.
Qed.

(** How many tables are missing on the way along [p]. *)
Fixpoint missing (m : mem) (t : Z) (p : list Z) : Z :=
  match p with
  | [] => 0
  | i :: p' =>
      let e := rd64 m (t + 8 * i) in
      if tst e PTE_V then missing m (pte_pa e) p' else Z.of_nat (length p)
  end.

Lemma missing_zero m t p :
  Forall idx_ok p -> (forall j, idx_ok j -> rd64 m (t + 8 * j) = 0) ->
  missing m t p = Z.of_nat (length p).
Proof.
  intros HF Hz. destruct p as [|i p]; [done|]. apply Forall_cons in HF as [Hi _].
  cbn [missing]. by rewrite Hz.
Qed.

Lemma missing_bounds m t p : 0 <= missing m t p <= Z.of_nat (length p).
Proof.
  revert t. induction p as [|i p IH]; intros t; [done|].
  cbn [missing]. case_goal; [|lia]. specialize (IH (pte_pa (rd64 m (t + 8 * i)))).
  cbn [length]. lia.
Qed.

(** Tables that exist are not missing. *)
Lemma missing_tbl m t p q x :
  tbl m t p = Some x -> missing m t (p ++ q) = missing m x q.
Proof.
  revert t. induction p as [|i p IH]; intros t Hx; [by injection Hx as ->|].
  cbn [tbl app missing] in Hx |- *. destruct (pte_ptr _) eqn:HP; [|done].
  unfold pte_ptr in HP. apply andb_true_iff in HP as [-> _]. by apply IH.
Qed.

(** What a descent leaves alone: every translation and every word outside the
    tables; tables stay in use. *)
Record preserves s s' (root : Z) : Prop := {
  pr_walk r : Forall idx_ok r -> (length r <= 3)%nat ->
    hw_walk (st_mem s') root r = hw_walk (st_mem s) root r;
  pr_used x : st_used s x -> st_used s' x;
  pr_no_leaf p : path_ok p ->
    no_leaf_on (st_mem s) root p -> no_leaf_on (st_mem s') root p;
  pr_data a : a mod 8 = 0 -> (forall t, st_used s' t -> a < t \/ t + 4096 <= a) ->
    rd64 (st_mem s') a = rd64 (st_mem s) a
}.

Lemma preserves_refl s root : preserves s s root.
Proof. by split. Qed.

Lemma preserves_trans s1 s2 s3 root :
  preserves s1 s2 root -> preserves s2 s3 root -> preserves s1 s3 root.
Proof.
  intros [w1 u1 n1 d1] [w2 u2 n2 d2]. split; intros.
  - by rewrite w2, w1.
  - auto.
  - auto.
  - rewrite d2, d1; auto.
Qed.

Lemma page_in_own t i : is_page t -> idx_ok i -> t <= t + 8 * i < t + 4096.
Proof. unfold idx_ok. lia. Qed.

Lemma pages_apart t t' i :
  is_page t -> is_page t' -> t <> t' -> idx_ok i ->
  t + 8 * i < t' \/ t' + 4096 <= t + 8 * i.
Proof.
  unfold idx_ok. intros [Ht _] [Ht' _] Hne Hi.
  apply Z.mod_divide in Ht as [k ->]; [|lia]. apply Z.mod_divide in Ht' as [k' ->]; [|lia].
  lia.
Qed.

Lemma ensure_child_spec s root p t i :
  tables_ok s root -> path_ok p -> (length p <= 1)%nat -> idx_ok i ->
  tbl (st_mem s) root p = Some t -> no_leaf_on (st_mem s) t [i] ->
  missing (st_mem s) t [i] <= st_room s ->
  exists t' s', ensure_child s t i = Some (t', s') /\ tables_ok s' root /\
    tbl (st_mem s') root (p ++ [i]) = Some t' /\ preserves s s' root /\
    st_room s' = st_room s - missing (st_mem s) t [i] /\
    (if tst (rd64 (st_mem s) (t + 8 * i)) PTE_V
     then s' = s /\ t' = pte_pa (rd64 (st_mem s) (t + 8 * i))
     else forall j, idx_ok j -> rd64 (st_mem s') (t' + 8 * j) = 0).
Proof.
  intros Hwf Hp Hl Hi Ht Hnl. unfold ensure_child, missing. intros Hroom.
  destruct (tst _ PTE_V) eqn:HV; cbn [length] in Hroom |- *.
  - exists (pte_pa (rd64 (st_mem s) (t + 8 * i))), s. split_and!; auto using preserves_refl; [|lia].
    rewrite (tbl_snoc _ _ _ _ t) by done.
    by rewrite (Hnl [] i [] t eq_refl eq_refl HV).
  - destruct (st_alloc_ok s) as (c & s1 & -> & Hc & Hfresh & Hused & Hr & Hz & Hfr); [lia|].
    pose proof (ptr_entry_facts c Hc) as (Hrng & _ & Hpa & _).
    assert (st_used s t) as Hut by (by eapply wf_used).
    assert (slot_written (st_used s) (st_mem s) (st_mem (st_put s1 (t + 8 * i) (ptr_entry c)))
              t i (ptr_entry c)) as Hsw.
    { rewrite st_mem_put. split; [by apply rd64_wr64_eq|].
      intros t' j Ht' Hj Hne.
      pose proof (wf_page _ _ _ Hwf t Hut). pose proof (wf_page _ _ _ Hwf t' Ht').
      rewrite rd64_wr64_ne by (intros [-> ->]%slot_inj; done).
      apply Hfr; [by apply slot_aligned|]. apply pages_apart; [done..| |done].
      intros ->. done. }
    assert (forall j, idx_ok j ->
              rd64 (st_mem (st_put s1 (t + 8 * i) (ptr_entry c))) (c + 8 * j) = 0) as Hz'.
    { intros j Hj. rewrite st_mem_put, rd64_wr64_ne; [by apply Hz|].
      intros [-> _]%slot_inj; [done|by eapply wf_page|done..]. }
    rewrite (sw_slot _ _ _ _ _ _ Hsw), Hpa. eexists c, _. split; [done|].
    split_and!.
    + unfold tables_ok.
      eapply (wf_tables_proper _ _ (used' (st_used s) c)).
      { intros x. rewrite st_used_put, Hused. unfold used'. done. }
      by eapply (link_wf _ _ _ _ p t i); try eassumption.
    + by eapply (link_tbl_new _ _ _ (st_used s) p t i); try eassumption.
    + split.
      * intros r HF Hlen. by eapply (link_walk _ _ _ (st_used s) p t i); try eassumption.
      * intros x Hx. rewrite st_used_put, Hused. auto.
      * intros q [HFq Hlq] Hn q1 j r x -> Hx HVx. apply Forall_app in HFq as [? [? _]%Forall_cons].
        rewrite length_app in Hlq. cbn [length] in Hlq.
        eapply (link_no_leaf (st_mem s)) with (c := c) (q := q1) (i := i) (p := p) (t := t); try eassumption; try done.
        { split; [done|lia]. }
        intros Hx' HV'. by eapply (Hn q1 j r).
      * intros a Ha Hout. rewrite st_mem_put, rd64_wr64_ne.
        { apply Hfr; [done|]. apply Hout. rewrite st_used_put, Hused. auto. }
        intros E. pose proof (wf_page _ _ _ Hwf t Hut) as Hpg.
        assert (a = t + 8 * i) as ->.
        { pose proof (slot_aligned t i Hpg).
          rewrite (Z.div_mod a 8), (Z.div_mod (t + 8 * i) 8) by lia. lia. }
        destruct (Hout t); [rewrite st_used_put, Hused; auto|..];
          pose proof (page_in_own t i Hpg Hi); lia.
    + rewrite st_room_put. lia.
    + done.
Qed.

Lemma no_leaf_on_cons m t i p t' :
  no_leaf_on m t (i :: p) -> tbl m t [i] = Some t' -> no_leaf_on m t' p.
Proof.
  intros Hn Ht q j r x -> Hq. apply (Hn (i :: q) j r x); [done|].
  change (i :: q) with ([i] ++ q). by rewrite tbl_app, Ht.
Qed.

Lemma no_leafb_complete m t p : no_leaf_on m t p -> no_leafb m t p = true.
Proof.
  revert t. induction p as [|i p IH]; intros t Hn; [done|]. cbn [no_leafb].
  destruct (tst (rd64 m (t + 8 * i)) PTE_V) eqn:HV; [|done].
  pose proof (Hn [] i p t eq_refl eq_refl HV) as HP. rewrite HP. bsimpl.
  apply IH. eapply no_leaf_on_cons; [done|]. cbn [tbl]. by rewrite HP.
Qed.

Lemma no_leaf_on_head m t i p : no_leaf_on m t (i :: p) -> no_leaf_on m t [i].
Proof.
  intros Hn q j r x Hq Hx. destruct q as [|? []]; simplify_eq/=.
  by apply (Hn [] j p).
Qed.

(** A zeroed table has no entry at all. *)
Lemma no_leaf_on_zero m t p :
  Forall idx_ok p -> (forall j, idx_ok j -> rd64 m (t + 8 * j) = 0) -> no_leaf_on m t p.
Proof.
  intros HF Hz q i r x -> Hx HV. apply Forall_app in HF as [HFq [Hi _]%Forall_cons].
  destruct q as [|j q]; cbn [tbl] in Hx.
  - injection Hx as <-. rewrite Hz in HV by done. done.
  - apply Forall_cons in HFq as [? _]. rewrite Hz in Hx by done. done.
Qed.

Lemma descend_spec p' s root p t :
  tables_ok s root -> path_ok (p ++ p') ->
  tbl (st_mem s) root p = Some t -> no_leaf_on (st_mem s) t p' ->
  missing (st_mem s) t p' <= st_room s ->
  exists t' s', descend s t p' = Some (t', s') /\ tables_ok s' root /\
    tbl (st_mem s') root (p ++ p') = Some t' /\ preserves s s' root /\
    st_room s' = st_room s - missing (st_mem s) t p'.
Proof.
  revert s p t. induction p' as [|i p' IH]; intros s p t Hwf Hok Ht Hnl Hroom.
  { exists t, s. rewrite app_nil_r. simpl. split_and!; auto using preserves_refl; lia. }
  assert (path_ok p) as Hp by (by eapply path_ok_app).
  destruct Hok as [HF Hl]. pose proof HF as HF'.
  apply Forall_app in HF' as [_ [Hi HFp]%Forall_cons].
  rewrite length_app in Hl. cbn [length] in Hl. cbn [descend].
  pose proof (missing_bounds (st_mem s) t (i :: p')) as Hb.
  destruct (ensure_child_spec s root p t i) as (t1 & s1 & -> & Hwf1 & Ht1 & Hpr1 & Hr1 & Hor);
    [done..|lia|done|done|by eapply no_leaf_on_head| |].
  { cbn [missing length] in Hroom |- *. case_goal; [|lia].
    pose proof (missing_bounds (st_mem s) (pte_pa (rd64 (st_mem s) (t + 8 * i))) p'). lia. }
  assert (no_leaf_on (st_mem s1) t1 p' /\
    missing (st_mem s) t (i :: p') = missing (st_mem s) t [i] + missing (st_mem s1) t1 p')
    as [Hnl1 Hmiss].
  { cbn [missing length]. destruct (tst _ PTE_V).
    - destruct Hor as [-> ->]. split; [|lia].
      eapply no_leaf_on_cons; [done|]. by rewrite tbl_app, Ht in Ht1.
    - split; [by apply no_leaf_on_zero|]. rewrite missing_zero by done. lia. }
  destruct (IH s1 (p ++ [i]) t1) as (t2 & s2 & He & Hwf2 & Ht2 & Hpr2 & Hr2).
  - done.
  - rewrite <- app_assoc. split; [done|]. rewrite length_app. simpl. lia.
  - done.
  - done.
  - lia.
  - rewrite <- app_assoc in Ht2. exists t2, s2.
    split_and!; try done; [by eapply preserves_trans|]. lia.
Qed.

(** The specification of [map_at]: the walk along [p ++ [i]] ends at the
    entry written, every other walk is as before. *)
Theorem map_at_spec s root p i v :
  tables_ok s root -> path_ok p -> idx_ok i -> 0 <= v < 2 ^ 64 ->
  ((length p <= 1)%nat -> pte_ptr v = false) ->
  no_leaf_on (st_mem s) root p -> missing (st_mem s) root p <= st_room s ->
  exists t s', map_at s root p i v = Some s' /\ tables_ok s' root /\
    tbl (st_mem s') root p = Some t /\
    rd64 (st_mem s') (t + 8 * i) = v /\
    (forall r, hw_walk (st_mem s') root (p ++ i :: r) = hw_walk (st_mem s') t (i :: r)) /\
    (forall r, Forall idx_ok r -> (length r <= 3)%nat -> ~ (p ++ [i] `prefix_of` r) ->
      hw_walk (st_mem s') root r = hw_walk (st_mem s) root r) /\
    (forall x, st_used s x -> st_used s' x) /\
    (forall a, a mod 8 = 0 -> (forall x, st_used s' x -> a < x \/ x + 4096 <= a) ->
      rd64 (st_mem s') a = rd64 (st_mem s) a) /\
    st_room s' = st_room s - missing (st_mem s) root p /\
    (length p = 2%nat -> forall q, path_ok q ->
      no_leaf_on (st_mem s) root q -> no_leaf_on (st_mem s') root q).
Proof.
  intros Hwf Hp Hi Hv Hnp Hnl Hroom. unfold map_at.
  destruct (descend_spec p s root [] root) as (t & s1 & -> & Hwf1 & Ht1 & Hpr & Hr); [done..|].
  cbn [app] in Ht1.
  assert (st_used s1 t) as Hut by (by eapply (wf_used _ _ _ Hwf1 p)).
  pose proof (wf_page _ _ _ Hwf1 t Hut) as Hpg.
  assert (slot_written (st_used s1) (st_mem s1) (st_mem (st_put s1 (t + 8 * i) v)) t i v) as Hsw.
  { rewrite st_mem_put. by eapply wr64_slot_written. }
  exists t, (st_put s1 (t + 8 * i) v). split; [done|]. split_and!.
  - unfold tables_ok. eapply (wf_tables_proper _ _ (st_used s1)).
    { intros x. by rewrite st_used_put. }
    by eapply (slot_wf _ _ _ _ p t i v).
  - by eapply (slot_tbl_self _ _ _ _ p t i v).
  - apply (sw_slot _ _ _ _ _ _ Hsw).
  - intros r. by eapply (slot_walk_self _ _ _ (st_used s1) p t i v).
  - intros r HF Hl Hn. rewrite (slot_walk_other (st_mem s1) _ _ (st_used s1) p t i v) by done.
    by apply (pr_walk _ _ _ Hpr).
  - intros x Hx. rewrite st_used_put. by apply (pr_used _ _ _ Hpr).
  - intros a Ha Hout. rewrite st_mem_put, rd64_wr64_ne.
    { apply (pr_data _ _ _ Hpr); [done|]. intros x Hx. apply Hout. by rewrite st_used_put. }
    intros E. assert (a = t + 8 * i) as ->.
    { pose proof (slot_aligned t i Hpg).
      rewrite (Z.div_mod a 8), (Z.div_mod (t + 8 * i) 8) by lia. lia. }
    destruct (Hout t); [by rewrite st_used_put|..];
      pose proof (page_in_own t i Hpg Hi); lia.
  - rewrite st_room_put. lia.
  - intros Hlp q Hq Hn. apply (pr_no_leaf _ _ _ Hpr q Hq) in Hn.
    destruct Hq as [HF Hl]. intros q1 j r x -> Hx HV.
    apply Forall_app in HF as [? [? _]%Forall_cons].
    rewrite length_app in Hl. cbn [length] in Hl.
    destruct (slot_upper (st_mem s1) (st_mem (st_put s1 (t + 8 * i) v)) root (st_used s1)
      p t i v Hwf1 Hp Hi Ht1 Hsw Hnp q1 j x) as [Hx' E]; [done|split; [done|lia]|lia|done..|].
    rewrite E in HV |- *. by eapply (Hn q1 j r).
Qed.
End Descend.
