(* ===== verification/PageMap.v ===== *)
(** * Mapping a page at a level

    What [map_at] means for addresses instead of paths: writing an entry at
    level [l] changes the walk of exactly the addresses of one [2^(12+9l)]-byte
    span.  Both page-table implementations are instances. *)

From S2P Require Import Prelude Platform Memory Sv39 PtTree.

(** The path to the table that holds the level-[l] entry of an address, and the
    size of the region such an entry maps. *)
Definition upper_path (l : nat) (va : Z) : list Z := take (2 - l) (vpath va).
Definition span (l : nat) : Z := 2 ^ (12 + 9 * Z.of_nat l).

(** What the hart makes of an entry it finds at level [l], address [a]. *)
Definition entry_walk (l : nat) (a e : Z) : option (nat * Z * Z) :=
  if tst e PTE_V && negb (negb (tst e PTE_R) && tst e PTE_W) && negb (pte_reserved e)
     && (tst e PTE_R || tst e PTE_X)
  then Some (l, a, e) else None.

Lemma upper_path_ok l va : path_ok (upper_path l va).
Proof.
  split; [apply Forall_take, vpath_ok|]. unfold upper_path. rewrite length_take. simpl. lia.
Qed.

#[export] Hint Resolve upper_path_ok : core.

Lemma level_path_split l va :
  (l <= 2)%nat -> take (3 - l) (vpath va) = upper_path l va ++ [vpn va l].
Proof. intros Hl. destruct l as [|[|[|]]]; [done..|lia]. Qed.

Lemma vpath_split l va :
  (l <= 2)%nat -> exists r, vpath va = upper_path l va ++ vpn va l :: r /\ length r = l.
Proof.
  intros Hl. destruct l as [|[|[|]]]; [exists []|exists [vpn va 0]
    |exists [vpn va 1; vpn va 0]|lia]; done.
Qed.

(** Addresses of one span share the path to its entry. *)
Lemma level_path_span l va va' :
  (l <= 2)%nat -> va / span l = va' / span l ->
  take (3 - l) (vpath va) = take (3 - l) (vpath va').
Proof.
  intros Hl E. unfold span in E.
  assert (forall k, (l <= k)%nat -> vpn va k = vpn va' k) as Hk.
  { intros k Hk. rewrite !vpn_arith. f_equal.
    replace (12 + 9 * Z.of_nat k) with ((12 + 9 * Z.of_nat l) + 9 * Z.of_nat (k - l)) by lia.
    rewrite Z.pow_add_r, <- !Z.div_div by lia. by rewrite E. }
  unfold vpath. destruct l as [|[|[|]]]; [| | |lia]; cbn [take Nat.sub];
    by rewrite ?(Hk 2%nat), ?(Hk 1%nat), ?(Hk 0%nat) by lia.
Qed.

(** ... and, being canonical, only they do. *)
Lemma level_path_inj l va va' :
  (l <= 2)%nat -> canonical va = true -> canonical va' = true ->
  take (3 - l) (vpath va) = take (3 - l) (vpath va') -> va / span l = va' / span l.
Proof.
  intros Hl Hc Hc' E. unfold span. unfold canonical in Hc, Hc'.
  rewrite !shr_div in Hc, Hc' by lia. change (Z.ones 26) with (2 ^ 26 - 1) in *.
  assert (forall x n, 0 <= n -> x / 2 ^ (12 + n) = x / 2 ^ 12 / 2 ^ n) as Hsplit.
  { intros x n Hn. by rewrite Z.pow_add_r, Z.div_div by lia. }
  change (2 ^ 38) with (2 ^ (12 + 26)) in *. rewrite (Hsplit va 26), (Hsplit va' 26) in * by lia.
  rewrite !Hsplit by lia. apply orb_true_iff in Hc, Hc'. rewrite !Z.eqb_eq in Hc, Hc'.
  unfold vpath in E. rewrite !vpn_arith, !Hsplit in E by lia.
  generalize dependent (va / 2 ^ 12). intros q. generalize dependent (va' / 2 ^ 12). intros q' **.
  change (2 ^ (9 * Z.of_nat 2)) with 262144 in *. change (2 ^ (9 * Z.of_nat 1)) with 512 in *.
  change (2 ^ (9 * Z.of_nat 0)) with 1 in *. change (2 ^ 26) with 67108864 in *.
  destruct l as [|[|[|]]]; [| | |lia]; cbn [take Nat.sub] in E; simplify_eq;
    change (2 ^ (9 * Z.of_nat 2)) with 262144; change (2 ^ (9 * Z.of_nat 1)) with 512;
    change (2 ^ (9 * Z.of_nat 0)) with 1; Z.div_mod_to_equations; lia.
Qed.

Lemma upper_prefix_iff l va va' :
  (l <= 2)%nat -> canonical va = true -> canonical va' = true ->
  upper_path l va ++ [vpn va l] `prefix_of` vpath va' <-> va' / span l = va / span l.
Proof.
  intros Hl Hc Hc'. rewrite <- level_path_split by done. split.
  - intros Hp. symmetry. apply level_path_inj; [done..|].
    destruct Hp as [k Hk]. rewrite Hk at 1.
    rewrite take_app_le by (rewrite length_take; simpl; lia).
    rewrite take_take. f_equal. lia.
  - intros E. rewrite (level_path_span l va va') by done. apply prefix_take.
Qed.

(** ** The hart's view of a written entry *)

Lemma hw_walk_entry_at l m t i r e :
  rd64 m (t + 8 * i) = e -> length r = l -> ((1 <= l)%nat -> pte_ptr e = false) ->
  hw_walk m t (i :: r) = entry_walk l (t + 8 * i) e.
Proof.
  intros He Hl Hp. cbn [hw_walk]. rewrite He, Hl. unfold entry_walk.
  destruct (tst e PTE_V) eqn:HV, (tst e PTE_R) eqn:HR, (tst e PTE_W) eqn:HW,
    (pte_reserved e), (tst e PTE_X) eqn:HX; bsimpl; try done.
  destruct r as [|j r]; [by case_goal|].
  enough (pte_ptr e = true) by (rewrite Hp in *; [done|simpl in Hl; lia]).
  unfold pte_ptr, PTE_RWX. by rewrite !tst_lor, HV, HR, HW, HX.
Qed.

(** ** Leaf entries

    Both programs build a leaf from a physical address and permission bits, with
    V, A and D set. *)

Definition leaf_pte (pa perm : Z) : Z :=
  ((pa .>> PGSHIFT) .<< PTE_PPN_SHIFT) .| perm .| PTE_V .| PTE_A .| PTE_D.

(** Permission bits that make a legal leaf: R or X, and W only with R. *)
Definition perm_leaf (perm : Z) : bool :=
  (tst perm PTE_R || tst perm PTE_X) && (tst perm PTE_R || negb (tst perm PTE_W)).

Lemma leaf_pte_mk pa perm : leaf_pte pa perm = pte_mk pa (perm .| 0xC1).
Proof. unfold leaf_pte, pte_mk. rewrite <- !Z.lor_assoc. done. Qed.

Lemma leaf_flags_range perm : 0 <= perm < 1024 -> 0 <= perm .| 0xC1 < 1024.
Proof. intros. change 1024 with (2 ^ 10) in *. apply lor_range; lia. Qed.

Section LeafPte.
Context (pa perm : Z) (Hpa : is_page pa) (Hperm : 0 <= perm < 1024).

Lemma leaf_pte_range : 0 <= leaf_pte pa perm < 2 ^ 54.
Proof using All.
  rewrite leaf_pte_mk. apply pte_mk_range; [apply Hpa|by apply leaf_flags_range].
Qed.

(** The flags of the entry are the caller's permissions, and V, A, D. *)
Lemma leaf_pte_tst m : 0 <= m < 1024 -> tst (leaf_pte pa perm) m = tst perm m || tst 0xC1 m.
Proof using All.
  intros Hm. rewrite leaf_pte_mk, pte_mk_tst, tst_lor_l
    by (apply Hpa || lia || by apply leaf_flags_range). done.
Qed.

Lemma leaf_pte_flags :
  tst (leaf_pte pa perm) PTE_V = true /\ tst (leaf_pte pa perm) PTE_A = true /\
  tst (leaf_pte pa perm) PTE_D = true /\
  tst (leaf_pte pa perm) PTE_R = tst perm PTE_R /\
  tst (leaf_pte pa perm) PTE_W = tst perm PTE_W /\
  tst (leaf_pte pa perm) PTE_X = tst perm PTE_X /\
  tst (leaf_pte pa perm) PTE_U = tst perm PTE_U.
Proof using All.
  rewrite !leaf_pte_tst by (vm_compute; split; congruence).
  change (tst 0xC1 PTE_V) with true. change (tst 0xC1 PTE_A) with true.
  change (tst 0xC1 PTE_D) with true. change (tst 0xC1 PTE_R) with false.
  change (tst 0xC1 PTE_W) with false. change (tst 0xC1 PTE_X) with false.
  change (tst 0xC1 PTE_U) with false. by rewrite !orb_true_r, !orb_false_r.
Qed.

Lemma leaf_pte_reserved : pte_reserved (leaf_pte pa perm) = false.
Proof using All.
  rewrite leaf_pte_mk. apply pte_mk_reserved; [apply Hpa|by apply leaf_flags_range].
Qed.

Lemma leaf_pte_pa : pte_pa (leaf_pte pa perm) = pa.
Proof using All. rewrite leaf_pte_mk. by apply pte_mk_page, leaf_flags_range. Qed.

Lemma leaf_pte_not_ptr : perm_leaf perm = true -> pte_ptr (leaf_pte pa perm) = false.
Proof using All.
  intros Hl. destruct leaf_pte_flags as (HV & _ & _ & HR & HW & HX & _).
  unfold pte_ptr, PTE_RWX. rewrite !tst_lor, HV, HR, HW, HX. unfold perm_leaf in Hl.
  by destruct (tst perm PTE_R), (tst perm PTE_W), (tst perm PTE_X).
Qed.

Lemma entry_walk_leaf l a :
  entry_walk l a (leaf_pte pa perm) =
    if perm_leaf perm then Some (l, a, leaf_pte pa perm) else None.
Proof using All.
  destruct leaf_pte_flags as (HV & _ & _ & HR & HW & HX & _).
  unfold entry_walk, perm_leaf. rewrite HV, HR, HW, HX, leaf_pte_reserved. bsimpl.
  by destruct (tst perm PTE_R), (tst perm PTE_W), (tst perm PTE_X).
Qed.

Lemma leaf_touch_leaf c acc : leaf_touch c acc (leaf_pte pa perm) = leaf_pte pa perm.
Proof using.
  clear Hpa Hperm. unfold leaf_touch. destruct (hw_svadu c); [|done].
  unfold leaf_pte. case_bool_decide; bitwise.
Qed.

Lemma leaf_pte_aligned l : pa mod span l = 0 -> leaf_aligned l (leaf_pte pa perm) = true.
Proof using All.
  intros Hal. unfold leaf_aligned. rewrite leaf_pte_mk, pte_mk_ppn
    by (apply Hpa || by apply leaf_flags_range).
  rewrite Z.land_ones by lia. apply Z.eqb_eq. unfold span in Hal.
  apply Z.mod_divide in Hal as [k ->]; [|lia].
  rewrite Z.pow_add_r by lia. change (2 ^ 12) with 4096.
  replace (k * (4096 * 2 ^ (9 * Z.of_nat l))) with ((k * 2 ^ (9 * Z.of_nat l)) * 4096) by lia.
  rewrite Z.div_mul by lia. apply Z_mod_mult.
Qed.

Lemma leaf_ok_leaf c acc l :
  pa mod span l = 0 ->
  leaf_ok c acc l (leaf_pte pa perm) = leaf_perm c acc perm && leaf_user c acc perm.
Proof using All.
  intros Hal. destruct leaf_pte_flags as (_ & HA & HD & HR & HW & HX & HU).
  unfold leaf_ok, leaf_perm, leaf_user, leaf_ad. rewrite leaf_pte_aligned by done.
  rewrite HR, HW, HX, HU, HA, HD, !orb_true_r. by destruct acc; bsimpl; rewrite ?andb_true_r.
Qed.

(** The translation of an address whose leaf the hart finds. *)
Lemma translate_leaf c m root acc va l a :
  canonical va = true -> hw_walk m root (vpath va) = Some (l, a, leaf_pte pa perm) ->
  pa mod span l = 0 ->
  translate c m root acc va =
    if leaf_perm c acc perm && leaf_user c acc perm then Some (pa + va mod span l, m) else None.
Proof using All.
  intros Hc Hw Hal. unfold translate. rewrite Hc, Hw, leaf_ok_leaf by done.
  case_goal; [|done]. rewrite leaf_touch_leaf, Z.eqb_refl. unfold leaf_pa.
  by rewrite leaf_pte_pa.
Qed.
End LeafPte.

Section MapLevel.
Context {St : Type} `{PtStateLaws St}.
Implicit Types s : St.

(** A level-[l] mapping of [va] may be created: no superpage is in the way and
    the pool has the tables that are missing. *)
Definition map_room (l : nat) s (root va : Z) : bool :=
  no_leafb (st_mem s) root (upper_path l va) &&
  (missing (st_mem s) root (upper_path l va) <=? st_room s).

(** What writing the entry [e] for [va] at level [l] does. *)
Record mapped (l : nat) s s' (root va e : Z) : Prop := {
  md_ok : tables_ok s' root;
  md_slot : exists t, tbl (st_mem s') root (upper_path l va) = Some t /\
    rd64 (st_mem s') (t + 8 * vpn va l) = e /\
    forall va', canonical va' = true -> canonical va = true ->
      hw_walk (st_mem s') root (vpath va') =
        if decide (va' / span l = va / span l) then entry_walk l (t + 8 * vpn va l) e
        else hw_walk (st_mem s) root (vpath va');
  md_used x : st_used s x -> st_used s' x;
  md_data a : a mod 8 = 0 -> (forall x, st_used s' x -> a < x \/ x + 4096 <= a) ->
    rd64 (st_mem s') a = rd64 (st_mem s) a;
  md_room : st_room s' = st_room s - missing (st_mem s) root (upper_path l va);
  md_no_leaf q : l = 0%nat -> path_ok q ->
    no_leaf_on (st_mem s) root q -> no_leaf_on (st_mem s') root q
}.

Theorem map_level_spec l s root va e :
  (l <= 2)%nat -> tables_ok s root -> 0 <= e < 2 ^ 64 ->
  ((1 <= l)%nat -> pte_ptr e = false) -> map_room l s root va = true ->
  exists s', map_at s root (upper_path l va) (vpn va l) e = Some s' /\
    mapped l s s' root va e.
Proof.
  intros Hl Hok He Hnp Hroom. unfold map_room in Hroom. zbool.
  assert (length (upper_path l va) = (2 - l)%nat) as Hlen
    by (unfold upper_path; rewrite length_take; simpl; lia).
  destruct (map_at_spec s root (upper_path l va) (vpn va l) e)
    as (t & s' & Hm & Hok' & Ht & Hslot & Hself & Hother & Hused & Hdata & Hr & Hnl);
    [done..|intros; apply Hnp; lia|by apply no_leafb_sound|done|].
  exists s'. split; [done|]. split; try done; [|intros q ->; by apply Hnl]. exists t. split_and!; [done..|].
  intros va' Hc' Hc. destruct (decide _) as [E|Hne].
  - apply (proj2 (upper_prefix_iff l va va' Hl Hc Hc')) in E as [r Hr'].
    rewrite Hr', <- app_assoc. cbn [app]. rewrite Hself.
    apply hw_walk_entry_at; [done| |done].
    apply (f_equal length) in Hr'. rewrite !length_app, Hlen in Hr'. simpl in Hr'. lia.
  - apply Hother; [apply vpath_ok|simpl; lia|]. by rewrite upper_prefix_iff.
Qed.

(** The walk of an address, seen from a table on its way. *)
Lemma walk_from l s root va t :
  (l <= 2)%nat -> tables_ok s root -> tbl (st_mem s) root (upper_path l va) = Some t ->
  exists r, length r = l /\
    hw_walk (st_mem s) root (vpath va) = hw_walk (st_mem s) t (vpn va l :: r).
Proof using.
  intros Hl Hok Ht. destruct (vpath_split l va Hl) as (r & Hr & Hlr).
  exists r. split; [done|]. rewrite Hr. by eapply hw_walk_app.
Qed.

Lemma upper_path_step (m : mem) root l va t :
  (l <= 1)%nat -> tbl m root (upper_path (S l) va) = Some t ->
  pte_ptr (rd64 m (t + 8 * vpn va (S l))) = true ->
  tbl m root (upper_path l va) = Some (pte_pa (rd64 m (t + 8 * vpn va (S l)))).
Proof using.
  intros Hl Ht HP.
  assert (upper_path l va = upper_path (S l) va ++ [vpn va (S l)]) as ->
    by (destruct l as [|[|]]; [done..|lia]).
  by rewrite (tbl_snoc _ _ _ _ t), HP.
Qed.

(** An entry that is no pointer decides the walk of its whole span. *)
Lemma span_walk l s root va t va' :
  (l <= 2)%nat -> tables_ok s root -> tbl (st_mem s) root (upper_path l va) = Some t ->
  ((1 <= l)%nat -> pte_ptr (rd64 (st_mem s) (t + 8 * vpn va l)) = false) ->
  va' / span l = va / span l ->
  hw_walk (st_mem s) root (vpath va') =
    entry_walk l (t + 8 * vpn va l) (rd64 (st_mem s) (t + 8 * vpn va l)).
Proof using.
  intros Hl Hok Ht HP E. pose proof (level_path_span l va' va Hl E) as Hp.
  rewrite !level_path_split in Hp by done. apply app_inj_tail in Hp as [Hp Hi].
  rewrite <- Hp in Ht. destruct (walk_from l s root va' t Hl Hok Ht) as (r & Hr & ->).
  rewrite Hi. by apply hw_walk_entry_at.
Qed.

(** Writing an entry of a table that exists. *)
Lemma write_level l s root va t e :
  (l <= 2)%nat -> tables_ok s root -> tbl (st_mem s) root (upper_path l va) = Some t ->
  0 <= e < 2 ^ 64 -> ((1 <= l)%nat -> pte_ptr e = false) -> canonical va = true ->
  let s' := st_put s (t + 8 * vpn va l) e in
  tables_ok s' root /\
  forall va', canonical va' = true ->
    hw_walk (st_mem s') root (vpath va') =
      if decide (va' / span l = va / span l) then entry_walk l (t + 8 * vpn va l) e
      else hw_walk (st_mem s) root (vpath va').
Proof.
  intros Hl Hok Ht He Hnp Hc; cbv zeta.
  assert (length (upper_path l va) = (2 - l)%nat) as Hlen
    by (unfold upper_path; rewrite length_take; simpl; lia).
  assert (st_used s t) as Hut by (by eapply (wf_used _ _ _ Hok)).
  assert (slot_written (st_used s) (st_mem s) (st_mem (st_put s (t + 8 * vpn va l) e))
            t (vpn va l) e) as Hsw by (rewrite st_mem_put; by eapply wr64_slot_written).
  assert ((length (upper_path l va) <= 1)%nat -> pte_ptr e = false) as Hnp'
    by (intros; apply Hnp; lia).
  split.
  { unfold tables_ok. eapply (wf_tables_proper _ _ (st_used s)).
    { intros x. by rewrite st_used_put. }
    by eapply (slot_wf _ _ _ _ (upper_path l va) t (vpn va l) e). }
  intros va' Hc'. destruct (decide _) as [E|Hne].
  - apply (proj2 (upper_prefix_iff l va va' Hl Hc Hc')) in E as [r Hr'].
    rewrite Hr', <- app_assoc. cbn [app].
    rewrite (slot_walk_self (st_mem s) _ root (st_used s) (upper_path l va) t (vpn va l) e)
      by done.
    apply hw_walk_entry_at; [apply (sw_slot _ _ _ _ _ _ Hsw)| |done].
    apply (f_equal length) in Hr'. rewrite !length_app, Hlen in Hr'. simpl in Hr'. lia.
  - apply (slot_walk_other (st_mem s) _ root (st_used s) (upper_path l va) t (vpn va l) e);
      try done. by rewrite upper_prefix_iff.
Qed.

(** Once the last-level table of one page exists, a later page lacks at most the
    tables of the 2 MB and 1 GB regions entered in between. *)
Lemma missing_next (m : mem) root a b t :
  tbl m root (upper_path 0 a) = Some t -> a <= b ->
  missing m root (upper_path 0 b) <= (b / span 1 - a / span 1) + (b / span 2 - a / span 2).
Proof using.
  intros Ht Hab.
  assert (forall l, a / span l <= b / span l) as Hmono
    by (intros l; apply Z.div_le_mono; [unfold span; lia|done]).
  pose proof (missing_bounds m root (upper_path 0 b)) as Hb.
  change (Z.of_nat (length (upper_path 0 b))) with 2 in Hb.
  pose proof (Hmono 1%nat). pose proof (Hmono 2%nat).
  change (upper_path 0) with (fun va => [vpn va 2; vpn va 1]) in *. cbv beta in *.
  destruct (decide (a / span 2 = b / span 2)) as [E2|].
  - assert (vpn a 2 = vpn b 2) as V2.
    { pose proof (level_path_span 2 a b ltac:(lia) E2) as E. by injection E. }
    destruct (decide (a / span 1 = b / span 1)) as [E1|].
    + pose proof (level_path_span 1 a b ltac:(lia) E1) as E. injection E as _ V1.
      rewrite V2, V1 in Ht. pose proof (missing_tbl m root _ [] t Ht) as Hm.
      rewrite app_nil_r in Hm. rewrite Hm. cbn [missing]. lia.
    + change [vpn a 2; vpn a 1] with ([vpn a 2] ++ [vpn a 1]) in Ht.
      rewrite tbl_app in Ht. destruct (tbl m root [vpn a 2]) as [t1|] eqn:Ht1; [|done].
      rewrite V2 in Ht1. change [vpn b 2; vpn b 1] with ([vpn b 2] ++ [vpn b 1]) in *.
      rewrite (missing_tbl _ _ _ [vpn b 1] t1 Ht1) in *.
      pose proof (missing_bounds m t1 [vpn b 1]). cbn [length] in *. lia.
  - assert (a / span 1 <> b / span 1).
    { intros E1. assert (a / span 1 / 2 ^ 9 = b / span 1 / 2 ^ 9) as E by (by rewrite E1).
      unfold span in *. rewrite !Z.div_div in E by lia. done. }
    lia.
Qed.

(** *** Repairing an entry

    A fault handler sets flag bits in the entry the walk stops at. *)

Definition access_bit (acc : access) : Z :=
  match acc with Fetch => PTE_X | Load => PTE_R | Store => PTE_W end.

Lemma fix_flags e mask m :
  0 <= mask < 1024 -> tst (e .| mask) m = tst e m || tst mask m.
Proof using. intros _. apply tst_lor_l. Qed.

Lemma fix_shr e mask n : 0 <= mask < 1024 -> 10 <= n -> (e .| mask) .>> n = e .>> n.
Proof using.
  intros Hm Hn. rewrite Z.shiftr_lor, (shr_div mask), (Z.div_small mask), Z.lor_0_r
    by (lia || (pose proof (Z.pow_le_mono_r 2 10 n); lia)). done.
Qed.

(** A repair that sets V, R, A, the bit the access needs and, for a store, D
    makes the faulting access succeed at the physical address in the entry,
    unless it is a user page or a misaligned superpage. *)
Lemma repair_translates l s root va t e mask c acc :
  (l <= 2)%nat -> tables_ok s root -> tbl (st_mem s) root (upper_path l va) = Some t ->
  rd64 (st_mem s) (t + 8 * vpn va l) = e -> e .>> 54 = 0 ->
  leaf_user c acc e = true -> leaf_aligned l e = true -> canonical va = true ->
  0 <= mask < 1024 -> tst mask PTE_U = false ->
  tst mask PTE_V = true -> tst mask PTE_R = true -> tst mask PTE_A = true ->
  tst mask (access_bit acc) = true -> (acc = Store -> tst mask PTE_D = true) ->
  let s' := st_put s (t + 8 * vpn va l) (e .| mask) in
  tables_ok s' root /\
  translate c (st_mem s') root acc va =
    Some (pte_pa e + va mod span l,
          if leaf_touch c acc (e .| mask) =? e .| mask then st_mem s'
          else wr64 (st_mem s') (t + 8 * vpn va l) (leaf_touch c acc (e .| mask))).
Proof.
  intros Hl Hok Ht He Hres Hu Hal Hc Hm HmU HmV HmR HmA Hacc HmD; cbv zeta.
  assert (0 <= e < 2 ^ 54) as Hrng.
  { pose proof (rd64_range (st_mem s) (t + 8 * vpn va l)). rewrite He in *.
    rewrite shr_div in Hres by lia. apply Z.div_small_iff in Hres; lia. }
  assert (0 <= e .| mask < 2 ^ 54) by (apply lor_range; lia).
  assert (pte_ptr (e .| mask) = false) as Hnp.
  { unfold pte_ptr, PTE_RWX. by rewrite !tst_lor, !fix_flags, HmR, !orb_true_r, andb_false_r by done. }
  destruct (write_level l s root va t (e .| mask)) as [Hok' Hw];
    [done..|lia|done|done|]. split; [done|].
  unfold translate. rewrite Hc, Hw, decide_True by done.
  assert (entry_walk l (t + 8 * vpn va l) (e .| mask) = Some (l, t + 8 * vpn va l, e .| mask)) as ->.
  { unfold entry_walk, pte_reserved. rewrite fix_shr, Hres by lia.
    by rewrite !fix_flags, HmV, HmR, !orb_true_r by done. }
  assert (leaf_ok c acc l (e .| mask) = true) as ->.
  { unfold leaf_ok, leaf_user, leaf_aligned, leaf_ad in *. rewrite fix_shr, Hal by lia.
    rewrite !fix_flags, HmU, HmA, !orb_true_r, orb_false_r, Hu by done.
    destruct acc; cbn [leaf_perm access_bit] in *; rewrite ?fix_flags, Hacc, orb_true_r by done;
      bsimpl; rewrite ?HmD, ?orb_true_r by done; done. }
  unfold leaf_pa, pte_pa, PTE_PPN_SHIFT. by rewrite fix_shr by lia.
Qed.
End MapLevel.
