(* ===== verification/PageTable.v ===== *)
(** * The suite's page tables ([common/smode.c], "Page table utilities")

    The bump allocator over the linker-provided pool, the constructors of
    entries, [pt_setup_identity_kernel], [pt_map_page] and [pt_walk], and the
    theorems that relate them to the hardware's translation ([Sv39]).  The C
    code dereferences page-table pointers through the identity mapping of SRAM
    (or with paging off), so a pointer access is an access to physical memory;
    [pt_setup_identity_kernel_translates] is what justifies that. *)

From S2P Require Import Prelude Platform Memory Sv39 PtTree PageMap.

(** The state: physical memory, and [static int pt_pool_next_page]. *)
Record ptstate := { pt_mem : mem; pt_pool_next_page : Z }.

Section PageTable.
(** [_page_table_start]: the linker places the pool at a 4 KB boundary. *)
Context (_page_table_start : Z).

(** [extern char _page_table_end[]]: the linker script reserves 32 KB. *)
Definition _page_table_end : Z := _page_table_start + 32768.

Definition pt_alloc_page (st : ptstate) : Z * ptstate :=
  let page := _page_table_start + 8 * (pt_pool_next_page st * PTES_PER_PT) in
  (page, {| pt_mem := zero_words (pt_mem st) page 512;
            pt_pool_next_page := s32 (pt_pool_next_page st + 1) |}).

Definition pt_reset (st : ptstate) : ptstate :=
  {| pt_mem := pt_mem st; pt_pool_next_page := 0 |}.

Definition pt_ppn (pt : Z) : Z := pt .>> PGSHIFT.

Definition pte_branch (child_pt : Z) : Z := (pt_ppn child_pt .<< PTE_PPN_SHIFT) .| PTE_V.

Definition pte_leaf (phys_addr perm : Z) : Z :=
  ((phys_addr .>> PGSHIFT) .<< PTE_PPN_SHIFT) .| perm .| PTE_V .| PTE_A .| PTE_D.

Definition vpn2 (va : Z) : Z := (va .>> 30) .& 0x1FF.
Definition vpn1 (va : Z) : Z := (va .>> 21) .& 0x1FF.
Definition vpn0 (va : Z) : Z := (va .>> 12) .& 0x1FF.

(** [p[i] = v] and [p[i]] through a [uint64_t *]. *)
Definition put64 (st : ptstate) (a v : Z) : ptstate :=
  {| pt_mem := wr64 (pt_mem st) a v; pt_pool_next_page := pt_pool_next_page st |}.
Definition at64 (st : ptstate) (p i : Z) : Z := rd64 (pt_mem st) (p + 8 * i).

Definition pt_setup_identity_kernel (st : ptstate) : Z * ptstate :=
  let '(root, st) := pt_alloc_page st in
  let sram_vpn2 := vpn2 SRAM_BASE in
  let st := put64 st (root + 8 * sram_vpn2)
              (pte_leaf (SRAM_BASE .& not64 (GIGAPAGE_SIZE - 1)) (PTE_R .| PTE_W .| PTE_X)) in
  (** I/O gigapage at VA 0 *)
  let st := put64 st (root + 8 * 0) (pte_leaf 0x00000000 (PTE_R .| PTE_W)) in
  (root, st).

Definition pt_map_page (st : ptstate) (root va pa perm : Z) (valid : bool) : ptstate :=
  let idx2 := vpn2 va in
  let idx1 := vpn1 va in
  let idx0 := vpn0 va in
  let st :=
    if negb (tst (at64 st root idx2) PTE_V)
    then let '(pg, st) := pt_alloc_page st in put64 st (root + 8 * idx2) (pte_branch pg)
    else st in
  let l1 := (at64 st root idx2 .>> PTE_PPN_SHIFT) .<< PGSHIFT in
  let st :=
    if negb (tst (at64 st l1 idx1) PTE_V)
    then let '(pg, st) := pt_alloc_page st in put64 st (l1 + 8 * idx1) (pte_branch pg)
    else st in
  let l2 := (at64 st l1 idx1 .>> PTE_PPN_SHIFT) .<< PGSHIFT in
  if valid
  then put64 st (l2 + 8 * idx0) (pte_leaf pa perm)
  else put64 st (l2 + 8 * idx0)
         (((pa .>> PGSHIFT) .<< PTE_PPN_SHIFT) .| (perm .& not64 PTE_V)).

(** Returns the address of the entry and the level. *)
Definition pt_walk (m : mem) (root va : Z) : Z * Z :=
  let idx2 := vpn2 va in
  let pte := rd64 m (root + 8 * idx2) in
  if tst pte PTE_V && tst pte (PTE_R .| PTE_W .| PTE_X) then (root + 8 * idx2, 2)
  else if negb (tst pte PTE_V) then (root + 8 * idx2, 2)
  else
    let l1 := (pte .>> PTE_PPN_SHIFT) .<< PGSHIFT in
    let idx1 := vpn1 va in
    let pte := rd64 m (l1 + 8 * idx1) in
    if tst pte PTE_V && tst pte (PTE_R .| PTE_W .| PTE_X) then (l1 + 8 * idx1, 1)
    else if negb (tst pte PTE_V) then (l1 + 8 * idx1, 1)
    else
      let l2 := (pte .>> PTE_PPN_SHIFT) .<< PGSHIFT in
      let idx0 := vpn0 va in
      (l2 + 8 * idx0, 0).

(** The value [mmu_enable_sv39] writes to [satp]. *)
Definition satp_value (root : Z) : Z := (SATP_MODE_SV39 .<< SATP_MODE_SHIFT) .| pt_ppn root.

(** ** The allocator as an instance of the interface *)

(** Pages handed out since [pt_reset]; the pool has eight. *)
Definition pool_page (k : Z) : Z := _page_table_start + 4096 * k.
Definition pt_used (st : ptstate) (x : Z) : Prop :=
  exists k, 0 <= k < pt_pool_next_page st /\ x = pool_page k.

#[export] Instance suite_ptstate : PtState ptstate := {|
  st_mem := pt_mem;
  st_put := put64;
  st_alloc st := Some (pt_alloc_page st);
  st_used := pt_used;
  st_room st := if 0 <=? pt_pool_next_page st then 8 - pt_pool_next_page st else 0
|}.

(** The same allocator seen with [pages] pages: it has no bound of its own. *)
Definition pool_ptstate (pages : Z) : PtState ptstate := {|
  st_mem := pt_mem;
  st_put := put64;
  st_alloc st := Some (pt_alloc_page st);
  st_used := pt_used;
  st_room st := if 0 <=? pt_pool_next_page st then pages - pt_pool_next_page st else 0
|}.

Context (Hpool : is_page _page_table_start) (Hpool_end : _page_table_end <= 2 ^ 56).

Lemma pool_page_ok pages k :
  _page_table_start + 4096 * pages <= 2 ^ 56 -> 0 <= k < pages -> is_page (pool_page k).
Proof using Hpool.
  destruct Hpool as [Ha Hr]. intros Hend Hk.
  unfold is_page, pool_page. rewrite (Z.mul_comm 4096), Z_mod_plus_full. lia.
Qed.

Lemma pool_page_eq k : _page_table_start + 8 * (k * PTES_PER_PT) = pool_page k.
Proof using. unfold pool_page, PTES_PER_PT. lia. Qed.

Lemma pool_ptstate_laws pages :
  _page_table_start + 4096 * pages <= 2 ^ 56 -> pages < 2 ^ 31 -> @PtStateLaws ptstate (pool_ptstate pages).
Proof using Hpool.
  intros Hend Hpages.
  constructor; try done. intros s Hroom. cbn [st_room pool_ptstate] in Hroom.
  destruct (Z.leb_spec 0 (pt_pool_next_page s)); [|lia].
  exists (pool_page (pt_pool_next_page s)), (pt_alloc_page s).2.
  pose proof (pool_page_eq (pt_pool_next_page s)) as Hpg.
  cbn [st_alloc st_used st_room st_mem pool_ptstate pt_alloc_page snd pt_mem pt_pool_next_page].
  rewrite Hpg, s32_small by lia.
  pose proof (pool_page_ok pages (pt_pool_next_page s) Hend) as Hok.
  assert ((pool_page (pt_pool_next_page s)) mod 8 = 0) as H8.
  { pose proof (slot_aligned (pool_page (pt_pool_next_page s)) 0) as H8.
    rewrite Z.add_0_r in H8. apply H8, Hok. lia. }
  split_and!.
  - unfold pt_alloc_page. by rewrite Hpg, s32_small by lia.
  - apply Hok. lia.
  - intros (k & Hk & E). unfold pool_page in E. lia.
  - intros x. unfold pt_used. cbn [pt_pool_next_page]. split.
    + intros (k & Hk & ->). destruct (decide (k = pt_pool_next_page s)) as [->|]; [by left|].
      right. exists k. split; [lia|done].
    + intros [->|(k & Hk & ->)]; eexists; (split; [|done]); lia.
  - repeat case_goal; zbool; lia.
  - intros j Hj. apply rd64_zero_in; [done|]. unfold idx_ok in Hj. lia.
  - intros a Ha Hout. apply rd64_zero_out; [done..|]. lia.
Qed.

#[export] Instance suite_ptstate_laws : PtStateLaws ptstate.
Proof using All. apply (pool_ptstate_laws 8); [exact Hpool_end|done]. Qed.

(** ** [pt_map_page] against the hardware's translation *)

Abbreviation ok := (tables_ok (St := ptstate)).

(** The entry [pt_map_page] writes. *)
Definition map_entry (pa perm : Z) (valid : bool) : Z :=
  if valid then pte_leaf pa perm
  else ((pa .>> PGSHIFT) .<< PTE_PPN_SHIFT) .| (perm .& not64 PTE_V).

(** When [pt_map_page] may be called: well-formed tables, no superpage over
    [va], and enough pages left in the pool for the missing tables. *)
Definition map_pre (st : ptstate) (root va : Z) : Prop :=
  ok st root /\ map_room 0 st root va = true.

Lemma pt_map_page_map_at st root va pa perm valid :
  map_at st root (upper_path 0 va) (vpn va 0) (map_entry pa perm valid)
  = Some (pt_map_page st root va pa perm valid).
Proof using.
  change (upper_path 0 va) with [vpn va 2; vpn va 1].
  unfold map_at, descend, ensure_child, pt_map_page, map_entry, at64, pte_pa.
  cbn [st_mem st_put st_alloc suite_ptstate].
  change (vpn va 2) with (vpn2 va). change (vpn va 1) with (vpn1 va).
  change (vpn va 0) with (vpn0 va). unfold ptr_entry.
  destruct (tst (rd64 (pt_mem st) (root + 8 * vpn2 va)) PTE_V); bsimpl.
  - destruct (tst _ PTE_V); bsimpl; [by destruct valid|].
    destruct (pt_alloc_page st). by destruct valid.
  - destruct (pt_alloc_page st) as [c st1].
    destruct (tst _ PTE_V); bsimpl; [by destruct valid|].
    destruct (pt_alloc_page _). by destruct valid.
Qed.

Lemma invalid_flags_range perm : 0 <= perm < 1024 -> 0 <= perm .& not64 PTE_V < 1024.
Proof using.
  intros. rewrite Z.land_comm. split; [apply Z.land_nonneg; lia|].
  rewrite <- (Z.mod_small perm (2 ^ 10)), <- Z.land_ones by lia.
  rewrite Z.land_assoc, Z.land_ones by lia. apply Z.mod_pos_bound. lia.
Qed.

Lemma map_entry_range pa perm valid :
  is_page pa -> 0 <= perm < 1024 -> 0 <= map_entry pa perm valid < 2 ^ 54.
Proof using.
  intros [_ Hpa] Hf. unfold map_entry. destruct valid.
  - change (pte_leaf pa perm) with (leaf_pte pa perm). rewrite leaf_pte_mk.
    apply pte_mk_range; [lia|by apply leaf_flags_range].
  - apply (pte_mk_range pa); [lia|by apply invalid_flags_range].
Qed.

Lemma invalid_entry_not_V pa perm :
  is_page pa -> 0 <= perm < 1024 -> tst (map_entry pa perm false) PTE_V = false.
Proof using.
  intros [_ Hpa] Hf. unfold map_entry.
  change (tst (pte_mk pa (perm .& not64 PTE_V)) PTE_V = false).
  rewrite pte_mk_tst by (lia || (unfold PTE_V; lia) || by apply invalid_flags_range).
  rewrite tst_V, Z.land_spec. change (Z.testbit (not64 PTE_V) 0) with false. btauto.
Qed.

(** What the hart makes of it. *)
Lemma map_entry_walk a pa perm valid :
  is_page pa -> 0 <= perm < 1024 ->
  entry_walk 0 a (map_entry pa perm valid) =
    if valid && perm_leaf perm then Some (0%nat, a, pte_leaf pa perm) else None.
Proof using.
  intros Hpa Hperm. destruct valid; [by apply entry_walk_leaf|].
  unfold entry_walk. by rewrite invalid_entry_not_V by done.
Qed.

(** Everything [pt_map_page] does. *)
Lemma pt_map_page_mapped st root va pa perm valid :
  map_pre st root va -> is_page pa -> 0 <= perm < 1024 ->
  mapped 0 st (pt_map_page st root va pa perm valid) root va (map_entry pa perm valid).
Proof using All.
  intros [Hok Hroom] Hpa Hperm.
  pose proof (map_entry_range pa perm valid Hpa Hperm).
  destruct (map_level_spec 0 st root va (map_entry pa perm valid)) as (s' & He & Hm);
    [lia|done|lia|lia|done|].
  rewrite pt_map_page_map_at in He. by injection He as <-.
Qed.

(** ... and what the hart then finds. *)
Lemma pt_map_page_walk st root va pa perm valid va' :
  map_pre st root va -> is_page pa -> 0 <= perm < 1024 ->
  canonical va = true -> canonical va' = true ->
  exists a, hw_walk (pt_mem (pt_map_page st root va pa perm valid)) root (vpath va') =
    if decide (va' / 4096 = va / 4096)
    then if valid && perm_leaf perm then Some (0%nat, a, pte_leaf pa perm) else None
    else hw_walk (pt_mem st) root (vpath va').
Proof using All.
  intros Hpre Hpa Hperm Hc Hc'.
  destruct (pt_map_page_mapped st root va pa perm valid) as [_ (t & _ & _ & Hw) _ _ _]; [done..|].
  exists (t + 8 * vpn va 0). cbn [st_mem suite_ptstate] in Hw. rewrite Hw by done.
  change (span 0) with 4096. by rewrite map_entry_walk by done.
Qed.

(** C1: After [pt_map_page root va pa perm 1], called with well-formed tables, no
    superpage over [va] and pages left for the missing tables ([map_pre]), the hart
    translates every address of the page to [pa] plus the page offset, for every kind
    of access [perm] allows. *)
Theorem pt_map_page_translates st root va pa perm c acc va' :
  map_pre st root va -> is_page pa -> 0 <= perm < 1024 -> perm_leaf perm = true ->
  canonical va = true -> canonical va' = true -> va' / 4096 = va / 4096 ->
  leaf_perm c acc perm = true -> leaf_user c acc perm = true ->
  let st' := pt_map_page st root va pa perm true in
  tables_ok st' root /\
  translate c (pt_mem st') root acc va' = Some (pa + va' mod 4096, pt_mem st').
Proof using All.
  intros Hpre Hpa Hperm Hleaf Hcan Hcan' Hpage Hp Hu; cbv zeta.
  split; [by apply (md_ok _ _ _ _ _ _ (pt_map_page_mapped st root va pa perm true Hpre Hpa Hperm))|].
  destruct (pt_map_page_walk st root va pa perm true va') as (a & Hw); [done..|].
  rewrite decide_True, Hleaf in Hw by done.
  rewrite (translate_leaf pa perm Hpa Hperm c _ root acc va' 0 a), Hp, Hu
    by (done || apply Hpa). done.
Qed.

(** C21: [pt_map_page] with [valid] = 0, called under [map_pre], makes every access to the
    page fault, and leaves the physical page number and the permissions in the entry that
    [pt_walk] finds, for the fault handler to repair. *)
Theorem pt_map_page_invalid_faults st root va pa perm c acc va' :
  map_pre st root va -> is_page pa -> 0 <= perm < 1024 ->
  canonical va = true -> va' / 4096 = va / 4096 ->
  let st' := pt_map_page st root va pa perm false in
  tables_ok st' root /\
  translate c (pt_mem st') root acc va' = None /\
  (let '(p, level) := pt_walk (pt_mem st') root va' in
   level = 0 /\ rd64 (pt_mem st') p = map_entry pa perm false).
Proof using All.
  intros Hpre Hpa Hperm Hcan Hpage; cbv zeta.
  destruct (pt_map_page_mapped st root va pa perm false) as [Hok (t & Ht & He & _) _ _ _]; [done..|].
  split; [done|]. split.
  - unfold translate. destruct (canonical va') eqn:Hcan'; [|done].
    destruct (pt_map_page_walk st root va pa perm false va') as (a & Hw); [done..|].
    by rewrite Hw, decide_True.
  - pose proof (page_path va' va Hpage) as Hpath. injection Hpath as H2 H1 H0. unfold pt_walk.
    change (vpn2 va') with (vpn va' 2). change (vpn1 va') with (vpn va' 1).
    change (vpn0 va') with (vpn va' 0). rewrite H2, H1, H0.
    apply tbl_two in Ht as (V2 & X2 & V1 & X1 & Ht).
    unfold PTE_RWX in X1, X2. unfold pte_pa in *. cbn [st_mem suite_ptstate] in *.
    rewrite V2, X2. bsimpl. rewrite V1, X1. bsimpl. rewrite Ht. done.
Qed.

(** Pages may be taken for other uses than tables. *)
Lemma pages_taken_ok st root n :
  tables_ok (St := ptstate) st root -> pt_pool_next_page st <= n <= 8 ->
  tables_ok (St := ptstate) {| pt_mem := pt_mem st; pt_pool_next_page := n |} root.
Proof using All.
  intros Hok Hn. destruct Hok as [Hr Hu Ht Hi Hc].
  assert (forall x, pt_used st x -> pt_used {| pt_mem := pt_mem st; pt_pool_next_page := n |} x) as Hm
    by (intros x (k & Hk & ->); exists k; cbn; split; [lia|done]).
  constructor; [by apply Hm| |intros p t Hp Hpt; by eapply Hm, Ht|exact Hi|exact Hc].
  intros x (k & Hk & ->). apply (pool_page_ok 8); [exact Hpool_end|cbn in Hk; lia].
Qed.

(** The page of the last table taken from the pool holds the entry. *)
Lemma pt_map_page_last st root va pa perm valid :
  let st' := pt_map_page st root va pa perm valid in
  is_page (pool_page (pt_pool_next_page st)) -> is_page (pool_page (pt_pool_next_page st + 1)) ->
  0 <= pt_pool_next_page st < 2 ^ 30 -> is_page pa -> 0 <= perm < 1024 ->
  pt_pool_next_page st' = pt_pool_next_page st
    + (if tst (rd64 (pt_mem st) (root + 8 * vpn va 2)) PTE_V then 1 else 2) ->
  rd64 (pt_mem st') (pool_page (pt_pool_next_page st' - 1) + 8 * vpn va 0) = map_entry pa perm valid.
Proof using.
  intros st' Hp0 Hp1 Hn Hpa Hperm. unfold st'. clear st'.
  pose proof (map_entry_range pa perm valid Hpa Hperm) as Hent.
  assert (forall x y pg, is_page pg ->
    (rd64 (wr64 x y (pte_branch pg)) y .>> PTE_PPN_SHIFT) .<< PGSHIFT = pg) as Hdec.
  { intros x y pg Hpg. destruct (ptr_entry_facts pg Hpg) as (Hr & _ & Hd & _).
    change (pte_branch pg) with (ptr_entry pg). by rewrite rd64_wr64_eq. }
  unfold pt_map_page, at64. change (vpn2 va) with (vpn va 2).
  change (vpn1 va) with (vpn va 1). change (vpn0 va) with (vpn va 0). cbv zeta.
  unfold pt_alloc_page. rewrite !pool_page_eq.
  destruct (tst (rd64 (pt_mem st) (root + 8 * vpn va 2)) PTE_V); cbn [negb].
  - destruct (tst (rd64 (pt_mem st) _) PTE_V) eqn:E1; cbn [negb].
    + intros Hc. exfalso. revert Hc. destruct valid; cbn; lia.
    + cbn [put64 pt_mem pt_pool_next_page]. rewrite Hdec by done. rewrite s32_small by lia. intros _.
      destruct valid; cbn [put64 pt_mem pt_pool_next_page];
        rewrite Z.add_simpl_r; (apply rd64_wr64_eq; lia).
  - cbn [put64 pt_mem pt_pool_next_page]. rewrite Hdec by done.
    rewrite (s32_small (pt_pool_next_page st + 1)) by lia.
    destruct (tst (rd64 _ (pool_page (pt_pool_next_page st) + _)) PTE_V) eqn:E1; cbn [negb].
    + intros Hc. exfalso. revert Hc. destruct valid; cbn [put64 pt_mem pt_pool_next_page]; lia.
    + cbn [put64 pt_mem pt_pool_next_page]. rewrite Hdec by done.
      rewrite s32_small by lia. intros _.
      destruct valid; cbn [put64 pt_mem pt_pool_next_page]; rewrite Z.add_simpl_r;
        (apply rd64_wr64_eq; lia).
Qed.

(** C27: On well-formed tables with no superpage on the way, [pt_map_page] takes exactly
    the pages of the missing tables, whether the pool has them or not, and stores nothing
    outside the pages taken so far: it stays in the pool when that has them, and
    otherwise stores the leaf past its end. *)
Theorem pt_map_page_frame st root va pa perm valid :
  tables_ok (St := ptstate) st root -> no_leafb (pt_mem st) root (upper_path 0 va) = true ->
  0 <= pt_pool_next_page st <= 8 -> _page_table_end + 12288 <= 2 ^ 56 ->
  is_page pa -> 0 <= perm < 1024 ->
  let st' := pt_map_page st root va pa perm valid in
  let taken := pt_pool_next_page st + missing (pt_mem st) root (upper_path 0 va) in
  pt_pool_next_page st' = taken /\
  (forall a, a mod 8 = 0 -> a < _page_table_start \/ _page_table_start + 4096 * taken <= a ->
     rd64 (pt_mem st') a = rd64 (pt_mem st) a) /\
  (8 < taken -> exists a, _page_table_end <= a < _page_table_end + 8192 /\ a mod 8 = 0 /\
     rd64 (pt_mem st') a = map_entry pa perm valid).
Proof using Hpool.
  intros Hok Hnl Hn Hend Hpa Hperm st' taken. unfold _page_table_end in *.
  pose proof (map_entry_range pa perm valid Hpa Hperm).
  pose proof (pool_ptstate_laws 11 ltac:(lia) ltac:(lia)) as Hlaws.
  assert (missing (pt_mem st) root (upper_path 0 va)
    = if tst (rd64 (pt_mem st) (root + 8 * vpn va 2)) PTE_V
      then if tst (rd64 (pt_mem st) (pte_pa (rd64 (pt_mem st) (root + 8 * vpn va 2)) + 8 * vpn va 1)) PTE_V
           then 0 else 1
      else 2) as Hm by (change (upper_path 0 va) with [vpn va 2; vpn va 1]; cbn; by repeat case_match).
  assert (0 <= missing (pt_mem st) root (upper_path 0 va) <= 2) as Hm2
    by (rewrite Hm; repeat case_match; lia).
  destruct (@map_level_spec _ (pool_ptstate 11) Hlaws 0 st root va (map_entry pa perm valid)) as (s' & He & Hmd);
    [lia|exact Hok|lia|lia| |].
  { unfold map_room. apply andb_true_iff. split; [exact Hnl|]. cbn [st_room st_mem pool_ptstate].
    rewrite (proj2 (Z.leb_le 0 _)) by lia. apply Z.leb_le. lia. }
  assert (s' = st') as -> by (injection (eq_trans (eq_sym He) (pt_map_page_map_at st root va pa perm valid)); auto).
  destruct Hmd as [_ _ _ Hdata Hroom _]. cbn [st_room st_mem st_used pool_ptstate] in Hdata, Hroom.
  assert (pt_pool_next_page st' = taken) as Ht.
  { unfold taken. destruct (Z.leb_spec 0 (pt_pool_next_page st)), (Z.leb_spec 0 (pt_pool_next_page st')); lia. }
  split_and!; [exact Ht| |].
  - intros a Ha Hout. apply Hdata; [done|]. intros x (k & Hk & ->). unfold pool_page. lia.
  - intros H8. exists (pool_page (taken - 1) + 8 * vpn va 0). pose proof (vpn_range va 0).
    assert (is_page (pool_page (taken - 1))) as Hpg by (apply (pool_page_ok 11); lia).
    unfold idx_ok in *. split_and!; [unfold pool_page; lia..|by apply slot_aligned|].
    rewrite <- Ht. apply pt_map_page_last; try done; try lia; [apply (pool_page_ok 11); lia..|].
    fold st'. rewrite Ht. unfold taken in *. rewrite Hm in *. repeat case_match; lia.
Qed.

(** [pt_walk] finds the entry the hart uses: where the hardware walk ends in a
    leaf, [pt_walk] returns that entry's address and its level. *)
Theorem pt_walk_finds_leaf m root va l a e :
  hw_walk m root (vpath va) = Some (l, a, e) ->
  pt_walk m root va = (a, Z.of_nat l) /\ rd64 m a = e.
Proof using.
  unfold vpath, pt_walk. change (vpn2 va) with (vpn va 2).
  change (vpn1 va) with (vpn va 1). change (vpn0 va) with (vpn va 0).
  cbn [hw_walk length]. rewrite !tst_lor. fold (pte_pa (rd64 m (root + 8 * vpn va 2))).
  remember (rd64 m (root + 8 * vpn va 2)) as e2 eqn:E2.
  fold (pte_pa (rd64 m (pte_pa e2 + 8 * vpn va 1))).
  remember (rd64 m (pte_pa e2 + 8 * vpn va 1)) as e1 eqn:E1.
  remember (rd64 m (pte_pa e1 + 8 * vpn va 0)) as e0 eqn:E0.
  destruct (tst e2 PTE_V), (tst e2 PTE_R), (tst e2 PTE_W), (tst e2 PTE_X),
    (pte_reserved e2); bsimpl; try (intros [= <- <- <-]; auto); try done;
    (case_goal; [done|]);
  destruct (tst e1 PTE_V), (tst e1 PTE_R), (tst e1 PTE_W), (tst e1 PTE_X),
    (pte_reserved e1); bsimpl; try (intros [= <- <- <-]; auto); try done;
    (case_goal; [done|]);
  destruct (tst e0 PTE_V), (tst e0 PTE_R), (tst e0 PTE_W), (tst e0 PTE_X),
    (pte_reserved e0); bsimpl; try (intros [= <- <- <-]; auto); try done; case_goal; done.
Qed.

(** *** The kernel's identity mapping *)

Definition sram_leaf : Z := pte_leaf SRAM_BASE (PTE_R .| PTE_W .| PTE_X).
Definition io_leaf : Z := pte_leaf 0 (PTE_R .| PTE_W).

(** A root table that maps the two gigapages. *)
Definition maps_kernel (m : mem) (root : Z) : Prop :=
  rd64 m (root + 8 * 2) = sram_leaf /\ rd64 m (root + 8 * 0) = io_leaf.

(** The access rights of the identity mapping. *)
Definition kernel_allows (acc : access) (va : Z) : bool :=
  (bool_decide (SRAM_BASE <= va < SRAM_BASE + GIGAPAGE_SIZE)) ||
  (bool_decide (0 <= va < GIGAPAGE_SIZE) && negb (bool_decide (acc = Fetch))).

Lemma gigapage_offset va k : va / 2 ^ 30 = k -> k * 2 ^ 30 + va mod 2 ^ 30 = va.
Proof using. intros <-. pose proof (Z.div_mod va (2 ^ 30)). lia. Qed.

(** A gigapage leaf whose physical base is its own index is an identity map. *)
Lemma gigapage_identity m root k e c acc va :
  0 <= k < 256 -> va / 2 ^ 30 = k -> rd64 m (root + 8 * k) = e ->
  tst e PTE_V = true -> tst e PTE_R = true -> pte_reserved e = false ->
  pte_pa e = k * 2 ^ 30 -> leaf_touch c acc e = e ->
  translate c m root acc va = if leaf_ok c acc 2 e then Some (va, m) else None.
Proof using.
  intros Hk Hq He HV HR Hres Hpa Ht.
  assert (canonical va = true) as Hc.
  { unfold canonical. rewrite shr_div by lia.
    assert (va / 2 ^ 38 = 0) as ->; [|done].
    replace (va / 2 ^ 38) with (va / 2 ^ 30 / 2 ^ 8) by (rewrite Z.div_div by lia; done).
    rewrite Hq. apply Z.div_small. lia. }
  assert (vpn va 2 = k) as Hv.
  { rewrite vpn_arith. change (12 + 9 * Z.of_nat 2) with 30. rewrite Hq.
    apply Z.mod_small. lia. }
  unfold translate, vpath. cbn [hw_walk length]. rewrite Hc, Hv, He, HV, HR, Hres. bsimpl.
  rewrite Ht, Z.eqb_refl. unfold leaf_pa. rewrite Hpa.
  change (12 + 9 * Z.of_nat 2) with 30. by rewrite gigapage_offset.
Qed.

Lemma maps_kernel_translates m root c acc va :
  maps_kernel m root -> kernel_allows acc va = true ->
  translate c m root acc va = Some (va, m).
Proof using.
  intros [H2 H0] Hall. unfold kernel_allows in Hall.
  change SRAM_BASE with (2 * 2 ^ 30) in Hall. change GIGAPAGE_SIZE with (2 ^ 30) in Hall.
  apply orb_true_iff in Hall as [Hr|[Hr Ha]%andb_true_iff]; apply bool_decide_eq_true in Hr.
  - assert (2 = va / 2 ^ 30) as Hq
      by (apply (Z.div_unique_pos va (2 ^ 30) 2 (va - 2 * 2 ^ 30)); lia).
    rewrite (gigapage_identity m root 2 sram_leaf) by
      (done || lia || destruct c as [[] [] []], acc; reflexivity).
    by destruct c as [[] [] []], acc.
  - assert (0 = va / 2 ^ 30) as Hq by (apply (Z.div_unique_pos va (2 ^ 30) 0 va); lia).
    rewrite (gigapage_identity m root 0 io_leaf) by
      (done || lia || destruct c as [[] [] []], acc; reflexivity).
    by destruct c as [[] [] []], acc.
Qed.

Lemma setup_slots st i :
  pt_pool_next_page st = 0 -> idx_ok i ->
  rd64 (pt_mem (pt_setup_identity_kernel st).2) (_page_table_start + 8 * i) =
    if i =? 0 then io_leaf else if i =? 2 then sram_leaf else 0.
Proof using Hpool.
  intros H0 Hi. unfold pt_setup_identity_kernel, pt_alloc_page, put64. rewrite H0.
  cbn [pt_mem snd]. change (0 * PTES_PER_PT) with 0. rewrite Z.add_0_r.
  change (vpn2 SRAM_BASE) with 2. fold io_leaf.
  change (pte_leaf (SRAM_BASE .& not64 (GIGAPAGE_SIZE - 1)) (PTE_R .| PTE_W .| PTE_X))
    with sram_leaf.
  pose proof (slot_aligned _page_table_start i Hpool).
  pose proof (slot_aligned _page_table_start 0 Hpool).
  pose proof (slot_aligned _page_table_start 2 Hpool).
  destruct (Z.eqb_spec i 0) as [->|]; [by apply rd64_wr64_eq|].
  rewrite rd64_wr64_other by (done || lia).
  destruct (Z.eqb_spec i 2) as [->|]; [by apply rd64_wr64_eq|].
  rewrite rd64_wr64_other by (done || lia). unfold idx_ok in Hi. rewrite Z.add_0_r in *.
  apply rd64_zero_in; lia.
Qed.

Lemma setup_root st :
  pt_pool_next_page st = 0 ->
  (pt_setup_identity_kernel st).1 = _page_table_start /\
  pt_pool_next_page (pt_setup_identity_kernel st).2 = 1.
Proof using.
  intros H0. unfold pt_setup_identity_kernel, pt_alloc_page. rewrite H0.
  cbn [fst snd put64 pt_pool_next_page]. split; [lia|done].
Qed.

Lemma setup_maps_kernel st :
  pt_pool_next_page st = 0 ->
  maps_kernel (pt_mem (pt_setup_identity_kernel st).2) _page_table_start.
Proof using Hpool. intros H0. split; rewrite setup_slots by (done || (split; lia)); done. Qed.

(** No entry of the root leads to another table. *)
Lemma setup_no_ptr st i p :
  pt_pool_next_page st = 0 -> idx_ok i ->
  tbl (pt_mem (pt_setup_identity_kernel st).2) _page_table_start (i :: p) = None.
Proof using Hpool.
  intros H0 Hi. cbn [tbl]. rewrite setup_slots by done.
  destruct (i =? 0); [done|]. by destruct (i =? 2).
Qed.

Lemma setup_ok st :
  pt_pool_next_page st = 0 ->
  ok (pt_setup_identity_kernel st).2 (pt_setup_identity_kernel st).1.
Proof using All.
  intros H0. destruct (setup_root st H0) as [-> H1].
  assert (forall q t, path_ok q ->
    tbl (pt_mem (pt_setup_identity_kernel st).2) _page_table_start q = Some t ->
    q = [] /\ t = _page_table_start) as Hnil.
  { intros [|i q] t [HF _] Ht; [by injection Ht as ->|].
    apply Forall_cons in HF as [Hi _]. by rewrite setup_no_ptr in Ht. }
  assert (pt_used (pt_setup_identity_kernel st).2 _page_table_start) as Hu.
  { exists 0. rewrite H1. split; [lia|]. unfold pool_page. lia. }
  split.
  - exact Hu.
  - intros t (k & Hk & ->). apply (pool_page_ok 8); [exact Hpool_end|]. rewrite H1 in Hk. lia.
  - intros q t Hq Ht. by destruct (Hnil q t Hq Ht) as [_ ->].
  - intros q r t Hq Hr Hqt Hrt.
    by destruct (Hnil q t Hq Hqt) as [-> _], (Hnil r t Hr Hrt) as [-> _].
  - intros q t i Hq _ Hi Ht. destruct (Hnil q t Hq Ht) as [-> ->].
    cbn [st_mem suite_ptstate]. rewrite setup_slots by done.
    destruct (i =? 0); [done|]. by destruct (i =? 2).
Qed.

(** C20: After [pt_reset], [pt_setup_identity_kernel] builds well-formed tables that
    translate the SRAM gigapage to itself for every access, the I/O gigapage to
    itself for loads and stores, and nothing else; seven pages are left. *)
Theorem pt_setup_identity_kernel_translates st c acc va :
  0 <= va < 2 ^ 64 ->
  let '(root, st') := pt_setup_identity_kernel (pt_reset st) in
  tables_ok st' root /\ st_room st' = 7 /\
  translate c (pt_mem st') root acc va =
    if kernel_allows acc va then Some (va, pt_mem st') else None.
Proof using All.
  intros Hva. pose proof (setup_ok (pt_reset st) eq_refl) as Hok.
  destruct (setup_root (pt_reset st) eq_refl) as [Hr Hn].
  pose proof (setup_maps_kernel (pt_reset st) eq_refl) as Hk.
  pose proof (fun i => setup_slots (pt_reset st) i eq_refl) as Hs.
  destruct (pt_setup_identity_kernel (pt_reset st)) as [root st']. cbn [fst snd] in *.
  subst root. split_and!; [done|cbn [st_room suite_ptstate]; by rewrite Hn|].
  destruct (kernel_allows acc va) eqn:Ha; [by apply maps_kernel_translates|].
  unfold translate. destruct (canonical va) eqn:Hc; [|done].
  unfold vpath. cbn [hw_walk length]. rewrite Hs by apply vpn_range.
  unfold kernel_allows in Ha. apply orb_false_iff in Ha as [Ha2 Ha0].
  change SRAM_BASE with (2 * 2 ^ 30) in Ha2. change GIGAPAGE_SIZE with (2 ^ 30) in Ha2, Ha0.
  apply bool_decide_eq_false in Ha2.
  destruct (Z.eqb_spec (vpn va 2) 0) as [E|E].
  - apply canonical_vpn2 in E; [|lia|done|lia]. rewrite bool_decide_eq_true_2 in Ha0
      by (Z.div_mod_to_equations; lia).
    apply negb_false_iff, bool_decide_eq_true in Ha0. subst acc. by destruct c as [[] [] []].
  - destruct (Z.eqb_spec (vpn va 2) 2) as [E2|]; [|done].
    apply canonical_vpn2 in E2; [|lia|done|lia]. destruct Ha2.
    pose proof (gigapage_offset va 2 E2). pose proof (Z.mod_pos_bound va (2 ^ 30)). lia.
Qed.

(** *** A sequence of mappings against a finite map of pages *)

(** The arguments of one call of [pt_map_page]. *)
Record map_req := { rq_va : Z; rq_pa : Z; rq_perm : Z; rq_valid : bool }.

Definition map_one (root : Z) (st : ptstate) (r : map_req) : ptstate :=
  pt_map_page st root (rq_va r) (rq_pa r) (rq_perm r) (rq_valid r).
Definition map_all (root : Z) (st : ptstate) (rs : list map_req) : ptstate :=
  foldl (map_one root) st rs.

(** The specification: a finite map from page numbers to leaf entries. *)
Definition spec_entry (r : map_req) : option (nat * Z) :=
  if rq_valid r && perm_leaf (rq_perm r)
  then Some (0%nat, pte_leaf (rq_pa r) (rq_perm r)) else None.
Definition spec_pages (rs : list map_req) : gmap Z (option (nat * Z)) :=
  foldl (fun pages r => <[rq_va r / 4096 := spec_entry r]> pages) ∅ rs.

(** Each call finds no superpage in its way and enough pages in the pool. *)
Definition req_ok (root : Z) (st : ptstate) (r : map_req) : bool :=
  (rq_pa r mod 4096 =? 0) && (0 <=? rq_pa r) && (rq_pa r <? 2 ^ 56) &&
  (0 <=? rq_perm r) && (rq_perm r <? 1024) && canonical (rq_va r) &&
  map_room 0 st root (rq_va r).
Fixpoint reqs_ok (root : Z) (st : ptstate) (rs : list map_req) : bool :=
  match rs with
  | [] => true
  | r :: rs' => req_ok root st r && reqs_ok root (map_one root st r) rs'
  end.

(** The level and the value of the leaf entry the hart finds. *)
Definition walk_leaf (m : mem) (root va : Z) : option (nat * Z) :=
  (fun '(l, _, e) => (l, e)) <$> hw_walk m root (vpath va).

Lemma map_one_spec root st r va :
  ok st root -> req_ok root st r = true -> canonical va = true ->
  ok (map_one root st r) root /\
  walk_leaf (pt_mem (map_one root st r)) root va =
    if decide (va / 4096 = rq_va r / 4096) then spec_entry r
    else walk_leaf (pt_mem st) root va.
Proof using All.
  intros Hok Hr Hc. unfold req_ok in Hr. zbool.
  assert (map_pre st root (rq_va r)) as Hpre by done.
  assert (is_page (rq_pa r)) by (split; lia).
  split; [by apply (md_ok _ _ _ _ _ _
    (pt_map_page_mapped st root (rq_va r) (rq_pa r) (rq_perm r) (rq_valid r) Hpre ltac:(done) ltac:(lia)))|].
  destruct (pt_map_page_walk st root (rq_va r) (rq_pa r) (rq_perm r) (rq_valid r) va)
    as (a & Hw); [done..|].
  unfold walk_leaf, map_one, spec_entry. rewrite Hw. case_decide; [|done].
  by destruct (rq_valid r && perm_leaf (rq_perm r)).
Qed.

(** C5: Refinement: after any sequence of calls, each with no superpage in its way and
    pages left for its tables ([req_ok]), what the hart finds for an address is what the last call for its page put there, and what it found before when
    no call was for that page. *)
Theorem pt_map_page_refines root rs st va :
  tables_ok st root -> reqs_ok root st rs = true -> canonical va = true ->
  tables_ok (map_all root st rs) root /\
  walk_leaf (pt_mem (map_all root st rs)) root va =
    match spec_pages rs !! (va / 4096) with
    | Some o => o
    | None => walk_leaf (pt_mem st) root va
    end.
Proof using All.
  intros Hok. induction rs as [|r rs IH] using rev_ind; intros Hrs Hc; [done|].
  assert (reqs_ok root st rs = true /\ req_ok root (map_all root st rs) r = true) as [H1 H2].
  { clear IH Hok. revert st Hrs. induction rs as [|r' rs IH]; intros st Hrs; cbn in *.
    - rewrite andb_true_r in Hrs. by split.
    - apply andb_true_iff in Hrs as [-> Hrs]. by apply IH in Hrs as [-> ?]. }
  destruct (IH H1 Hc) as [Hok' Hw].
  destruct (map_one_spec root (map_all root st rs) r va) as [Hok2 Hw2]; [done..|].
  unfold map_all, spec_pages in *. rewrite !foldl_app. cbn [foldl].
  split; [done|]. rewrite Hw2, Hw, lookup_insert. repeat case_decide; try done; congruence.
Qed.

(** *** The pool *)

(** The allocator does not look at [_page_table_end]: once the eight pages are
    handed out, the next one it returns, and zeroes, lies past the pool. *)
Theorem pt_alloc_page_overflows st :
  pt_pool_next_page st = 8 ->
  (pt_alloc_page st).1 = _page_table_end /\
  (forall a, a mod 8 = 0 -> _page_table_end <= a < _page_table_end + 4096 ->
     rd64 (pt_mem (pt_alloc_page st).2) a = 0).
Proof using Hpool.
  intros H8. unfold pt_alloc_page. rewrite H8. cbn [fst snd pt_mem].
  change (8 * (8 * PTES_PER_PT)) with 32768. fold _page_table_end. split; [done|].
  intros a Ha Hr. destruct Hpool as [Hp _]. unfold _page_table_end in *.
  apply Z.mod_divide in Ha as [x ->]; [|lia]. apply Z.mod_divide in Hp as [y Hy]; [|lia].
  replace (x * 8) with (_page_table_start + 32768 + 8 * (x - 512 * y - 4096)) by lia.
  apply rd64_zero_in; [|lia]. rewrite Hy.
  replace (y * 4096 + 32768) with ((512 * y + 4096) * 8) by lia. apply Z_mod_mult.
Qed.
End PageTable.

(** ** The theorems at a concrete pool *)

Definition pool0 : Z := 0x80010000.
Definition boot_state : ptstate := {| pt_mem := ∅; pt_pool_next_page := 0 |}.
Definition kernel_state : ptstate := (pt_setup_identity_kernel pool0 boot_state).2.

Lemma pool0_page : is_page pool0.
Proof. split; vm_compute; [done|split; [discriminate|done]]. Qed.

Lemma pool0_end : _page_table_end pool0 <= 2 ^ 56.
Proof. by vm_compute. Qed.

Lemma kernel_state_ok : @tables_ok _ (suite_ptstate pool0) kernel_state pool0.
Proof. exact (setup_ok pool0 pool0_page pool0_end boot_state eq_refl). Qed.

Lemma pt_map_page_translates_witness :
  let st' := pt_map_page pool0 kernel_state pool0 0xC0000000 0x80180000 (PTE_R .| PTE_W) true in
  map_pre pool0 kernel_state pool0 0xC0000000 /\
  translate {| hw_sum := false; hw_mxr := false; hw_svadu := false |}
    (pt_mem st') pool0 Store 0xC0000128 = Some (0x80180128, pt_mem st').
Proof.
  assert (map_pre pool0 kernel_state pool0 0xC0000000) as H
    by (split; [apply kernel_state_ok|vm_compute; reflexivity]).
  split; [exact H|].
  destruct (pt_map_page_translates pool0 pool0_page pool0_end kernel_state pool0
    0xC0000000 0x80180000 (PTE_R .| PTE_W)
    {| hw_sum := false; hw_mxr := false; hw_svadu := false |} Store 0xC0000128
    H ltac:(split; [reflexivity|split; [discriminate|reflexivity]])
    ltac:(split; [discriminate|reflexivity]) eq_refl eq_refl eq_refl eq_refl eq_refl eq_refl) as [_ Ht].
  exact Ht.
Defined.

Lemma pt_map_page_invalid_faults_witness :
  map_pre pool0 kernel_state pool0 0xD0000000 /\
  translate {| hw_sum := false; hw_mxr := false; hw_svadu := true |}
    (pt_mem (pt_map_page pool0 kernel_state pool0 0xD0000000 0x801A0000 (PTE_R .| PTE_W) false))
    pool0 Load 0xD0000008 = None.
Proof.
  assert (map_pre pool0 kernel_state pool0 0xD0000000) as H
    by (split; [apply kernel_state_ok|vm_compute; reflexivity]).
  split; [exact H|].
  destruct (pt_map_page_invalid_faults pool0 pool0_page pool0_end kernel_state pool0
    0xD0000000 0x801A0000 (PTE_R .| PTE_W)
    {| hw_sum := false; hw_mxr := false; hw_svadu := true |} Load 0xD0000008
    H ltac:(split; [reflexivity|split; [discriminate|reflexivity]])
    ltac:(split; [discriminate|reflexivity]) eq_refl eq_refl) as (_ & Hf & _).
  exact Hf.
Defined.

(** The pool has seven pages left, or none. *)
Lemma pt_map_page_frame_witness :
  let full := {| pt_mem := pt_mem kernel_state; pt_pool_next_page := 8 |} in
  pt_pool_next_page (pt_map_page pool0 kernel_state pool0 0xC0000000 0x80180000 PTE_R true) = 3 /\
  pt_pool_next_page (pt_map_page pool0 full pool0 0xC0000000 0x80180000 PTE_R true) = 10 /\
  exists a, 0x80018000 <= a < 0x8001A000 /\
    rd64 (pt_mem (pt_map_page pool0 full pool0 0xC0000000 0x80180000 PTE_R true)) a
    = map_entry 0x80180000 PTE_R true.
Proof.
  assert (is_page 0x80180000) as Hpa by (split; [reflexivity|split; [discriminate|reflexivity]]).
  set (full := {| pt_mem := pt_mem kernel_state; pt_pool_next_page := 8 |}).
  assert (@tables_ok _ (suite_ptstate pool0) full pool0) as Hfull.
  { apply pages_taken_ok; [exact pool0_page|exact pool0_end|exact kernel_state_ok|].
    vm_compute. split; discriminate. }
  destruct (pt_map_page_frame pool0 pool0_page kernel_state pool0 0xC0000000 0x80180000 PTE_R true
    kernel_state_ok eq_refl ltac:(vm_compute; split; discriminate) ltac:(vm_compute; discriminate) Hpa
    ltac:(split; [discriminate|reflexivity])) as (H1 & _ & _).
  destruct (pt_map_page_frame pool0 pool0_page full pool0 0xC0000000 0x80180000 PTE_R true
    Hfull eq_refl ltac:(vm_compute; split; discriminate) ltac:(vm_compute; discriminate) Hpa
    ltac:(split; [discriminate|reflexivity])) as (H2 & _ & H3).
  cbv zeta. split; [exact H1|]. split; [exact H2|].
  destruct (H3 ltac:(vm_compute; reflexivity)) as (a & Ha & _ & Hr). exists a. split; [exact Ha|exact Hr].
Defined.

Lemma pt_walk_finds_leaf_witness :
  pt_walk (pt_mem kernel_state) pool0 0x80001234 = (pool0 + 16, 2).
Proof.
  exact (proj1 (pt_walk_finds_leaf (pt_mem kernel_state) pool0 0x80001234 2 (pool0 + 16)
    sram_leaf ltac:(vm_compute; reflexivity))).
Defined.

Lemma pt_setup_identity_kernel_translates_witness :
  let '(root, st') := pt_setup_identity_kernel pool0 (pt_reset boot_state) in
  translate {| hw_sum := false; hw_mxr := false; hw_svadu := true |}
    (pt_mem st') root Fetch 0x80000040 = Some (0x80000040, pt_mem st').
Proof.
  pose proof (pt_setup_identity_kernel_translates pool0 pool0_page pool0_end boot_state
    {| hw_sum := false; hw_mxr := false; hw_svadu := true |} Fetch 0x80000040
    ltac:(split; [discriminate|reflexivity])) as H.
  destruct (pt_setup_identity_kernel pool0 (pt_reset boot_state)) as [root st'].
  exact (proj2 (proj2 H)).
Defined.

(** P1A maps one page twice: for data at 0xC0000000, for code at 0xC0010000. *)
Definition p1a_requests : list map_req :=
  [ {| rq_va := 0xC0000000; rq_pa := 0x80180000; rq_perm := PTE_R .| PTE_W; rq_valid := true |};
    {| rq_va := 0xC0010000; rq_pa := 0x80180000; rq_perm := PTE_R .| PTE_X; rq_valid := true |} ].

Lemma pt_map_page_refines_witness :
  reqs_ok pool0 pool0 kernel_state p1a_requests = true /\
  walk_leaf (pt_mem (map_all pool0 pool0 kernel_state p1a_requests)) pool0 0xC0010000
  = Some (0%nat, pte_leaf 0x80180000 (PTE_R .| PTE_X)).
Proof.
  assert (reqs_ok pool0 pool0 kernel_state p1a_requests = true) as H by (vm_compute; reflexivity).
  split; [exact H|].
  destruct (pt_map_page_refines pool0 pool0_page pool0_end pool0 p1a_requests kernel_state
    0xC0010000 kernel_state_ok H eq_refl) as [_ Hw].
  rewrite Hw. vm_compute. reflexivity.
Defined.

Lemma pt_alloc_page_overflows_witness :
  (pt_alloc_page pool0 {| pt_mem := ∅; pt_pool_next_page := 8 |}).1 = 0x80018000.
Proof.
  exact (proj1 (pt_alloc_page_overflows pool0 pool0_page
    {| pt_mem := ∅; pt_pool_next_page := 8 |} eq_refl)).
Defined.
