(* ===== verification/Tlb.v ===== *)
(** * Translation caches and [sfence.vma]

    A hart may answer a translation from a cached walk, including a cached
    absence of a mapping, until [sfence.vma] removes it.  [tlb_translate] is one
    translation through such a cache: the environment decides, access by access,
    whether a cached walk is used.  [coherent] caches answer as the tables do
    ([tlb_translate_coherent]); the two fences of [common/smode.c] restore
    coherence. *)

From S2P Require Import Prelude Platform Memory Sv39.

(** Page number of a canonical address to the result of a walk. *)
Abbreviation tlb := (gmap Z (option (nat * Z * Z))).

(** The addresses covered by the leaf of a cached walk. *)
Definition covers (o : option (nat * Z * Z)) (page va : Z) : bool :=
  match o with
  | Some (l, _, _) =>
      page * 4096 / 2 ^ (12 + 9 * Z.of_nat l) =? va / 2 ^ (12 + 9 * Z.of_nat l)
  | None => page =? va / 4096
  end.

(** [sfence.vma zero, zero] and [sfence.vma addr, zero]. *)
Definition sfence_vma_all (t : tlb) : tlb := ∅.
Definition sfence_vma_addr (addr : Z) (t : tlb) : tlb :=
  filter (fun po => negb (covers po.2 po.1 addr) = true) t.

(** A translation from the tables; the walk is cached. *)
Definition walk_fill (c : hwctx) (m : mem) (root : Z) (t : tlb) (acc : access) (va : Z)
    : option Z * mem * tlb :=
  match hw_walk m root (vpath va) with
  | Some (l, a, e) =>
      if leaf_ok c acc l e
      then let e' := leaf_touch c acc e in
           (Some (leaf_pa l e va), if e' =? e then m else wr64 m a e',
            <[va / 4096 := Some (l, a, e')]> t)
      else (None, m, <[va / 4096 := Some (l, a, e)]> t)
  | None => (None, m, <[va / 4096 := None]> t)
  end.

(** One translation; [hit] says whether the hart uses a cached walk.  A cached
    leaf without the A or D bit the access needs sends the hart to the tables. *)
Definition tlb_translate (c : hwctx) (hit : bool) (m : mem) (root : Z) (t : tlb)
    (acc : access) (va : Z) : option Z * mem * tlb :=
  if negb (canonical va) then (None, m, t)
  else if hit then
    match t !! (va / 4096) with
    | Some None => (None, m, t)
    | Some (Some (l, a, e)) =>
        if leaf_ad acc e
        then (if leaf_ok c acc l e then Some (leaf_pa l e va) else None, m, t)
        else walk_fill c m root t acc va
    | None => walk_fill c m root t acc va
    end
  else walk_fill c m root t acc va.

(** ** Coherence *)

(** Two entries that differ at most in A and D, the second having both bits
    whenever the first has them. *)
Record leaf_le (e e' : Z) : Prop := {
  ll_same i : 0 <= i -> i <> 6 -> i <> 7 -> Z.testbit e i = Z.testbit e' i;
  ll_A : tst e PTE_A = true -> tst e' PTE_A = true;
  ll_D : tst e PTE_D = true -> tst e' PTE_D = true
}.

Definition walk_le (o o' : option (nat * Z * Z)) : Prop :=
  match o, o' with
  | None, None => True
  | Some (l, a, e), Some (l', a', e') => l = l' /\ a = a' /\ leaf_le e e'
  | _, _ => False
  end.

Definition coherent (m : mem) (root : Z) (t : tlb) : Prop :=
  forall page o, t !! page = Some o ->
    exists va, canonical va = true /\ page = va / 4096 /\
      walk_le o (hw_walk m root (vpath va)).

Lemma leaf_le_refl e : leaf_le e e.
Proof. by split. Qed.

Lemma leaf_le_trans e1 e2 e3 : leaf_le e1 e2 -> leaf_le e2 e3 -> leaf_le e1 e3.
Proof.
  intros [s1 a1 d1] [s2 a2 d2]. split; intros; auto. by rewrite s1, s2.
Qed.

Lemma walk_le_refl o : walk_le o o.
Proof. destruct o as [[[l a] e]|]; simpl; auto using leaf_le_refl. Qed.

Lemma walk_le_trans o1 o2 o3 : walk_le o1 o2 -> walk_le o2 o3 -> walk_le o1 o3.
Proof.
  destruct o1 as [[[l1 a1] e1]|], o2 as [[[l2 a2] e2]|], o3 as [[[l3 a3] e3]|]; simpl; try tauto.
  intros (-> & -> & ?) (-> & -> & ?). eauto using leaf_le_trans.
Qed.

#[export] Hint Resolve leaf_le_refl walk_le_refl : core.

Section LeafLe.
Context (e e' : Z) (Hle : leaf_le e e').

Lemma leaf_le_tst n : 0 <= n -> n <> 6 -> n <> 7 -> tst e (2 ^ n) = tst e' (2 ^ n).
Proof using All. intros. rewrite !tst_bit by done. by apply (ll_same _ _ Hle). Qed.

Lemma leaf_le_shr n : 8 <= n -> e .>> n = e' .>> n.
Proof using All.
  intros. apply Z.bits_inj'. intros i Hi. rewrite !Z.shiftr_spec by done.
  apply (ll_same _ _ Hle); lia.
Qed.

Lemma leaf_le_facts :
  tst e PTE_V = tst e' PTE_V /\ tst e PTE_R = tst e' PTE_R /\ tst e PTE_W = tst e' PTE_W /\
  tst e PTE_X = tst e' PTE_X /\ tst e PTE_U = tst e' PTE_U /\
  pte_reserved e = pte_reserved e' /\ pte_pa e = pte_pa e'.
Proof using All.
  repeat split; try (apply (leaf_le_tst _); lia);
    [apply (leaf_le_tst 0)|apply (leaf_le_tst 1)|apply (leaf_le_tst 2)|apply (leaf_le_tst 3)
    |apply (leaf_le_tst 4)|..]; try lia.
  - unfold pte_reserved. by rewrite leaf_le_shr by lia.
  - unfold pte_pa, PTE_PPN_SHIFT. by rewrite leaf_le_shr by lia.
Qed.
End LeafLe.

Lemma leaf_touch_le c acc e : leaf_le e (leaf_touch c acc e).
Proof.
  unfold leaf_touch. destruct (hw_svadu c); [|done]. split.
  - intros i Hi H6 H7. rewrite !Z.lor_spec.
    change PTE_A with (2 ^ 6). rewrite Z.pow2_bits_false by lia.
    destruct (bool_decide _); [|by rewrite Z.bits_0, !orb_false_r].
    change PTE_D with (2 ^ 7). rewrite Z.pow2_bits_false by lia. by rewrite !orb_false_r.
  - intros H. by rewrite !tst_lor_l, H.
  - intros H. by rewrite !tst_lor_l, H.
Qed.

Lemma leaf_touch_range c acc e : 0 <= e < 2 ^ 64 -> 0 <= leaf_touch c acc e < 2 ^ 64.
Proof.
  intros He. unfold leaf_touch. destruct (hw_svadu c); [|done].
  apply lor_range; [lia|apply lor_range; [lia|done|vm_compute; split; congruence]|].
  destruct (bool_decide _); vm_compute; split; congruence.
Qed.

(** The tables after the hart set A or D in one leaf answer as before. *)
Lemma hw_walk_touch m root r a e e' l r0 :
  hw_walk m root r0 = Some (l, a, e) -> leaf_le e e' -> 0 <= e' < 2 ^ 64 ->
  walk_le (hw_walk m root r) (hw_walk (wr64 m a e') root r).
Proof.
  intros H0 Hle Hr.
  assert (rd64 m a = e /\ (tst e PTE_R || tst e PTE_X) = true) as [Ha Hleaf].
  { clear Hle. revert root H0. induction r0 as [|i r0 IH]; intros t H0; [done|].
    cbn [hw_walk] in H0. destruct (negb _ || _ || _); [done|].
    match type of H0 with context [if ?b then Some _ else _] => destruct b eqn:E end.
    { by injection H0 as <- <- <-. }
    match type of H0 with context [if ?b then None else _] => destruct b end; [done|].
    by apply IH in H0. }
  destruct (leaf_le_facts e e' Hle) as (EV & ER & EW & EX & _ & Eres & _).
  clear H0. revert root.
  induction r as [|i r IH]; intros t; [done|]. cbn [hw_walk].
  destruct (decide (a / 8 = (t + 8 * i) / 8)) as [E|Hne].
  - rewrite rd64_wr64_same by done. rewrite wrap64_small by done.
    assert (rd64 m (t + 8 * i) = e) as -> by (rewrite <- Ha; unfold rd64; by rewrite E).
    rewrite <- EV, <- ER, <- EW, <- EX, <- Eres.
    destruct (negb _ || _ || _); [done|]. rewrite Hleaf. by simpl.
  - rewrite rd64_wr64_ne by done. destruct (negb _ || _ || _); [done|].
    match goal with |- context [if ?b then Some _ else _] => destruct b end; [simpl; auto|].
    match goal with |- context [if ?b then None else _] => destruct b end; [done|]. apply IH.
Qed.

Lemma hw_walk_entry m root r l a e : hw_walk m root r = Some (l, a, e) -> rd64 m a = e.
Proof.
  revert root. induction r as [|i r IH]; intros t; [done|]. cbn [hw_walk].
  destruct (negb _ || _ || _); [done|]. destruct (_ || _).
  - by intros [= <- <- <-].
  - destruct (tst _ _); [done|]. apply IH.
Qed.

Lemma hw_walk_entry_range m root r l a e :
  hw_walk m root r = Some (l, a, e) -> 0 <= e < 2 ^ 64.
Proof. intros <-%hw_walk_entry. apply rd64_range. Qed.

(** ** A coherent cache answers as the tables do *)

Section Coherence.
Context (c : hwctx) (root : Z).
Implicit Types (m : mem) (t : tlb).

Lemma coherent_le m m' t :
  coherent m root t ->
  (forall r, walk_le (hw_walk m root r) (hw_walk m' root r)) -> coherent m' root t.
Proof using.
  intros Hc Hle page o Ho. destruct (Hc page o Ho) as (va & Hcan & -> & Hw).
  exists va. split_and!; [done..|]. eauto using walk_le_trans.
Qed.

Lemma coherent_insert m t va o :
  coherent m root t -> canonical va = true -> walk_le o (hw_walk m root (vpath va)) ->
  coherent m root (<[va / 4096 := o]> t).
Proof using.
  intros Hc Hcan Hw page o' [[<- <-]|[_ Ho]]%lookup_insert_Some; [|by apply Hc].
  by exists va.
Qed.

Lemma coherent_hit m t va o :
  coherent m root t -> t !! (va / 4096) = Some o ->
  walk_le o (hw_walk m root (vpath va)).
Proof using.
  intros Hc Ho. destruct (Hc _ _ Ho) as (va' & _ & E & Hw). by rewrite (page_path va va').
Qed.

Lemma leaf_le_ad acc e e' : leaf_le e e' -> leaf_ad acc e = true -> leaf_ad acc e' = true.
Proof using.
  intros Hle [HA HD]%andb_true_iff. unfold leaf_ad.
  rewrite (ll_A _ _ Hle HA). destruct (bool_decide (acc = Store)); [|done].
  by rewrite (ll_D _ _ Hle HD).
Qed.

(** A cached leaf that has the A and D bits an access needs permits exactly
    what the entry in memory permits, at the same physical address. *)
Lemma leaf_le_ok l acc e e' va :
  leaf_le e e' -> leaf_ad acc e = true ->
  leaf_ok c acc l e = leaf_ok c acc l e' /\ leaf_pa l e va = leaf_pa l e' va.
Proof using.
  intros Hle Had. destruct (leaf_le_facts e e' Hle) as (_ & ER & EW & EX & EU & _ & Epa).
  pose proof (leaf_le_ad acc e e' Hle Had) as Had'.
  unfold leaf_ok, leaf_perm, leaf_user, leaf_aligned, leaf_pa.
  rewrite ER, EW, EX, EU, Epa, Had, Had'. rewrite (leaf_le_shr e e' Hle 10) by lia. done.
Qed.

(** After the hart set A or D in the leaf it found, the walk finds the new leaf. *)
Lemma touched_walk m r l a e e' :
  hw_walk m root r = Some (l, a, e) -> leaf_le e e' -> 0 <= e' < 2 ^ 64 ->
  hw_walk (wr64 m a e') root r = Some (l, a, e').
Proof using.
  intros Hw Hle Hr. pose proof (hw_walk_touch m root r a e e' l r Hw Hle Hr) as Hx.
  rewrite Hw in Hx.
  destruct (hw_walk (wr64 m a e') root r) as [[[l' a'] e'']|] eqn:Hw'; [|done].
  destruct Hx as (<- & <- & _). by rewrite <- (hw_walk_entry _ _ _ _ _ _ Hw'), rd64_wr64_eq.
Qed.

Lemma walk_fill_coherent m t acc va :
  coherent m root t -> canonical va = true ->
  let '(pa, m', t') := walk_fill c m root t acc va in
  pa = fst <$> translate c m root acc va /\ coherent m' root t'.
Proof using.
  intros Hc Hcan. unfold walk_fill, translate. rewrite Hcan.
  destruct (hw_walk m root (vpath va)) as [[[l a] e]|] eqn:Hw.
  - destruct (leaf_ok c acc l e).
    + split; [done|]. destruct (Z.eqb_spec (leaf_touch c acc e) e) as [->|Hne].
      * apply coherent_insert; [done..|]. by rewrite Hw.
      * pose proof (leaf_touch_le c acc e) as Hle.
        pose proof (leaf_touch_range c acc e (hw_walk_entry_range _ _ _ _ _ _ Hw)) as Hr.
        apply coherent_insert; [|done|].
        { eapply coherent_le; [done|]. intros r. by eapply hw_walk_touch. }
        by rewrite (touched_walk m (vpath va) l a e _ Hw Hle Hr).
    + split; [done|]. apply coherent_insert; [done..|]. by rewrite Hw.
  - split; [done|]. apply coherent_insert; [done..|]. by rewrite Hw.
Qed.

(** Through a coherent cache every access gets the answer of the tables,
    whatever the hart chooses to cache, and the cache stays coherent. *)
Lemma tlb_translate_coherent hit m t acc va :
  coherent m root t ->
  let '(pa, m', t') := tlb_translate c hit m root t acc va in
  pa = fst <$> translate c m root acc va /\ coherent m' root t'.
Proof using.
  intros Hc. unfold tlb_translate. destruct (canonical va) eqn:Hcan; bsimpl.
  2: { unfold translate. by rewrite Hcan. }
  pose proof (walk_fill_coherent m t acc va Hc Hcan) as Hwalk.
  destruct hit; [|exact Hwalk].
  destruct (t !! (va / 4096)) as [[[[l a] e]|]|] eqn:Ho; [| |exact Hwalk];
    pose proof (coherent_hit _ _ _ _ Hc Ho) as Hle.
  - destruct (leaf_ad acc e) eqn:Had; [|exact Hwalk]. split; [|done].
    unfold translate. rewrite Hcan.
    destruct (hw_walk m root (vpath va)) as [[[l' a'] e']|]; [|done].
    destruct Hle as (<- & <- & Hle). destruct (leaf_le_ok l acc e e' va Hle Had) as [-> ->].
    by destruct (leaf_ok c acc l e').
  - split; [|done]. unfold translate. rewrite Hcan.
    by destruct (hw_walk m root (vpath va)) as [[[]]|].
Qed.

(** A faulting access stores nothing. *)
Lemma tlb_translate_fault hit m t acc va pa m' t' :
  tlb_translate c hit m root t acc va = (pa, m', t') -> pa = None -> m' = m.
Proof using.
  unfold tlb_translate, walk_fill. intros He ->.
  repeat case_match; simplify_eq; done.
Qed.

(** An access that a walk would answer without a write writes nothing. *)
Lemma tlb_translate_pure hit m t acc va pa pa' m' t' :
  tlb_translate c hit m root t acc va = (pa, m', t') ->
  translate c m root acc va = Some (pa', m) -> m' = m.
Proof using.
  unfold tlb_translate, walk_fill, translate. destruct (canonical va); [cbn [negb]|done].
  destruct (hw_walk m root (vpath va)) as [[[l a] e]|]; [|done].
  destruct (leaf_ok c acc l e); [|done]. intros He Ht.
  assert ((if leaf_touch c acc e =? e then m else wr64 m a (leaf_touch c acc e)) = m) as Hm
    by congruence. rewrite Hm in He.
  repeat case_match; simplify_eq; done.
Qed.

(** *** The fences restore coherence *)

Lemma sfence_vma_all_coherent m t : coherent m root (sfence_vma_all t).
Proof using. intros page o Ho. unfold sfence_vma_all in Ho. done. Qed.

(** The targeted fence suffices when only the addressed page's walk changed. *)
Lemma sfence_vma_addr_coherent m m' t va :
  coherent m root t -> canonical va = true ->
  (forall va', canonical va' = true -> va' / 4096 <> va / 4096 ->
     hw_walk m' root (vpath va') = hw_walk m root (vpath va')) ->
  coherent m' root (sfence_vma_addr va t).
Proof using.
  intros Hc Hcan Hfr page o [Ho Hk]%map_lookup_filter_Some. cbn [fst snd] in Hk.
  destruct (Hc page o Ho) as (va' & Hcan' & -> & Hw). exists va'. split_and!; [done..|].
  rewrite Hfr; [done..|]. intros E. apply negb_true_iff in Hk.
  destruct o as [[[l a] e]|]; cbn [covers] in Hk; apply Z.eqb_neq in Hk; [|done].
  apply Hk. rewrite E.
  assert (0 <= 9 * Z.of_nat l) by lia. rewrite !Z.pow_add_r by lia.
  rewrite <- !Z.div_div by lia. change (2 ^ 12) with 4096. by rewrite Z.div_mul.
Qed.
End Coherence.

(** ** Sequences of accesses *)

Section Runs.
Context (c : hwctx) (root : Z).
Implicit Types (m : mem) (t : tlb).

(** The accesses of a program with the hart's choices, and the same accesses
    answered by the tables alone. *)
Fixpoint cached_run (m : mem) (t : tlb) (l : list (access * Z * bool)) : list (option Z) * mem * tlb :=
  match l with
  | [] => ([], m, t)
  | (acc, va, hit) :: l' =>
      let '(pa, m, t) := tlb_translate c hit m root t acc va in
      let '(pas, m, t) := cached_run m t l' in (pa :: pas, m, t)
  end.
Fixpoint table_run (m : mem) (l : list (access * Z * bool)) : list (option Z) * mem :=
  match l with
  | [] => ([], m)
  | (acc, va, _) :: l' =>
      let '(pa, m) :=
        match translate c m root acc va with
        | Some (pa, m) => (Some pa, m)
        | None => (None, m)
        end in
      let '(pas, m) := table_run m l' in (pa :: pas, m)
  end.

(** A leaf that has the A and D bits of an access is not touched by it. *)
Lemma leaf_touch_ad acc e : leaf_ad acc e = true -> leaf_touch c acc e = e.
Proof using.
  unfold leaf_ad, leaf_touch. intros [HA HD]%andb_true_iff. destruct (hw_svadu c); [|done].
  rewrite tst_A in HA. rewrite tst_D in HD. bitwise. change PTE_A with (2 ^ 6).
  rewrite Z.pow2_bits_eqb by lia. destruct (Z.eqb_spec 6 i) as [<-|]; [rewrite HA; btauto|].
  destruct (bool_decide (acc = Store)); [|rewrite Z.bits_0; btauto]. change PTE_D with (2 ^ 7).
  rewrite Z.pow2_bits_eqb by lia. destruct (Z.eqb_spec 7 i) as [<-|]; [|btauto].
  cbn [negb orb] in HD. rewrite HD. btauto.
Qed.

(** The memory after an access through a coherent cache is that of the tables. *)
Lemma tlb_translate_mem hit m t acc va pa m' t' :
  coherent m root t -> tlb_translate c hit m root t acc va = (pa, m', t') ->
  m' = match translate c m root acc va with Some (_, m'') => m'' | None => m end.
Proof using.
  intros Hc. assert (forall pa m' t', canonical va = true ->
    walk_fill c m root t acc va = (pa, m', t') ->
    m' = match translate c m root acc va with Some (_, m'') => m'' | None => m end) as Hwalk.
  { intros pa0 m0 t0 Hcan. unfold walk_fill, translate. rewrite Hcan.
    destruct (hw_walk m root (vpath va)) as [[[l a] e]|]; [|by intros [= _ <- _]].
    destruct (leaf_ok c acc l e); by intros [= _ <- _]. }
  unfold tlb_translate. destruct (canonical va) eqn:Hcan; bsimpl.
  2: { unfold translate. rewrite Hcan. by intros [= _ <- _]. }
  destruct hit; [|by apply Hwalk].
  destruct (t !! (va / 4096)) as [[[[l a] e]|]|] eqn:Ho; [| |by apply Hwalk];
    pose proof (coherent_hit root m t va _ Hc Ho) as Hle.
  - destruct (leaf_ad acc e) eqn:Had; [|by apply Hwalk]. intros [= _ <- _].
    unfold translate. rewrite Hcan.
    destruct (hw_walk m root (vpath va)) as [[[l' a'] e']|]; [|done].
    destruct Hle as (_ & _ & Hle).
    assert (leaf_ad acc e' = true) as Had'.
    { unfold leaf_ad in *. apply andb_true_iff in Had as [HA HD].
      rewrite (ll_A _ _ Hle HA). destruct (bool_decide (acc = Store)); [|done].
      by rewrite (ll_D _ _ Hle HD). }
    rewrite leaf_touch_ad, Z.eqb_refl by done. by destruct (leaf_ok c acc l' e').
  - intros [= _ <- _]. unfold translate. rewrite Hcan.
    by destruct (hw_walk m root (vpath va)) as [[[]]|].
Qed.

Lemma cached_run_table m t l :
  coherent m root t ->
  (cached_run m t l).1 = table_run m l /\ coherent (cached_run m t l).1.2 root (cached_run m t l).2.
Proof using.
  revert m t. induction l as [|[[acc va] hit] l IH]; intros m t Hc; [done|]. cbn [cached_run table_run].
  pose proof (tlb_translate_coherent c root hit m t acc va Hc) as Ht.
  pose proof (tlb_translate_mem hit m t acc va) as Hm.
  destruct (tlb_translate c hit m root t acc va) as [[pa m1] t1]. destruct Ht as [-> Hc1].
  rewrite (Hm _ _ _ Hc eq_refl) in Hc1 |- *. clear Hm.
  destruct (IH _ t1 Hc1) as [E Hc2].
  destruct (cached_run _ t1 l) as [[pas m2] t2]. cbn [fst snd] in *.
  destruct (translate c m root acc va) as [[pa' m']|]; cbn [fmap option_fmap option_map fst];
    by rewrite <- E.
Qed.

(** A translation cache is invisible while it is coherent: whatever the hart
    caches and whichever cached walks it uses, a sequence of accesses gets the
    addresses and faults of the tables and leaves the same memory. *)
Theorem cache_transparent m t l :
  coherent m root t ->
  (cached_run m t l).1 = table_run m l /\ coherent (cached_run m t l).1.2 root (cached_run m t l).2.
Proof using. apply cached_run_table. Qed.

(** P1D.1: after the entry of one page changed, the fence of that page alone
    makes every later access see the new tables. *)
Theorem targeted_fence_enough m m' t va l :
  coherent m root t -> canonical va = true ->
  (forall va', canonical va' = true -> va' / 4096 <> va / 4096 ->
     hw_walk m' root (vpath va') = hw_walk m root (vpath va')) ->
  (cached_run m' (sfence_vma_addr va t) l).1 = table_run m' l.
Proof using.
  intros Hc Hcan Hfr. apply cached_run_table. by apply (sfence_vma_addr_coherent root m m' t va).
Qed.

(** P1D.2: without a fence, the next access gets the answer of the old tables or
    that of the new ones, and nothing else. *)
Theorem stale_old_or_new m m' t acc va hit :
  coherent m root t ->
  (tlb_translate c hit m' root t acc va).1.1 = fst <$> translate c m root acc va \/
  (tlb_translate c hit m' root t acc va).1.1 = fst <$> translate c m' root acc va.
Proof using.
  intros Hc. unfold tlb_translate, translate. destruct (canonical va) eqn:Hcan; bsimpl; [|by left].
  assert ((walk_fill c m' root t acc va).1.1 = fst <$> translate c m' root acc va) as Hwalk.
  { unfold walk_fill, translate. rewrite Hcan.
    destruct (hw_walk m' root (vpath va)) as [[[l a] e]|]; [|done]. by destruct (leaf_ok c acc l e). }
  unfold translate in Hwalk. rewrite Hcan in Hwalk.
  destruct hit; [|by right].
  destruct (t !! (va / 4096)) as [[[[l a] e]|]|] eqn:Ho; [| |by right].
  - destruct (leaf_ad acc e) eqn:Had; [|by right]. left.
    pose proof (coherent_hit root m t va _ Hc Ho) as Hle.
    destruct (hw_walk m root (vpath va)) as [[[l' a'] e']|]; [|done].
    destruct Hle as (<- & _ & Hle). destruct (leaf_le_ok c l acc e e' va Hle Had) as [-> ->].
    by destruct (leaf_ok c acc l e').
  - left. pose proof (coherent_hit root m t va _ Hc Ho) as Hle.
    by destruct (hw_walk m root (vpath va)) as [[[]]|].
Qed.
End Runs.

(** ** At concrete inputs: SRAM's gigapage *)

Definition giga_root : Z := 0x1000.
Definition giga_mem : mem := wr64 ∅ (giga_root + 8 * 2) (2 ^ 28 * 2 + 0xCF).
Definition hw1 : hwctx := {| hw_sum := false; hw_mxr := false; hw_svadu := true |}.

Lemma empty_coherent m root : coherent m root ∅.
Proof. apply (sfence_vma_all_coherent root m ∅). Qed.

(** A store after a load to the same page, from the cache, and an unmapped page. *)
Definition three_accesses : list (access * Z * bool) :=
  [(Load, 0x80000040, false); (Store, 0x80000048, true); (Load, 0x40000000, true)].

Lemma cache_transparent_witness :
  (cached_run hw1 giga_root giga_mem ∅ three_accesses).1.1 = [Some 0x80000040; Some 0x80000048; None].
Proof.
  destruct (cache_transparent hw1 giga_root giga_mem ∅ three_accesses (empty_coherent _ _)) as [E _].
  rewrite E. vm_compute. reflexivity.
Defined.

(** The gigapage is moved to 0xC0000000 while its old walk is cached. *)
Lemma stale_old_or_new_witness :
  let t := (cached_run hw1 giga_root giga_mem ∅ [(Load, 0x80000040, false)]).2 in
  let m' := wr64 giga_mem (giga_root + 8 * 2) (2 ^ 28 * 3 + 0xCF) in
  let pa := (tlb_translate hw1 true m' giga_root t Load 0x80000040).1.1 in
  pa = Some 0x80000040 \/ pa = Some 0xC0000040.
Proof.
  destruct (stale_old_or_new hw1 giga_root giga_mem
    (wr64 giga_mem (giga_root + 8 * 2) (2 ^ 28 * 3 + 0xCF))
    (cached_run hw1 giga_root giga_mem ∅ [(Load, 0x80000040, false)]).2 Load 0x80000040 true
    (proj2 (cached_run_table hw1 giga_root giga_mem ∅ [(Load, 0x80000040, false)] (empty_coherent _ _))))
    as [E|E]; [left|right]; cbv zeta; rewrite E; vm_compute; reflexivity.
Defined.
