(* ===== verification/TlbRel.v ===== *)
(** * Harts that differ in the cached walks they use

    A reference hart makes every walk in the tables and keeps the last one of each
    page as a log.  While the pages it touches have a logged walk that the tables
    still give ([log_agrees]), a hart that answers from cached walks as it likes
    gets the same answers, its cached walks being among the logged ones
    ([tlb_rel], [translate_rel]). *)

From S2P Require Import Prelude Platform Memory Sv39 PtTree PageMap Tlb.

(** The walk logged for the page of [va], if any, is the one the tables give. *)
Definition log_agrees (m : mem) (root : Z) (t : tlb) (va : Z) : bool :=
  match t !! (va / 4096) with
  | None => true
  | Some o => bool_decide (o = hw_walk m root (vpath va))
  end.

(** Every cached walk is a logged one, up to A and D bits set since. *)
Definition tlb_rel (t t' : tlb) : Prop :=
  forall page o, t !! page = Some o -> exists o', t' !! page = Some o' /\ walk_le o o'.

(** ** Related caches answer alike *)

Lemma tlb_rel_insert t t' page o : tlb_rel t t' -> tlb_rel (<[page := o]> t) (<[page := o]> t').
Proof.
  intros Hr p x [[<- <-]|[Hne Hx]]%lookup_insert_Some.
  - exists o. rewrite lookup_insert_eq. auto.
  - destruct (Hr p x Hx) as (x' & Hx' & Hle). exists x'. by rewrite lookup_insert_ne.
Qed.

Lemma tlb_rel_logged t t' page o o' :
  tlb_rel t t' -> t !! page = Some o -> walk_le o o' -> tlb_rel t (<[page := o']> t').
Proof.
  intros Hr Ho Hle p x Hx. destruct (decide (p = page)) as [->|Hne].
  - exists o'. rewrite lookup_insert_eq. by simplify_eq.
  - rewrite lookup_insert_ne by done. by apply Hr.
Qed.

Lemma tlb_rel_empty t : tlb_rel ∅ t.
Proof. by intros p o Ho. Qed.

Lemma covers_le o o' page va : walk_le o o' -> covers o page va = covers o' page va.
Proof. destruct o as [[[]]|], o' as [[[]]|]; cbn [walk_le covers]; [|done..]. by intros (-> & _). Qed.

Lemma tlb_rel_fence t t' va :
  tlb_rel t t' -> tlb_rel (sfence_vma_addr va t) (sfence_vma_addr va t').
Proof.
  intros Hr p o [Ho Hk]%map_lookup_filter_Some. cbn [fst snd] in Hk.
  destruct (Hr p o Ho) as (o' & Ho' & Hle). exists o'. split; [|done].
  apply map_lookup_filter_Some. split; [done|]. cbn [fst snd]. by rewrite <- (covers_le o).
Qed.

(** An entry with the bits an access needs is left alone. *)
Lemma leaf_touch_done c acc e e' : leaf_le e e' -> leaf_ad acc e = true -> leaf_touch c acc e' = e'.
Proof.
  intros Hle Had. unfold leaf_touch, leaf_ad in *. destruct (hw_svadu c); [|done].
  apply andb_true_iff in Had as [HA HD].
  assert (forall n, 0 <= n -> tst e' (2 ^ n) = true -> e' .| 2 ^ n = e') as Hlor.
  { intros n Hn Ht. rewrite tst_bit in Ht by done. apply Z.bits_inj'. intros i Hi.
    rewrite Z.lor_spec, Z.pow2_bits_eqb by done.
    destruct (Z.eqb_spec n i) as [->|]; [by rewrite Ht|by rewrite orb_false_r]. }
  change PTE_A with (2 ^ 6). change PTE_D with (2 ^ 7).
  rewrite (Hlor 6 ltac:(lia) (ll_A _ _ Hle HA)).
  destruct (bool_decide (acc = Store)); [|by rewrite Z.lor_0_r].
  exact (Hlor 7 ltac:(lia) (ll_D _ _ Hle HD)).
Qed.

Definition answers_rel (x x' : option Z * mem * tlb) : Prop :=
  let '(pa, m, t) := x in
  let '(pa', m', t') := x' in
  pa = pa' /\ m = m' /\ tlb_rel t t'.

Lemma walk_fill_rel c m root t t' acc va :
  tlb_rel t t' -> answers_rel (walk_fill c m root t acc va) (walk_fill c m root t' acc va).
Proof.
  intros Hr. unfold walk_fill. repeat case_match; simplify_eq; cbn; split_and!;
    auto using tlb_rel_insert.
Qed.

(** One translation, through the cache and through the tables. *)
Lemma translate_rel c hit m root t t' acc va :
  tlb_rel t t' -> log_agrees m root t' va = true ->
  answers_rel (tlb_translate c hit m root t acc va) (tlb_translate c false m root t' acc va).
Proof.
  intros Hr Hag. unfold tlb_translate. destruct (canonical va); cbn [negb]; [|done].
  pose proof (walk_fill_rel c m root t t' acc va Hr) as Hfill.
  destruct hit; [|done]. destruct (t !! (va / 4096)) as [o|] eqn:Ho; [|done].
  destruct (Hr _ _ Ho) as (o' & Ho' & Hle). unfold log_agrees in Hag. rewrite Ho' in Hag.
  apply bool_decide_eq_true in Hag as ->.
  destruct o as [[[l a] e]|].
  - destruct (leaf_ad acc e) eqn:Had; [|done].
    unfold walk_fill. destruct (hw_walk m root (vpath va)) as [[[l' a'] e']|]; [|done].
    cbn [walk_le] in Hle. destruct Hle as (<- & <- & Hle).
    rewrite (leaf_touch_done c acc e e' Hle Had), Z.eqb_refl.
    destruct (leaf_le_ok c l acc e e' va Hle Had) as [-> ->].
    destruct (leaf_ok c acc l e'); cbn; split_and!; try done; by eapply tlb_rel_logged.
  - unfold walk_fill. destruct (hw_walk m root (vpath va)) as [[[]]|]; [done|].
    cbn. split_and!; [done..|]. by eapply tlb_rel_logged.
Qed.

(** Where the logged walk may be stale, the answer is the one of the tables or the
    one of the log. *)
Lemma translate_either c hit m root t t' acc va :
  tlb_rel t t' ->
  exists b, answers_rel (tlb_translate c hit m root t acc va) (tlb_translate c b m root t' acc va).
Proof.
  intros Hr. pose proof (walk_fill_rel c m root t t' acc va Hr) as Hfill. unfold tlb_translate.
  destruct (canonical va); cbn [negb]; [|by exists false].
  destruct hit; [|by exists false].
  destruct (t !! (va / 4096)) as [[[[l a] e]|]|] eqn:Ho; [| |by exists false].
  - destruct (leaf_ad acc e) eqn:Had; [|by exists false]. exists true.
    destruct (Hr _ _ Ho) as ([[[l' a'] e']|] & -> & Hle); cbn [walk_le] in Hle; [|done].
    destruct Hle as (<- & <- & Hle). destruct (leaf_le_ok c l acc e e' va Hle Had) as [-> ->].
    by rewrite (leaf_le_ad acc e e' Hle Had).
  - exists true. by destruct (Hr _ _ Ho) as ([[[]]|] & -> & Hle).
Qed.
