(* ===== verification/ZephyrMmu.v ===== *)
(** * The Zephyr Sv39 MMU ([arch/riscv/core/mmu.c] of the port's patch)

    The kernel's page tables: the static pool with its [mmu_table_used] flags,
    [map_page], [map_gigapage], [unmap_page], [arch_mem_map], [arch_mem_unmap],
    the raw mapper, the walk and the boot-time initialisation (the page-fault hook
    is in [ZephyrFault]).  The pool is a second instance of the allocator interface of [PtTree].  [k_panic] is the
    result [None].  The spinlock is not modelled: the operations are whole steps. *)

From S2P Require Import Prelude Platform Memory Sv39 PtTree PageMap Tlb.

(** [mmu.c]'s state, [satp], and the hart's cached translations. *)
Record mmu := {
  z_mem : mem;
  mmu_table_used : list bool;
  kernel_root : Z;
  z_satp : Z;
  z_tlb : tlb
}.

Definition PTE_XWR : Z := PTE_R .| PTE_W .| PTE_X.
Definition SV39_LEVELS : nat := 3.
Definition PT_ENTRIES : Z := 512.
Definition PAGE_SHIFT : Z := 12.
Definition PAGE_SIZE_4K : Z := 4096.

Definition z_put (st : mmu) (a v : Z) : mmu :=
  {| z_mem := wr64 (z_mem st) a v; mmu_table_used := mmu_table_used st;
     kernel_root := kernel_root st; z_satp := z_satp st; z_tlb := z_tlb st |}.
Definition z_fence (st : mmu) : mmu :=
  {| z_mem := z_mem st; mmu_table_used := mmu_table_used st;
     kernel_root := kernel_root st; z_satp := z_satp st; z_tlb := sfence_vma_all (z_tlb st) |}.
Definition z_root (st : mmu) (r : Z) : mmu :=
  {| z_mem := z_mem st; mmu_table_used := mmu_table_used st;
     kernel_root := r; z_satp := z_satp st; z_tlb := z_tlb st |}.
Definition z_csr_write_satp (st : mmu) (v : Z) : mmu :=
  {| z_mem := z_mem st; mmu_table_used := mmu_table_used st;
     kernel_root := kernel_root st; z_satp := v; z_tlb := z_tlb st |}.

Section Mmu.
(** The address of [mmu_tables] and its number of tables
    ([CONFIG_RISCV_MMU_NUM_TABLES], 32 by default). *)
Context (mmu_tables : Z) (NUM_TABLES : nat).
(** Flags of Zephyr's [k_mem_map]. *)
Context (K_MEM_PERM_RW K_MEM_PERM_EXEC K_MEM_PERM_USER : Z).

(** The loop of [alloc_table]: the first [i] with [!mmu_table_used[i]]. *)
Fixpoint first_free (used : list bool) : option nat :=
  match used with
  | [] => None
  | b :: used' => if b then S <$> first_free used' else Some O
  end.

Definition alloc_table (st : mmu) : option (Z * mmu) :=
  match first_free (mmu_table_used st) with
  | Some i =>
      let page := mmu_tables + 4096 * Z.of_nat i in
      Some (page,
        {| z_mem := zero_words (z_mem st) page 512;
           mmu_table_used := <[i := true]> (mmu_table_used st);
           kernel_root := kernel_root st; z_satp := z_satp st; z_tlb := z_tlb st |})
  | None => None
  end.

Definition z_vpn (va : Z) (level : nat) : Z :=
  (va .>> (PAGE_SHIFT + 9 * Z.of_nat level)) .& (PT_ENTRIES - 1).
Definition pte_to_phys (pte : Z) : Z := (pte .>> PTE_PPN_SHIFT) .<< PAGE_SHIFT.
Definition phys_to_ppn (pa : Z) : Z := (pa .>> PAGE_SHIFT) .<< PTE_PPN_SHIFT.

(** [for (l = level; l > stop; l--) { ... }], [n] iterations from level [l]:
    descend, creating the tables that are missing. *)
Fixpoint table_loop (st : mmu) (tbl va : Z) (l n : nat) : option (Z * mmu) :=
  match n with
  | O => Some (tbl, st)
  | S n' =>
      let pte := tbl + 8 * z_vpn va l in
      if negb (tst (rd64 (z_mem st) pte) PTE_V) then
        match alloc_table st with
        | Some (next, st) =>
            let st := z_put st pte (phys_to_ppn next .| PTE_V) in
            table_loop st (pte_to_phys (rd64 (z_mem st) pte)) va (l - 1) n'
        | None => None
        end
      else table_loop st (pte_to_phys (rd64 (z_mem st) pte)) va (l - 1) n'
  end.

Definition map_page (st : mmu) (va pa perm : Z) : option mmu :=
  match table_loop st (kernel_root st) va (SV39_LEVELS - 1) 2 with
  | Some (tbl, st) =>
      Some (z_put st (tbl + 8 * z_vpn va 0)
              (phys_to_ppn pa .| perm .| PTE_V .| PTE_A .| PTE_D))
  | None => None
  end.

Definition map_gigapage (st : mmu) (va pa perm : Z) : mmu :=
  z_put st (kernel_root st + 8 * z_vpn va 2)
    (phys_to_ppn pa .| perm .| PTE_V .| PTE_A .| PTE_D).

(** [for (level = 2; level > 0; level--)] of [unmap_page]. *)
Fixpoint unmap_loop (st : mmu) (tbl va : Z) (level : nat) : mmu :=
  match level with
  | O => z_put st (tbl + 8 * z_vpn va 0) 0
  | S level' =>
      let pte := tbl + 8 * z_vpn va level in
      if negb (tst (rd64 (z_mem st) pte) PTE_V) then st
      else if tst (rd64 (z_mem st) pte) PTE_XWR then z_put st pte 0
      else unmap_loop st (pte_to_phys (rd64 (z_mem st) pte)) va level'
  end.
Definition unmap_page (st : mmu) (va : Z) : mmu :=
  unmap_loop st (kernel_root st) va (SV39_LEVELS - 1).

Definition perm_from_flags (flags : Z) : Z :=
  let perm := PTE_R in
  let perm := if tst flags K_MEM_PERM_RW then perm .| PTE_W else perm in
  let perm := if tst flags K_MEM_PERM_EXEC then perm .| PTE_X else perm in
  if tst flags K_MEM_PERM_USER then perm .| PTE_U else perm.

(** [for (off = 0; off < size; off += PAGE_SIZE_4K)]. *)
Fixpoint map_loop (fuel : nat) (st : mmu) (va pa size perm off : Z) : option mmu :=
  if negb (off <? size) then Some st else
  match fuel with
  | O => None
  | S fuel' =>
      match map_page st (wrap64 (va + off)) (wrap64 (pa + off)) perm with
      | Some st => map_loop fuel' st va pa size perm (wrap64 (off + PAGE_SIZE_4K))
      | None => None
      end
  end.
Fixpoint unmap_range (fuel : nat) (st : mmu) (va size off : Z) : option mmu :=
  if negb (off <? size) then Some st else
  match fuel with
  | O => None
  | S fuel' =>
      unmap_range fuel' (unmap_page st (wrap64 (va + off))) va size
        (wrap64 (off + PAGE_SIZE_4K))
  end.

(** The number of pages of a region, the fuel of its loops. *)
Definition pages_of (size : Z) : nat := Z.to_nat ((size + 4095) / 4096).

Definition arch_mem_map (st : mmu) (virt phys size flags : Z) : option mmu :=
  z_fence <$> map_loop (pages_of size) st virt phys size (perm_from_flags flags) 0.
Definition arch_mem_unmap (st : mmu) (addr size : Z) : option mmu :=
  z_fence <$> unmap_range (pages_of size) st addr size 0.

(** The address of the entry, or [None] for [NULL]. *)
Fixpoint lookup_loop (m : mem) (tbl va : Z) (level : nat) : option Z :=
  match level with
  | O => Some (tbl + 8 * z_vpn va 0)
  | S level' =>
      let pte := tbl + 8 * z_vpn va level in
      if negb (tst (rd64 m pte) PTE_V) then None
      else if tst (rd64 m pte) PTE_XWR then Some pte
      else lookup_loop m (pte_to_phys (rd64 m pte)) va level'
  end.
Definition z_riscv_mmu_pte_lookup (st : mmu) (va : Z) : option Z :=
  lookup_loop (z_mem st) (kernel_root st) va (SV39_LEVELS - 1).

(** The assertions are [None], as is the panic of [alloc_table]. *)
Definition z_riscv_mmu_map_raw (st : mmu) (va pa pte_bits : Z) (level : nat) : option mmu :=
  let leaf_span := 1 .<< (PAGE_SHIFT + 9 * Z.of_nat level) in
  if negb (Nat.ltb level SV39_LEVELS) then None
  else if negb (va mod leaf_span =? 0) then None
  else if negb (pa mod leaf_span =? 0) then None
  else
    match table_loop st (kernel_root st) va (SV39_LEVELS - 1) (SV39_LEVELS - 1 - level) with
    | Some (tbl, st) =>
        Some (z_fence (z_put st (tbl + 8 * z_vpn va level) (phys_to_ppn pa .| pte_bits)))
    | None => None
    end.

(** [for (va = start; va < end; va += PAGE_SIZE_4K) map_page(va, va, R|W|X)] *)
Fixpoint image_loop (fuel : nat) (st : mmu) (va z_end : Z) : option mmu :=
  if negb (va <? z_end) then Some st else
  match fuel with
  | O => None
  | S fuel' =>
      match map_page st va va (PTE_R .| PTE_W .| PTE_X) with
      | Some st => image_loop fuel' st (wrap64 (va + PAGE_SIZE_4K)) z_end
      | None => None
      end
  end.

Definition z_riscv_mmu_init (st : mmu) (z_mapped_start z_mapped_end : Z) : option mmu :=
  match alloc_table st with
  | Some (root, st) =>
      let st := z_root st root in
      let st := map_gigapage st 0x0 0x0 (PTE_R .| PTE_W) in
      match image_loop (pages_of (z_mapped_end - z_mapped_start)) st
              z_mapped_start z_mapped_end with
      | Some st =>
          let satp_val := (SATP_MODE_SV39 .<< 60) .| (kernel_root st .>> PAGE_SHIFT) in
          Some (z_fence (z_csr_write_satp st satp_val))
      | None => None
      end
  | None => None
  end.

(** ** The pool as an instance of the allocator interface *)

Definition z_page (i : nat) : Z := mmu_tables + 4096 * Z.of_nat i.
Definition z_used (st : mmu) (x : Z) : Prop :=
  exists i, (i < NUM_TABLES)%nat /\ mmu_table_used st !! i = Some true /\ x = z_page i.
Definition free_count (used : list bool) : Z :=
  Z.of_nat (length (List.filter negb used)).

#[export] Instance zephyr_ptstate : PtState mmu := {|
  st_mem := z_mem;
  st_put := z_put;
  st_alloc := alloc_table;
  st_used := z_used;
  st_room st :=
    if Nat.eqb (length (mmu_table_used st)) NUM_TABLES then free_count (mmu_table_used st) else 0
|}.

Lemma first_free_spec used :
  match first_free used with
  | Some i => used !! i = Some false /\ free_count (<[i := true]> used) = free_count used - 1
  | None => free_count used = 0
  end.
Proof using.
  unfold free_count. induction used as [|b used IH]; [done|]. cbn [first_free].
  destruct b; cbn [fmap option_fmap option_map List.filter negb].
  - destruct (first_free used) as [i|]; [|done]. destruct IH as [H1 H2]. split; [done|].
    exact H2.
  - split; [done|]. cbn [insert list_insert List.filter negb length]. lia.
Qed.

Lemma page_index va k : va mod 4096 = 0 -> (va + 4096 * k) / 4096 = va / 4096 + k.
Proof using. intros H. rewrite Z.add_comm, (Z.mul_comm 4096), Z.div_add_l; lia. Qed.

Lemma page_addr_ok pa j n :
  pa mod 4096 = 0 -> 0 <= pa -> pa + 4096 * n <= 2 ^ 56 -> 0 <= j < n -> is_page (pa + 4096 * j).
Proof using.
  intros Ha H0 H1 Hj. split; [|lia]. by rewrite (Z.mul_comm 4096), Z_mod_plus_full.
Qed.

(** [off < size] counts the pages of the region. *)
Lemma off_size k size :
  0 < size -> (4096 * k <? size) = (k <? Z.of_nat (pages_of size)).
Proof using.
  intros Hs. unfold pages_of. rewrite Z2Nat.id by (apply Z.div_pos; lia).
  apply eq_true_iff_eq. rewrite !Z.ltb_lt. Z.div_mod_to_equations. lia.
Qed.

Lemma perm_from_flags_range flags :
  0 <= perm_from_flags flags < 1024.
Proof using.
  unfold perm_from_flags. repeat case_goal; vm_compute; split; congruence.
Qed.

Lemma perm_from_flags_leaf flags : perm_leaf (perm_from_flags flags) = true.
Proof using. unfold perm_from_flags. by repeat case_goal. Qed.

(** What the flags of [k_mem_map] allow. *)
Definition flags_allow (flags : Z) (c : hwctx) (acc : access) : bool :=
  match acc with
  | Load => true
  | Store => tst flags K_MEM_PERM_RW
  | Fetch => tst flags K_MEM_PERM_EXEC
  end && (negb (tst flags K_MEM_PERM_USER) || (hw_sum c && negb (bool_decide (acc = Fetch)))).

Lemma perm_from_flags_allow flags c acc :
  leaf_perm c acc (perm_from_flags flags) && leaf_user c acc (perm_from_flags flags)
  = flags_allow flags c acc.
Proof using.
  unfold perm_from_flags, leaf_user, flags_allow.
  destruct (tst flags K_MEM_PERM_RW), (tst flags K_MEM_PERM_EXEC), (tst flags K_MEM_PERM_USER),
    c as [[] [] []], acc; reflexivity.
Qed.

Lemma same_page va off : va mod 4096 = 0 -> (va + off) / 4096 = va / 4096 + off / 4096.
Proof using.
  intros H. apply Z.mod_divide in H as [k ->]; [|lia].
  rewrite Z.div_mul by lia. rewrite Z.div_add_l by lia. done.
Qed.

Lemma free_count_replicate n : free_count (replicate n false) = Z.of_nat n.
Proof using.
  unfold free_count. f_equal. induction n as [|n IH]; [done|]. cbn. by rewrite IH.
Qed.

Lemma replicate_head n :
  (1 <= n)%nat -> exists fs, replicate n false = false :: fs /\ length fs = (n - 1)%nat.
Proof using.
  intros Hn. destruct n as [|n]; [lia|]. exists (replicate n false).
  split; [done|]. rewrite length_replicate. lia.
Qed.

(** Only the MMIO gigapage is mapped when the root is fresh. *)
Lemma boot_walk m root va' :
  (forall i, idx_ok i ->
     rd64 m (root + 8 * i) = if i =? 0 then leaf_pte 0 (PTE_R .| PTE_W) else 0) ->
  hw_walk m root (vpath va') =
    if vpn va' 2 =? 0 then Some (2%nat, root, leaf_pte 0 (PTE_R .| PTE_W)) else None.
Proof using.
  intros Hs. unfold vpath. cbn [hw_walk length]. rewrite Hs by apply vpn_range.
  destruct (Z.eqb_spec (vpn va' 2) 0) as [->|]; [|done]. rewrite Z.add_0_r. reflexivity.
Qed.
Definition io_allows (acc : access) (va : Z) : bool :=
  bool_decide (0 <= va < 2 ^ 30) && negb (bool_decide (acc = Fetch)).

Lemma boot_translate m m' start n z_end perm c acc va :
  perm = PTE_R .| PTE_W .| PTE_X ->
  0 < n -> start mod 4096 = 0 -> 2 ^ 30 <= start < z_end -> start + 4096 * n <= 2 ^ 38 ->
  0 <= va < 2 ^ 64 -> canonical va = true ->
  (forall i, idx_ok i ->
     rd64 m (mmu_tables + 8 * i) = if i =? 0 then leaf_pte 0 (PTE_R .| PTE_W) else 0) ->
  (exists a, hw_walk m' mmu_tables (vpath va) =
     if decide (start / 4096 + 0 <= va / 4096 < start / 4096 + n)
     then (if perm_leaf perm
           then Some (0%nat, a, leaf_pte (start + (va / 4096 - start / 4096) * 4096) perm) else None)
     else hw_walk m mmu_tables (vpath va)) ->
  translate c m' mmu_tables acc va =
    if bool_decide (start <= va < start + 4096 * n) || io_allows acc va
    then Some (va, m') else None.
Proof using.
  intros -> Hn Hal Hse Hend Hva Hc Hs (a & Hw). rewrite (boot_walk m mmu_tables va Hs) in Hw.
  assert (start = start / 4096 * 4096) as Hst by (Z.div_mod_to_equations; lia).
  case_decide as Hin.
  - rewrite bool_decide_eq_true_2 by (Z.div_mod_to_equations; lia). cbn [orb].
    change (perm_leaf (PTE_R .| PTE_W .| PTE_X)) with true in Hw. cbv iota in Hw.
    assert (start + (va / 4096 - start / 4096) * 4096 = va / 4096 * 4096) as E by lia.
    rewrite E in Hw.
    rewrite (translate_leaf (va / 4096 * 4096) (PTE_R .| PTE_W .| PTE_X)
      ltac:(split; [apply Z_mod_mult|Z.div_mod_to_equations; lia]) ltac:(by vm_compute)
      c m' mmu_tables acc va 0 a Hc Hw (Z_mod_mult _ _)).
    replace (leaf_perm _ _ _ && leaf_user _ _ _) with true by (by destruct c as [[] [] []], acc).
    change (span 0) with 4096. do 2 f_equal. Z.div_mod_to_equations; lia.
  - rewrite bool_decide_eq_false_2 by (Z.div_mod_to_equations; lia). cbn [orb].
    unfold io_allows. destruct (Z.eqb_spec (vpn va 2) 0) as [E|E].
    + apply canonical_vpn2 in E; [|lia|done|lia].
      assert (va = va mod 2 ^ 30) as Emod by (pose proof (Z.div_mod va (2 ^ 30)); lia).
      rewrite bool_decide_eq_true_2 by (pose proof (Z.mod_pos_bound va (2 ^ 30)); lia).
      rewrite (translate_leaf 0 (PTE_R .| PTE_W) ltac:(by split) ltac:(by vm_compute)
        c m' mmu_tables acc va 2 mmu_tables Hc Hw eq_refl).
      change (span 2) with (2 ^ 30). rewrite <- Emod. by destruct c as [[] [] []], acc.
    + rewrite bool_decide_eq_false_2.
      { unfold translate. by rewrite Hc, Hw. }
      intros Hr. apply E. destruct (vpn2_low va ltac:(lia)) as [-> _]. by apply Z.div_small.
Qed.

Context (Hpool : is_page mmu_tables).
Context (Hpool_end : mmu_tables + 4096 * Z.of_nat NUM_TABLES <= 2 ^ 56).

Lemma z_page_ok i : (i < NUM_TABLES)%nat -> is_page (z_page i).
Proof using Hpool Hpool_end.
  destruct Hpool as [Ha Hr]. intros Hi.
  unfold is_page, z_page. rewrite (Z.mul_comm 4096), Z_mod_plus_full. lia.
Qed.

Lemma z_page_aligned i : (i < NUM_TABLES)%nat -> z_page i mod 8 = 0.
Proof using Hpool Hpool_end.
  intros Hi. pose proof (slot_aligned (z_page i) 0 (z_page_ok i Hi)) as H.
  by rewrite Z.add_0_r in H.
Qed.

#[export] Instance zephyr_ptstate_laws : PtStateLaws mmu.
Proof using Hpool Hpool_end.
  constructor; try done. intros s Hroom. cbn [st_room zephyr_ptstate] in Hroom.
  destruct (Nat.eqb_spec (length (mmu_table_used s)) NUM_TABLES) as [Hlen|]; [|lia].
  cbn [st_alloc st_used st_room st_mem zephyr_ptstate]. unfold alloc_table.
  pose proof (first_free_spec (mmu_table_used s)) as Hf.
  destruct (first_free (mmu_table_used s)) as [i|]; [|lia]. destruct Hf as [Hi Hcount].
  assert (i < NUM_TABLES)%nat as Hlt by (apply lookup_lt_Some in Hi; lia).
  fold (z_page i). eexists _, _. split; [done|]. cbn [z_mem mmu_table_used].
  pose proof (z_page_ok i Hlt). pose proof (z_page_aligned i Hlt).
  split_and!.
  - done.
  - intros (k & Hk & Hu & E). unfold z_page in E. assert (k = i) as -> by lia. congruence.
  - intros x. unfold z_used. cbn [mmu_table_used]. split.
    + intros (k & Hk & Hu & ->). destruct (decide (k = i)) as [->|Hne]; [by left|right].
      rewrite list_lookup_insert_ne in Hu by done. by exists k.
    + intros [->|(k & Hk & Hu & ->)].
      * exists i. rewrite list_lookup_insert_eq by lia. done.
      * exists k. split_and!; [done| |done].
        destruct (decide (k = i)) as [->|]; [rewrite list_lookup_insert_eq by lia; done|].
        by rewrite list_lookup_insert_ne.
  - rewrite length_insert, Hlen, Nat.eqb_refl. done.
  - intros j Hj. unfold idx_ok in Hj. apply rd64_zero_in; [done|lia].
  - intros a Ha Hout. apply rd64_zero_out; [done..|lia].
Qed.

(** ** The loops against the shared specification *)

Lemma z_vpn_vpn va l : z_vpn va l = vpn va l.
Proof using. done. Qed.

(** The descent of [map_page] and of the raw mapper. *)
Lemma table_loop_descend n l va st tbl :
  (n <= l)%nat -> (l <= 2)%nat ->
  table_loop st tbl va l n = descend st tbl (take n (drop (2 - l) (vpath va))).
Proof using.
  revert l st tbl. induction n as [|n IH]; intros l st tbl Hn Hl; [done|].
  assert (drop (2 - l) (vpath va) = vpn va l :: drop (2 - (l - 1)) (vpath va)) as ->.
  { destruct l as [|[|[|]]]; [lia|done..|lia]. }
  cbn [take table_loop descend]. unfold ensure_child.
  cbn [st_mem st_alloc st_put zephyr_ptstate]. rewrite z_vpn_vpn.
  destruct (tst _ PTE_V); bsimpl; [apply IH; lia|].
  destruct (alloc_table st) as [[next st1]|]; [|done]. apply IH; lia.
Qed.

Lemma map_page_map_at st va pa perm :
  map_page st va pa perm = map_at st (kernel_root st) (upper_path 0 va) (vpn va 0) (leaf_pte pa perm).
Proof using.
  unfold map_page, map_at. change (SV39_LEVELS - 1)%nat with 2%nat.
  rewrite table_loop_descend by lia. done.
Qed.

Lemma map_raw_map_at st va pa bits level :
  (level <= 2)%nat -> va mod span level = 0 -> pa mod span level = 0 ->
  z_riscv_mmu_map_raw st va pa bits level =
    z_fence <$> map_at st (kernel_root st) (upper_path level va) (vpn va level)
                  (phys_to_ppn pa .| bits).
Proof using.
  intros Hl Hva Hpa. unfold z_riscv_mmu_map_raw, map_at.
  assert (1 .<< (PAGE_SHIFT + 9 * Z.of_nat level) = span level) as ->
    by (destruct level as [|[|[|]]]; [done..|lia]).
  rewrite Hva, Hpa. change (SV39_LEVELS - 1)%nat with 2%nat.
  replace (Nat.ltb level SV39_LEVELS) with true
    by (symmetry; apply Nat.ltb_lt; unfold SV39_LEVELS; lia).
  bsimpl. cbn [Z.eqb negb]. rewrite table_loop_descend by lia.
  unfold upper_path. cbn [drop Nat.sub]. by destruct (descend _ _ _) as [[]|].
Qed.

(** Well-formed kernel tables. *)
Definition z_ok (st : mmu) : Prop :=
  tables_ok st (kernel_root st) /\ length (mmu_table_used st) = NUM_TABLES.

(** The fields no mapping operation changes. *)
Record keeps (st st' : mmu) : Prop := {
  kp_root : kernel_root st' = kernel_root st;
  kp_satp : z_satp st' = z_satp st;
  kp_tlb : z_tlb st' = z_tlb st;
  kp_len : length (mmu_table_used st') = length (mmu_table_used st)
}.

Lemma keeps_refl st : keeps st st.
Proof using. done. Qed.

Lemma keeps_trans st1 st2 st3 : keeps st1 st2 -> keeps st2 st3 -> keeps st1 st3.
Proof using. intros [? ? ? ?] [? ? ? ?]. split; congruence. Qed.

Lemma table_loop_keeps n l va st tbl t st' :
  table_loop st tbl va l n = Some (t, st') -> keeps st st'.
Proof using.
  revert l st tbl. induction n as [|n IH]; intros l st tbl; cbn [table_loop].
  { intros [= _ <-]. apply keeps_refl. }
  case_goal; [|apply IH]. unfold alloc_table.
  destruct (first_free _) as [i|]; [|done]. intros H%IH.
  eapply keeps_trans; [|exact H]. split; try done. cbn. by rewrite length_insert.
Qed.

Lemma map_page_spec st va pa perm :
  z_ok st -> map_room 0 st (kernel_root st) va = true -> is_page pa -> 0 <= perm < 1024 ->
  exists st', map_page st va pa perm = Some st' /\ keeps st st' /\ z_ok st' /\
    mapped 0 st st' (kernel_root st) va (leaf_pte pa perm).
Proof using Hpool Hpool_end.
  intros [Hok Hlen] Hroom Hpa Hperm. pose proof (leaf_pte_range pa perm Hpa Hperm).
  destruct (map_level_spec 0 st (kernel_root st) va (leaf_pte pa perm))
    as (st' & Hm & Hmapped); [lia|done|lia|lia|done|].
  rewrite <- map_page_map_at in Hm. exists st'. split; [done|].
  assert (keeps st st') as Hk.
  { unfold map_page in Hm. destruct (table_loop _ _ _ _ _) as [[t st1]|] eqn:E; [|done].
    injection Hm as <-. by apply table_loop_keeps in E as [? ? ? ?]. }
  split_and!; [done| |done]. split.
  - rewrite (kp_root _ _ Hk). apply Hmapped.
  - by rewrite (kp_len _ _ Hk).
Qed.

(** *** Mapping a region *)

(** What a hart finds for [va'] once pages [k .. n-1] of a region are mapped. *)
Definition region_walk (va pa perm : Z) (k n : Z) (m m' : mem) (root : Z) : Prop :=
  forall va', canonical va' = true ->
    exists a, hw_walk m' root (vpath va') =
      if decide (va / 4096 + k <= va' / 4096 < va / 4096 + n)
      then (if perm_leaf perm
            then Some (0%nat, a, leaf_pte (pa + (va' / 4096 - va / 4096) * 4096) perm) else None)
      else hw_walk m root (vpath va').

(** The page tables a region of [n] pages may need. *)
Definition region_tables (va n : Z) : Z :=
  2 + ((va + 4096 * (n - 1)) / span 1 - va / span 1)
    + ((va + 4096 * (n - 1)) / span 2 - va / span 2).

Record region_pre (st : mmu) (va pa n : Z) : Prop := {
  rp_ok : z_ok st;
  rp_va : va mod 4096 = 0 /\ 0 <= va /\ va + 4096 * n <= 2 ^ 64;
  rp_pa : pa mod 4096 = 0 /\ 0 <= pa /\ pa + 4096 * n <= 2 ^ 56;
  rp_canonical : forall j, 0 <= j < n -> canonical (va + 4096 * j) = true;
  rp_no_leaf : forall j, 0 <= j < n ->
    no_leaf_on (z_mem st) (kernel_root st) (upper_path 0 (va + 4096 * j));
  rp_room : region_tables va n <= st_room st
}.

(** The state of [map_loop] when pages [0 .. k-1] are done. *)
Record region_inv (st0 st : mmu) (va pa perm k n : Z) : Prop := {
  ri_ok : z_ok st;
  ri_keeps : keeps st0 st;
  ri_no_leaf : forall j, 0 <= j < n ->
    no_leaf_on (z_mem st) (kernel_root st) (upper_path 0 (va + 4096 * j));
  ri_walk : region_walk va pa perm 0 k (z_mem st0) (z_mem st) (kernel_root st0);
  ri_data a : a mod 8 = 0 -> (forall x, z_used st x -> a < x \/ x + 4096 <= a) ->
    rd64 (z_mem st) a = rd64 (z_mem st0) a;
  ri_used x : z_used st0 x -> z_used st x;
  ri_room : k < n ->
    missing (z_mem st) (kernel_root st) (upper_path 0 (va + 4096 * k))
      + ((va + 4096 * (n - 1)) / span 1 - (va + 4096 * k) / span 1)
      + ((va + 4096 * (n - 1)) / span 2 - (va + 4096 * k) / span 2) <= st_room st
}.

Lemma region_inv_start st va pa perm n :
  region_pre st va pa n -> region_inv st st va pa perm 0 n.
Proof using.
  intros [Hok Hva Hpa Hc Hn Hr]. split; try done.
  - intros va' _. exists 0. rewrite decide_False; [done|]. lia.
  - intros _. unfold region_tables in Hr. rewrite Z.mul_0_r, Z.add_0_r.
    pose proof (missing_bounds (z_mem st) (kernel_root st) (upper_path 0 va)) as Hb.
    change (Z.of_nat (length (upper_path 0 va))) with 2 in Hb. lia.
Qed.

Lemma region_step st0 st va pa perm k n :
  region_pre st0 va pa n -> 0 <= perm < 1024 -> 0 <= k < n ->
  region_inv st0 st va pa perm k n ->
  exists st', map_page st (va + 4096 * k) (pa + 4096 * k) perm = Some st' /\
    region_inv st0 st' va pa perm (k + 1) n.
Proof using Hpool Hpool_end.
  intros [_ Hva Hpa Hcan _ _] Hperm Hk [Hok Hkp Hnl Hw Hd Hu Hr].
  assert (forall a b l, a <= b -> a / span l <= b / span l) as Hmono
    by (intros; apply Z.div_le_mono; [unfold span; lia|done]).
  pose proof (Hmono (va + 4096 * k) (va + 4096 * (n - 1)) 1%nat).
  pose proof (Hmono (va + 4096 * k) (va + 4096 * (n - 1)) 2%nat).
  destruct (map_page_spec st (va + 4096 * k) (pa + 4096 * k) perm)
    as (st' & He & Hkp' & Hok' & [_ (t & Ht & _ & Hwalk) Hu' Hd' Hroom' Hnl']);
    [done| |apply (page_addr_ok pa k n); lia|done|].
  { unfold map_room. apply andb_true_iff. split; [apply no_leafb_complete, Hnl; lia|].
    apply Z.leb_le. cbn [st_mem zephyr_ptstate]. lia. }
  cbn [st_mem zephyr_ptstate] in *. exists st'. split; [done|].
  assert (kernel_root st' = kernel_root st) as Hroot by apply Hkp'.
  assert (kernel_root st = kernel_root st0) as Hroot0 by apply Hkp.
  split; [done|by eapply keeps_trans| | | | |].
  - intros j Hj. rewrite Hroot. apply (Hnl' _ eq_refl); [apply upper_path_ok|]. by apply Hnl.
  - intros va' Hc'. destruct (Hw va' Hc') as (a & Ha).
    rewrite <- Hroot0 in *. rewrite Hwalk by (done || (apply Hcan; lia)).
    change (span 0) with 4096. rewrite (page_index va k) by lia.
    destruct (decide (va' / 4096 = va / 4096 + k)) as [E|Hne].
    + eexists. rewrite decide_True by lia. rewrite entry_walk_leaf
        by (done || (apply (page_addr_ok pa k n); lia)).
      rewrite E. replace ((va / 4096 + k - va / 4096) * 4096) with (4096 * k) by lia. done.
    + exists a. rewrite Ha. repeat case_decide; done || lia.
  - intros a Ha Hout. rewrite Hd' by done. apply Hd; [done|].
    intros x Hx. apply Hout. by apply Hu'.
  - intros x Hx. by apply Hu', Hu.
  - intros Hk1. rewrite Hroom', Hroot.
    pose proof (missing_next (z_mem st') (kernel_root st) (va + 4096 * k)
                  (va + 4096 * (k + 1)) t Ht ltac:(lia)) as Hmiss. lia.
Qed.

Lemma map_loop_run st0 va pa perm size :
  0 < size <= 2 ^ 64 - 4096 -> 0 <= perm < 1024 ->
  region_pre st0 va pa (Z.of_nat (pages_of size)) ->
  forall rem k st, 0 <= k -> k + Z.of_nat rem = Z.of_nat (pages_of size) ->
    region_inv st0 st va pa perm k (Z.of_nat (pages_of size)) ->
    exists st', map_loop rem st va pa size perm (4096 * k) = Some st' /\
      region_inv st0 st' va pa perm (Z.of_nat (pages_of size)) (Z.of_nat (pages_of size)).
Proof using Hpool Hpool_end.
  intros Hsize Hperm Hpre. pose proof Hpre as [_ Hva Hpa _ _ _].
  assert (4096 * Z.of_nat (pages_of size) <= size + 4095) as Hn.
  { unfold pages_of. rewrite Z2Nat.id by (apply Z.div_pos; lia). Z.div_mod_to_equations. lia. }
  induction rem as [|rem IH]; intros k st Hk Hrem Hinv; cbn [map_loop];
    rewrite off_size by lia.
  - assert (k = Z.of_nat (pages_of size)) as -> by lia. rewrite Z.ltb_irrefl. by exists st.
  - replace (k <? _) with true by (symmetry; apply Z.ltb_lt; lia). bsimpl.
    destruct (region_step st0 st va pa perm k (Z.of_nat (pages_of size)))
      as (st' & He & Hinv'); [done..|lia|done|].
    unfold PAGE_SIZE_4K. rewrite !wrap64_small, He by lia.
    replace (4096 * k + 4096) with (4096 * (k + 1)) by lia.
    apply IH; [lia..|done].
Qed.

(** ** [arch_mem_map] *)

Lemma arch_mem_map_run st va pa size flags :
  0 < size <= 2 ^ 64 - 4096 -> region_pre st va pa (Z.of_nat (pages_of size)) ->
  exists st', arch_mem_map st va pa size flags = Some (z_fence st') /\
    region_inv st st' va pa (perm_from_flags flags)
      (Z.of_nat (pages_of size)) (Z.of_nat (pages_of size)).
Proof using Hpool Hpool_end.
  intros Hsize Hpre. unfold arch_mem_map.
  destruct (map_loop_run st va pa (perm_from_flags flags) size Hsize
              (perm_from_flags_range flags) Hpre (pages_of size) 0 st) as (st' & He & Hinv);
    [lia..|by apply region_inv_start|].
  change (4096 * 0) with 0 in He. exists st'. by rewrite He.
Qed.

(** Pages mapped one by one with the permissions of [flags] translate as a region. *)
Definition region_leaves (m : mem) (root va pa flags n : Z) : Prop :=
  forall va', canonical va' = true -> va / 4096 <= va' / 4096 < va / 4096 + n ->
    exists a, hw_walk m root (vpath va')
              = Some (0%nat, a, leaf_pte (pa + (va' / 4096 - va / 4096) * 4096) (perm_from_flags flags)).

Lemma region_canonical va n off :
  va mod 4096 = 0 -> (forall j, 0 <= j < n -> canonical (va + 4096 * j) = true) ->
  0 <= off < 4096 * n -> canonical (va + off) = true.
Proof using.
  intros Hva Hcan Hoff.
  assert (0 <= off / 4096 < n) as Hj by (clear - Hoff; Z.div_mod_to_equations; lia).
  rewrite <- (Hcan (off / 4096) Hj). symmetry. apply canonical_page.
  rewrite page_index, same_page by done. done.
Qed.

Lemma region_translates m root va pa flags n off c acc :
  va mod 4096 = 0 -> pa mod 4096 = 0 -> 0 <= pa -> pa + 4096 * n <= 2 ^ 56 ->
  (forall j, 0 <= j < n -> canonical (va + 4096 * j) = true) ->
  region_leaves m root va pa flags n -> 0 <= off < 4096 * n ->
  translate c m root acc (va + off) = if flags_allow flags c acc then Some (pa + off, m) else None.
Proof using.
  clear Hpool Hpool_end. intros Hva Hpa Hpa0 Hpa1 Hcan Hl Hoff.
  pose proof (region_canonical va n off Hva Hcan Hoff) as Hc.
  assert (0 <= off / 4096 < n) as Hj by (Z.div_mod_to_equations; lia).
  destruct (Hl _ Hc) as (a & Ha); rewrite same_page in * by done; [lia|].
  replace ((va / 4096 + off / 4096 - va / 4096) * 4096) with (4096 * (off / 4096)) in Ha by lia.
  rewrite (translate_leaf _ _ (page_addr_ok pa _ n Hpa Hpa0 Hpa1 Hj)
    (perm_from_flags_range flags) c _ _ acc _ 0 a Hc Ha)
    by (change (span 0) with 4096; by rewrite (Z.mul_comm 4096), Z_mod_plus_full).
  rewrite perm_from_flags_allow. change (span 0) with 4096.
  apply Z.mod_divide in Hva as [k ->]; [|lia].
  replace ((k * 4096 + off) mod 4096) with (off mod 4096)
    by (by rewrite Z.add_comm, Z_mod_plus_full).
  pose proof (Z.div_mod off 4096). case_goal; [do 2 f_equal; lia|done].
Qed.

Lemma region_walk_leaves va pa flags n m m' root :
  region_walk va pa (perm_from_flags flags) 0 n m m' root -> region_leaves m' root va pa flags n.
Proof using.
  clear Hpool Hpool_end. intros Hw va' Hc Hin. destruct (Hw va' Hc) as (a & Ha).
  rewrite decide_True, perm_from_flags_leaf in Ha by lia. eauto.
Qed.

(** C3: [arch_mem_map] succeeds when the pool has the tables the region needs; then
    every address of the region translates to the same offset of the physical
    region, for exactly the accesses the flags allow, whatever the hart had
    cached; no other address changes its mapping. *)
Theorem arch_mem_map_translates st va pa size flags :
  0 < size <= 2 ^ 64 - 4096 -> region_pre st va pa (Z.of_nat (pages_of size)) ->
  exists st', arch_mem_map st va pa size flags = Some st' /\ z_ok st' /\
    kernel_root st' = kernel_root st /\ coherent (z_mem st') (kernel_root st') (z_tlb st') /\
    (forall off c acc, 0 <= off < 4096 * Z.of_nat (pages_of size) ->
       translate c (z_mem st') (kernel_root st') acc (va + off) =
         if flags_allow flags c acc then Some (pa + off, z_mem st') else None) /\
    (forall va', canonical va' = true ->
       ~ (va <= va' < va + 4096 * Z.of_nat (pages_of size)) ->
       hw_walk (z_mem st') (kernel_root st') (vpath va')
       = hw_walk (z_mem st) (kernel_root st) (vpath va')).
Proof using Hpool Hpool_end.
  intros Hsize Hpre.
  destruct (arch_mem_map_run st va pa size flags Hsize Hpre) as (st' & -> & [Hok Hkp _ Hw _ _ _]).
  destruct Hpre as [_ (Hva & Hva0 & _) (Hpa & Hpa0 & Hpa1) Hcan _ _].
  set (n := Z.of_nat (pages_of size)) in *.
  exists (z_fence st'). split; [done|]. cbn [z_fence z_mem kernel_root z_tlb].
  rewrite (kp_root _ _ Hkp). split_and!; [exact Hok|done|apply sfence_vma_all_coherent| |].
  - intros off c acc Hoff. apply (region_translates _ _ va pa flags n); try done.
    eapply region_walk_leaves, Hw.
  - intros va' Hc' Hout. destruct (Hw _ Hc') as (a & ->). rewrite decide_False; [done|].
    intros Hin. apply Hout. Z.div_mod_to_equations. lia.
Qed.

(** ** Unmapping *)

(** [st'] maps nothing in the span of level [l] around [va], and the rest as [st]. *)
Definition unmapped (st st' : mmu) (va : Z) (l : nat) : Prop :=
  forall va', canonical va' = true ->
    hw_walk (z_mem st') (kernel_root st) (vpath va') =
      if decide (va' / span l = va / span l) then None
      else hw_walk (z_mem st) (kernel_root st) (vpath va').

Lemma clear_unmapped l st va t :
  (l <= 2)%nat -> z_ok st -> canonical va = true ->
  tbl (z_mem st) (kernel_root st) (upper_path l va) = Some t ->
  z_ok (z_put st (t + 8 * vpn va l) 0) /\ unmapped st (z_put st (t + 8 * vpn va l) 0) va l.
Proof using Hpool Hpool_end.
  intros Hl [Hok Hlen] Hc Ht.
  destruct (write_level l st (kernel_root st) va t 0) as [Hok' Hw];
    [done..|lia|done|done|]. split; [by split|]. exact Hw.
Qed.

(** What the entry at which the loop stops meant before. *)
Definition removed (st st' : mmu) (va : Z) (l : nat) : Prop :=
  match hw_walk (z_mem st) (kernel_root st) (vpath va) with
  | Some (l', _, _) => l' = l
  | None => forall va', canonical va' = true ->
      hw_walk (z_mem st') (kernel_root st) (vpath va')
      = hw_walk (z_mem st) (kernel_root st) (vpath va')
  end.

Lemma unmapped_removed st st' va t l :
  (l <= 2)%nat -> z_ok st -> tbl (z_mem st) (kernel_root st) (upper_path l va) = Some t ->
  ((1 <= l)%nat -> pte_ptr (rd64 (z_mem st) (t + 8 * vpn va l)) = false) ->
  unmapped st st' va l -> removed st st' va l.
Proof using Hpool Hpool_end.
  intros Hl [Hok _] Ht HP Hu. unfold removed.
  pose proof (fun va' => span_walk l st (kernel_root st) va t va' Hl Hok Ht HP) as Hs.
  cbn [st_mem zephyr_ptstate] in Hs. rewrite (Hs va eq_refl).
  unfold entry_walk. case_goal; [done|]. intros va' Hc'. rewrite Hu by done.
  case_decide as E; [|done]. rewrite (Hs va' E). unfold entry_walk. by rewrite Heqb.
Qed.

Lemma unmap_loop_spec level st va t :
  (level <= 2)%nat -> z_ok st -> canonical va = true ->
  tbl (z_mem st) (kernel_root st) (upper_path level va) = Some t ->
  let st' := unmap_loop st t va level in
  z_ok st' /\ keeps st st' /\ exists l, unmapped st st' va l /\ removed st st' va l.
Proof using Hpool Hpool_end.
  revert t. induction level as [|level IH]; intros t Hl Hok Hc Ht; cbv zeta; cbn [unmap_loop];
    rewrite z_vpn_vpn.
  - destruct (clear_unmapped 0 st va t Hl Hok Hc Ht) as [Hok' Hu].
    split; [done|]. split; [done|]. exists 0%nat. split; [done|].
    eapply unmapped_removed; [lia|done..|lia|done].
  - set (e := rd64 (z_mem st) (t + 8 * vpn va (S level))).
    destruct (tst e PTE_V) eqn:HV; bsimpl.
    2: { assert (pte_ptr e = false) as HP by (unfold pte_ptr; by rewrite HV).
      assert (unmapped st st va (S level)) as Hu.
      { intros va' _. case_decide as E; [|done].
        pose proof (span_walk (S level) st (kernel_root st) va t va' Hl (proj1 Hok) Ht
                      (fun _ => HP) E) as Hs.
        cbn [st_mem zephyr_ptstate] in Hs. rewrite Hs. fold e. unfold entry_walk.
        by rewrite HV. }
      split; [done|]. split; [done|]. exists (S level). split; [exact Hu|].
      by eapply unmapped_removed. }
    destruct (tst e PTE_XWR) eqn:HX.
    + assert (pte_ptr e = false) as HP.
      { unfold pte_ptr. change PTE_RWX with PTE_XWR. by rewrite HX, andb_false_r. }
      destruct (clear_unmapped (S level) st va t Hl Hok Hc Ht) as [Hok' Hu].
      split; [done|]. split; [done|]. exists (S level). split; [done|].
      by eapply unmapped_removed.
    + apply IH; [lia|done..|]. apply (upper_path_step _ _ level); [lia|done|].
      fold e. unfold pte_ptr. rewrite HV. change PTE_RWX with PTE_XWR. by rewrite HX.
Qed.

Lemma unmap_page_spec st va :
  z_ok st -> canonical va = true ->
  let st' := unmap_page st va in
  z_ok st' /\ keeps st st' /\ exists l, unmapped st st' va l /\ removed st st' va l.
Proof using Hpool Hpool_end. intros Hok Hc. by apply unmap_loop_spec. Qed.

(** C24: [unmap_page] removes the mapping of [va] and of everything else its leaf
    mapped, and nothing more: for a page, the page; for an address inside a
    superpage, the whole superpage, 1 GB of device registers included. *)
Theorem unmap_page_unmaps st va :
  z_ok st -> canonical va = true ->
  let st' := unmap_page st va in
  z_ok st' /\ kernel_root st' = kernel_root st /\
  match hw_walk (z_mem st) (kernel_root st) (vpath va) with
  | Some (l, _, _) => unmapped st st' va l
  | None => forall va', canonical va' = true ->
      hw_walk (z_mem st') (kernel_root st) (vpath va')
      = hw_walk (z_mem st) (kernel_root st) (vpath va')
  end.
Proof using Hpool Hpool_end.
  intros Hok Hc. destruct (unmap_page_spec st va Hok Hc) as (H1 & H2 & l & Hu & Hr).
  split_and!; [exact H1|apply H2|]. unfold removed in Hr.
  destruct (hw_walk _ _ _) as [[[l' a] e]|]; [by subst l'|exact Hr].
Qed.

(** *** [arch_mem_unmap] *)

(** The region holds no superpage. *)
Definition small_pages (st : mmu) (va n : Z) : Prop :=
  forall j, 0 <= j < n ->
    match hw_walk (z_mem st) (kernel_root st) (vpath (va + 4096 * j)) with
    | Some (l, _, _) => l = 0%nat
    | None => True
    end.

Record unmap_inv (st0 st : mmu) (va k : Z) : Prop := {
  ui_ok : z_ok st;
  ui_keeps : keeps st0 st;
  ui_walk va' : canonical va' = true ->
    hw_walk (z_mem st) (kernel_root st0) (vpath va') =
      if decide (va / 4096 <= va' / 4096 < va / 4096 + k) then None
      else hw_walk (z_mem st0) (kernel_root st0) (vpath va')
}.

Lemma unmap_step st0 st va k n :
  va mod 4096 = 0 -> 0 <= k < n -> small_pages st0 va n ->
  canonical (va + 4096 * k) = true -> unmap_inv st0 st va k ->
  unmap_inv st0 (unmap_page st (va + 4096 * k)) va (k + 1).
Proof using Hpool Hpool_end.
  intros Hva Hk Hsmall Hc [Hok Hkp Hw].
  destruct (unmap_page_spec st (va + 4096 * k) Hok Hc) as (Hok' & Hkp' & l & Hu & Hr).
  split; [done|by eapply keeps_trans|]. intros va' Hc'.
  assert (kernel_root st = kernel_root st0) as Hroot by apply Hkp.
  unfold unmapped, removed in Hu, Hr. rewrite Hroot in *.
  assert ((va + 4096 * k) / 4096 = va / 4096 + k) as Hpk by (by apply page_index).
  pose proof (Hsmall k Hk) as Hs. pose proof (Hw _ Hc) as Hwk.
  rewrite Hpk, decide_False in Hwk by lia. rewrite <- Hwk in Hs.
  destruct (hw_walk (z_mem st) (kernel_root st0) (vpath (va + 4096 * k)))
    as [[[l' a] e]|] eqn:Ek.
  - subst l'. subst l. rewrite Hu, Hw by done. change (span 0) with 4096. rewrite Hpk.
    repeat case_decide; done || lia.
  - rewrite Hr, Hw by done. repeat case_decide; try done; try lia.
    assert (va' / 4096 = (va + 4096 * k) / 4096) as E by lia.
    by rewrite (page_path _ _ E), <- Hwk.
Qed.

Lemma unmap_range_run st0 va size :
  va mod 4096 = 0 -> 0 <= va -> 0 < size <= 2 ^ 64 - 4096 ->
  va + 4096 * Z.of_nat (pages_of size) <= 2 ^ 64 ->
  (forall j, 0 <= j < Z.of_nat (pages_of size) -> canonical (va + 4096 * j) = true) ->
  small_pages st0 va (Z.of_nat (pages_of size)) ->
  forall rem k st, 0 <= k -> k + Z.of_nat rem = Z.of_nat (pages_of size) ->
    unmap_inv st0 st va k ->
    exists st', unmap_range rem st va size (4096 * k) = Some st' /\
      unmap_inv st0 st' va (Z.of_nat (pages_of size)).
Proof using Hpool Hpool_end.
  intros Hva Hva0 Hsize Hend Hcan Hsmall.
  assert (4096 * Z.of_nat (pages_of size) <= size + 4095) as Hn.
  { unfold pages_of. rewrite Z2Nat.id by (apply Z.div_pos; lia). Z.div_mod_to_equations. lia. }
  induction rem as [|rem IH]; intros k st Hk Hrem Hinv; cbn [unmap_range];
    rewrite off_size by lia.
  - assert (k = Z.of_nat (pages_of size)) as -> by lia. rewrite Z.ltb_irrefl. by exists st.
  - replace (k <? _) with true by (symmetry; apply Z.ltb_lt; lia). bsimpl.
    unfold PAGE_SIZE_4K. rewrite !wrap64_small by lia.
    replace (4096 * k + 4096) with (4096 * (k + 1)) by lia.
    apply IH; [lia..|]. apply (unmap_step st0 st va k (Z.of_nat (pages_of size)));
      [done|lia|done|apply Hcan; lia|done].
Qed.

Lemma arch_mem_unmap_run st va size :
  z_ok st -> va mod 4096 = 0 -> 0 <= va -> 0 < size <= 2 ^ 64 - 4096 ->
  va + 4096 * Z.of_nat (pages_of size) <= 2 ^ 64 ->
  (forall j, 0 <= j < Z.of_nat (pages_of size) -> canonical (va + 4096 * j) = true) ->
  small_pages st va (Z.of_nat (pages_of size)) ->
  exists st', arch_mem_unmap st va size = Some (z_fence st') /\
    unmap_inv st st' va (Z.of_nat (pages_of size)).
Proof using Hpool Hpool_end.
  intros Hok Hva Hva0 Hsize Hend Hcan Hsmall. unfold arch_mem_unmap.
  destruct (unmap_range_run st va size Hva Hva0 Hsize Hend Hcan Hsmall (pages_of size) 0 st)
    as (st' & He & Hinv); [lia..| |].
  { split; [done|apply keeps_refl|]. intros va' _. rewrite decide_False by lia. done. }
  change (4096 * 0) with 0 in He. rewrite He. by exists st'.
Qed.

Lemma unmap_inv_faults st0 st va n c acc va' :
  unmap_inv st0 st va n -> va mod 4096 = 0 -> va <= va' < va + 4096 * n ->
  translate c (z_mem st) (kernel_root st0) acc va' = None.
Proof using.
  clear Hpool Hpool_end. intros [_ _ Hw] Hva Hin. unfold translate. destruct (canonical va') eqn:Hc'; [|done].
  rewrite Hw, decide_True by (done || (Z.div_mod_to_equations; lia)). done.
Qed.

(** C25: [arch_mem_unmap] of a region without superpages: its loop ends, every access
    to the region faults, whatever the hart had cached, and every other address
    keeps its mapping. *)
Theorem arch_mem_unmap_faults st va size :
  z_ok st -> va mod 4096 = 0 -> 0 <= va -> 0 < size <= 2 ^ 64 - 4096 ->
  va + 4096 * Z.of_nat (pages_of size) <= 2 ^ 64 ->
  (forall j, 0 <= j < Z.of_nat (pages_of size) -> canonical (va + 4096 * j) = true) ->
  small_pages st va (Z.of_nat (pages_of size)) ->
  exists st', arch_mem_unmap st va size = Some st' /\ z_ok st' /\
    kernel_root st' = kernel_root st /\ coherent (z_mem st') (kernel_root st') (z_tlb st') /\
    (forall c acc va', va <= va' < va + 4096 * Z.of_nat (pages_of size) ->
       translate c (z_mem st') (kernel_root st') acc va' = None) /\
    (forall va', canonical va' = true ->
       ~ (va <= va' < va + 4096 * Z.of_nat (pages_of size)) ->
       hw_walk (z_mem st') (kernel_root st') (vpath va')
       = hw_walk (z_mem st) (kernel_root st) (vpath va')).
Proof using Hpool Hpool_end.
  intros Hok Hva Hva0 Hsize Hend Hcan Hsmall.
  destruct (arch_mem_unmap_run st va size Hok Hva Hva0 Hsize Hend Hcan Hsmall) as (st' & -> & Hinv).
  pose proof Hinv as [Hok' Hkp Hw]. exists (z_fence st'). split; [done|].
  cbn [z_fence z_mem kernel_root z_tlb]. rewrite (kp_root _ _ Hkp).
  split_and!; [exact Hok'|done|apply sfence_vma_all_coherent| |].
  - intros c acc va' Hin. by eapply unmap_inv_faults.
  - intros va' Hc' Hout. rewrite Hw, decide_False by (done || (Z.div_mod_to_equations; lia)).
    done.
Qed.

(** ** The raw mapper and the walk *)

(** [z_riscv_mmu_map_raw] puts exactly the caller's entry at the caller's level:
    the hart finds that entry (or nothing, when it is not a legal leaf) for the
    whole span, and everything else as before. *)
Theorem map_raw_maps st va pa bits l :
  z_ok st -> (l <= 2)%nat -> canonical va = true ->
  va mod span l = 0 -> pa mod span l = 0 -> 0 <= pa < 2 ^ 56 -> 0 <= bits < 1024 ->
  ((1 <= l)%nat -> pte_ptr (pte_mk pa bits) = false) ->
  map_room l st (kernel_root st) va = true ->
  exists st' a, z_riscv_mmu_map_raw st va pa bits l = Some st' /\ z_ok st' /\
    kernel_root st' = kernel_root st /\ coherent (z_mem st') (kernel_root st') (z_tlb st') /\
    rd64 (z_mem st') a = pte_mk pa bits /\
    forall va', canonical va' = true ->
      hw_walk (z_mem st') (kernel_root st') (vpath va') =
        if decide (va' / span l = va / span l) then entry_walk l a (pte_mk pa bits)
        else hw_walk (z_mem st) (kernel_root st) (vpath va').
Proof using Hpool Hpool_end.
  intros [Hok Hlen] Hl Hc Hva Hpa Hpr Hbits Hnp Hroom.
  pose proof (pte_mk_range pa bits Hpr Hbits) as Hrng.
  destruct (map_level_spec l st (kernel_root st) va (pte_mk pa bits))
    as (st' & Hm & [Hok' (t & Ht & He & Hw) _ _ _ _]); [done..|lia|done|done|].
  exists (z_fence st'), (t + 8 * vpn va l).
  rewrite map_raw_map_at by done. change (phys_to_ppn pa .| bits) with (pte_mk pa bits).
  rewrite Hm. split; [done|].
  assert (keeps st st') as Hk.
  { unfold map_at in Hm. unfold upper_path in Hm.
    pose proof (table_loop_descend (2 - l) 2 va st (kernel_root st)) as Hd.
    change (drop (2 - 2) (vpath va)) with (vpath va) in Hd. rewrite <- Hd in Hm by lia.
    destruct (table_loop _ _ _ _ _) as [[t1 st1]|] eqn:E; [|done].
    injection Hm as <-. by apply table_loop_keeps in E as [? ? ? ?]. }
  cbn [z_fence z_mem kernel_root z_tlb]. rewrite (kp_root _ _ Hk).
  split_and!; [|done|apply sfence_vma_all_coherent|done|].
  - split; cbn [z_fence kernel_root mmu_table_used]; [|by rewrite (kp_len _ _ Hk)].
    rewrite (kp_root _ _ Hk). exact Hok'.
  - intros va' Hc'. by rewrite Hw.
Qed.

(** [z_riscv_mmu_pte_lookup] returns the entry the hart uses. *)
Theorem pte_lookup_finds_leaf st va l a e :
  hw_walk (z_mem st) (kernel_root st) (vpath va) = Some (l, a, e) ->
  z_riscv_mmu_pte_lookup st va = Some a /\ rd64 (z_mem st) a = e.
Proof using.
  unfold z_riscv_mmu_pte_lookup. intros Hw. split; [|by eapply hw_walk_entry].
  change (SV39_LEVELS - 1)%nat with 2%nat. cbn [lookup_loop]. change z_vpn with vpn.
  revert Hw. unfold vpath. cbn [hw_walk length]. change (pte_to_phys) with pte_pa.
  unfold PTE_XWR. rewrite !tst_lor.
  remember (rd64 (z_mem st) (kernel_root st + 8 * vpn va 2)) as e2 eqn:E2.
  remember (rd64 (z_mem st) (pte_pa e2 + 8 * vpn va 1)) as e1 eqn:E1.
  remember (rd64 (z_mem st) (pte_pa e1 + 8 * vpn va 0)) as e0 eqn:E0.
  destruct (tst e2 PTE_V), (tst e2 PTE_R), (tst e2 PTE_W), (tst e2 PTE_X),
    (pte_reserved e2); bsimpl; try (intros [= <- <- <-]; auto); try done;
    (case_goal; [done|]);
  destruct (tst e1 PTE_V), (tst e1 PTE_R), (tst e1 PTE_W), (tst e1 PTE_X),
    (pte_reserved e1); bsimpl; try (intros [= <- <- <-]; auto); try done;
    (case_goal; [done|]);
  destruct (tst e0 PTE_V), (tst e0 PTE_R), (tst e0 PTE_W), (tst e0 PTE_X),
    (pte_reserved e0); bsimpl; try (intros [= <- <- <-]; auto); try done; case_goal; done.
Qed.

(** ** Boot *)

(** The flags before the first call: every table is free. *)
Definition boot_ready (st : mmu) : Prop := mmu_table_used st = replicate NUM_TABLES false.

Lemma alloc_table_inv st c st1 :
  alloc_table st = Some (c, st1) ->
  exists i, first_free (mmu_table_used st) = Some i /\ c = z_page i /\
    length (mmu_table_used st1) = length (mmu_table_used st).
Proof using.
  unfold alloc_table. destruct (first_free _) as [i|]; [|done].
  intros [<- <-]%some_pair_inv. exists i. cbn [mmu_table_used]. by rewrite length_insert.
Qed.

(** The state when the root has its MMIO gigapage. *)
Lemma boot_root st :
  boot_ready st -> (1 <= NUM_TABLES)%nat ->
  exists st1, alloc_table st = Some (mmu_tables, st1) /\
    let st2 := map_gigapage (z_root st1 mmu_tables) 0 0 (PTE_R .| PTE_W) in
    z_ok st2 /\ kernel_root st2 = mmu_tables /\ st_room st2 = Z.of_nat NUM_TABLES - 1 /\
    forall i, idx_ok i -> rd64 (z_mem st2) (mmu_tables + 8 * i) =
      if i =? 0 then leaf_pte 0 (PTE_R .| PTE_W) else 0.
Proof using Hpool Hpool_end.
  intros Hb HN. unfold boot_ready in Hb.
  destruct (st_alloc_ok st) as (c & st1 & He & Hc & _ & Hu & Hr & Hz & _).
  { cbn [st_room zephyr_ptstate]. rewrite Hb, length_replicate, Nat.eqb_refl, free_count_replicate.
    lia. }
  cbn [st_alloc zephyr_ptstate] in He.
  destruct (alloc_table_inv st c st1 He) as (i & Hi & -> & Hlen).
  destruct (replicate_head NUM_TABLES HN) as (fs & Hfs & Hlfs).
  rewrite Hb, Hfs in Hi. cbn [first_free] in Hi. injection Hi as <-.
  assert (z_page 0 = mmu_tables) as E0 by (unfold z_page; lia). rewrite E0 in *.
  assert (length (mmu_table_used st1) = NUM_TABLES) as Hlen1
    by (rewrite Hlen, Hb; apply length_replicate).
  exists st1. split; [done|]. cbv zeta.
  assert (z_ok (z_root st1 mmu_tables)) as Hok.
  { split; cbn [z_root kernel_root mmu_table_used].
    - apply zero_root_wf; [by apply (Hu mmu_tables); left| |exact Hz].
      intros t (i & Hi & _ & ->). by apply z_page_ok.
    - exact Hlen1. }
  unfold map_gigapage. change (phys_to_ppn 0 .| (PTE_R .| PTE_W) .| PTE_V .| PTE_A .| PTE_D)
    with (leaf_pte 0 (PTE_R .| PTE_W)). change (z_vpn 0 2) with 0.
  cbn [z_root kernel_root].
  destruct (write_level 2 (z_root st1 mmu_tables) mmu_tables 0 mmu_tables
              (leaf_pte 0 (PTE_R .| PTE_W))) as [Hok' _]; [lia|apply Hok|done|..];
    [by vm_compute|done|done|].
  split_and!; [split; [exact Hok'|apply Hok]|done| |].
  - change (st_room st1 = Z.of_nat NUM_TABLES - 1). rewrite Hr.
    cbn [st_room zephyr_ptstate]. rewrite Hb, length_replicate, Nat.eqb_refl, free_count_replicate.
    lia.
  - intros i Hi. destruct (Z.eqb_spec i 0) as [->|Hne].
    { by apply rd64_wr64_eq. }
    cbn [z_put z_mem]. rewrite rd64_wr64_other; [by apply Hz|by apply slot_aligned..|lia].
Qed.

Lemma image_loop_run st0 start z_end :
  start mod 4096 = 0 -> 0 <= start < z_end ->
  region_pre st0 start start (Z.of_nat (pages_of (z_end - start))) ->
  start + 4096 * Z.of_nat (pages_of (z_end - start)) < 2 ^ 64 ->
  forall rem k st, 0 <= k -> k + Z.of_nat rem = Z.of_nat (pages_of (z_end - start)) ->
    region_inv st0 st start start (PTE_R .| PTE_W .| PTE_X) k
      (Z.of_nat (pages_of (z_end - start))) ->
    exists st', image_loop rem st (start + 4096 * k) z_end = Some st' /\
      region_inv st0 st' start start (PTE_R .| PTE_W .| PTE_X)
        (Z.of_nat (pages_of (z_end - start))) (Z.of_nat (pages_of (z_end - start))).
Proof using Hpool Hpool_end.
  intros Hal Hr Hpre Hend. set (n := Z.of_nat (pages_of (z_end - start))) in *.
  assert (forall k, (start + 4096 * k <? z_end) = (k <? n)) as Hoff.
  { intros k. pose proof (off_size k (z_end - start) ltac:(lia)) as E. fold n in E.
    rewrite <- E. apply eq_true_iff_eq. rewrite !Z.ltb_lt. lia. }
  induction rem as [|rem IH]; intros k st Hk Hrem Hinv; cbn [image_loop]; rewrite Hoff.
  - assert (k = n) as -> by lia. rewrite Z.ltb_irrefl. by exists st.
  - replace (k <? n) with true by (symmetry; apply Z.ltb_lt; lia). bsimpl.
    destruct (region_step st0 st start start (PTE_R .| PTE_W .| PTE_X) k n)
      as (st' & -> & Hinv'); [done|by vm_compute|lia|done|].
    unfold PAGE_SIZE_4K. rewrite wrap64_small by lia.
    replace (start + 4096 * k + 4096) with (start + 4096 * (k + 1)) by lia.
    apply IH; [lia..|done].
Qed.


(** C26: [z_riscv_mmu_init], from a free pool with enough tables for the image: paging
    is on at the root; the kernel image is mapped to itself for every access, the
    first gigabyte (devices) for loads and stores, and nothing else is mapped. *)
Theorem z_riscv_mmu_init_maps st start z_end :
  let n := Z.of_nat (pages_of (z_end - start)) in
  boot_ready st -> start mod 4096 = 0 -> 2 ^ 30 <= start < z_end -> start + 4096 * n <= 2 ^ 38 ->
  1 + region_tables start n <= Z.of_nat NUM_TABLES ->
  exists st', z_riscv_mmu_init st start z_end = Some st' /\ z_ok st' /\
    kernel_root st' = mmu_tables /\
    z_satp st' = (SATP_MODE_SV39 .<< 60) .| (mmu_tables .>> PAGE_SHIFT) /\
    coherent (z_mem st') mmu_tables (z_tlb st') /\
    forall c acc va, 0 <= va < 2 ^ 64 ->
      translate c (z_mem st') mmu_tables acc va =
        if bool_decide (start <= va < start + 4096 * n) || io_allows acc va
        then Some (va, z_mem st') else None.
Proof using Hpool Hpool_end.
  intros n Hb Hal Hse Hend HN.
  assert (0 < n) as Hn0.
  { unfold n, pages_of. rewrite Z2Nat.id by (apply Z.div_pos; lia). Z.div_mod_to_equations. lia. }
  assert (2 <= region_tables start n) as Hrt.
  { unfold region_tables. assert (forall l, start / span l <= (start + 4096 * (n - 1)) / span l)
      as H by (intros; apply Z.div_le_mono; [unfold span; lia|lia]).
    pose proof (H 1%nat). pose proof (H 2%nat). lia. }
  destruct (boot_root st Hb ltac:(lia)) as (st1 & He & Hok2 & Hr2 & Hroom2 & Hs2).
  set (st2 := map_gigapage (z_root st1 mmu_tables) 0 0 (PTE_R .| PTE_W)) in *.
  assert (region_pre st2 start start n) as Hpre.
  { assert (forall j, 0 <= j < n -> 0 <= start + 4096 * j < 2 ^ 38) as Hlow by (intros; lia).
    split; [done|lia|lia| | |lia].
    - intros j Hj. by apply vpn2_low, Hlow.
    - intros j Hj. rewrite Hr2. destruct (vpn2_low _ (Hlow j Hj)) as [Hv _].
      assert (1 <= (start + 4096 * j) / 2 ^ 30) by (apply Z.div_le_lower_bound; lia).
      apply no_leafb_sound. change (upper_path 0) with (fun va => [vpn va 2; vpn va 1]).
      cbn [no_leafb]. rewrite Hs2 by apply vpn_range.
      destruct (Z.eqb_spec (vpn (start + 4096 * j) 2) 0); [lia|done]. }
  destruct (image_loop_run st2 start z_end Hal ltac:(lia) Hpre ltac:(fold n; lia)
              (pages_of (z_end - start)) 0 st2) as (st3 & He3 & [Hok3 Hkp3 _ Hw3 _ _ _]);
    [lia..|by apply region_inv_start|].
  rewrite Z.mul_0_r, Z.add_0_r in He3. unfold z_riscv_mmu_init.
  rewrite He. fold st2. rewrite He3. eexists. split; [done|].
  assert (kernel_root st3 = mmu_tables) as Hr3 by (by rewrite (kp_root _ _ Hkp3)).
  cbn [z_fence z_csr_write_satp z_mem kernel_root z_tlb z_satp].
  split_and!; [exact Hok3|done|by rewrite Hr3|apply sfence_vma_all_coherent|].
  intros c acc va Hva. fold n in Hw3. rewrite Hr2 in Hw3.
  destruct (canonical va) eqn:Hc.
  2: { unfold translate. rewrite Hc. rewrite bool_decide_eq_false_2.
    2: { intros Hin. assert (0 <= va < 2 ^ 38) as Hlow by lia. apply vpn2_low in Hlow as [_ E].
      by rewrite E in Hc. }
    unfold io_allows. rewrite bool_decide_eq_false_2; [done|]. intros Hin.
    assert (0 <= va < 2 ^ 38) as Hlow by lia. apply vpn2_low in Hlow as [_ E].
    by rewrite E in Hc. }
  by apply (boot_translate _ _ start n z_end _ c acc va eq_refl Hn0 Hal Hse Hend Hva Hc Hs2 (Hw3 va Hc)).
Qed.
End Mmu.

(** ** The theorems at a concrete pool *)

Definition tables0 : Z := 0x80020000.
Definition mmu0 : mmu :=
  {| z_mem := ∅; mmu_table_used := replicate 32 false; kernel_root := 0; z_satp := 0; z_tlb := ∅ |}.

Lemma tables0_page : is_page tables0.
Proof. split; vm_compute; [done|split; [discriminate|done]]. Qed.

Lemma tables0_end : tables0 + 4096 * Z.of_nat 32 <= 2 ^ 56.
Proof. by vm_compute. Qed.

(** The root with the MMIO gigapage. *)
Definition mmio_mmu : mmu :=
  match alloc_table tables0 mmu0 with
  | Some (root, st) => map_gigapage (z_root st root) 0 0 (PTE_R .| PTE_W)
  | None => mmu0
  end.

Lemma mmio_mmu_ok : z_ok tables0 32 mmio_mmu /\ kernel_root mmio_mmu = tables0.
Proof.
  destruct (boot_root tables0 32 tables0_page tables0_end mmu0 eq_refl ltac:(lia))
    as (st1 & He & Hok & Hr & _).
  unfold mmio_mmu. rewrite He. by split.
Qed.

Definition hw0 : hwctx := {| hw_sum := false; hw_mxr := false; hw_svadu := false |}.

Lemma z_riscv_mmu_init_maps_witness :
  exists st', z_riscv_mmu_init tables0 mmu0 0x80000000 0x80003800 = Some st' /\
    translate hw0 (z_mem st') tables0 Fetch 0x80003ffc = Some (0x80003ffc, z_mem st').
Proof.
  destruct (z_riscv_mmu_init_maps tables0 32 tables0_page tables0_end mmu0 0x80000000 0x80003800
    eq_refl eq_refl ltac:(split; [vm_compute; discriminate|reflexivity])
    ltac:(vm_compute; discriminate) ltac:(vm_compute; discriminate))
    as (st' & He & _ & _ & _ & _ & Ht).
  exists st'. split; [exact He|].
  exact (Ht hw0 Fetch 0x80003ffc ltac:(split; [discriminate|reflexivity])).
Defined.

(** A region of two pages, and what mapping it needs. *)
Lemma two_pages_pre : region_pre tables0 32 mmio_mmu 0xD0000000 0x80010000 2.
Proof.
  destruct mmio_mmu_ok as [Hok Hr]. split; [done|vm_compute; split_and!; congruence
    |vm_compute; split_and!; congruence|..].
  - intros j Hj. by assert (j = 0 \/ j = 1) as [-> | ->] by lia.
  - intros j Hj. apply no_leafb_sound.
    by assert (j = 0 \/ j = 1) as [-> | ->] by lia; vm_compute.
  - by vm_compute.
Qed.

Lemma arch_mem_map_translates_witness :
  exists st', arch_mem_map tables0 8 16 32 mmio_mmu 0xD0000000 0x80010000 8192 8 = Some st' /\
    translate hw0 (z_mem st') (kernel_root st') Store (0xD0000000 + 0x1010)
    = Some (0x80010000 + 0x1010, z_mem st').
Proof.
  destruct (arch_mem_map_translates tables0 32 8 16 32 tables0_page tables0_end mmio_mmu
    0xD0000000 0x80010000 8192 8 ltac:(split; [reflexivity|discriminate]) two_pages_pre)
    as (st' & He & _ & _ & _ & Ht & _).
  exists st'. split; [exact He|].
  exact (Ht 0x1010 hw0 Store ltac:(split; [discriminate|reflexivity])).
Defined.

(** Unmapping the UART's page takes the whole device gigapage away. *)
Lemma unmap_page_unmaps_witness :
  canonical 0x10000000 = true /\
  hw_walk (z_mem (unmap_page mmio_mmu 0x10000000)) tables0 (vpath 0x02000000) = None.
Proof.
  split; [reflexivity|].
  destruct (unmap_page_unmaps tables0 32 tables0_page tables0_end mmio_mmu 0x10000000
    (proj1 mmio_mmu_ok) eq_refl) as (_ & _ & Hu).
  assert (hw_walk (z_mem mmio_mmu) (kernel_root mmio_mmu) (vpath 0x10000000)
          = Some (2%nat, tables0, leaf_pte 0 (PTE_R .| PTE_W))) as E by (vm_compute; reflexivity).
  rewrite E in Hu. specialize (Hu 0x02000000 eq_refl). rewrite (proj2 mmio_mmu_ok) in Hu. exact Hu.
Defined.

Lemma arch_mem_unmap_faults_witness :
  exists st st', map_page tables0 mmio_mmu 0xD0000000 0x80010000 PTE_R = Some st /\
    arch_mem_unmap st 0xD0000000 4096 = Some st' /\
    translate hw0 (z_mem st') (kernel_root st') Load 0xD0000008 = None.
Proof.
  destruct (map_page_spec tables0 32 tables0_page tables0_end mmio_mmu 0xD0000000 0x80010000 PTE_R
    (proj1 mmio_mmu_ok) ltac:(rewrite (proj2 mmio_mmu_ok); vm_compute; reflexivity)
    ltac:(split; [reflexivity|split; [discriminate|reflexivity]])
    ltac:(split; [discriminate|reflexivity])) as (st & He & Hk & Hok & Hm).
  destruct (arch_mem_unmap_faults tables0 32 tables0_page tables0_end st 0xD0000000 4096)
    as (st' & He' & _ & _ & _ & Hf & _).
  - exact Hok.
  - reflexivity.
  - discriminate.
  - split; [reflexivity|discriminate].
  - vm_compute; discriminate.
  - intros j Hj. assert (j = 0) as -> by (change (Z.of_nat (pages_of 4096)) with 1 in Hj; lia).
    reflexivity.
  - intros j Hj. assert (j = 0) as -> by (change (Z.of_nat (pages_of 4096)) with 1 in Hj; lia).
    destruct (md_slot _ _ _ _ _ _ Hm) as (t & _ & _ & Hw).
    rewrite (kp_root _ _ Hk). cbn [st_mem zephyr_ptstate] in Hw.
    rewrite (Hw (0xD0000000 + 4096 * 0) eq_refl eq_refl). reflexivity.
  - exists st, st'. split; [exact He|]. split; [exact He'|].
    apply Hf. split; [discriminate|reflexivity].
Defined.

(** The suite's megapage (P1D.4). *)
Lemma map_raw_maps_witness :
  exists st' a, z_riscv_mmu_map_raw tables0 mmio_mmu 0xE0200000 0x80000000 0xCF 1 = Some st' /\
    hw_walk (z_mem st') (kernel_root st') (vpath 0xE03FE000)
    = Some (1%nat, a, pte_mk 0x80000000 0xCF).
Proof.
  destruct (map_raw_maps tables0 32 tables0_page tables0_end mmio_mmu 0xE0200000 0x80000000 0xCF 1
    (proj1 mmio_mmu_ok) ltac:(lia) eq_refl eq_refl eq_refl
    ltac:(split; [discriminate|reflexivity]) ltac:(split; [discriminate|reflexivity])
    (fun _ => eq_refl) ltac:(rewrite (proj2 mmio_mmu_ok); vm_compute; reflexivity))
    as (st' & a & He & _ & _ & _ & _ & Hw).
  exists st', a. split; [exact He|]. rewrite Hw by reflexivity. reflexivity.
Defined.

Lemma pte_lookup_finds_leaf_witness :
  z_riscv_mmu_pte_lookup mmio_mmu 0x10000005 = Some tables0.
Proof.
  exact (proj1 (pte_lookup_finds_leaf mmio_mmu 0x10000005 2 tables0
    (leaf_pte 0 (PTE_R .| PTE_W)) ltac:(vm_compute; reflexivity))).
Defined.
