(* ===== verification/ZephyrFault.v ===== *)
(** * The resumable page-fault hook of the Zephyr port

    [z_riscv_fault]'s hook ([fatal.c] in the port's patch), the two resolvers the
    Zephyr suite registers ([p1c_fixup], [p2_fixup]), and the access they resume:
    a faulting access is retried exactly once and succeeds. *)

From S2P Require Import Prelude Platform Memory Sv39 PtTree PageMap Tlb ZephyrMmu.

Definition EXC_INST_PAGE_FAULT : Z := 12.
Definition EXC_LOAD_PAGE_FAULT : Z := 13.
Definition EXC_STORE_PAGE_FAULT : Z := 15.

(** The kernel's MMU state and the test's [fix_count]. *)
Record ztest := { zt_mmu : mmu; zt_fix_count : Z }.

(** [bool ( *fn)(unsigned long scause, unsigned long stval)] *)
Definition resolver : Type := Z -> Z -> ztest -> bool * ztest.

(** [*pte |= mask; sfence.vma; fix_count++]. *)
Definition fix_pte (st : ztest) (pte mask : Z) : ztest :=
  {| zt_mmu := z_fence (z_put (zt_mmu st) pte (rd64 (z_mem (zt_mmu st)) pte .| mask));
     zt_fix_count := s32 (zt_fix_count st + 1) |}.

Definition p1c_fixup : resolver := fun scause stval st =>
  match z_riscv_mmu_pte_lookup (zt_mmu st) stval with
  | None => (false, st)
  | Some pte =>
      if scause =? EXC_LOAD_PAGE_FAULT
      then (true, fix_pte st pte (PTE_V .| PTE_R .| PTE_A))
      else if scause =? EXC_STORE_PAGE_FAULT
      then (true, fix_pte st pte (PTE_V .| PTE_R .| PTE_W .| PTE_A .| PTE_D))
      else if scause =? EXC_INST_PAGE_FAULT
      then (true, fix_pte st pte (PTE_V .| PTE_R .| PTE_X .| PTE_A))
      else (false, st)
  end.

Definition p2_fixup : resolver := fun scause stval st =>
  if negb (scause =? EXC_LOAD_PAGE_FAULT) then (false, st)
  else match z_riscv_mmu_pte_lookup (zt_mmu st) stval with
       | None => (false, st)
       | Some pte => (true, fix_pte st pte (PTE_V .| PTE_R .| PTE_A))
       end.

(** [mmu_fault_fixup] is [NULL] or a resolver; setting it discards the old one. *)
Definition z_riscv_mmu_set_fault_fixup (fn mmu_fault_fixup : option resolver) : option resolver := fn.

Definition z_riscv_mmu_try_fault_fixup (mmu_fault_fixup : option resolver)
    (scause stval : Z) (st : ztest) : bool * ztest :=
  match mmu_fault_fixup with
  | None => (false, st)
  | Some fn => fn scause stval st
  end.

(** The hook: [true] when [z_riscv_fault] returns and the instruction is retried,
    [false] when it goes on to the fatal path. *)
Definition z_riscv_fault (mmu_fault_fixup : option resolver) (scause stval : Z) (st : ztest)
    : bool * ztest :=
  if (scause =? 12) || (scause =? 13) || (scause =? 15)
  then z_riscv_mmu_try_fault_fixup mmu_fault_fixup scause stval st
  else (false, st).

Definition set_mem_tlb (st : ztest) (m : mem) (t : tlb) : ztest :=
  {| zt_mmu := {| z_mem := m; mmu_table_used := mmu_table_used (zt_mmu st);
                  kernel_root := kernel_root (zt_mmu st); z_satp := z_satp (zt_mmu st);
                  z_tlb := t |};
     zt_fix_count := zt_fix_count st |}.

Inductive z_outcome :=
| Accessed (pa : Z)
| FatalFault (scause stval : Z)
| StillFaulting.

(** One access of a thread: translate, and on a fault run the hook and retry;
    [hit] says which attempts use a cached walk. *)
Fixpoint z_access (fuel : nat) (fixup : option resolver) (c : hwctx) (hit : nat -> bool)
    (acc : access) (va : Z) (st : ztest) : z_outcome * ztest :=
  let '(pa, m, t) := tlb_translate c (hit fuel) (z_mem (zt_mmu st)) (kernel_root (zt_mmu st))
                       (z_tlb (zt_mmu st)) acc va in
  let st := set_mem_tlb st m t in
  match pa with
  | Some pa => (Accessed pa, st)
  | None =>
      let '(retry, st) := z_riscv_fault fixup (fault_cause acc) va st in
      if retry
      then match fuel with
           | O => (StillFaulting, st)
           | S fuel' => z_access fuel' fixup c hit acc va st
           end
      else (FatalFault (fault_cause acc) va, st)
  end.

Definition p1c_mask (acc : access) : Z :=
  match acc with
  | Load => PTE_V .| PTE_R .| PTE_A
  | Store => PTE_V .| PTE_R .| PTE_W .| PTE_A .| PTE_D
  | Fetch => PTE_V .| PTE_R .| PTE_X .| PTE_A
  end.

Section Fault.
Context (mmu_tables : Z) (NUM_TABLES : nat) (Hpool : is_page mmu_tables).
Context (Hpool_end : mmu_tables + 4096 * Z.of_nat NUM_TABLES <= 2 ^ 56).

Abbreviation root st := (kernel_root (zt_mmu st)).
Abbreviation zmem st := (z_mem (zt_mmu st)).

(** A page with a last-level table and an entry a resolver may repair. *)
Record repairable (c : hwctx) (acc : access) (st : ztest) (va e t : Z) : Prop := {
  rb_ok : z_ok mmu_tables NUM_TABLES (zt_mmu st);
  rb_canonical : canonical va = true;
  rb_tbl : tbl (zmem st) (root st) (upper_path 0 va) = Some t;
  rb_entry : rd64 (zmem st) (t + 8 * vpn va 0) = e;
  rb_reserved : e .>> 54 = 0;
  rb_user : leaf_user c acc e = true
}.

Lemma pte_lookup_tbl st va t :
  tbl (z_mem st) (kernel_root st) (upper_path 0 va) = Some t ->
  z_riscv_mmu_pte_lookup st va = Some (t + 8 * vpn va 0).
Proof using.
  intros Ht. apply tbl_two in Ht as (V2 & X2 & V1 & X1 & <-).
  unfold z_riscv_mmu_pte_lookup. change (SV39_LEVELS - 1)%nat with 2%nat.
  cbn [lookup_loop]. change z_vpn with vpn. change pte_to_phys with pte_pa.
  change PTE_XWR with PTE_RWX. rewrite V2, X2. bsimpl. by rewrite V1, X1.
Qed.

(** The hook with [p1c_fixup] runs the right repair. *)
Lemma p1c_fault acc va st c e t :
  repairable c acc st va e t ->
  z_riscv_fault (Some p1c_fixup) (fault_cause acc) va st
  = (true, fix_pte st (t + 8 * vpn va 0) (p1c_mask acc)).
Proof using.
  intros [_ _ Ht _ _ _]. unfold z_riscv_fault, z_riscv_mmu_try_fault_fixup, p1c_fixup.
  rewrite (pte_lookup_tbl _ _ _ Ht). by destruct acc.
Qed.

(** After the repair the tables translate the access. *)
Lemma p1c_repaired acc va st c e t :
  repairable c acc st va e t ->
  let st' := fix_pte st (t + 8 * vpn va 0) (p1c_mask acc) in
  z_ok mmu_tables NUM_TABLES (zt_mmu st') /\ root st' = root st /\
  fst <$> translate c (zmem st') (root st') acc va = Some (pte_pa e + va mod 4096).
Proof using All.
  intros [[Hok Hlen] Hc Ht He Hres Hu]; cbv zeta.
  destruct (repair_translates (H := zephyr_ptstate mmu_tables NUM_TABLES)
              (H0 := zephyr_ptstate_laws mmu_tables NUM_TABLES Hpool Hpool_end) 0 (zt_mmu st)
              (root st) va t e (p1c_mask acc) c acc) as [Hok' Htr];
    [lia|exact Hok|exact Ht|exact He|done|done| |done|by destruct acc..|].
  { unfold leaf_aligned. change (Z.ones (9 * Z.of_nat 0)) with 0. by rewrite Z.land_0_r. }
  unfold fix_pte. cbn [zt_mmu z_fence z_put z_mem kernel_root]. rewrite He.
  split_and!; [split; [exact Hok'|exact Hlen]|done|].
  cbn [st_mem st_put zephyr_ptstate z_put z_mem] in Htr. by rewrite Htr.
Qed.

(** C6: Fix and retry: with [p1c_fixup] registered, an access of any kind that faults
    on a page whose entry lacks V, a permission, A or D is resumed, succeeds on
    its first retry at the physical page of the entry, and counts one repair. *)
Theorem p1c_fix_and_retry c hit acc va e t st :
  repairable c acc st va e t -> coherent (zmem st) (root st) (z_tlb (zt_mmu st)) ->
  translate c (zmem st) (root st) acc va = None ->
  exists st', z_access 1 (Some p1c_fixup) c hit acc va st
              = (Accessed (pte_pa e + va mod 4096), st') /\
    zt_fix_count st' = s32 (zt_fix_count st + 1) /\
    coherent (zmem st') (root st') (z_tlb (zt_mmu st')).
Proof using All.
  intros Hrep Hcoh Hnone. cbn [z_access].
  pose proof (tlb_translate_coherent c (root st) (hit 1%nat) _ _ acc va Hcoh) as H1.
  destruct (tlb_translate c (hit 1%nat) (zmem st) _ _ acc va) as [[pa m] tl] eqn:E1.
  destruct H1 as [-> Hcoh1]. rewrite Hnone in E1 |- *. cbn [fmap option_fmap option_map].
  pose proof (tlb_translate_fault _ _ _ _ _ _ _ _ _ _ E1 eq_refl) as ->.
  assert (repairable c acc (set_mem_tlb st (zmem st) tl) va e t) as Hrep1.
  { by destruct Hrep as [[? ?] ? ? ? ? ?]. }
  rewrite (p1c_fault acc va _ c e t Hrep1).
  destruct (p1c_repaired acc va _ c e t Hrep1) as (_ & Hroot & Htr).
  set (st2 := fix_pte _ _ _) in *.
  pose proof (sfence_vma_all_coherent (root st2) (zmem st2) tl) as Hcoh2.
  change (sfence_vma_all tl) with (z_tlb (zt_mmu st2)) in Hcoh2.
  pose proof (tlb_translate_coherent c (root st2) (hit O) _ _ acc va Hcoh2) as H2.
  destruct (tlb_translate c (hit O) (zmem st2) _ _ acc va) as [[pa m2] tl2].
  destruct H2 as [-> Hcoh3]. rewrite Htr. eexists. by split_and!.
Qed.

(** Without a resolver the hook changes nothing and the fault is fatal. *)
Theorem no_resolver_fatal c hit acc va st fuel :
  coherent (zmem st) (root st) (z_tlb (zt_mmu st)) ->
  translate c (zmem st) (root st) acc va = None ->
  exists st', z_access fuel None c hit acc va st = (FatalFault (fault_cause acc) va, st') /\
    zmem st' = zmem st /\ zt_fix_count st' = zt_fix_count st.
Proof using.
  intros Hcoh Hnone. destruct fuel; cbn [z_access];
    match goal with |- context [hit ?n] =>
      pose proof (tlb_translate_coherent c (root st) (hit n) _ _ acc va Hcoh) as H1;
      destruct (tlb_translate c (hit n) (zmem st) (root st) (z_tlb (zt_mmu st)) acc va)
        as [[pa m] tl] eqn:E1 end;
    destruct H1 as [-> _]; rewrite Hnone in E1 |- *; cbn [fmap option_fmap option_map];
    pose proof (tlb_translate_fault _ _ _ _ _ _ _ _ _ _ E1 eq_refl) as ->;
    unfold z_riscv_fault, z_riscv_mmu_try_fault_fixup; destruct (_ || _); eexists; by split_and!.
Qed.
End Fault.

(** ** At concrete inputs: P1C.2, a store to a read-only page *)

Lemma read_only_page :
  exists st t, map_page tables0 mmio_mmu 0xD0110000 0x80010000 PTE_R = Some st /\
    repairable tables0 32 hw0 Store {| zt_mmu := st; zt_fix_count := 0 |} 0xD0110000
      (leaf_pte 0x80010000 PTE_R) t /\
    coherent (z_mem st) (kernel_root st) (z_tlb st) /\
    translate hw0 (z_mem st) (kernel_root st) Store 0xD0110000 = None.
Proof.
  destruct (map_page_spec tables0 32 tables0_page tables0_end mmio_mmu 0xD0110000 0x80010000 PTE_R
    (proj1 mmio_mmu_ok) ltac:(rewrite (proj2 mmio_mmu_ok); by vm_compute)
    ltac:(by split) ltac:(by split)) as (st & He & Hk & Hok & Hm).
  destruct (md_slot _ _ _ _ _ _ Hm) as (t & Ht & Hs & Hw). cbn [st_mem zephyr_ptstate] in *.
  exists st, t. split; [done|].
  assert (kernel_root st = kernel_root mmio_mmu) as Hr by apply Hk.
  split_and!.
  - split; cbn [zt_mmu]; [exact Hok|reflexivity|rewrite Hr; exact Ht|exact Hs
      |by vm_compute|by vm_compute].
  - assert (z_tlb st = ∅) as -> by (rewrite (kp_tlb _ _ Hk); by vm_compute).
    apply (sfence_vma_all_coherent _ _ ∅).
  - unfold translate. rewrite Hr, (Hw 0xD0110000 eq_refl eq_refl), decide_True by reflexivity.
    by vm_compute.
Qed.

Lemma p1c_fix_and_retry_witness :
  exists st st', translate hw0 (z_mem (zt_mmu st)) (kernel_root (zt_mmu st)) Store 0xD0110000 = None /\
    z_access 1 (Some p1c_fixup) hw0 (fun _ => true) Store 0xD0110000 st
    = (Accessed 0x80010000, st').
Proof.
  destruct read_only_page as (st & t & _ & Hrep & Hcoh & Hnone).
  destruct (p1c_fix_and_retry tables0 32 tables0_page tables0_end hw0 (fun _ => true) Store
    0xD0110000 _ t _ Hrep Hcoh Hnone) as (st' & He & _).
  exists {| zt_mmu := st; zt_fix_count := 0 |}, st'. split; [exact Hnone|]. exact He.
Defined.

Lemma no_resolver_fatal_witness :
  exists st st', z_access 3 None hw0 (fun _ => false) Store 0xD0110000 st
    = (FatalFault 15 0xD0110000, st').
Proof.
  destruct read_only_page as (st & t & _ & Hrep & Hcoh & Hnone).
  destruct (no_resolver_fatal hw0 (fun _ => false) Store 0xD0110000
    {| zt_mmu := st; zt_fix_count := 0 |} 3 Hcoh Hnone) as (st' & He & _).
  exists {| zt_mmu := st; zt_fix_count := 0 |}, st'. exact He.
Defined.
