(* ===== verification/ZSuite.v ===== *)
(** * The MMU programs of the Zephyr suite

    [zephyr-suite/p1a_mmu_enable], [p1b_fault_gen], [p1c_fault_handle] and
    [p1d_tlb_ptw]: every test that only uses the port's MMU functions, as a
    program over the kernel's MMU state ([ZephyrMmu]), the resumable page-fault
    hook ([ZephyrFault]) and the hart's cached translations.  [printk] is left
    out; [zassert_*], [ztest_test_fail] and [ztest_test_pass] end a test with
    their verdict, as ztest does.  Accesses go through the tables, the image's
    own variables included; an entry of the tables is read and written at its
    physical address.  The tests that take their address from [k_mem_map]
    (P1B.5b, 6b and 9) are not modelled: that function is the kernel's. *)

From S2P Require Import Prelude Platform Memory Sv39 Tlb ZephyrMmu ZephyrFault.

(** ** A test's state and its monad *)

Record zworld := mk_zworld {
  zw_test : ztest;
  mmu_fault_fixup : option resolver;
  expect_fault : bool;
  expected_scause : Z;
  expected_stval : Z;
  zw_hw : hwctx;
  zw_steps : nat
}.

Inductive ztest_verdict := ZPass | ZFail.

(** A value, the verdict that ended the test's thread, a kernel panic (a failed
    [__ASSERT] or [k_panic]), or a fault that is retried without end or code the
    test did not plant. *)
Inductive zresult (A : Type) :=
| ZRet (a : A) (w : zworld)
| ZEnd (v : ztest_verdict) (w : zworld)
| ZPanic
| ZHang.
Arguments ZRet {A}. Arguments ZEnd {A}. Arguments ZPanic {A}. Arguments ZHang {A}.

Definition T (A : Type) : Type := zworld -> zresult A.
#[export] Instance T_ret : MRet T := fun A a w => ZRet a w.
#[export] Instance T_bind : MBind T := fun A B k m w =>
  match m w with
  | ZRet a w => k a w
  | ZEnd v w => ZEnd v w
  | ZPanic => ZPanic
  | ZHang => ZHang
  end.

Definition z_gets {A} (f : zworld -> A) : T A := fun w => ZRet (f w) w.
Definition z_modify (f : zworld -> zworld) : T unit := fun w => ZRet tt (f w).
Definition z_mmu_of (w : zworld) : mmu := zt_mmu (zw_test w).

Definition with_tlb (t : tlb) (st : mmu) : mmu :=
  {| z_mem := z_mem st; mmu_table_used := mmu_table_used st; kernel_root := kernel_root st;
     z_satp := z_satp st; z_tlb := t |}.
Definition mem_of (w : zworld) : mem := z_mem (z_mmu_of w).

Definition set_test (t : ztest) (w : zworld) : zworld :=
  mk_zworld t (mmu_fault_fixup w) (expect_fault w) (expected_scause w) (expected_stval w)
    (zw_hw w) (zw_steps w).
Definition set_mmu (st : mmu) (w : zworld) : zworld :=
  set_test {| zt_mmu := st; zt_fix_count := zt_fix_count (zw_test w) |} w.
Definition set_fixup (r : option resolver) (w : zworld) : zworld :=
  mk_zworld (zw_test w) r (expect_fault w) (expected_scause w) (expected_stval w)
    (zw_hw w) (zw_steps w).
Definition set_expect (b : bool) (w : zworld) : zworld :=
  mk_zworld (zw_test w) (mmu_fault_fixup w) b (expected_scause w) (expected_stval w)
    (zw_hw w) (zw_steps w).
Definition set_expected (scause stval : Z) (w : zworld) : zworld :=
  mk_zworld (zw_test w) (mmu_fault_fixup w) (expect_fault w) scause stval
    (zw_hw w) (zw_steps w).
Definition set_hw (c : hwctx) (w : zworld) : zworld :=
  mk_zworld (zw_test w) (mmu_fault_fixup w) (expect_fault w) (expected_scause w)
    (expected_stval w) c (zw_steps w).
Definition z_tick (w : zworld) : zworld :=
  mk_zworld (zw_test w) (mmu_fault_fixup w) (expect_fault w) (expected_scause w)
    (expected_stval w) (zw_hw w) (S (zw_steps w)).

(** The first of two programs returns, or ends the test. *)
Lemma then_ret {A B} (m : T A) (k : A -> T B) a w w' : m w = ZRet a w' -> mbind k m w = k a w'.
Proof. intros E. unfold mbind, T_bind. by rewrite E. Qed.
Lemma then_end {A B} (m : T A) (k : A -> T B) v w w' : m w = ZEnd v w' -> mbind k m w = ZEnd v w'.
Proof. intros E. unfold mbind, T_bind. by rewrite E. Qed.

(** [for (i = i0; i < i0 + n; i++) body(i)]. *)
Fixpoint z_for (n : nat) (i : Z) (body : Z -> T unit) : T unit :=
  match n with
  | O => mret tt
  | S n' => body i ;; z_for n' (i + 1) body
  end.

Definition z_hang {A} : T A := fun _ => ZHang.

(** ** ztest *)

Definition ztest_test_fail {A} : T A := fun w => ZEnd ZFail w.
Definition ztest_test_pass {A} : T A := fun w => ZEnd ZPass w.
Definition zassert (b : bool) : T unit := if b then mret tt else ztest_test_fail.

(** ** The kernel, as the tests call it *)

Definition z_map_op (f : mmu -> option mmu) : T unit := fun w =>
  match f (z_mmu_of w) with
  | Some st => ZRet tt (set_mmu st w)
  | None => ZPanic
  end.
Definition pte_read (pte : Z) : T Z := z_gets (fun w => rd64 (z_mem (z_mmu_of w)) pte).
Definition pte_write (pte v : Z) : T unit := z_modify (fun w => set_mmu (z_put (z_mmu_of w) pte v) w).
Definition z_sfence : T unit := z_modify (fun w => set_mmu (z_fence (z_mmu_of w)) w).
Definition z_sfence_addr (va : Z) : T unit :=
  z_modify (fun w =>
    let st := z_mmu_of w in
    set_mmu {| z_mem := z_mem st; mmu_table_used := mmu_table_used st;
               kernel_root := kernel_root st; z_satp := z_satp st;
               z_tlb := sfence_vma_addr va (z_tlb st) |} w).

(** The leaf's entry, after [zassert_not_null]. *)
Definition leaf_of (va : Z) : T Z :=
  p ← z_gets (fun w => z_riscv_mmu_pte_lookup (z_mmu_of w) va);
  match p with
  | Some pte => mret pte
  | None => ztest_test_fail
  end.

Definition set_fault_fixup (fn : option resolver) : T unit :=
  z_modify (fun w => set_fixup (z_riscv_mmu_set_fault_fixup fn (mmu_fault_fixup w)) w).

Definition INSN_RET : Z := 0x00008067.

(** How often a repaired access may fault again before the run is cut off. *)
Definition z_retries : nat := 4.

(** ** Accesses *)

(** One access of the test's thread.  [hit] is the hart's choice (access number,
    retries left: use a cached walk?); a fatal fault runs the program's handler. *)
Definition z_acc (hit : nat -> nat -> bool) (k_sys_fatal_error_handler : Z -> Z -> T unit)
    (acc : access) (va : Z) : T Z := fun w =>
  let '(o, t) := z_access z_retries (mmu_fault_fixup w) (zw_hw w) (hit (zw_steps w)) acc va
                   (zw_test w) in
  let w := z_tick (set_test t w) in
  match o with
  | Accessed pa => ZRet pa w
  | FatalFault scause stval =>
      mbind (M := T) (fun _ => z_hang) (k_sys_fatal_error_handler scause stval) w
  | StillFaulting => ZHang
  end.

Section Access.
(** An access: [z_acc] with a handler, in the programs. *)
Context (acc : access -> Z -> T Z).

Definition z_load64 (va : Z) : T Z :=
  pa ← acc Load va; z_gets (fun w => rd64 (z_mem (z_mmu_of w)) pa).
Definition z_store (va : Z) (f : mem -> Z -> mem) : T unit :=
  pa ← acc Store va;
  z_modify (fun w =>
    let st := z_mmu_of w in
    set_mmu {| z_mem := f (z_mem st) pa; mmu_table_used := mmu_table_used st;
               kernel_root := kernel_root st; z_satp := z_satp st; z_tlb := z_tlb st |} w).
Definition z_store64 (va v : Z) : T unit := z_store va (fun m pa => wr64 m pa v).
Definition z_store32 (va v : Z) : T unit := z_store va (fun m pa => wr32 m pa v).

(** A call to code that starts with [ret]. *)
Definition z_call (va : Z) : T unit :=
  pa ← acc Fetch va;
  insn ← z_gets (fun w => rd32 (z_mem (z_mmu_of w)) pa);
  if insn =? INSN_RET then mret tt else z_hang.
End Access.

(** The handler of P1A and P1D, which expect no fault. *)
Definition handler_unexpected (scause stval : Z) : T unit := ztest_test_fail.

(** The handler of P1B and P1C. *)
Definition handler_expected (scause stval : Z) : T unit :=
  b ← z_gets expect_fault;
  (if negb b then ztest_test_fail else mret tt) ;;
  z_modify (set_expect false) ;;
  esc ← z_gets expected_scause;
  est ← z_gets expected_stval;
  (if negb (scause =? esc) || negb (stval =? est) then ztest_test_fail else mret tt) ;;
  ztest_test_pass.

Definition expect (scause stval : Z) : T unit :=
  z_modify (set_expected scause stval) ;; z_modify (set_expect true).

Section Programs.
(** The accesses of a program with a given handler. *)
Context (acc : (Z -> Z -> T unit) -> access -> Z -> T Z).
(** The pool of tables, and the flags of [k_mem_map]. *)
Context (mmu_tables K_MEM_PERM_RW K_MEM_PERM_EXEC K_MEM_PERM_USER : Z).

Definition map_raw (va pa bits : Z) (level : nat) : T unit :=
  z_map_op (fun st => z_riscv_mmu_map_raw mmu_tables st va pa bits level).
Definition mem_map (va pa size flags : Z) : T unit :=
  z_map_op (fun st => arch_mem_map mmu_tables K_MEM_PERM_RW K_MEM_PERM_EXEC K_MEM_PERM_USER
                        st va pa size flags).
Definition mem_unmap (va size : Z) : T unit := z_map_op (fun st => arch_mem_unmap st va size).

(** ** P1A: the MMU is on, a page, an instruction fetch *)
Section P1A.
Context (backing_page : Z).
Abbreviation load64 := (z_load64 (acc handler_unexpected)).
Abbreviation store64 := (z_store64 (acc handler_unexpected)).
Abbreviation store32 := (z_store32 (acc handler_unexpected)).
Abbreviation call := (z_call (acc handler_unexpected)).

Definition TEST_RW_VA : Z := 0xC0000000.
Definition TEST_EXEC_VA : Z := 0xC0010000.

Definition test_p1a_1_sv39_identity : T unit :=
  satp ← z_gets (fun w => z_satp (z_mmu_of w));
  zassert (satp .>> 60 =? SATP_MODE_SV39) ;;
  zassert (negb (satp .& ((1 .<< 44) - 1) =? 0)) ;;
  store64 backing_page 0xCAFEBABE12345678 ;;
  v ← load64 backing_page;
  zassert (v =? 0xCAFEBABE12345678).

Definition test_p1a_2_page_map_alias : T unit :=
  mem_map TEST_RW_VA backing_page PAGE_SIZE_4K K_MEM_PERM_RW ;;
  z_for 8 0 (fun i => store64 (TEST_RW_VA + 8 * (i * 64)) (0xA5A5A5A5A5A5A500 .| i)) ;;
  z_for 8 0 (fun i =>
    v ← load64 (backing_page + 8 * (i * 64));
    zassert (v =? (0xA5A5A5A5A5A5A500 .| i))) ;;
  store64 (backing_page + 8 * 7) 0x5A5A5A5A5A5A5A5A ;;
  v ← load64 (TEST_RW_VA + 8 * 7);
  zassert (v =? 0x5A5A5A5A5A5A5A5A) ;;
  mem_unmap TEST_RW_VA PAGE_SIZE_4K.

Definition test_p1a_3_ifetch_via_map : T unit :=
  store32 backing_page INSN_RET ;;
  mem_map TEST_EXEC_VA backing_page PAGE_SIZE_4K K_MEM_PERM_EXEC ;;
  call TEST_EXEC_VA ;;
  mem_unmap TEST_EXEC_VA PAGE_SIZE_4K.
End P1A.

(** ** P1B: the faults *)
Section P1B.
Context (bp_data bp_code : Z).
Abbreviation load64 := (z_load64 (acc handler_expected)).
Abbreviation store64 := (z_store64 (acc handler_expected)).
Abbreviation store32 := (z_store32 (acc handler_expected)).
Abbreviation call := (z_call (acc handler_expected)).

Definition VA_B1 : Z := 0xD0000000.
Definition VA_B2 : Z := 0xD0010000.
Definition VA_B3 : Z := 0xD0030000.
Definition VA_B4 : Z := 0xD0040000.
Definition VA_B5 : Z := 0xD0050000.
Definition VA_B6 : Z := 0xD0060000.
Definition VA_B7 : Z := 0xD0070000.
Definition VA_B8 : Z := 0xE0000000.
Definition VA_B1B : Z := 0xD0080000.

(** [zassert_unreachable] *)
Definition zassert_unreachable : T unit := ztest_test_fail.

Definition test_p1b_1_load_v0_page : T unit :=
  map_raw VA_B1 bp_data (PTE_R .| PTE_W .| PTE_A .| PTE_D) 0 ;;
  expect EXC_LOAD_PAGE_FAULT VA_B1 ;;
  load64 VA_B1 ;; zassert_unreachable.

Definition test_p1b_1b_vbit_clear_live : T unit :=
  mem_map VA_B1B bp_data PAGE_SIZE_4K K_MEM_PERM_RW ;;
  store64 VA_B1B 0x1122334455667788 ;;
  v ← load64 bp_data; zassert (v =? 0x1122334455667788) ;;
  pte ← leaf_of VA_B1B;
  e ← pte_read pte; zassert ((e .>> PTE_PPN_SHIFT) .<< 12 =? bp_data) ;;
  e ← pte_read pte; pte_write pte (e .& not64 PTE_V) ;;
  z_sfence ;;
  expect EXC_LOAD_PAGE_FAULT VA_B1B ;;
  load64 VA_B1B ;; zassert_unreachable.

Definition test_p1b_2_store_v0_page : T unit :=
  map_raw VA_B2 bp_data (PTE_R .| PTE_W .| PTE_A .| PTE_D) 0 ;;
  expect EXC_STORE_PAGE_FAULT VA_B2 ;;
  store64 VA_B2 0xBEEF ;; zassert_unreachable.

Definition test_p1b_3_exec_v0_page : T unit :=
  store32 bp_code INSN_RET ;;
  map_raw VA_B3 bp_code (PTE_R .| PTE_X .| PTE_A .| PTE_D) 0 ;;
  expect EXC_INST_PAGE_FAULT VA_B3 ;;
  call VA_B3 ;; zassert_unreachable.

Definition test_p1b_4_load_xonly_page : T unit :=
  map_raw VA_B4 bp_data (PTE_V .| PTE_X .| PTE_A .| PTE_D) 0 ;;
  expect EXC_LOAD_PAGE_FAULT VA_B4 ;;
  load64 VA_B4 ;; zassert_unreachable.

Definition test_p1b_5_store_ro_page : T unit :=
  map_raw VA_B5 bp_data (PTE_V .| PTE_R .| PTE_A .| PTE_D) 0 ;;
  expect EXC_STORE_PAGE_FAULT VA_B5 ;;
  store64 VA_B5 0xBEEF ;; zassert_unreachable.

Definition test_p1b_6_exec_noexec_page : T unit :=
  store32 bp_code INSN_RET ;;
  map_raw VA_B6 bp_code (PTE_V .| PTE_R .| PTE_A .| PTE_D) 0 ;;
  expect EXC_INST_PAGE_FAULT VA_B6 ;;
  call VA_B6 ;; zassert_unreachable.

Definition test_p1b_7_upage_sum0 : T unit :=
  map_raw VA_B7 bp_data (PTE_V .| PTE_R .| PTE_W .| PTE_U .| PTE_A .| PTE_D) 0 ;;
  z_modify (fun w => set_hw {| hw_sum := false; hw_mxr := hw_mxr (zw_hw w);
                               hw_svadu := hw_svadu (zw_hw w) |} w) ;;
  expect EXC_LOAD_PAGE_FAULT VA_B7 ;;
  load64 VA_B7 ;; zassert_unreachable.

Definition test_p1b_8_misaligned_megapage : T unit :=
  map_raw VA_B8 0x80000000 (PTE_V .| PTE_R .| PTE_W .| PTE_A .| PTE_D) 1 ;;
  pte ← leaf_of VA_B8;
  pte_write pte ((((0x80000000 .>> 12) .| 0x1) .<< PTE_PPN_SHIFT)
                 .| PTE_V .| PTE_R .| PTE_W .| PTE_A .| PTE_D) ;;
  z_sfence ;;
  expect EXC_LOAD_PAGE_FAULT VA_B8 ;;
  load64 VA_B8 ;; zassert_unreachable.
End P1B.

(** ** P1C: fix and retry *)
Section P1C.
Context (bp_c1 bp_c2 bp_c3 bp_c4 bp_c5 : Z).
Abbreviation load64 := (z_load64 (acc handler_expected)).
Abbreviation store64 := (z_store64 (acc handler_expected)).
Abbreviation store32 := (z_store32 (acc handler_expected)).
Abbreviation call := (z_call (acc handler_expected)).

Definition VA_C1 : Z := 0xD0100000.
Definition VA_C2 : Z := 0xD0110000.
Definition VA_C3 : Z := 0xD0120000.
Definition VA_C4_BASE : Z := 0xD0200000.
Definition VA_C5 : Z := 0xD0300000.
Definition C4_N : nat := 8.

Definition fix_count : T Z := z_gets (fun w => zt_fix_count (zw_test w)).

Definition p1c_before : T unit :=
  set_fault_fixup None ;;
  z_modify (fun w => set_test {| zt_mmu := z_mmu_of w; zt_fix_count := 0 |} w) ;;
  z_modify (set_expect false) ;;
  z_modify (set_expected 0 0).

Definition test_p1c_1_load_fix_retry : T unit :=
  store64 bp_c1 0xFEEDFACECAFE0001 ;;
  map_raw VA_C1 bp_c1 (PTE_R .| PTE_W) 0 ;;
  set_fault_fixup (Some p1c_fixup) ;;
  val ← load64 VA_C1;
  n ← fix_count; zassert (n =? 1) ;;
  zassert (val =? 0xFEEDFACECAFE0001).

Definition test_p1c_2_store_fix_retry : T unit :=
  map_raw VA_C2 bp_c2 (PTE_V .| PTE_R) 0 ;;
  set_fault_fixup (Some p1c_fixup) ;;
  store64 VA_C2 0xDEADBEEF00000002 ;;
  n ← fix_count; zassert (n =? 1) ;;
  v ← load64 bp_c2; zassert (v =? 0xDEADBEEF00000002).

Definition test_p1c_3_exec_fix_retry : T unit :=
  store32 bp_c3 INSN_RET ;;
  map_raw VA_C3 bp_c3 (PTE_V .| PTE_R) 0 ;;
  set_fault_fixup (Some p1c_fixup) ;;
  call VA_C3 ;;
  n ← fix_count; zassert (n =? 1).

Definition test_p1c_4_sequential_faults : T unit :=
  z_for C4_N 0 (fun i =>
    store64 (bp_c4 + i * PAGE_SIZE_4K) (0xA000000000000000 .| i) ;;
    map_raw (VA_C4_BASE + i * PAGE_SIZE_4K) (bp_c4 + i * PAGE_SIZE_4K) (PTE_R .| PTE_W) 0) ;;
  set_fault_fixup (Some p1c_fixup) ;;
  z_for C4_N 0 (fun i =>
    val ← load64 (VA_C4_BASE + i * PAGE_SIZE_4K);
    zassert (val =? (0xA000000000000000 .| i))) ;;
  n ← fix_count; zassert (n =? Z.of_nat C4_N).

Definition test_p1c_5_ad_bit_mode : T unit :=
  store64 bp_c5 0x1234567890ABCDEF ;;
  map_raw VA_C5 bp_c5 (PTE_V .| PTE_R .| PTE_W) 0 ;;
  z_modify (set_expected EXC_LOAD_PAGE_FAULT VA_C5) ;;
  z_modify (set_expect true) ;;
  val ← load64 VA_C5;
  z_modify (set_expect false) ;;
  zassert (val =? 0x1234567890ABCDEF) ;;
  pte ← leaf_of VA_C5;
  e ← pte_read pte; zassert (negb (e .& PTE_A =? 0)).
End P1C.

(** ** P1D: the TLB and the walker *)
Section P1D.
(** [z_mapped_end], the variables, and the number of words of [offs] checked. *)
Context (pages thrash_buf z_mapped_end : Z).
Abbreviation load64 := (z_load64 (acc handler_unexpected)).
Abbreviation store64 := (z_store64 (acc handler_unexpected)).

Definition VA_D1_A : Z := 0xD1000000.
Definition VA_D1_B : Z := 0xD1010000.
Definition VA_D2 : Z := 0xD1100000.
Definition VA_D3 : Z := 0xD2000000.
Definition VA_D4 : Z := 0xE0200000.
Definition THRASH_COUNT : nat := 128.

Definition page_at (i : Z) : Z := pages + i * PAGE_SIZE_4K.
Definition leaf (pa perms : Z) : Z :=
  ((pa .>> 12) .<< PTE_PPN_SHIFT) .| perms .| PTE_V .| PTE_A .| PTE_D.
Definition check (va v : Z) : T unit := x ← load64 va; zassert (x =? v).

Definition test_p1d_1_targeted_sfence : T unit :=
  store64 (page_at 0) 0xAAAAAAAA00000001 ;;
  store64 (page_at 1) 0xBBBBBBBB00000002 ;;
  store64 (page_at 2) 0xAAAAAAAA00000003 ;;
  map_raw VA_D1_A (page_at 0) (PTE_V .| PTE_R .| PTE_W .| PTE_A .| PTE_D) 0 ;;
  map_raw VA_D1_B (page_at 1) (PTE_V .| PTE_R .| PTE_W .| PTE_A .| PTE_D) 0 ;;
  check VA_D1_A 0xAAAAAAAA00000001 ;;
  check VA_D1_B 0xBBBBBBBB00000002 ;;
  pte_a ← leaf_of VA_D1_A;
  pte_write pte_a (leaf (page_at 2) (PTE_R .| PTE_W)) ;;
  z_sfence_addr VA_D1_A ;;
  check VA_D1_A 0xAAAAAAAA00000003 ;;
  check VA_D1_B 0xBBBBBBBB00000002.

(** [read] is the load after the entry has changed without a fence. *)
Definition test_p1d_2_reading (read : Z -> T Z) : T unit :=
  store64 (page_at 3) 0x1111111111111111 ;;
  store64 (page_at 4) 0x2222222222222222 ;;
  map_raw VA_D2 (page_at 3) (PTE_V .| PTE_R .| PTE_W .| PTE_A .| PTE_D) 0 ;;
  check VA_D2 0x1111111111111111 ;;
  pte ← leaf_of VA_D2;
  pte_write pte (leaf (page_at 4) (PTE_R .| PTE_W)) ;;
  val ← read VA_D2;
  let got_old := val =? 0x1111111111111111 in
  let got_new := val =? 0x2222222222222222 in
  zassert (got_old || got_new) ;;
  z_sfence_addr VA_D2 ;;
  check VA_D2 0x2222222222222222.

Definition test_p1d_2_stale_tlb : T unit := test_p1d_2_reading (fun va => load64 va).

Definition test_p1d_3_tlb_thrash : T unit :=
  z_for THRASH_COUNT 0 (fun i =>
    let pa := thrash_buf + i * PAGE_SIZE_4K in
    store64 pa (0xCC00000000000000 .| i) ;;
    map_raw (VA_D3 + i * PAGE_SIZE_4K) pa (PTE_V .| PTE_R .| PTE_W .| PTE_A .| PTE_D) 0) ;;
  z_for 2 0 (fun _ =>
    z_for THRASH_COUNT 0 (fun i => check (VA_D3 + i * PAGE_SIZE_4K) (0xCC00000000000000 .| i))).

Definition p1d_offs (image_base : Z) : list Z :=
  let span := z_mapped_end - image_base in
  [0x0; 0x1000; (span / 2) .& not64 7; (span - 0x1000) .& not64 7].
Fixpoint check_aliases (image_base : Z) (offs : list Z) : T unit :=
  match offs with
  | [] => mret tt
  | off :: offs' =>
      a ← load64 (VA_D4 + off); b ← load64 (image_base + off);
      zassert (a =? b) ;; check_aliases image_base offs'
  end.
Definition test_p1d_4_megapage_2mb : T unit :=
  let image_base := 0x80000000 in
  map_raw VA_D4 image_base (PTE_V .| PTE_R .| PTE_A .| PTE_D) 1 ;;
  v ← load64 VA_D4; zassert (negb (v =? 0)) ;;
  check_aliases image_base (p1d_offs image_base) ;;
  load64 (VA_D4 + 0x1FF000) ;;
  pte ← leaf_of VA_D4;
  e ← pte_read pte; zassert (negb (e .& PTE_R =? 0) && (e .& PTE_W =? 0)) ;;
  p ← z_gets (fun w => z_riscv_mmu_pte_lookup (z_mmu_of w) (VA_D4 + 0x1FF000));
  zassert (bool_decide (Some pte = p)) ;;
  mem_unmap VA_D4 PAGE_SIZE_4K.

Definition test_p1d_5_gigapage_leaf : T unit :=
  pte_uart ← leaf_of 0x10000000;
  pte_clint ← z_gets (fun w => z_riscv_mmu_pte_lookup (z_mmu_of w) 0x02000000);
  e ← pte_read pte_uart;
  zassert (negb (e .& PTE_V =? 0) && negb (e .& (PTE_R .| PTE_W .| PTE_X) =? 0)) ;;
  zassert (bool_decide (Some pte_uart = pte_clint)).
End P1D.
End Programs.

(** ** Suites *)

(** The tests of a suite run one after the other on the same kernel; each starts
    with the suite's [before] hook and passes when it returns or is passed. *)
Fixpoint suite_run (before : T unit) (tests : list (T unit)) (w : zworld) : option zworld :=
  match tests with
  | [] => Some w
  | t :: tests' =>
      match (before ;; t) w with
      | ZRet _ w' | ZEnd ZPass w' => suite_run before tests' w'
      | _ => None
      end
  end.

(** An image of 768 KB with its pool of 32 tables, and its variables. *)
Definition z_start : Z := 0x80000000.
Definition z_end : Z := 0x800C0000.
Definition z_var (i : Z) : Z := 0x80010000 + 4096 * i.
Definition z_thrash : Z := 0x80040000.
Definition z_first_insns : mem := wr64 ∅ z_start 0x00029663F14022F3.

Definition z_booted (svadu : bool) : option zworld :=
  (fun st => mk_zworld {| zt_mmu := st; zt_fix_count := 0 |} None false 0 0
               {| hw_sum := false; hw_mxr := false; hw_svadu := svadu |} 0)
  <$> z_riscv_mmu_init tables0
        {| z_mem := z_first_insns; mmu_table_used := replicate 32 false; kernel_root := 0;
           z_satp := 0; z_tlb := ∅ |} z_start z_end.

Section Suites.
Context (acc : (Z -> Z -> T unit) -> access -> Z -> T Z).

Definition p1a_suite : list (T unit) :=
  [test_p1a_1_sv39_identity acc (z_var 0); test_p1a_2_page_map_alias acc tables0 8 16 32 (z_var 0);
   test_p1a_3_ifetch_via_map acc tables0 8 16 32 (z_var 0)].
Definition p1b_suite : list (T unit) :=
  [test_p1b_1_load_v0_page acc tables0 (z_var 0);
   test_p1b_1b_vbit_clear_live acc tables0 8 16 32 (z_var 0);
   test_p1b_2_store_v0_page acc tables0 (z_var 0); test_p1b_3_exec_v0_page acc tables0 (z_var 1);
   test_p1b_4_load_xonly_page acc tables0 (z_var 0); test_p1b_5_store_ro_page acc tables0 (z_var 0);
   test_p1b_6_exec_noexec_page acc tables0 (z_var 1); test_p1b_7_upage_sum0 acc tables0 (z_var 0);
   test_p1b_8_misaligned_megapage acc tables0].
Definition p1c_suite : list (T unit) :=
  [test_p1c_1_load_fix_retry acc tables0 (z_var 0); test_p1c_2_store_fix_retry acc tables0 (z_var 1);
   test_p1c_3_exec_fix_retry acc tables0 (z_var 2);
   test_p1c_4_sequential_faults acc tables0 (z_var 4); test_p1c_5_ad_bit_mode acc tables0 (z_var 3)].
Definition p1d_suite_reading (read : Z -> T Z) : list (T unit) :=
  [test_p1d_1_targeted_sfence acc tables0 (z_var 0);
   test_p1d_2_reading acc tables0 (z_var 0) read; test_p1d_3_tlb_thrash acc tables0 z_thrash;
   test_p1d_4_megapage_2mb acc tables0 z_end; test_p1d_5_gigapage_leaf].
Definition p1d_suite : list (T unit) := p1d_suite_reading (z_load64 (acc handler_unexpected)).
End Suites.

Definition suite_passes (svadu : bool) (before : T unit) (suite : list (T unit)) : bool :=
  match z_booted svadu with
  | Some w => bool_decide (is_Some (suite_run before suite w))
  | None => false
  end.
