(* ===== verification/ZKernelMem.v ===== *)
(** * P1B's tests through the kernel's memory API

    P1B.5b, 6b and 9 take their page from [k_mem_map] and give it back with
    [k_mem_unmap].  Those functions are the kernel's: they are an interface here
    ([KernelMem]), with what Zephyr documents of them ([KernelMemLaws]): a page is
    mapped with the permissions asked, is the caller's until it is unmapped, and
    is then unmapped for good.  The tests are proved against the interface, on
    every hart; the port's [arch_mem_map] and [arch_mem_unmap] on any page the
    kernel may choose are an implementation of it. *)

From S2P Require Import Prelude Platform Memory Sv39 PtTree PageMap Tlb ZephyrMmu ZephyrFault ZSuite.

Definition with_mem (m : mem) (st : mmu) : mmu :=
  {| z_mem := m; mmu_table_used := mmu_table_used st; kernel_root := kernel_root st;
     z_satp := z_satp st; z_tlb := z_tlb st |}.
Abbreviation coherent_in st := (coherent (z_mem st) (kernel_root st) (z_tlb st)).

(** ** The interface *)

(** [k_mem_map] and [k_mem_unmap] on the kernel's state; [None] is [NULL]. *)
Class KernelMem := {
  kmem_map : mmu -> Z -> Z -> option (Z * mmu);
  kmem_unmap : mmu -> Z -> Z -> option mmu
}.

Section Laws.
Context (K_MEM_PERM_RW K_MEM_PERM_EXEC K_MEM_PERM_USER : Z).

(** [ready st size]: the kernel can map [size] bytes; [owns st va pa size flags]: the
    caller has them at [va]. *)
Class KernelMemLaws (api : KernelMem) (ready : mmu -> Z -> Prop)
    (owns : mmu -> Z -> Z -> Z -> Z -> Prop) : Prop := {
  law_map st size flags : ready st size ->
    exists va pa st', kmem_map st size flags = Some (va, st') /\ va <> 0 /\ owns st' va pa size flags;
  law_translates st va pa size flags off c acc : owns st va pa size flags -> 0 <= off < size ->
    translate c (z_mem st) (kernel_root st) acc (va + off) =
      if flags_allow K_MEM_PERM_RW K_MEM_PERM_EXEC K_MEM_PERM_USER flags c acc
      then Some (pa + off, z_mem st) else None;
  law_coherent st va pa size flags : owns st va pa size flags -> coherent_in st;
  law_cached st va pa size flags t : owns st va pa size flags ->
    coherent (z_mem st) (kernel_root st) t -> owns (with_tlb t st) va pa size flags;
  law_stored st va pa size flags off v : owns st va pa size flags ->
    0 <= off -> off + 8 <= size -> off mod 8 = 0 ->
    owns (with_mem (wr64 (z_mem st) (pa + off) v) st) va pa size flags;
  law_unmap st va pa size flags : owns st va pa size flags ->
    exists st', kmem_unmap st va size = Some st' /\ coherent_in st' /\
      forall off c acc, 0 <= off < size ->
        translate c (z_mem st') (kernel_root st') acc (va + off) = None
}.
End Laws.

(** ** Accesses on every hart *)

Section Hart.
Context (hit : nat -> nat -> bool) (h : Z -> Z -> T unit).

Definition touch (st : mmu) (w : zworld) : zworld := z_tick (set_mmu st w).

Lemma acc_succeeds acc va w pa :
  mmu_fault_fixup w = None -> coherent_in (z_mmu_of w) ->
  translate (zw_hw w) (z_mem (z_mmu_of w)) (kernel_root (z_mmu_of w)) acc va
    = Some (pa, z_mem (z_mmu_of w)) ->
  exists t, z_acc hit h acc va w = ZRet pa (touch (with_tlb t (z_mmu_of w)) w) /\
    coherent (z_mem (z_mmu_of w)) (kernel_root (z_mmu_of w)) t.
Proof using.
  intros Hf Hc Ht. unfold z_acc, z_access, z_retries. rewrite Hf. fold (z_mmu_of w).
  pose proof (tlb_translate_coherent (zw_hw w) _ (hit (zw_steps w) 4%nat) _ _ acc va Hc) as H1.
  destruct (tlb_translate _ _ _ _ _ acc va) as [[pa' m] t] eqn:E.
  pose proof (tlb_translate_mem _ _ _ _ _ _ _ _ _ _ Hc E) as Hm.
  rewrite Ht in H1, Hm. destruct H1 as [-> Hc']. subst m. exists t. by split.
Qed.

Lemma acc_faults acc va w :
  mmu_fault_fixup w = None -> coherent_in (z_mmu_of w) ->
  translate (zw_hw w) (z_mem (z_mmu_of w)) (kernel_root (z_mmu_of w)) acc va = None ->
  exists t, z_acc hit h acc va w
    = mbind (M := T) (fun _ => z_hang) (h (fault_cause acc) va) (touch (with_tlb t (z_mmu_of w)) w).
Proof using.
  intros Hf Hc Ht. unfold z_acc, z_access, z_retries. rewrite Hf. fold (z_mmu_of w).
  pose proof (tlb_translate_coherent (zw_hw w) _ (hit (zw_steps w) 4%nat) _ _ acc va Hc) as H1.
  destruct (tlb_translate _ _ _ _ _ acc va) as [[pa' m] t] eqn:E.
  rewrite Ht in H1. destruct H1 as [-> _]. cbn [fmap option_fmap option_map] in E |- *.
  pose proof (tlb_translate_fault _ _ _ _ _ _ _ _ _ _ E eq_refl) as ->. exists t.
  unfold z_riscv_fault, z_riscv_mmu_try_fault_fixup. by destruct (_ || _).
Qed.
End Hart.

(** ** The tests *)

Section Tests.
Context (hit : nat -> nat -> bool) `{KernelMem}.
Context (K_MEM_PERM_RW K_MEM_PERM_EXEC K_MEM_PERM_USER K_MEM_MAP_UNINIT : Z).

Abbreviation acc := (z_acc hit handler_expected).
Abbreviation load64 := (z_load64 acc).
Abbreviation store64 := (z_store64 acc).
Abbreviation call := (z_call acc).

(** A null pointer fails the [zassert_not_null] that follows every call. *)
Definition k_mem_map (size flags : Z) : T Z := fun w =>
  match kmem_map (z_mmu_of w) size flags with
  | Some (va, st) => ZRet va (set_mmu st w)
  | None => ZRet 0 w
  end.
Definition k_mem_unmap (va size : Z) : T unit := z_map_op (fun st => kmem_unmap st va size).

Definition test_p1b_5b_store_ro_kmemmap : T unit :=
  p ← k_mem_map PAGE_SIZE_4K K_MEM_MAP_UNINIT;
  zassert (negb (p =? 0)) ;;
  load64 p ;;
  expect EXC_STORE_PAGE_FAULT p ;;
  store64 p 1 ;; zassert_unreachable.

Definition test_p1b_6b_exec_noexec_kmemmap : T unit :=
  buf ← k_mem_map PAGE_SIZE_4K K_MEM_PERM_RW;
  zassert (negb (buf =? 0)) ;;
  expect EXC_INST_PAGE_FAULT buf ;;
  call buf ;; zassert_unreachable.

Definition test_p1b_9_unmapped_after_kmemunmap : T unit :=
  p ← k_mem_map PAGE_SIZE_4K K_MEM_PERM_RW;
  zassert (negb (p =? 0)) ;;
  store64 p 0xDEADBEEF ;;
  v ← load64 p; zassert (v =? 0xDEADBEEF) ;;
  k_mem_unmap p PAGE_SIZE_4K ;;
  expect EXC_LOAD_PAGE_FAULT p ;;
  load64 p ;; zassert_unreachable.
End Tests.

(** ** They pass *)

Section Passing.
Context (hit : nat -> nat -> bool) (RW EXEC USER UNINIT : Z).
Context `{Hlaws : KernelMemLaws RW EXEC USER}.
(** The flags are different bits, and none is [K_MEM_PERM_USER]. *)
Context (Hrw : tst RW RW = true) (Hrx : tst RW EXEC = false) (Hru : tst RW USER = false).
Context (Huw : tst UNINIT RW = false) (Huu : tst UNINIT USER = false).

Abbreviation acc := (z_acc hit handler_expected).

(** The test's thread has the page at [va], and no resolver is registered. *)
Record has_page (va pa flags : Z) (w : zworld) : Prop := {
  hp_owns : owns (z_mmu_of w) va pa PAGE_SIZE_4K flags;
  hp_fixup : mmu_fault_fixup w = None
}.

Lemma map_page_runs w flags :
  ready (z_mmu_of w) PAGE_SIZE_4K -> mmu_fault_fixup w = None ->
  exists va pa w', k_mem_map PAGE_SIZE_4K flags w = ZRet va w' /\ (va =? 0) = false /\ has_page va pa flags w'.
Proof using Hlaws.
  intros Hr Hf. destruct (law_map _ _ _ (z_mmu_of w) PAGE_SIZE_4K flags Hr) as (va & pa & st & E & Hva & Ho).
  exists va, pa, (set_mmu st w). unfold k_mem_map. rewrite E. split_and!; [done|by apply Z.eqb_neq|by split].
Qed.

Lemma page_accessed va pa flags w a :
  has_page va pa flags w -> flags_allow RW EXEC USER flags (zw_hw w) a = true ->
  exists w', acc a va w = ZRet pa w' /\ has_page va pa flags w' /\ mem_of w' = mem_of w /\ zw_hw w' = zw_hw w.
Proof using Hlaws.
  intros [Ho Hf] Ha.
  pose proof (law_translates _ _ _ _ _ _ _ _ 0 (zw_hw w) a Ho ltac:(done)) as Ht.
  rewrite Ha, !Z.add_0_r in Ht.
  destruct (acc_succeeds hit handler_expected a va w pa Hf (law_coherent _ _ _ _ _ _ _ _ Ho) Ht)
    as (t & -> & Hc).
  eexists. split; [done|]. split_and!; [|done..]. split; [|done]. by apply (law_cached _ _ _ _ _ _ _ _ t Ho).
Qed.

(** A fault the test expects ends it with a pass. *)
Lemma expected_fault_passes {A} (m : T A) va a w :
  (forall w v w', acc a va w = ZEnd v w' -> m w = ZEnd v w') -> mmu_fault_fixup w = None -> coherent_in (z_mmu_of w) ->
  translate (zw_hw w) (mem_of w) (kernel_root (z_mmu_of w)) a va = None ->
  exists w', (expect (fault_cause a) va ;; m) w = ZEnd ZPass w' /\ expect_fault w' = false.
Proof using.
  intros Hm Hf Hc Ht. set (w1 := set_expect true (set_expected (fault_cause a) va w)).
  rewrite (then_ret (expect (fault_cause a) va) _ tt w w1 eq_refl).
  destruct (acc_faults hit handler_expected a va w1 Hf Hc Ht) as (t & E).
  assert (forall st : mmu, handler_expected (fault_cause a) va (touch st w1) = ZEnd ZPass (set_expect false (touch st w1))) as Hh.
  { intros st. unfold handler_expected, z_gets, z_modify, mbind, T_bind. cbn. by rewrite !Z.eqb_refl. }
  eexists. rewrite (Hm w1 ZPass (set_expect false (touch (with_tlb t (z_mmu_of w1)) w1))); [by split|].
  rewrite E. apply then_end, Hh.
Qed.

(** One access to the page, with the same page after it. *)
Lemma page_loaded va pa flags w :
  has_page va pa flags w -> flags_allow RW EXEC USER flags (zw_hw w) Load = true ->
  exists w', z_load64 acc va w = ZRet (rd64 (mem_of w) pa) w' /\ has_page va pa flags w' /\ zw_hw w' = zw_hw w.
Proof using Hlaws.
  intros Hp Ha. destruct (page_accessed va pa flags w Load Hp Ha) as (w' & E & Hp' & Em & Eh).
  exists w'. unfold z_load64. rewrite (then_ret _ _ _ _ _ E). unfold z_gets. fold (mem_of w').
  by rewrite Em.
Qed.

Lemma page_stored va pa flags w v :
  has_page va pa flags w -> flags_allow RW EXEC USER flags (zw_hw w) Store = true -> 0 <= v < 2 ^ 64 ->
  exists w', z_store64 acc va v w = ZRet tt w' /\ has_page va pa flags w' /\ zw_hw w' = zw_hw w /\
    rd64 (mem_of w') pa = v.
Proof using Hlaws.
  intros Hp Ha Hv. destruct (page_accessed va pa flags w Store Hp Ha) as (w1 & E & [Ho Hf] & Em & Eh).
  eexists. unfold z_store64, z_store. rewrite (then_ret _ _ _ _ _ E). split; [reflexivity|].
  split_and!; [|done|by apply rd64_wr64_eq]. split; [|done].
  pose proof (law_stored _ _ _ _ _ _ _ _ 0 v Ho) as Hs. rewrite Z.add_0_r in Hs. by apply Hs.
Qed.

(** The access the flags forbid ends the test with a pass. *)
Lemma forbidden_passes {A} va pa flags (m : T A) a w :
  (forall w v w', acc a va w = ZEnd v w' -> m w = ZEnd v w') -> has_page va pa flags w -> flags_allow RW EXEC USER flags (zw_hw w) a = false ->
  exists w', (expect (fault_cause a) va ;; m) w = ZEnd ZPass w' /\ expect_fault w' = false.
Proof using Hlaws.
  intros Hm [Ho Hf] Ha. apply expected_fault_passes; [exact Hm|done|by eapply law_coherent|].
  pose proof (law_translates _ _ _ _ _ _ _ _ 0 (zw_hw w) a Ho ltac:(done)) as Ht.
  by rewrite Ha, Z.add_0_r in Ht.
Qed.

Ltac asserted := rewrite (then_ret (zassert true) _ tt _ _ eq_refl).

(** C16: P1B.5b, 6b and 9: on any kernel whose memory API does what is documented, and on
    every hart, the store to the read-only page, the call of the page without X
    and the load after the unmap fault with the cause and address the test
    expects, the accesses before them succeed, and the tests pass. *)
Theorem kernel_mem_tests_pass w :
  ready (z_mmu_of w) PAGE_SIZE_4K -> mmu_fault_fixup w = None ->
  Forall (fun t : T unit => exists w', t w = ZEnd ZPass w' /\ expect_fault w' = false)
    [test_p1b_5b_store_ro_kmemmap hit UNINIT; test_p1b_6b_exec_noexec_kmemmap hit RW;
     test_p1b_9_unmapped_after_kmemunmap hit RW].
Proof using All.
  intros Hr Hf. repeat apply Forall_cons_2; [..|apply Forall_nil_2].
  - destruct (map_page_runs w UNINIT Hr Hf) as (va & pa & w1 & E & Hva & Hp).
    unfold test_p1b_5b_store_ro_kmemmap. rewrite (then_ret _ _ _ _ _ E), Hva. asserted.
    destruct (page_loaded va pa UNINIT w1 Hp) as (w2 & E2 & Hp2 & _).
    { unfold flags_allow. by rewrite Huu. }
    rewrite (then_ret _ _ _ _ _ E2).
    apply (forbidden_passes va pa UNINIT _ Store w2); [|done|unfold flags_allow; by rewrite Huw].
    intros ? ? ? Ha. by apply then_end, then_end.
  - destruct (map_page_runs w RW Hr Hf) as (va & pa & w1 & E & Hva & Hp).
    unfold test_p1b_6b_exec_noexec_kmemmap. rewrite (then_ret _ _ _ _ _ E), Hva. asserted.
    apply (forbidden_passes va pa RW _ Fetch w1); [|done|unfold flags_allow; by rewrite Hrx].
    intros ? ? ? Ha. by apply then_end, then_end.
  - destruct (map_page_runs w RW Hr Hf) as (va & pa & w1 & E & Hva & Hp).
    unfold test_p1b_9_unmapped_after_kmemunmap. rewrite (then_ret _ _ _ _ _ E), Hva. asserted.
    destruct (page_stored va pa RW w1 0xDEADBEEF Hp) as (w2 & E2 & Hp2 & _ & Hv);
      [unfold flags_allow; by rewrite Hrw, Hru|done|].
    rewrite (then_ret _ _ _ _ _ E2).
    destruct (page_loaded va pa RW w2 Hp2) as (w3 & E3 & [Ho Hf3] & _);
      [unfold flags_allow; by rewrite Hru|].
    rewrite (then_ret _ _ _ _ _ E3), Hv. asserted.
    destruct (law_unmap _ _ _ _ _ _ _ _ Ho) as (st & Eu & Hc & Ht).
    rewrite (then_ret (k_mem_unmap _ _) _ tt w3 (set_mmu st w3)) by (unfold k_mem_unmap, z_map_op; by rewrite Eu).
    apply (expected_fault_passes _ va Load (set_mmu st w3)); [|done|exact Hc|].
    + intros ? ? ? Ha. by apply then_end, then_end.
    + specialize (Ht 0 (zw_hw w3) Load ltac:(done)). by rewrite Z.add_0_r in Ht.
Qed.
End Passing.

(** ** The port implements the interface *)

Section Port.
Context (mmu_tables : Z) (NUM_TABLES : nat) (Hpool : is_page mmu_tables).
Context (Hpool_end : mmu_tables + 4096 * Z.of_nat NUM_TABLES <= 2 ^ 56).
Context (RW EXEC USER : Z).
(** The address and the frame the kernel chooses. *)
Context (va0 pa0 : Z).

Definition port_kmem : KernelMem := {|
  kmem_map st size flags :=
    (fun st' => (va0, st')) <$> arch_mem_map mmu_tables RW EXEC USER st va0 pa0 size flags;
  kmem_unmap := arch_mem_unmap
|}.

Abbreviation pages size := (Z.of_nat (pages_of size)).

(** What the kernel chooses with care: whole pages, mapped nowhere else, a frame that
    is not a page table. *)
Record choice (size : Z) : Prop := {
  ch_size : 0 < size <= 2 ^ 64 - 4096;
  ch_va : va0 mod 4096 = 0 /\ 0 < va0 /\ va0 + 4096 * pages size <= 2 ^ 64;
  ch_pa : pa0 mod 4096 = 0 /\ 0 <= pa0 /\ pa0 + 4096 * pages size <= 2 ^ 56;
  ch_canonical j : 0 <= j < pages size -> canonical (va0 + 4096 * j) = true;
  ch_frame : pa0 + 4096 * pages size <= mmu_tables \/ mmu_tables + 4096 * Z.of_nat NUM_TABLES <= pa0
}.

Record port_ready (st : mmu) (size : Z) : Prop := {
  pr_choice : choice size;
  pr_pre : region_pre mmu_tables NUM_TABLES st va0 pa0 (pages size)
}.

Record port_owns (st : mmu) (va pa size flags : Z) : Prop := {
  po_choice : choice size;
  po_va : va = va0;
  po_pa : pa = pa0;
  po_ok : z_ok mmu_tables NUM_TABLES st;
  po_coherent : coherent_in st;
  po_leaves : region_leaves RW EXEC USER (z_mem st) (kernel_root st) va0 pa0 flags (pages size)
}.

Lemma size_pages size : 0 < size -> size <= 4096 * pages size.
Proof using. clear Hpool Hpool_end. intros Hs. unfold pages_of. rewrite Z2Nat.id; Z.div_mod_to_equations; lia. Qed.

(** A store to the frame changes no table. *)
Lemma frame_agrees st va pa size flags off v :
  port_owns st va pa size flags -> 0 <= off -> off + 8 <= size -> off mod 8 = 0 ->
  agree_on (z_used mmu_tables NUM_TABLES st) (z_mem st) (wr64 (z_mem st) (pa + off) v).
Proof using Hpool.
  intros [[Hs _ (Hpa & _ & _) _ Hf] _ -> _ _ _] H0 H1 H8 t i (k & Hk & _ & ->) Hi.
  apply rd64_wr64_ne. pose proof (size_pages size ltac:(lia)). destruct Hpool as [Hp _].
  unfold z_page, idx_ok in *. Z.div_mod_to_equations. lia.
Qed.

Lemma port_stored st va pa size flags off v :
  port_owns st va pa size flags -> 0 <= off -> off + 8 <= size -> off mod 8 = 0 ->
  port_owns (with_mem (wr64 (z_mem st) (pa + off) v) st) va pa size flags.
Proof using Hpool.
  intros Ho H0 H1 H8. pose proof (frame_agrees _ _ _ _ _ off v Ho H0 H1 H8) as Hag.
  destruct Ho as [Hch -> -> [Hok Hlen] Hc Hl].
  assert (forall va, hw_walk (wr64 (z_mem st) (pa0 + off) v) (kernel_root st) (vpath va)
            = hw_walk (z_mem st) (kernel_root st) (vpath va)) as Hw
    by (intros va; eapply hw_walk_agree; [exact Hok|exact Hag|apply vpath_ok|cbn; lia]).
  split; cbn [with_mem z_mem kernel_root z_tlb]; [done..| | |].
  - split; [|done]. eapply wf_agree; [exact Hok|exact Hag].
  - intros page o Ho. destruct (Hc page o Ho) as (va & ? & ? & ?). exists va. by rewrite Hw.
  - intros va Hcan Hin. rewrite Hw. by apply Hl.
Qed.

Lemma port_laws : KernelMemLaws RW EXEC USER port_kmem port_ready port_owns.
Proof using Hpool Hpool_end.
  split.
  - intros st size flags [Hch Hpre]. pose proof Hch as [Hs (Hva & Hva0 & _) _ _ _].
    destruct (arch_mem_map_run mmu_tables NUM_TABLES RW EXEC USER Hpool Hpool_end st va0 pa0 size flags Hs Hpre)
      as (st' & E & [Hok Hkp _ Hw _ _ _]).
    exists va0, pa0, (z_fence st'). cbn [kmem_map port_kmem]. rewrite E. split_and!; [done|lia|].
    split; cbn [z_fence z_mem kernel_root z_tlb]; [exact Hch|done|done|exact Hok| |].
    + apply sfence_vma_all_coherent.
    + rewrite (kp_root _ _ Hkp). by eapply region_walk_leaves.
  - intros st va pa size flags off c acc [[Hs (Hva & _) (Hpa & Hpa0 & Hpa1) Hcan _] -> -> _ _ Hl] Hoff.
    pose proof (size_pages size ltac:(lia)).
    by apply (region_translates RW EXEC USER _ _ va0 pa0 flags (pages size)); try lia.
  - by intros ????? [].
  - intros ?????? [] ?. by split.
  - intros. by apply port_stored.
  - intros st va pa size flags [[Hs (Hva & Hva0 & Hva1) _ Hcan _] -> -> Hok Hc Hl].
    pose proof (size_pages size ltac:(lia)).
    destruct (arch_mem_unmap_run mmu_tables NUM_TABLES Hpool Hpool_end st va0 size) as (st' & E & Hinv);
      try done; [lia| |].
    { intros j Hj. destruct (Hl (va0 + 4096 * j) (Hcan j Hj)) as (a & ->); [|done].
      rewrite page_index by done. lia. }
    exists (z_fence st'). cbn [kmem_unmap port_kmem]. rewrite E.
    split; [done|]. split; [apply sfence_vma_all_coherent|]. intros off c acc Hoff.
    cbn [z_fence z_mem kernel_root z_tlb]. rewrite (kp_root _ _ (ui_keeps _ _ _ _ _ _ Hinv)).
    eapply unmap_inv_faults; [exact Hinv|done|lia].
Qed.
End Port.

(** On the booted tables, with the page at 0xD0000000 in the frame 0x80010000. *)
Lemma one_page_ready : port_ready tables0 32 0xD0000000 0x80010000 mmio_mmu PAGE_SIZE_4K.
Proof.
  destruct mmio_mmu_ok as [Hok Hr]. change (Z.of_nat (pages_of PAGE_SIZE_4K)) with 1.
  assert (forall j, 0 <= j < 1 -> canonical (0xD0000000 + 4096 * j) = true) as Hcan
    by (intros j Hj; by assert (j = 0) as -> by lia).
  split.
  - split; change (Z.of_nat (pages_of PAGE_SIZE_4K)) with 1;
      [split; [reflexivity|discriminate]|split_and!; (reflexivity || discriminate)
      |split_and!; (reflexivity || discriminate)|exact Hcan|left; discriminate].
  - change (Z.of_nat (pages_of PAGE_SIZE_4K)) with 1.
    split; [exact Hok|split_and!; (reflexivity || discriminate)|split_and!; (reflexivity || discriminate)
           |exact Hcan| |by vm_compute].
    intros j Hj. apply no_leafb_sound. assert (j = 0) as -> by lia. by vm_compute.
Qed.

Definition kmem_world : zworld :=
  mk_zworld {| zt_mmu := mmio_mmu; zt_fix_count := 0 |} None false 0 0 hw0 0.

Lemma kernel_mem_tests_pass_witness :
  exists w', test_p1b_9_unmapped_after_kmemunmap (fun n _ => Nat.odd n)
      (H := port_kmem tables0 8 16 32 0xD0000000 0x80010000) 8 kmem_world = ZEnd ZPass w' /\
    expect_fault w' = false.
Proof.
  pose proof (kernel_mem_tests_pass (fun n _ => Nat.odd n) 8 16 32 64
    (Hlaws := port_laws tables0 32 tables0_page tables0_end 8 16 32 0xD0000000 0x80010000)
    eq_refl eq_refl eq_refl eq_refl eq_refl kmem_world one_page_ready eq_refl) as Ht.
  rewrite Forall_forall in Ht. apply Ht. by do 2 right; left.
Defined.
