(* ===== verification/ZSuiteRuns.v ===== *)
(** * The Zephyr MMU suite passes on every hart

    Runs of the tests of [ZSuite].  A test is first run with the tables alone, on
    a hart that logs every walk it makes and stops the test when an access meets a
    logged walk that the tables no longer give ([z_acc_log]).  A hart that answers
    from cached walks, whichever it chooses to use, follows such a run step by
    step ([Lockstep]): its cached walks are among the logged ones.  So one
    evaluated run stands for every hart. *)

From S2P Require Import Prelude Platform Memory Sv39 PtTree PageMap Tlb TlbRel ZephyrMmu ZephyrFault ZSuite.

(** ** The logging hart *)

Fixpoint z_access_log (fuel : nat) (fixup : option resolver) (c : hwctx) (acc : access)
    (va : Z) (st : ztest) : option (z_outcome * ztest) :=
  let mmu := zt_mmu st in
  if negb (log_agrees (z_mem mmu) (kernel_root mmu) (z_tlb mmu) va) then None else
  let '(pa, m, t) := tlb_translate c false (z_mem mmu) (kernel_root mmu) (z_tlb mmu) acc va in
  let st := set_mem_tlb st m t in
  match pa with
  | Some pa => Some (Accessed pa, st)
  | None =>
      let '(retry, st) := z_riscv_fault fixup (fault_cause acc) va st in
      if retry
      then match fuel with
           | O => Some (StillFaulting, st)
           | S fuel' => z_access_log fuel' fixup c acc va st
           end
      else Some (FatalFault (fault_cause acc) va, st)
  end.

Definition z_acc_log (k_sys_fatal_error_handler : Z -> Z -> T unit) (acc : access) (va : Z) : T Z :=
  fun w =>
  match z_access_log z_retries (mmu_fault_fixup w) (zw_hw w) acc va (zw_test w) with
  | None => ZHang
  | Some (o, t) =>
      let w := z_tick (set_test t w) in
      match o with
      | Accessed pa => ZRet pa w
      | FatalFault scause stval =>
          mbind (M := T) (fun _ => z_hang) (k_sys_fatal_error_handler scause stval) w
      | StillFaulting => ZHang
      end
  end.

(** ** The relation between the two harts *)

Record mmu_rel (st st' : mmu) : Prop := {
  mr_mem : z_mem st = z_mem st';
  mr_used : mmu_table_used st = mmu_table_used st';
  mr_root : kernel_root st = kernel_root st';
  mr_satp : z_satp st = z_satp st';
  mr_tlb : tlb_rel (z_tlb st) (z_tlb st')
}.

Record test_rel (t t' : ztest) : Prop := {
  tr_mmu : mmu_rel (zt_mmu t) (zt_mmu t');
  tr_count : zt_fix_count t = zt_fix_count t'
}.

(** A resolver that acts alike on related states. *)
Definition resolver_ok (r : resolver) : Prop :=
  forall scause stval t t', test_rel t t' ->
    (r scause stval t).1 = (r scause stval t').1 /\
    test_rel (r scause stval t).2 (r scause stval t').2.

Record world_rel (w w' : zworld) : Prop := {
  wr_test : test_rel (zw_test w) (zw_test w');
  wr_fixup : mmu_fault_fixup w = mmu_fault_fixup w';
  wr_resolver r : mmu_fault_fixup w = Some r -> resolver_ok r;
  wr_expect : expect_fault w = expect_fault w';
  wr_scause : expected_scause w = expected_scause w';
  wr_stval : expected_stval w = expected_stval w';
  wr_hw : zw_hw w = zw_hw w';
  wr_steps : zw_steps w = zw_steps w'
}.

(** One result follows another, unless the logging hart did not get through. *)
Definition follows {A} (o o' : zresult A) : Prop :=
  match o' with
  | ZRet a v' => exists v, o = ZRet a v /\ world_rel v v'
  | ZEnd b v' => exists v, o = ZEnd b v /\ world_rel v v'
  | ZPanic => o = ZPanic
  | ZHang => True
  end.

(** [m] follows [m'] wherever the logging hart gets through. *)
Definition Lockstep {A} (m m' : T A) : Prop :=
  forall w w', world_rel w w' -> follows (m w) (m' w').

(** [m] follows one of two. *)
Definition Either {A} (m m1 m2 : T A) : Prop :=
  forall w w', world_rel w w' -> follows (m w) (m1 w') \/ follows (m w) (m2 w').

(** ** Accesses and resolvers *)

Lemma set_mem_tlb_rel t t' m tl tl' :
  test_rel t t' -> tlb_rel tl tl' -> test_rel (set_mem_tlb t m tl) (set_mem_tlb t' m tl').
Proof. intros [[] ?] ?. by repeat split. Qed.

Lemma fix_pte_rel t t' pte mask : test_rel t t' -> test_rel (fix_pte t pte mask) (fix_pte t' pte mask).
Proof.
  intros [[Hm Hu Hr Hs _] Hc]. unfold fix_pte. split; cbn; [|by rewrite Hc].
  split; cbn; [by rewrite Hm|done..|apply tlb_rel_empty].
Qed.

Lemma pte_lookup_rel st st' va :
  mmu_rel st st' -> z_riscv_mmu_pte_lookup st va = z_riscv_mmu_pte_lookup st' va.
Proof. intros [Hm _ Hr _ _]. unfold z_riscv_mmu_pte_lookup. by rewrite Hm, Hr. Qed.

Lemma p1c_fixup_ok : resolver_ok p1c_fixup.
Proof.
  intros scause stval t t' Hr. unfold p1c_fixup. rewrite (pte_lookup_rel _ _ _ (tr_mmu _ _ Hr)).
  repeat case_match; split; cbn; auto using fix_pte_rel.
Qed.

Lemma fault_rel fixup scause stval t t' :
  (forall r, fixup = Some r -> resolver_ok r) -> test_rel t t' ->
  (z_riscv_fault fixup scause stval t).1 = (z_riscv_fault fixup scause stval t').1 /\
  test_rel (z_riscv_fault fixup scause stval t).2 (z_riscv_fault fixup scause stval t').2.
Proof.
  intros Hok Hr. unfold z_riscv_fault, z_riscv_mmu_try_fault_fixup.
  destruct (_ || _); [|done]. destruct fixup as [r|]; [|done]. by apply (Hok r).
Qed.

Lemma z_access_rel fuel fixup c hit acc va t t' o v' :
  (forall r, fixup = Some r -> resolver_ok r) -> test_rel t t' ->
  z_access_log fuel fixup c acc va t' = Some (o, v') ->
  exists v, z_access fuel fixup c hit acc va t = (o, v) /\ test_rel v v'.
Proof.
  intros Hok. revert t t'.
  induction fuel as [|fuel IH]; intros t t' Hr; cbn [z_access_log z_access]; cbv zeta;
    destruct (log_agrees _ _ _ va) eqn:Hag; cbn [negb]; try done;
    pose proof (tr_mmu _ _ Hr) as [Hm _ Hroot _ Ht]; rewrite Hm, Hroot;
    match goal with |- context [hit ?n] =>
      pose proof (translate_rel c (hit n) _ _ _ _ acc va Ht Hag) as Htr end;
    destruct (tlb_translate c _ _ _ (z_tlb (zt_mmu t)) acc va) as [[pa m1] t1];
    destruct (tlb_translate c false _ _ _ acc va) as [[pa' m1'] t1'];
    destruct Htr as (<- & <- & Ht1); pose proof (set_mem_tlb_rel _ _ m1 _ _ Hr Ht1) as Hr1;
    (destruct pa as [pa|]; [intros [= <- <-]; eauto|]);
    destruct (fault_rel fixup (fault_cause acc) va _ _ Hok Hr1) as [Hretry Hr2];
    destruct (z_riscv_fault _ _ _ (set_mem_tlb t m1 t1)) as [b v];
    destruct (z_riscv_fault _ _ _ (set_mem_tlb t' m1 t1')) as [b' w']; cbn [fst snd] in *;
    subst b'; destruct b; try (intros [= <- <-]; eauto; fail).
  apply IH, Hr2.
Qed.

(** ** The kernel's operations do not look at the cache *)

Lemma mmu_rel_with st st' : mmu_rel st st' -> st = with_tlb (z_tlb st) st'.
Proof. intros [Hm Hu Hr Hs _]. destruct st. unfold with_tlb. cbn in *. by subst. Qed.

(** A map operation that ends in a full fence. *)
Definition fenced (f : mmu -> option mmu) : Prop :=
  forall t st, f (with_tlb t st) = f st.

Section Ops.
Context (mmu_tables K_RW K_EXEC K_USER : Z).

Lemma alloc_table_with t st :
  alloc_table mmu_tables (with_tlb t st) = prod_map id (with_tlb t) <$> alloc_table mmu_tables st.
Proof using.
  unfold alloc_table. change (mmu_table_used (with_tlb t st)) with (mmu_table_used st).
  destruct (first_free _); [|reflexivity].
  cbn [fmap option_fmap option_map prod_map fst snd]. unfold with_tlb, id.
  cbn [z_mem mmu_table_used kernel_root z_satp]. reflexivity.
Qed.

Lemma table_loop_with t n : forall st tbl va l,
  table_loop mmu_tables (with_tlb t st) tbl va l n
  = prod_map id (with_tlb t) <$> table_loop mmu_tables st tbl va l n.
Proof using.
  induction n as [|n IH]; intros; cbn [table_loop]; [done|].
  rewrite alloc_table_with. cbn [z_mem with_tlb].
  destruct (negb _); [|apply IH]. destruct (alloc_table mmu_tables st) as [[next st']|]; [|done].
  cbn. apply (IH (z_put st' _ _)).
Qed.

Lemma map_page_with t st va pa perm :
  map_page mmu_tables (with_tlb t st) va pa perm
  = with_tlb t <$> map_page mmu_tables st va pa perm.
Proof using.
  unfold map_page. change (kernel_root (with_tlb t st)) with (kernel_root st).
  rewrite table_loop_with. by destruct (table_loop _ _ _ _ _ _) as [[]|].
Qed.

Lemma map_loop_with t fuel : forall st va pa size perm off,
  map_loop mmu_tables fuel (with_tlb t st) va pa size perm off
  = with_tlb t <$> map_loop mmu_tables fuel st va pa size perm off.
Proof using.
  induction fuel as [|fuel IH]; intros; cbn [map_loop]; (destruct (negb _); [done|]); [done|].
  rewrite map_page_with. destruct (map_page _ _ _ _ _); cbn; [apply IH|done].
Qed.

Lemma unmap_loop_with t level : forall st tbl va,
  unmap_loop (with_tlb t st) tbl va level = with_tlb t (unmap_loop st tbl va level).
Proof using.
  induction level as [|level IH]; intros; cbn [unmap_loop]; [done|].
  change (z_mem (with_tlb t st)) with (z_mem st).
  destruct (negb _); [done|]. destruct (tst _ _); [done|apply IH].
Qed.

Lemma unmap_range_with t fuel : forall st va size off,
  unmap_range fuel (with_tlb t st) va size off = with_tlb t <$> unmap_range fuel st va size off.
Proof using.
  induction fuel as [|fuel IH]; intros; cbn [unmap_range]; (destruct (negb _); [done|]); [done|].
  unfold unmap_page. change (kernel_root (with_tlb t st)) with (kernel_root st).
  rewrite unmap_loop_with. apply IH.
Qed.

Lemma map_raw_fenced va pa bits level :
  fenced (fun st => z_riscv_mmu_map_raw mmu_tables st va pa bits level).
Proof using.
  intros t st. unfold z_riscv_mmu_map_raw.
  change (kernel_root (with_tlb t st)) with (kernel_root st). rewrite table_loop_with.
  repeat (destruct (negb _); [done|]). by destruct (table_loop _ _ _ _ _ _) as [[]|].
Qed.

Lemma arch_mem_map_fenced va pa size flags :
  fenced (fun st => arch_mem_map mmu_tables K_RW K_EXEC K_USER st va pa size flags).
Proof using.
  intros t st. unfold arch_mem_map. rewrite map_loop_with.
  by destruct (map_loop _ _ _ _ _ _ _ _).
Qed.

Lemma arch_mem_unmap_fenced va size : fenced (fun st => arch_mem_unmap st va size).
Proof using.
  intros t st. unfold arch_mem_unmap. rewrite unmap_range_with.
  by destruct (unmap_range _ _ _ _ _).
Qed.
End Ops.

(** ** Programs in lockstep *)

Lemma world_rel_test w w' t t' :
  world_rel w w' -> test_rel t t' -> world_rel (set_test t w) (set_test t' w').
Proof. intros [] ?. by split. Qed.

Lemma world_rel_mmu w w' st st' :
  world_rel w w' -> mmu_rel st st' -> world_rel (set_mmu st w) (set_mmu st' w').
Proof. intros Hw Hst. apply world_rel_test; [done|]. split; [done|]. apply (wr_test _ _ Hw). Qed.

Lemma mmu_rel_refl st : mmu_rel st st.
Proof. split; [done..|]. intros p o Ho. by exists o. Qed.

Lemma world_rel_tick w w' : world_rel w w' -> world_rel (z_tick w) (z_tick w').
Proof. intros []. split; cbn; auto. Qed.

Lemma world_rel_of w w' : world_rel w w' -> mmu_rel (z_mmu_of w) (z_mmu_of w').
Proof. intros H. apply H. Qed.

Lemma z_lockstep_ret {A} (a : A) : Lockstep (mret a) (mret a).
Proof. intros w w' H. cbn. eauto. Qed.

Lemma z_lockstep_bind {A B} (m m' : T A) (k k' : A -> T B) :
  Lockstep m m' -> (forall a, Lockstep (k a) (k' a)) -> Lockstep (mbind k m) (mbind k' m').
Proof.
  intros Hm Hk w w' H. specialize (Hm w w' H). unfold mbind, T_bind.
  destruct (m' w') as [a v'|b v'| |]; cbn [follows] in Hm |- *; [| | |done].
  - destruct Hm as (v & -> & Hv). by apply Hk.
  - destruct Hm as (v & -> & Hv). eauto.
  - by rewrite Hm.
Qed.

Lemma z_lockstep_for n : forall i (body body' : Z -> T unit),
  (forall i, Lockstep (body i) (body' i)) -> Lockstep (z_for n i body) (z_for n i body').
Proof.
  induction n as [|n IH]; intros; cbn [z_for]; [apply z_lockstep_ret|].
  apply z_lockstep_bind; [done|]. intros _. by apply IH.
Qed.

Lemma z_lockstep_gets {A} (f : zworld -> A) :
  (forall w w', world_rel w w' -> f w = f w') -> Lockstep (z_gets f) (z_gets f).
Proof. intros Hf w w' H. cbn. rewrite <- (Hf w w' H). eauto. Qed.

Lemma z_lockstep_modify (f : zworld -> zworld) :
  (forall w w', world_rel w w' -> world_rel (f w) (f w')) -> Lockstep (z_modify f) (z_modify f).
Proof. intros Hf w w' H. cbn. eauto. Qed.

Lemma z_lockstep_end {A} v : Lockstep (fun w => @ZEnd A v w) (fun w => ZEnd v w).
Proof. intros w w' H. cbn. eauto. Qed.

Lemma z_lockstep_hang {A} (m : T A) : Lockstep m z_hang.
Proof. by intros w w' H. Qed.

Lemma z_lockstep_map_op f : fenced f -> Lockstep (z_map_op f) (z_map_op f).
Proof.
  intros Hw w w' H. unfold z_map_op. pose proof (world_rel_of _ _ H) as Hst.
  rewrite (mmu_rel_with _ _ Hst), Hw. destruct (f (z_mmu_of w')) as [st|]; [|done].
  eexists. split; [done|]. apply world_rel_mmu; [done|apply mmu_rel_refl].
Qed.

Lemma z_lockstep_acc hit h h' acc va :
  (forall scause stval, Lockstep (h scause stval) (h' scause stval)) ->
  Lockstep (z_acc hit h acc va) (z_acc_log h' acc va).
Proof.
  intros Hh w w' H. unfold z_acc, z_acc_log.
  destruct (z_access_log _ _ _ _ _ _) as [[o v']|] eqn:He; [|done].
  rewrite (wr_fixup _ _ H), (wr_hw _ _ H).
  destruct (z_access_rel _ _ _ (hit (zw_steps w)) _ _ _ _ _ _
              (fun r Hr => wr_resolver _ _ H r (eq_trans (wr_fixup _ _ H) Hr)) (wr_test _ _ H) He)
    as (v & -> & Hv).
  assert (world_rel (z_tick (set_test v w)) (z_tick (set_test v' w'))) as Hw1
    by (by apply world_rel_tick, world_rel_test).
  destruct o as [pa|scause stval|]; [cbn; eauto| |done].
  exact (z_lockstep_bind _ _ _ _ (Hh scause stval) (fun _ => z_lockstep_hang _) _ _ Hw1).
Qed.

(** ** The proof of a program's lockstep follows the program *)

Lemma z_lockstep_if {A} (b : bool) (m n m' n' : T A) :
  Lockstep m m' -> Lockstep n n' -> Lockstep (if b then m else n) (if b then m' else n').
Proof. by destruct b. Qed.

Lemma z_lockstep_leaf_of va : Lockstep (leaf_of va) (leaf_of va).
Proof.
  apply z_lockstep_bind.
  - apply z_lockstep_gets. intros w w' H. by apply pte_lookup_rel, world_rel_of.
  - intros [pte|]; [apply z_lockstep_ret|apply z_lockstep_end].
Qed.

Lemma z_lockstep_set_fixup r :
  (forall f, r = Some f -> resolver_ok f) -> Lockstep (set_fault_fixup r) (set_fault_fixup r).
Proof. intros Hr. apply z_lockstep_modify. intros w w' []. split; cbn; auto. Qed.

Lemma mmu_rel_put st st' a v : mmu_rel st st' -> mmu_rel (z_put st a v) (z_put st' a v).
Proof. intros []. split; cbn; auto. by f_equal. Qed.

Lemma mmu_rel_fence st st' : mmu_rel st st' -> mmu_rel (z_fence st) (z_fence st').
Proof. intros []. split; cbn; auto. apply tlb_rel_empty. Qed.

Lemma z_lockstep_pte_write a v : Lockstep (pte_write a v) (pte_write a v).
Proof.
  apply z_lockstep_modify. intros w w' H.
  apply world_rel_mmu; [done|]. by apply mmu_rel_put, world_rel_of.
Qed.

Lemma z_lockstep_sfence : Lockstep z_sfence z_sfence.
Proof.
  apply z_lockstep_modify. intros w w' H.
  apply world_rel_mmu; [done|]. by apply mmu_rel_fence, world_rel_of.
Qed.

Lemma z_lockstep_sfence_addr va : Lockstep (z_sfence_addr va) (z_sfence_addr va).
Proof.
  apply z_lockstep_modify. intros w w' H. apply world_rel_mmu; [done|].
  destruct (world_rel_of _ _ H). split; cbn; auto. by apply tlb_rel_fence.
Qed.

Lemma z_lockstep_store acc acc' va f :
  Lockstep (acc Store va) (acc' Store va) -> Lockstep (z_store acc va f) (z_store acc' va f).
Proof.
  intros Ha. apply z_lockstep_bind; [done|]. intros pa.
  apply z_lockstep_modify. intros w w' H. apply world_rel_mmu; [done|].
  destruct (world_rel_of _ _ H) as [Hm]. split; cbn; auto. by rewrite Hm.
Qed.

Lemma z_lockstep_aliases acc acc' base offs :
  (forall va, Lockstep (z_load64 (acc handler_unexpected) va) (z_load64 (acc' handler_unexpected) va)) ->
  Lockstep (check_aliases acc base offs) (check_aliases acc' base offs).
Proof.
  intros Ha. induction offs as [|off offs IH]; cbn [check_aliases]; [apply z_lockstep_ret|].
  apply z_lockstep_bind; [done|]. intros a. apply z_lockstep_bind; [done|]. intros b.
  apply z_lockstep_bind; [|by intros _]. unfold zassert.
  destruct (a =? b); [apply z_lockstep_ret|apply z_lockstep_end].
Qed.

(** What a program reads of the state. *)
Ltac same_read :=
  intros ? ? Hrel; try (apply pte_lookup_rel, world_rel_of, Hrel);
  pose proof (world_rel_of _ _ Hrel); destruct Hrel;
  repeat match goal with H : mmu_rel _ _ |- _ => destruct H | H : test_rel _ _ |- _ => destruct H end;
  first [congruence | solve [auto]].

Create HintDb lockstep.
#[export] Hint Resolve z_lockstep_ret z_lockstep_end z_lockstep_hang z_lockstep_leaf_of z_lockstep_pte_write z_lockstep_sfence
  z_lockstep_sfence_addr map_raw_fenced arch_mem_map_fenced arch_mem_unmap_fenced : lockstep.

Ltac head_of m := lazymatch m with ?f _ => head_of f | _ => m end.

Ltac lockstep_step :=
  lazymatch goal with
  | |- Lockstep (mbind _ _) _ => apply z_lockstep_bind; [|intros ?]
  | |- Lockstep (z_for _ _ _) _ => apply z_lockstep_for; intros ?
  | |- Lockstep (if _ then _ else _) _ => apply z_lockstep_if
  | |- Lockstep (let _ := _ in _) _ => cbv zeta
  | |- Lockstep (z_acc _ _ _ _) _ => apply z_lockstep_acc; intros ? ?
  | |- Lockstep (check_aliases _ _ _) _ => apply z_lockstep_aliases; intros ?
  | |- Lockstep (z_store _ _ _) _ => apply z_lockstep_store
  | |- Lockstep (z_map_op _) _ => apply z_lockstep_map_op; auto with lockstep
  | |- Lockstep (set_fault_fixup _) _ =>
      apply z_lockstep_set_fixup; intros ? [=]; subst; apply p1c_fixup_ok
  | |- Lockstep (pte_read _) _ => apply z_lockstep_gets; unfold pte_read; same_read
  | |- Lockstep (z_gets _) _ => apply z_lockstep_gets; same_read
  | |- Lockstep (z_modify _) _ =>
      apply z_lockstep_modify; intros ? ? []; split; cbn; auto;
      first [congruence | split; cbn; [match goal with H : test_rel _ _ |- _ => exact (tr_mmu _ _ H) end|done]]
  | |- Lockstep ?m _ =>
      first [solve [auto with lockstep] | progress (let h := head_of m in unfold h)]
  end.
Ltac lockstep := repeat lockstep_step.
Ltac lockstep_suite := repeat (apply Forall2_cons_2; [lockstep|]); apply Forall2_nil_2.

(** A suite whose tests follow the logging hart's passes whenever that one does. *)
Lemma suite_run_lockstep before suite suite' w w' v' :
  Lockstep before before -> Forall2 Lockstep suite suite' -> world_rel w w' ->
  suite_run before suite' w' = Some v' ->
  exists v, suite_run before suite w = Some v /\ world_rel v v'.
Proof.
  intros Hb Hs. revert w w'. induction Hs as [|t t' l l' Ht _ IH]; intros w w' Hw; cbn [suite_run].
  { intros [= <-]. eauto. }
  pose proof (z_lockstep_bind _ _ _ _ Hb (fun _ => Ht) w w' Hw) as H.
  destruct (mbind (fun _ => t') before w') as [[] x|[] x| |]; try done;
    destruct H as (y & -> & Hy); eauto.
Qed.

Lemma z_either_then {A B} (m m1 m2 : T A) (k k' : A -> T B) :
  Either m m1 m2 -> (forall a, Lockstep (k a) (k' a)) ->
  Either (mbind k m) (mbind k' m1) (mbind k' m2).
Proof.
  intros Hm Hk w w' H.
  assert (forall m', follows (m w) (m' w') -> follows (mbind k m w) (mbind k' m' w')) as Hgo.
  { intros m' Hf. unfold mbind, T_bind. destruct (m' w') as [a v'|b v'| |]; cbn [follows] in Hf |- *; [| | |done].
    - destruct Hf as (v & -> & Hv). by apply Hk.
    - destruct Hf as (v & -> & Hv). eauto.
    - by rewrite Hf. }
  destruct (Hm w w' H); [left|right]; by apply Hgo.
Qed.

Lemma z_either_after {A B} (m m' : T A) (k k1 k2 : A -> T B) :
  Lockstep m m' -> (forall a, Either (k a) (k1 a) (k2 a)) ->
  Either (mbind k m) (mbind k1 m') (mbind k2 m').
Proof.
  intros Hm Hk w w' H. specialize (Hm w w' H). unfold mbind, T_bind.
  destruct (m' w') as [a v'|b v'| |]; cbn [follows] in Hm |- *; [| | |by left].
  - destruct Hm as (v & -> & Hv). by apply Hk.
  - destruct Hm as (v & -> & Hv). left. eauto.
  - rewrite Hm. by left.
Qed.

(** A suite one of whose tests follows one of two. *)
Lemma suite_run_either before pre pre' t t1 t2 post post' w w' :
  Lockstep before before -> Forall2 Lockstep pre pre' -> Either t t1 t2 -> Forall2 Lockstep post post' ->
  world_rel w w' ->
  is_Some (suite_run before (pre' ++ t1 :: post') w') -> is_Some (suite_run before (pre' ++ t2 :: post') w') ->
  is_Some (suite_run before (pre ++ t :: post) w).
Proof.
  intros Hb Hpre Ht Hpost. revert w w'. induction Hpre as [|x x' l l' Hx _ IH]; intros w w' Hw.
  - cbn [app suite_run]. intros H1 H2.
    assert (forall t', follows (mbind (fun _ => t) before w) (mbind (fun _ => t') before w') ->
      is_Some (suite_run before (t' :: post') w') -> is_Some (suite_run before (t :: post) w)) as Hgo.
    { intros t' Hf [v' Hv]. cbn [suite_run] in *.
      destruct (mbind (fun _ => t') before w') as [[] y'|[] y'| |]; try done;
        destruct Hf as (y & -> & Hy);
        destruct (suite_run_lockstep _ _ _ y y' v' Hb Hpost Hy Hv) as (v & -> & _); eauto. }
    destruct (z_either_after _ _ _ _ _ Hb (fun _ => Ht) w w' Hw) as [Hf|Hf];
      [exact (Hgo t1 Hf H1)|exact (Hgo t2 Hf H2)].
  - cbn [app suite_run]. pose proof (z_lockstep_bind _ _ _ _ Hb (fun _ => Hx) w w' Hw) as Hf.
    unfold follows in Hf. intros H1 H2.
    destruct (mbind (fun _ => x') before w') as [[] y'|[] y'| |]; try (by destruct H1);
      destruct Hf as (y & -> & Hy); by apply (IH y y' Hy).
Qed.

Lemma z_access_some n fixup c hit acc va st pa m t :
  tlb_translate c (hit n) (z_mem (zt_mmu st)) (kernel_root (zt_mmu st)) (z_tlb (zt_mmu st)) acc va
  = (Some pa, m, t) ->
  z_access n fixup c hit acc va st = (Accessed pa, set_mem_tlb st m t).
Proof. intros E. destruct n; cbn [z_access]; by rewrite E. Qed.

(** ** P1D.2 reads through an entry that has changed without a fence *)

(** A load of the logging hart from the tables or from the log, stale or not; it
    gives up if the load faults. *)
Definition z_peek (from_log : bool) (va : Z) : T Z := fun w =>
  let mmu := z_mmu_of w in
  let '(pa, m, t) := tlb_translate (zw_hw w) from_log (z_mem mmu) (kernel_root mmu) (z_tlb mmu) Load va in
  match pa with
  | Some pa => ZRet (rd64 m pa) (z_tick (set_test (set_mem_tlb (zw_test w) m t) w))
  | None => ZHang
  end.

Section Programs.
Context (hit : nat -> nat -> bool).
Abbreviation on_hart := (z_acc hit).

Lemma p1a_lockstep : Forall2 Lockstep (p1a_suite on_hart) (p1a_suite z_acc_log).
Proof using. lockstep_suite. Qed.

Lemma p1b_lockstep : Forall2 Lockstep (p1b_suite on_hart) (p1b_suite z_acc_log).
Proof using. lockstep_suite. Qed.

Lemma p1c_lockstep : Forall2 Lockstep (p1c_suite on_hart) (p1c_suite z_acc_log).
Proof using. lockstep_suite. Qed.

(** The load follows the logging hart that made the same choice. *)
Lemma z_load_follows b va w w' :
  world_rel w w' ->
  answers_rel
    (tlb_translate (zw_hw w') (hit (zw_steps w) z_retries) (z_mem (z_mmu_of w')) (kernel_root (z_mmu_of w'))
       (z_tlb (z_mmu_of w)) Load va)
    (tlb_translate (zw_hw w') b (z_mem (z_mmu_of w')) (kernel_root (z_mmu_of w'))
       (z_tlb (z_mmu_of w')) Load va) ->
  follows (z_load64 (on_hart handler_unexpected) va w) (z_peek b va w').
Proof using.
  intros H Ha. unfold z_peek. pose proof (world_rel_of _ _ H) as [Hm _ Hroot _ Ht].
  destruct (tlb_translate _ b _ _ _ _ _) as [[pa m] t1].
  destruct (tlb_translate _ (hit _ _) _ _ _ _ _) as [[pa' m'] t1'] eqn:E.
  destruct Ha as (-> & -> & Ha). destruct pa as [pa|]; [|done].
  rewrite <- (wr_hw _ _ H), <- Hm, <- Hroot in E.
  unfold z_load64, z_acc. unfold mbind, T_bind. rewrite (z_access_some _ _ _ _ _ _ _ _ _ _ E).
  eexists. split; [reflexivity|]. apply world_rel_tick, world_rel_test; [done|].
  apply set_mem_tlb_rel; [apply (wr_test _ _ H)|done].
Qed.

Lemma z_either_load va :
  Either (z_load64 (on_hart handler_unexpected) va) (z_peek false va) (z_peek true va).
Proof using.
  intros w w' H.
  destruct (translate_either (zw_hw w') (hit (zw_steps w) z_retries) (z_mem (z_mmu_of w'))
    (kernel_root (z_mmu_of w')) _ _ Load va (mr_tlb _ _ (world_rel_of _ _ H))) as [[] Ha];
    [right|left]; by apply z_load_follows.
Qed.

Lemma z_either_p1d_2 :
  Either (test_p1d_2_reading on_hart tables0 (z_var 0) (z_load64 (on_hart handler_unexpected)))
    (test_p1d_2_reading z_acc_log tables0 (z_var 0) (z_peek false))
    (test_p1d_2_reading z_acc_log tables0 (z_var 0) (z_peek true)).
Proof using.
  unfold test_p1d_2_reading. cbv zeta.
  repeat first
    [ apply z_either_then; [apply z_either_load|intros ?; lockstep]
    | apply z_either_after; [solve [lockstep]|intros ?] ].
Qed.

Lemma p1d_suite_split read acc :
  p1d_suite_reading acc read =
  [test_p1d_1_targeted_sfence acc tables0 (z_var 0)] ++
  test_p1d_2_reading acc tables0 (z_var 0) read :: drop 2 (p1d_suite_reading acc read).
Proof using. done. Qed.

Lemma p1d_lockstep read :
  Lockstep (test_p1d_1_targeted_sfence on_hart tables0 (z_var 0))
    (test_p1d_1_targeted_sfence z_acc_log tables0 (z_var 0)) /\
  Forall2 Lockstep (drop 2 (p1d_suite_reading on_hart read)) (drop 2 (p1d_suite_reading z_acc_log read)).
Proof using. split; [lockstep|]. cbn [drop p1d_suite_reading]. lockstep_suite. Qed.
End Programs.

(** ** The suites on every hart *)

Lemma world_rel_refl w : mmu_fault_fixup w = None -> world_rel w w.
Proof.
  intros Hn. split; auto; [split; [apply mmu_rel_refl|done]|]. by rewrite Hn.
Qed.

Lemma z_booted_fixup svadu w : z_booted svadu = Some w -> mmu_fault_fixup w = None.
Proof. unfold z_booted. generalize (z_riscv_mmu_init tables0). intros f. by destruct (f _ _ _); intros [= <-]. Qed.

Lemma suite_passes_lockstep svadu before suite suite' :
  Lockstep before before -> Forall2 Lockstep suite suite' ->
  suite_passes svadu before suite' = true -> suite_passes svadu before suite = true.
Proof.
  intros Hb Hs. unfold suite_passes. pose proof (z_booted_fixup svadu) as Hn. revert Hn.
  generalize (z_booted svadu). intros [w|] Hn; [|done].
  rewrite !bool_decide_eq_true. intros [v' Hv].
  destruct (suite_run_lockstep _ _ _ w w v' Hb Hs (world_rel_refl w (Hn w eq_refl)) Hv) as (v & -> & _).
  eauto.
Qed.

Lemma p1c_before_lockstep : Lockstep p1c_before p1c_before.
Proof. lockstep. Qed.

Lemma suite_passes_either svadu before pre pre' t t1 t2 post post' :
  Lockstep before before -> Forall2 Lockstep pre pre' -> Either t t1 t2 -> Forall2 Lockstep post post' ->
  suite_passes svadu before (pre' ++ t1 :: post') = true ->
  suite_passes svadu before (pre' ++ t2 :: post') = true ->
  suite_passes svadu before (pre ++ t :: post) = true.
Proof.
  intros Hb Hpre Ht Hpost. unfold suite_passes. pose proof (z_booted_fixup svadu) as Hn. revert Hn.
  generalize (z_booted svadu). intros [w|] Hn; [|done]. rewrite !bool_decide_eq_true.
  exact (suite_run_either _ _ _ _ _ _ _ _ w w Hb Hpre Ht Hpost (world_rel_refl w (Hn w eq_refl))).
Qed.

(** The logging hart's runs; two of P1D. *)
Lemma suites_pass_log svadu :
  suite_passes svadu (mret tt) (p1a_suite z_acc_log) = true /\
  suite_passes svadu (mret tt) (p1b_suite z_acc_log) = true /\
  suite_passes svadu p1c_before (p1c_suite z_acc_log) = true /\
  suite_passes svadu (mret tt) (p1d_suite_reading z_acc_log (z_peek false)) = true /\
  suite_passes svadu (mret tt) (p1d_suite_reading z_acc_log (z_peek true)) = true.
Proof. destruct svadu; split_and!; vm_compute; reflexivity. Qed.

(** C15: P1A, P1B, P1C and P1D pass on every hart: with or without hardware A/D
    management, and whichever cached walks the hart answers from, the read of P1D.2
    through a walk that no fence has removed included. *)
Theorem zephyr_mmu_suites_pass hit svadu :
  suite_passes svadu (mret tt) (p1a_suite (z_acc hit)) = true /\
  suite_passes svadu (mret tt) (p1b_suite (z_acc hit)) = true /\
  suite_passes svadu p1c_before (p1c_suite (z_acc hit)) = true /\
  suite_passes svadu (mret tt) (p1d_suite (z_acc hit)) = true.
Proof.
  destruct (suites_pass_log svadu) as (Ha & Hb & Hc & Hd1 & Hd2). split_and!.
  - exact (suite_passes_lockstep svadu _ _ _ (z_lockstep_ret tt) (p1a_lockstep hit) Ha).
  - exact (suite_passes_lockstep svadu _ _ _ (z_lockstep_ret tt) (p1b_lockstep hit) Hb).
  - exact (suite_passes_lockstep svadu _ _ _ p1c_before_lockstep (p1c_lockstep hit) Hc).
  - destruct (p1d_lockstep hit (z_peek false)) as [H1 H3]. unfold p1d_suite.
    rewrite p1d_suite_split in Hd1, Hd2 |- *.
    refine (suite_passes_either svadu _ _ _ _ _ _ _ _ (z_lockstep_ret tt) _ (z_either_p1d_2 hit) H3 Hd1 Hd2).
    apply Forall2_cons_2; [exact H1|apply Forall2_nil_2].
Qed.
