(* ===== verification/ZSanity.v ===== *)
(** * The Zephyr suite's sanity tests, and a fault while the timer runs

    [zephyr-suite/p0_sanity], built without an MMU: addresses are physical, and an
    address with nothing behind it raises an access fault.  The firmware's answer
    to an [ecall] is a parameter with what the SBI specification promises.  P2.4 of
    [zephyr-suite/p2_interrupts] is a program over the MMU like those of [ZSuite];
    the kernel's timer is seen through the number of its expirations. *)

From S2P Require Import Prelude Platform Memory Sv39 Tlb ZephyrMmu ZephyrFault ZSuite ZSuiteRuns.

(** ** P0 *)

Definition EXC_LOAD_ACCESS : Z := 5.
Definition EXC_STORE_ACCESS : Z := 7.
Definition EXC_INST_ACCESS : Z := 1.
Definition SBI_ERR_NOT_SUPPORTED : Z := -2.

Definition access_cause (acc : access) : Z :=
  match acc with Load => EXC_LOAD_ACCESS | Store => EXC_STORE_ACCESS | Fetch => EXC_INST_ACCESS end.

Section P0.
(** The addresses with memory behind them, the hart's [sstatus], and the firmware's
    answer ([a0], [a1]) to [ecall] with [a0], [a1], [a6], [a7]. *)
Context (backed : Z -> bool) (sstatus : Z) (sbi : Z -> Z -> Z -> Z -> Z * Z).

(** An access without paging; [k_sys_fatal_error_handler] is P1B's, word for word. *)
Definition p0_acc (acc : access) (va : Z) : T Z :=
  if backed va then mret va
  else handler_expected (access_cause acc) va ;; z_hang.

Abbreviation load64 := (z_load64 p0_acc).
Abbreviation store64 := (z_store64 p0_acc).

Definition test_csr_read_sstatus : T unit := zassert ((sstatus .>> 32) .& 0x3 =? 2).

Definition test_ecall_smode_sbi : T unit :=
  let '(a0, a1) := sbi 0 0 0 0xFF in zassert (s64 a0 =? SBI_ERR_NOT_SUPPORTED).

Definition test_trap_is_caught : T unit :=
  expect EXC_LOAD_ACCESS 0xC0000000 ;;
  p0_acc Load 0xC0000000 ;; zassert_unreachable.

Definition sweep_word (i : Z) : Z := 0xA5A5A5A500000000 .| i.
Definition sweep_fill (buf : Z) (n : nat) (f : Z -> Z) : T unit :=
  z_for n 0 (fun i => store64 (buf + 8 * i) (f i)).
Definition sweep_check (buf : Z) (n : nat) (f : Z -> Z) : T unit :=
  z_for n 0 (fun i => v ← load64 (buf + 8 * i); zassert (v =? f i)).
Definition test_sram_rw_sweep (buf : Z) (n : nat) : T unit :=
  sweep_fill buf n sweep_word ;;
  sweep_check buf n sweep_word ;;
  sweep_fill buf n (fun i => not64 (sweep_word i)) ;;
  sweep_check buf n (fun i => not64 (sweep_word i)).

(** The words the loops have written, and the memory around them. *)
Record filled (buf : Z) (f : Z -> Z) (i n : Z) (m m' : mem) : Prop := {
  fl_in j : i <= j < i + n -> rd64 m' (buf + 8 * j) = f j;
  fl_out a : a mod 8 = 0 -> a < buf + 8 * i \/ buf + 8 * (i + n) <= a -> rd64 m' a = rd64 m a
}.

(** One store and one load. *)
Definition stored64 (va v : Z) (w : zworld) : zworld :=
  let st := z_mmu_of w in
  set_mmu {| z_mem := wr64 (z_mem st) va v; mmu_table_used := mmu_table_used st;
             kernel_root := kernel_root st; z_satp := z_satp st; z_tlb := z_tlb st |} w.

Lemma store_bare va v w : backed va = true -> store64 va v w = ZRet tt (stored64 va v w).
Proof using. intros Hb. unfold z_store64, z_store, p0_acc. by rewrite Hb. Qed.

Lemma load_bare va w : backed va = true -> load64 va w = ZRet (rd64 (mem_of w) va) w.
Proof using. intros Hb. unfold z_load64, p0_acc. by rewrite Hb. Qed.

Lemma fill_spec buf f n : forall i w,
  buf mod 8 = 0 -> (forall j, i <= j < i + Z.of_nat n -> 0 <= f j < 2 ^ 64) ->
  (forall j, i <= j < i + Z.of_nat n -> backed (buf + 8 * j) = true) ->
  exists w', z_for n i (fun i => store64 (buf + 8 * i) (f i)) w = ZRet tt w' /\
    filled buf f i (Z.of_nat n) (mem_of w) (mem_of w').
Proof using.
  induction n as [|n IH]; intros i w Hbuf Hf Hb; cbn [z_for].
  { exists w. split; [done|]. split; [lia|done]. }
  rewrite (then_ret _ _ _ _ _ (store_bare (buf + 8 * i) (f i) w ltac:(apply Hb; lia))).
  destruct (IH (i + 1) (stored64 (buf + 8 * i) (f i) w) Hbuf) as (w' & E & [Hin Hout]);
    [intros j Hj; apply Hf; lia|intros j Hj; apply Hb; lia|].
  exists w'. split; [exact E|].
  change (mem_of (stored64 _ _ _)) with (wr64 (mem_of w) (buf + 8 * i) (f i)) in Hout.
  assert (forall j, (buf + 8 * j) mod 8 = 0) as Hal
    by (intros j; rewrite Z.mul_comm, Z_mod_plus_full; done).
  split.
  - intros j Hj. destruct (Z.eq_dec j i) as [->|]; [|apply Hin; lia].
    rewrite Hout by (done || lia). apply rd64_wr64_eq, Hf. lia.
  - intros a Ha Ho. rewrite Hout by (done || lia). apply rd64_wr64_other; (done || lia).
Qed.

Lemma check_spec buf f n : forall i w,
  (forall j, i <= j < i + Z.of_nat n -> backed (buf + 8 * j) = true /\ rd64 (mem_of w) (buf + 8 * j) = f j) ->
  z_for n i (fun i => v ← load64 (buf + 8 * i); zassert (v =? f i)) w = ZRet tt w.
Proof using.
  induction n as [|n IH]; intros i w Hb; cbn [z_for]; [done|].
  destruct (Hb i ltac:(lia)) as [Hi Hv].
  rewrite (then_ret _ _ tt w w); [apply IH; intros j Hj; apply Hb; lia|].
  rewrite (then_ret _ _ _ _ _ (load_bare _ w Hi)), Hv, Z.eqb_refl. done.
Qed.

Lemma sweep_word_range i : 0 <= i < 2 ^ 32 -> 0 <= sweep_word i < 2 ^ 64.
Proof using.
  intros Hi. unfold sweep_word. assert (0 <= 0xA5A5A5A500000000 .| i) as H0 by (apply Z.lor_nonneg; lia).
  split; [done|]. destruct (Z.eq_dec (0xA5A5A5A500000000 .| i) 0) as [->|]; [lia|].
  apply Z.log2_lt_pow2; [lia|]. rewrite Z.log2_lor by lia. apply Z.max_lub_lt; [reflexivity|].
  destruct (Z.eq_dec i 0) as [->|]; [reflexivity|]. apply Z.log2_lt_pow2; lia.
Qed.

(** P0.4, for a buffer of any size: both passes of the sweep succeed from any
    memory; the buffer is left with the complemented pattern and nothing around
    it has changed. *)
Theorem sram_sweep_passes buf n w :
  buf mod 8 = 0 -> Z.of_nat n < 2 ^ 32 ->
  (forall j, 0 <= j < Z.of_nat n -> backed (buf + 8 * j) = true) ->
  exists w', test_sram_rw_sweep buf n w = ZRet tt w' /\
    filled buf (fun i => not64 (sweep_word i)) 0 (Z.of_nat n) (mem_of w) (mem_of w').
Proof using.
  intros Hbuf Hn Hb. unfold test_sram_rw_sweep, sweep_fill, sweep_check.
  destruct (fill_spec buf sweep_word n 0 w Hbuf) as (w1 & E1 & [Hin1 Hout1]);
    [intros j Hj; apply sweep_word_range; lia|done|].
  destruct (fill_spec buf (fun i => not64 (sweep_word i)) n 0 w1 Hbuf) as (w2 & E2 & [Hin2 Hout2]);
    [intros j Hj; apply wrap64_range|done|].
  exists w2. rewrite (then_ret _ _ _ _ _ E1), (then_ret _ _ tt w1 w1), (then_ret _ _ _ _ _ E2);
    [|apply check_spec; auto].
  split; [apply check_spec; auto|]. split; [done|]. intros a Ha Ho. rewrite Hout2, Hout1; done.
Qed.

Lemma uxl_bits x : (x .>> 32) .& 0x3 = Z.b2z (Z.testbit x 32) + 2 * Z.b2z (Z.testbit x 33).
Proof using.
  rewrite !Z.testbit_spec' by lia. change 0x3 with (Z.ones 2). rewrite Z.land_ones, Z.shiftr_div_pow2 by lia.
  change (2 ^ 33) with (2 ^ 32 * 2). rewrite <- Z.div_div by lia. change (2 ^ 2) with (2 * 2).
  rewrite Z.rem_mul_r by lia. done.
Qed.

(** The other tests of P0, as what they test of the hart and its firmware: UXL says
    64 bits; an unknown call returns [SBI_ERR_NOT_SUPPORTED]; a load from
    0xC0000000 is caught with its cause and address unless memory answers it, and
    then the test fails. *)
Theorem sanity_verdicts w :
  (test_csr_read_sstatus w = ZRet tt w <-> Z.testbit sstatus 33 = true /\ Z.testbit sstatus 32 = false) /\
  (test_ecall_smode_sbi w = ZRet tt w <-> s64 (fst (sbi 0 0 0 0xFF)) = SBI_ERR_NOT_SUPPORTED) /\
  exists w', test_trap_is_caught w = ZEnd (if backed 0xC0000000 then ZFail else ZPass) w' /\
    expect_fault w' = backed 0xC0000000.
Proof using.
  split; [|split].
  - unfold test_csr_read_sstatus, zassert. rewrite uxl_bits.
    destruct (Z.testbit sstatus 33), (Z.testbit sstatus 32); cbn; split; intros; destr_all; done.
  - unfold test_ecall_smode_sbi. destruct (sbi _ _ _ _) as [a0 a1]. cbn [fst].
    unfold zassert. destruct (Z.eqb_spec (s64 a0) SBI_ERR_NOT_SUPPORTED); cbn; split; done.
  - unfold test_trap_is_caught, expect, p0_acc. destruct (backed 0xC0000000); eexists; split; reflexivity.
Qed.
End P0.

(** ** P2.4: a page fault repaired while a periodic timer runs *)

Definition VA_P24 : Z := 0xD0400000.

Section P24.
(** [ticks p ms]: how often [timer_expiry] has run when a thread has slept [ms]
    milliseconds beside a timer of period [p]; it touches the timer's variables only. *)
Context (acc : (Z -> Z -> T unit) -> access -> Z -> T Z) (ticks : Z -> Z -> Z).
Context (mmu_tables bp_p24 : Z).

(** [p2_before]; [k_timer_stop] and the resets of the timer's variables apart. *)
Definition p2_before : T unit :=
  set_fault_fixup None ;;
  z_modify (fun w => set_test {| zt_mmu := z_mmu_of w; zt_fix_count := 0 |} w).

(** The program has no fatal handler of its own: the kernel's ends the test. *)
Definition test_p2_4_timer_during_fault : T unit :=
  z_store64 (acc handler_unexpected) bp_p24 0xDEAD0004 ;;
  set_fault_fixup (Some p2_fixup) ;;
  map_raw mmu_tables VA_P24 bp_p24 (PTE_R .| PTE_W) 0 ;;
  val ← z_load64 (acc handler_unexpected) VA_P24;
  let timer_count := ticks 1 20 in
  zassert (val =? 0xDEAD0004) ;;
  n ← fix_count; zassert (1 <=? n) ;;
  zassert (0 <? timer_count).
End P24.

Lemma p2_fixup_ok : resolver_ok p2_fixup.
Proof.
  intros scause stval t t' Hr. unfold p2_fixup. rewrite (pte_lookup_rel _ _ _ (tr_mmu _ _ Hr)).
  repeat case_match; split; cbn; auto using fix_pte_rel.
Qed.

Lemma p24_lockstep hit ticks :
  Lockstep (test_p2_4_timer_during_fault (z_acc hit) ticks tables0 (z_var 0))
    (test_p2_4_timer_during_fault z_acc_log ticks tables0 (z_var 0)).
Proof.
  unfold test_p2_4_timer_during_fault.
  repeat first [ lazymatch goal with
                 | |- Lockstep (set_fault_fixup _) _ =>
                     apply z_lockstep_set_fixup; intros ? [=]; subst; apply p2_fixup_ok
                 end | lockstep_step ].
Qed.

Lemma p2_before_lockstep : Lockstep p2_before p2_before.
Proof. lockstep. Qed.

(** P2.4: the load through the entry without V is repaired once and lands, on every
    hart, whatever walks it has cached and with or without hardware A/D; the
    test passes when the timer has expired in the 20 ms beside it. *)
Theorem zephyr_p2_4_passes hit svadu ticks :
  0 < ticks 1 20 ->
  suite_passes svadu p2_before [test_p2_4_timer_during_fault (z_acc hit) ticks tables0 (z_var 0)] = true.
Proof.
  intros Ht. eapply suite_passes_lockstep.
  - apply p2_before_lockstep.
  - apply Forall2_cons_2; [apply p24_lockstep|apply Forall2_nil_2].
  - apply Z.ltb_lt in Ht.
    assert (forall b : bool, b = true -> test_p2_4_timer_during_fault z_acc_log ticks tables0 (z_var 0)
      = test_p2_4_timer_during_fault z_acc_log (fun _ _ => if b then 1 else 0) tables0 (z_var 0)) as E.
    { intros b ->. unfold test_p2_4_timer_during_fault. cbv zeta. by rewrite Ht. }
    rewrite (E true eq_refl). destruct svadu; vm_compute; reflexivity.
Qed.

Lemma zephyr_p2_4_passes_witness :
  suite_passes true p2_before
    [test_p2_4_timer_during_fault (z_acc (fun n _ => Nat.even n)) (fun p ms => ms / p) tables0 (z_var 0)] = true.
Proof. apply (zephyr_p2_4_passes (fun n _ => Nat.even n) true (fun p ms => ms / p)). reflexivity. Defined.

(** The sweep at the size of the test, in an empty memory. *)
Lemma sram_sweep_passes_witness :
  exists w w', test_sram_rw_sweep (fun _ => true) 0x80010000 1024 w = ZRet tt w' /\
    rd64 (mem_of w') 0x80010008 = 0x5A5A5A5AFFFFFFFE.
Proof.
  pose (w := mk_zworld {| zt_mmu := {| z_mem := ∅; mmu_table_used := []; kernel_root := 0; z_satp := 0; z_tlb := ∅ |};
                          zt_fix_count := 0 |} None false 0 0
               {| hw_sum := false; hw_mxr := false; hw_svadu := true |} 0).
  destruct (sram_sweep_passes (fun _ => true) 0x80010000 1024 w eq_refl eq_refl (fun _ _ => eq_refl))
    as (w' & E & Hf).
  exists w, w'. split; [exact E|]. exact (fl_in _ _ _ _ _ _ Hf 1 ltac:(lia)).
Defined.
