(* ===== verification/Console.v ===== *)
(** * Console output and verdicts ([common/smode.c], [common/spike_uart.c])

    The byte output of both builds ([uart_putc] over a 16550 UART and over the
    HTIF word), the formatters built on it, and the words that report the
    verdict to the host: [tohost] for Spike, the [sifive_test] finisher for QEMU.
    The devices are polled; the environment decides at which poll a device
    becomes ready, and both [uart_putc]s refine "append one byte". *)

From S2P Require Import Prelude Platform.

(** ** The abstract console: the bytes sent so far, last one first *)

Abbreviation console := (list Z).

(** [(unsigned char)c]. *)
Definition uchar (c : Z) : Z := c mod 256.
Definition putc (c : Z) (o : console) : console := uchar c :: o.

(** ** The 16550 UART *)

Section Uart16550.
(** The value of the [n]-th read of the line status register. *)
Context (lsr : nat -> Z).

Record uart := { lsr_reads : nat; uart_sent : console }.

(** [while (( *lsr & UART0_LSR_THRE) == 0);], at most [fuel] reads. *)
Fixpoint thre_wait (fuel n : nat) : option nat :=
  match fuel with
  | O => None
  | S fuel' => if lsr n .& UART0_LSR_THRE =? 0 then thre_wait fuel' (S n) else Some (S n)
  end.

Definition uart_putc (fuel : nat) (c : Z) (u : uart) : option uart :=
  match thre_wait fuel (lsr_reads u) with
  | Some n => Some {| lsr_reads := n; uart_sent := uchar c :: uart_sent u |}
  | None => None
  end.

Lemma thre_wait_ready k fuel n :
  tst (lsr (n + k)%nat) UART0_LSR_THRE = true -> (k < fuel)%nat ->
  exists n', thre_wait fuel n = Some n'.
Proof using.
  revert fuel n. induction k as [|k IH]; intros fuel n Hr Hf;
    (destruct fuel as [|fuel]; [lia|]); cbn [thre_wait]; unfold tst in *.
  - rewrite Nat.add_0_r in Hr. destruct (_ =? 0); [done|eauto].
  - destruct (lsr n .& UART0_LSR_THRE =? 0); [|eauto]. apply IH; [|lia].
    by replace (S n + k)%nat with (n + S k)%nat by lia.
Qed.

(** The UART build appends the byte once the transmitter reports ready. *)
Theorem uart_putc_appends k fuel c u :
  tst (lsr (lsr_reads u + k)%nat) UART0_LSR_THRE = true -> (k < fuel)%nat ->
  exists u', uart_putc fuel c u = Some u' /\ uart_sent u' = putc c (uart_sent u).
Proof using.
  intros Hr Hf. unfold uart_putc. destruct (thre_wait_ready k fuel (lsr_reads u) Hr Hf) as (n & ->).
  by eexists.
Qed.
End Uart16550.

(** ** The HTIF console *)

Section Htif.
(** Whether the host serves the mailbox before the [n]-th read of [tohost], and
    what it leaves in [fromhost] then. *)
Context (serves : nat -> bool) (ack : Z).

Record htif := { ht_reads : nat; tohost : Z; fromhost : Z; host_seen : console }.

(** Device 1, command 1: write a byte.  The host takes the word and clears it. *)
Definition host_step (h : htif) : htif :=
  if serves (ht_reads h) && negb (tohost h =? 0)
  then {| ht_reads := S (ht_reads h); tohost := 0; fromhost := ack;
          host_seen := (tohost h) .& 0xFF :: host_seen h |}
  else {| ht_reads := S (ht_reads h); tohost := tohost h; fromhost := fromhost h;
          host_seen := host_seen h |}.

(** [while (tohost != 0);] *)
Fixpoint tohost_wait (fuel : nat) (h : htif) : option htif :=
  match fuel with
  | O => None
  | S fuel' =>
      let h := host_step h in
      if tohost h =? 0 then Some h else tohost_wait fuel' h
  end.

Definition htif_putc (fuel : nat) (c : Z) (h : htif) : option htif :=
  match tohost_wait fuel h with
  | None => None
  | Some h =>
      let word := (1 .<< 56) .| (1 .<< 48) .| uchar c in
      let h := {| ht_reads := ht_reads h; tohost := word; fromhost := fromhost h;
                  host_seen := host_seen h |} in
      match tohost_wait fuel h with
      | None => None
      | Some h =>
          Some {| ht_reads := ht_reads h; tohost := tohost h;
                  fromhost := if negb (fromhost h =? 0) then 0 else fromhost h;
                  host_seen := host_seen h |}
      end
  end.

(** The host serves within [k] reads from any point. *)
Definition responsive (k : nat) : Prop :=
  forall n, exists j, (j < k)%nat /\ serves (n + j)%nat = true.

Lemma tohost_wait_served j fuel h :
  (j < fuel)%nat -> serves (ht_reads h + j)%nat = true -> tohost h <> 0 ->
  exists h', tohost_wait fuel h = Some h' /\ tohost h' = 0 /\
    host_seen h' = (tohost h) .& 0xFF :: host_seen h.
Proof using.
  revert fuel h. induction j as [|j IH]; intros fuel h Hf Hs Hne;
    (destruct fuel as [|fuel]; [lia|]); cbn [tohost_wait]; unfold host_step;
    replace (tohost h =? 0) with false by (symmetry; by apply Z.eqb_neq); bsimpl.
  - rewrite Nat.add_0_r in Hs. rewrite Hs. bsimpl. cbn [tohost]. rewrite Z.eqb_refl. eauto.
  - destruct (serves (ht_reads h)); bsimpl; cbn [tohost]; [rewrite Z.eqb_refl; eauto|].
    replace (tohost h =? 0) with false by (symmetry; by apply Z.eqb_neq).
    destruct (IH fuel {| ht_reads := S (ht_reads h); tohost := tohost h;
                         fromhost := fromhost h; host_seen := host_seen h |})
      as (h' & H1 & H2 & H3); cbn [ht_reads tohost]; [lia| |done|by exists h'].
    by replace (S (ht_reads h) + j)%nat with (ht_reads h + S j)%nat by lia.
Qed.

Lemma tohost_wait_idle fuel h :
  (0 < fuel)%nat -> tohost h = 0 ->
  exists h', tohost_wait fuel h = Some h' /\ tohost h' = 0 /\ host_seen h' = host_seen h.
Proof using.
  intros Hf H0. destruct fuel as [|fuel]; [lia|]. cbn [tohost_wait]. unfold host_step.
  rewrite H0, Z.eqb_refl, andb_false_r. cbn [tohost]. rewrite Z.eqb_refl. eauto.
Qed.

Lemma htif_word c : (1 .<< 56) .| (1 .<< 48) .| uchar c = 2 ^ 56 + 2 ^ 48 + uchar c.
Proof using.
  pose proof (Z.mod_pos_bound c 256 eq_refl) as Hc. fold (uchar c) in Hc.
  change ((1 .<< 56) .| (1 .<< 48)) with (Z.shiftl (2 ^ 48 + 2 ^ 40) 8).
  rewrite lor_field by lia. lia.
Qed.

(** The HTIF build appends the byte when the host serves the mailbox, and leaves
    the mailbox free. *)
Theorem htif_putc_appends k fuel c h :
  responsive k -> (k <= fuel)%nat -> tohost h = 0 ->
  exists h', htif_putc fuel c h = Some h' /\ host_seen h' = putc c (host_seen h) /\
    tohost h' = 0 /\ fromhost h' = 0.
Proof using.
  intros Hresp Hk H0.
  assert (0 < fuel)%nat by (destruct (Hresp 0%nat) as (j & ? & _); lia).
  unfold htif_putc. destruct (tohost_wait_idle fuel h) as (h1 & -> & H1 & Hs1); [done..|].
  pose proof (Z.mod_pos_bound c 256 eq_refl) as Hc. fold (uchar c) in Hc.
  rewrite htif_word. set (h2 := {| ht_reads := ht_reads h1; tohost := _ |}).
  destruct (Hresp (ht_reads h2)) as (j & Hj & Hsj).
  destruct (tohost_wait_served j fuel h2) as (h3 & -> & H3 & Hs3);
    [lia|done|unfold h2; cbn [tohost]; lia|].
  eexists. split; [done|]. cbn [host_seen tohost fromhost]. split_and!; [|done|].
  - rewrite Hs3, <- Hs1. unfold h2, putc. cbn [tohost host_seen]. f_equal.
    change 0xFF with (Z.ones 8). rewrite Z.land_ones by lia.
    replace (2 ^ 56 + 2 ^ 48 + uchar c) with (uchar c + (2 ^ 48 + 2 ^ 40) * 2 ^ 8) by lia.
    rewrite Z_mod_plus_full. by apply Z.mod_small.
  - destruct (Z.eqb_spec (fromhost h3) 0) as [->|]; done.
Qed.
End Htif.

(** ** Strings and numbers *)

Definition code_of (a : Ascii.ascii) : Z := Z.of_nat (Ascii.nat_of_ascii a).
Definition nl : string := String (Ascii.ascii_of_nat 10) EmptyString.

(** A line feed is preceded by a carriage return. *)
Fixpoint uart_puts (s : string) (o : console) : console :=
  match s with
  | EmptyString => o
  | String a s' =>
      uart_puts s' (putc (code_of a) (if code_of a =? 10 then putc 13 o else o))
  end.

Definition hex_digit (d : Z) : Z :=
  match String.get (Z.to_nat d) "0123456789abcdef" with
  | Some a => code_of a
  | None => 0
  end.

(** [for (int i = 60; i >= 0; i -= 4)]: [n] digits are left. *)
Fixpoint put_hex_digits (n : nat) (val : Z) (o : console) : console :=
  match n with
  | O => o
  | S n' => put_hex_digits n' val (putc (hex_digit ((val .>> (4 * Z.of_nat n')) .& 0xF)) o)
  end.
Definition uart_put_hex (val : Z) (o : console) : console :=
  put_hex_digits 16 val (uart_puts "0x" o).

(** [do { buf[i++] = '0' + (val % 10); val /= 10; } while (val > 0);]: the digits,
    last one first; an [int] has at most ten. *)
Fixpoint dec_digits (fuel : nat) (val : Z) : list Z :=
  match fuel with
  | O => []
  | S fuel' =>
      let d := 48 + Z.rem val 10 in
      let val := Z.quot val 10 in
      d :: if 0 <? val then dec_digits fuel' val else []
  end.

(** [val] is an [int]; negating the least one wraps to itself. *)
Definition uart_put_dec (val : Z) (o : console) : console :=
  let '(val, o) := if val <? 0 then (s32 (- val), putc 45 o) else (val, o) in
  fold_right putc o (dec_digits 10 val).

#[global] Arguments putc : simpl never.
#[global] Arguments uart_puts : simpl never.
#[global] Arguments uart_put_hex : simpl never.
#[global] Arguments uart_put_dec : simpl never.

(** *** Reading the numbers back *)

(** The value of the last [n] hexadecimal digits sent. *)
Definition hex_value (c : Z) : Z := if c <? 58 then c - 48 else c - 87.
Fixpoint read_hex (n : nat) (o : console) : Z :=
  match n, o with
  | S n', c :: o' => hex_value c + 16 * read_hex n' o'
  | _, _ => 0
  end.

Lemma hex_digit_value d : 0 <= d < 16 ->
  hex_value (hex_digit d) = d /\ 0 <= hex_digit d < 256.
Proof.
  intros Hd. assert (exists n, (n < 16)%nat /\ d = Z.of_nat n) as (n & Hn & ->).
  { exists (Z.to_nat d). lia. }
  do 16 (destruct n as [|n]; [split; [reflexivity|split; [discriminate|reflexivity]]|]). lia.
Qed.

Lemma put_hex_digits_read n m val o :
  0 <= val ->
  read_hex (n + m) (put_hex_digits n val o)
  = val mod 2 ^ (4 * Z.of_nat n) + 2 ^ (4 * Z.of_nat n) * read_hex m o.
Proof.
  intros Hv. revert m o. induction n as [|n IH]; intros m o; cbn [put_hex_digits].
  { change (4 * Z.of_nat 0) with 0. rewrite Z.mod_1_r. cbn [Nat.add]. lia. }
  replace (S n + m)%nat with (n + S m)%nat by lia. rewrite IH. unfold putc. cbn [read_hex].
  set (d := (val .>> (4 * Z.of_nat n)) .& 0xF).
  assert (d = val / 2 ^ (4 * Z.of_nat n) mod 16) as Hd.
  { unfold d. change 0xF with (Z.ones 4). rewrite Z.land_ones, shr_div by lia. done. }
  assert (0 <= d < 16) as Hdr by (rewrite Hd; apply Z.mod_pos_bound; lia).
  destruct (hex_digit_value d Hdr) as [Hval Hrng]. unfold uchar.
  rewrite (Z.mod_small (hex_digit d) 256), Hval by lia.
  replace (4 * Z.of_nat (S n)) with (4 * Z.of_nat n + 4) by lia.
  rewrite Z.pow_add_r by lia. change (2 ^ 4) with 16.
  rewrite (Z.rem_mul_r val (2 ^ (4 * Z.of_nat n)) 16), <- Hd; [ring|apply Z.pow_nonzero; lia|lia].
Qed.

(** [uart_put_hex] sends "0x" and sixteen digits that read back as the value. *)
Theorem uart_put_hex_reads val o :
  0 <= val < 2 ^ 64 ->
  read_hex 16 (uart_put_hex val o) = val /\
  drop 16 (uart_put_hex val o) = putc 120 (putc 48 o).
Proof.
  intros Hv. unfold uart_put_hex. split.
  - rewrite (put_hex_digits_read 16 0) by lia. cbn [read_hex].
    change (4 * Z.of_nat 16) with 64. rewrite Z.mod_small by lia. lia.
  - reflexivity.
Qed.

(** The value of decimal digits, last one first. *)
Fixpoint dec_value (l : list Z) : Z :=
  match l with
  | [] => 0
  | c :: l' => (c - 48) + 10 * dec_value l'
  end.

Lemma dec_digits_value fuel val :
  0 <= val < 10 ^ Z.of_nat fuel -> (0 < fuel)%nat ->
  dec_value (dec_digits fuel val) = val /\
  Forall (fun c => 48 <= c < 58) (dec_digits fuel val) /\
  (length (dec_digits fuel val) <= fuel)%nat.
Proof.
  revert val. induction fuel as [|fuel IH]; intros val Hv Hf; [lia|]. cbn [dec_digits].
  rewrite Z.rem_mod_nonneg, Z.quot_div_nonneg by lia.
  pose proof (Z.mod_pos_bound val 10 eq_refl). pose proof (Z.div_mod val 10 ltac:(lia)).
  destruct (Z.ltb_spec 0 (val / 10)) as [Hq|Hq].
  - assert (val / 10 < 10 ^ Z.of_nat fuel) as Hlt.
    { apply Z.div_lt_upper_bound; [lia|].
      rewrite Nat2Z.inj_succ, Z.pow_succ_r in Hv by lia. lia. }
    assert (0 < fuel)%nat by (destruct fuel; [simpl in Hlt; lia|lia]).
    destruct (IH (val / 10)) as (E & HF & Hl); [lia|done|].
    cbn [dec_value length]. rewrite E. split_and!; [lia|constructor; [lia|done]|lia].
  - assert (val / 10 = 0) by (pose proof (Z.div_pos val 10); lia).
    cbn [dec_value length]. split_and!; [lia|repeat constructor; lia|lia].
Qed.

Lemma putc_digits l o :
  Forall (fun c => 48 <= c < 58) l -> fold_right putc o l = l ++ o.
Proof.
  induction 1 as [|c l Hc HF IH]; [done|]. cbn [fold_right app]. rewrite IH.
  unfold putc, uchar. by rewrite Z.mod_small by lia.
Qed.

(** C37: [uart_put_dec] sends, after a sign, at most ten decimal digits that read back
    as the absolute value, for every [int] but the least one. *)
Theorem uart_put_dec_reads val o :
  - 2 ^ 31 < val < 2 ^ 31 ->
  exists ds, uart_put_dec val o = ds ++ (if val <? 0 then putc 45 o else o) /\
    Forall (fun c => 48 <= c < 58) ds /\ (length ds <= 10)%nat /\ dec_value ds = Z.abs val.
Proof.
  intros Hv. unfold uart_put_dec.
  assert (forall v, 0 <= v < 2 ^ 31 -> dec_value (dec_digits 10 v) = v /\
    Forall (fun c => 48 <= c < 58) (dec_digits 10 v) /\ (length (dec_digits 10 v) <= 10)%nat) as Hd.
  { intros v Hr. apply dec_digits_value; [|lia]. change (10 ^ Z.of_nat 10) with 10000000000. lia. }
  destruct (Z.ltb_spec val 0).
  - rewrite s32_small by lia. destruct (Hd (- val)) as (E & HF & Hl); [lia|].
    exists (dec_digits 10 (- val)). rewrite putc_digits by done. split_and!; [done..|lia].
  - destruct (Hd val) as (E & HF & Hl); [lia|].
    exists (dec_digits 10 val). rewrite putc_digits by done. split_and!; [done..|lia].
Qed.

(** The least [int] is sent as a sign and the byte below '0' by 8. *)
Theorem uart_put_dec_int_min o : uart_put_dec (- 2 ^ 31) o = 40 :: 45 :: o.
Proof. reflexivity. Qed.

(** ** Verdicts *)

(** The words written to [tohost] by [test_pass] and [test_fail], and by the
    panic of the M-mode trap handler: [int] arithmetic, then a [uint64_t]. *)
Definition htif_pass_word : Z := 1.
Definition htif_fail_word (code : Z) : Z := wrap64 (s32 (s32 (code * 2) .| 1)).

(** What the host makes of [tohost] (bit 0: exit with the rest as code). *)
Definition htif_exit (word : Z) : option Z :=
  if tst word 1 then Some (word .>> 1) else None.

(** The words written to the QEMU finisher. *)
Definition QEMU_SIFIVE_TEST : Z := 0x00100000.
Definition QEMU_FINISH_PASS : Z := 0x5555.
Definition QEMU_FINISH_FAIL : Z := 0x3333.
Definition qemu_pass_word : Z := QEMU_FINISH_PASS.
Definition qemu_fail_word (code : Z) : Z :=
  wrap32 (QEMU_FINISH_FAIL .| wrap32 (Z.shiftl (wrap32 code) 16)).

Lemma fail_word_arith code :
  0 <= code < 2 ^ 30 -> htif_fail_word code = 2 * code + 1.
Proof.
  intros Hc. unfold htif_fail_word. rewrite (s32_small (code * 2)) by lia.
  replace (code * 2 .| 1) with (2 * code + 1).
  - rewrite s32_small by lia. apply wrap64_small. lia.
  - replace (code * 2) with (Z.shiftl code 1) by (rewrite Z.shiftl_mul_pow2 by lia; lia).
    rewrite lor_field by lia. lia.
Qed.

(** Spike reports the code [test_fail] was given, and only a pass reports 0. *)
Theorem htif_verdict_reads code :
  0 <= code < 2 ^ 30 ->
  htif_exit (htif_fail_word code) = Some code /\ htif_exit htif_pass_word = Some 0 /\
  (htif_fail_word code = htif_pass_word <-> code = 0).
Proof.
  intros Hc. rewrite fail_word_arith by done. unfold htif_exit.
  change 1 with (2 ^ 0) at 2. rewrite tst_bit by lia.
  replace (Z.testbit (2 * code + 1) 0) with true by (symmetry; by rewrite Z.testbit_odd_0).
  split_and!; [|done|unfold htif_pass_word; lia].
  f_equal. rewrite shr_div by lia. change (2 ^ 1) with 2. Z.div_mod_to_equations. lia.
Qed.

(** Of a failure code, QEMU's finisher is given the low 16 bits. *)
Theorem qemu_word_reads code code' :
  qemu_fail_word code = qemu_fail_word code' <-> code mod 2 ^ 16 = code' mod 2 ^ 16.
Proof.
  assert (forall c, qemu_fail_word c = (c mod 2 ^ 16) * 2 ^ 16 + 0x3333) as E.
  { intros c. unfold qemu_fail_word.
    assert (wrap32 (Z.shiftl (wrap32 c) 16) = Z.shiftl (c mod 2 ^ 16) 16) as ->.
    { unfold wrap32. rewrite !Z.shiftl_mul_pow2 by lia. Z.div_mod_to_equations. lia. }
    pose proof (Z.mod_pos_bound c (2 ^ 16)).
    rewrite Z.lor_comm, lor_field by (unfold QEMU_FINISH_FAIL; lia).
    apply wrap32_small. unfold QEMU_FINISH_FAIL. lia. }
  rewrite !E. lia.
Qed.

(** ** At concrete inputs *)

(** A transmitter that is ready at every third poll. *)
Definition slow_lsr (n : nat) : Z := if (n mod 3 =? 2)%nat then 0x60 else 0.

Lemma uart_putc_appends_witness :
  exists u, uart_putc slow_lsr 3 65 {| lsr_reads := 0; uart_sent := [] |} = Some u /\ uart_sent u = [65].
Proof.
  exact (uart_putc_appends slow_lsr 2 3 65 {| lsr_reads := 0; uart_sent := [] |} eq_refl ltac:(lia)).
Defined.

(** A host that serves the mailbox before every other read. *)
Lemma even_responsive : responsive Nat.even 2.
Proof.
  intros n. destruct (Nat.even n) eqn:E.
  - exists 0%nat. rewrite Nat.add_0_r. split; [lia|done].
  - exists 1%nat. rewrite Nat.add_1_r, Nat.even_succ, <- Nat.negb_even, E. split; [lia|done].
Qed.

Lemma htif_putc_appends_witness :
  exists h, htif_putc Nat.even 1 2 10 {| ht_reads := 1; tohost := 0; fromhost := 0; host_seen := [13] |}
    = Some h /\ host_seen h = [10; 13].
Proof.
  destruct (htif_putc_appends Nat.even 1 2 2 10
    {| ht_reads := 1; tohost := 0; fromhost := 0; host_seen := [13] |} even_responsive ltac:(lia) eq_refl)
    as (h & He & Hs & _).
  exists h. split; [exact He|exact Hs].
Defined.

Lemma uart_put_hex_reads_witness : read_hex 16 (uart_put_hex 0xCAFEBABE12345678 []) = 0xCAFEBABE12345678.
Proof. exact (proj1 (uart_put_hex_reads 0xCAFEBABE12345678 [] ltac:(lia))). Defined.

Lemma uart_put_dec_reads_witness :
  exists ds, uart_put_dec (-42) [] = ds ++ [45] /\ dec_value ds = 42.
Proof.
  destruct (uart_put_dec_reads (-42) [] ltac:(lia)) as (ds & He & _ & _ & Hd). exists ds.
  split; [exact He|exact Hd].
Defined.

Lemma htif_verdict_reads_witness : htif_exit (htif_fail_word 210) = Some 210.
Proof. exact (proj1 (htif_verdict_reads 210 ltac:(lia))). Defined.
