(* ===== verification/Machine.v ===== *)
(** * One hart: state, program monad, CSRs

    The state a hart's C code works on (memory, CSRs, the CLINT's registers,
    cached translations, console, [g_trap]) and the state monad its functions are
    written in.  A program ends in a value, in a verdict (the [wfi] loop after
    [test_pass], [test_fail] or a panic), or is cut off by its fuel. *)

From S2P Require Import Prelude Platform Memory Sv39 Tlb Console.

(** ** State *)

(** [struct trap_state] of [test.h]. *)
Record trap_state := mk_trap_state {
  ts_scause : Z;
  ts_stval : Z;
  ts_sepc : Z;
  fault_count : Z;
  expected_cause : Z;
  expected_stval : Z;
  handler_action : Z;
  irq_count : Z;
  timer_irq_count : Z;
  soft_irq_count : Z;
  last_irq_cause : Z
}.
Definition set_ts_scause (v : Z) (x : trap_state) : trap_state := mk_trap_state v (ts_stval x) (ts_sepc x) (fault_count x) (expected_cause x) (expected_stval x) (handler_action x) (irq_count x) (timer_irq_count x) (soft_irq_count x) (last_irq_cause x).
Definition set_ts_stval (v : Z) (x : trap_state) : trap_state := mk_trap_state (ts_scause x) v (ts_sepc x) (fault_count x) (expected_cause x) (expected_stval x) (handler_action x) (irq_count x) (timer_irq_count x) (soft_irq_count x) (last_irq_cause x).
Definition set_ts_sepc (v : Z) (x : trap_state) : trap_state := mk_trap_state (ts_scause x) (ts_stval x) v (fault_count x) (expected_cause x) (expected_stval x) (handler_action x) (irq_count x) (timer_irq_count x) (soft_irq_count x) (last_irq_cause x).
Definition set_fault_count (v : Z) (x : trap_state) : trap_state := mk_trap_state (ts_scause x) (ts_stval x) (ts_sepc x) v (expected_cause x) (expected_stval x) (handler_action x) (irq_count x) (timer_irq_count x) (soft_irq_count x) (last_irq_cause x).
Definition set_expected_cause (v : Z) (x : trap_state) : trap_state := mk_trap_state (ts_scause x) (ts_stval x) (ts_sepc x) (fault_count x) v (expected_stval x) (handler_action x) (irq_count x) (timer_irq_count x) (soft_irq_count x) (last_irq_cause x).
Definition set_expected_stval (v : Z) (x : trap_state) : trap_state := mk_trap_state (ts_scause x) (ts_stval x) (ts_sepc x) (fault_count x) (expected_cause x) v (handler_action x) (irq_count x) (timer_irq_count x) (soft_irq_count x) (last_irq_cause x).
Definition set_handler_action (v : Z) (x : trap_state) : trap_state := mk_trap_state (ts_scause x) (ts_stval x) (ts_sepc x) (fault_count x) (expected_cause x) (expected_stval x) v (irq_count x) (timer_irq_count x) (soft_irq_count x) (last_irq_cause x).
Definition set_irq_count (v : Z) (x : trap_state) : trap_state := mk_trap_state (ts_scause x) (ts_stval x) (ts_sepc x) (fault_count x) (expected_cause x) (expected_stval x) (handler_action x) v (timer_irq_count x) (soft_irq_count x) (last_irq_cause x).
Definition set_timer_irq_count (v : Z) (x : trap_state) : trap_state := mk_trap_state (ts_scause x) (ts_stval x) (ts_sepc x) (fault_count x) (expected_cause x) (expected_stval x) (handler_action x) (irq_count x) v (soft_irq_count x) (last_irq_cause x).
Definition set_soft_irq_count (v : Z) (x : trap_state) : trap_state := mk_trap_state (ts_scause x) (ts_stval x) (ts_sepc x) (fault_count x) (expected_cause x) (expected_stval x) (handler_action x) (irq_count x) (timer_irq_count x) v (last_irq_cause x).
Definition set_last_irq_cause (v : Z) (x : trap_state) : trap_state := mk_trap_state (ts_scause x) (ts_stval x) (ts_sepc x) (fault_count x) (expected_cause x) (expected_stval x) (handler_action x) (irq_count x) (timer_irq_count x) (soft_irq_count x) v.
(** The CSRs the code uses; [sie], [sip] and [sstatus] are views of [mie], [mip]
    and [mstatus]. *)
Record csrs := mk_csrs {
  mhartid : Z;
  mstatus : Z;
  mie : Z;
  mip : Z;
  satp : Z;
  stvec : Z;
  sepc : Z;
  scause : Z;
  stval : Z
}.
Definition set_mhartid (v : Z) (x : csrs) : csrs := mk_csrs v (mstatus x) (mie x) (mip x) (satp x) (stvec x) (sepc x) (scause x) (stval x).
Definition set_mstatus (v : Z) (x : csrs) : csrs := mk_csrs (mhartid x) v (mie x) (mip x) (satp x) (stvec x) (sepc x) (scause x) (stval x).
Definition set_mie (v : Z) (x : csrs) : csrs := mk_csrs (mhartid x) (mstatus x) v (mip x) (satp x) (stvec x) (sepc x) (scause x) (stval x).
Definition set_mip (v : Z) (x : csrs) : csrs := mk_csrs (mhartid x) (mstatus x) (mie x) v (satp x) (stvec x) (sepc x) (scause x) (stval x).
Definition set_satp (v : Z) (x : csrs) : csrs := mk_csrs (mhartid x) (mstatus x) (mie x) (mip x) v (stvec x) (sepc x) (scause x) (stval x).
Definition set_stvec (v : Z) (x : csrs) : csrs := mk_csrs (mhartid x) (mstatus x) (mie x) (mip x) (satp x) v (sepc x) (scause x) (stval x).
Definition set_sepc (v : Z) (x : csrs) : csrs := mk_csrs (mhartid x) (mstatus x) (mie x) (mip x) (satp x) (stvec x) v (scause x) (stval x).
Definition set_scause (v : Z) (x : csrs) : csrs := mk_csrs (mhartid x) (mstatus x) (mie x) (mip x) (satp x) (stvec x) (sepc x) v (stval x).
Definition set_stval (v : Z) (x : csrs) : csrs := mk_csrs (mhartid x) (mstatus x) (mie x) (mip x) (satp x) (stvec x) (sepc x) (scause x) v.
(** [w_clint] holds the CLINT's registers by address; [w_pool] is
    [pt_pool_next_page]; [w_steps] counts the points at which the environment
    decided something; [w_resv] is the reservation of [lr]; [w_stale] tells whether an
    access has met a cached walk that the tables no longer give: nothing depends on
    it, it observes where a program relies on no fence. *)
Record world := mk_world {
  w_mem : mem;
  w_pool : Z;
  w_csrs : csrs;
  w_clint : gmap Z Z;
  w_tlb : tlb;
  g_trap : trap_state;
  w_out : console;
  w_steps : nat;
  m_trap_info : list Z;
  w_verdict : option Z;
  w_resv : option Z;
  w_stale : bool
}.
Definition set_w_mem (v : mem) (x : world) : world := mk_world v (w_pool x) (w_csrs x) (w_clint x) (w_tlb x) (g_trap x) (w_out x) (w_steps x) (m_trap_info x) (w_verdict x) (w_resv x) (w_stale x).
Definition set_w_pool (v : Z) (x : world) : world := mk_world (w_mem x) v (w_csrs x) (w_clint x) (w_tlb x) (g_trap x) (w_out x) (w_steps x) (m_trap_info x) (w_verdict x) (w_resv x) (w_stale x).
Definition set_w_csrs (v : csrs) (x : world) : world := mk_world (w_mem x) (w_pool x) v (w_clint x) (w_tlb x) (g_trap x) (w_out x) (w_steps x) (m_trap_info x) (w_verdict x) (w_resv x) (w_stale x).
Definition set_w_clint (v : gmap Z Z) (x : world) : world := mk_world (w_mem x) (w_pool x) (w_csrs x) v (w_tlb x) (g_trap x) (w_out x) (w_steps x) (m_trap_info x) (w_verdict x) (w_resv x) (w_stale x).
Definition set_w_tlb (v : tlb) (x : world) : world := mk_world (w_mem x) (w_pool x) (w_csrs x) (w_clint x) v (g_trap x) (w_out x) (w_steps x) (m_trap_info x) (w_verdict x) (w_resv x) (w_stale x).
Definition set_g_trap (v : trap_state) (x : world) : world := mk_world (w_mem x) (w_pool x) (w_csrs x) (w_clint x) (w_tlb x) v (w_out x) (w_steps x) (m_trap_info x) (w_verdict x) (w_resv x) (w_stale x).
Definition set_w_out (v : console) (x : world) : world := mk_world (w_mem x) (w_pool x) (w_csrs x) (w_clint x) (w_tlb x) (g_trap x) v (w_steps x) (m_trap_info x) (w_verdict x) (w_resv x) (w_stale x).
Definition set_w_steps (v : nat) (x : world) : world := mk_world (w_mem x) (w_pool x) (w_csrs x) (w_clint x) (w_tlb x) (g_trap x) (w_out x) v (m_trap_info x) (w_verdict x) (w_resv x) (w_stale x).
Definition set_m_trap_info (v : list Z) (x : world) : world := mk_world (w_mem x) (w_pool x) (w_csrs x) (w_clint x) (w_tlb x) (g_trap x) (w_out x) (w_steps x) v (w_verdict x) (w_resv x) (w_stale x).
Definition set_w_verdict (v : option Z) (x : world) : world := mk_world (w_mem x) (w_pool x) (w_csrs x) (w_clint x) (w_tlb x) (g_trap x) (w_out x) (w_steps x) (m_trap_info x) v (w_resv x) (w_stale x).
Definition set_w_resv (v : option Z) (x : world) : world := mk_world (w_mem x) (w_pool x) (w_csrs x) (w_clint x) (w_tlb x) (g_trap x) (w_out x) (w_steps x) (m_trap_info x) (w_verdict x) v (w_stale x).
Definition set_w_stale (v : bool) (x : world) : world := mk_world (w_mem x) (w_pool x) (w_csrs x) (w_clint x) (w_tlb x) (g_trap x) (w_out x) (w_steps x) (m_trap_info x) (w_verdict x) (w_resv x) v.

(** ** The environment

    What the code cannot see: the build (Spike or QEMU verdicts), whether the hart
    manages A and D, at which accesses it uses a cached translation, how time
    passes, whether a store-conditional with a good reservation succeeds, and where the linker put the page-table pool, the S-mode trap vector,
    the code and the heap. *)
Record env := {
  e_qemu : bool;
  e_svadu : bool;
  e_hit : nat -> bool;
  e_dt : nat -> Z;
  e_sc : nat -> bool;
  e_page_table_start : Z;
  e_s_trap_vector : Z;
  e_pc : Z;
  e_heap_start : Z;
  e_heap_end : Z
}.

(** ** The monad *)

Inductive outcome (A : Type) :=
| Ret (a : A) (w : world)
| Halt (w : world)
| OutOfFuel (w : world).
Arguments Ret {A} a w.
Arguments Halt {A} w.
Arguments OutOfFuel {A} w.

Definition M (A : Type) : Type := world -> outcome A.

#[export] Instance M_ret : MRet M := fun A a w => Ret a w.
#[export] Instance M_bind : MBind M := fun A B k m w =>
  match m w with
  | Ret a w => k a w
  | Halt w => Halt w
  | OutOfFuel w => OutOfFuel w
  end.

Definition gets {A} (f : world -> A) : M A := fun w => Ret (f w) w.
Definition modify (f : world -> world) : M unit := fun w => Ret tt (f w).
(** [while (1) wfi;] after the word [v] was sent to the host. *)
Definition finish {A} (v : Z) : M A := fun w => Halt (set_w_verdict (Some v) w).
Definition out_of_fuel {A} : M A := fun w => OutOfFuel w.

Definition when (b : bool) (m : M unit) : M unit := if b then m else mret tt.

(** [for (i = from; i < from + n; i++) body(i)] *)
Fixpoint for_up (n : nat) (from : Z) (body : Z -> M unit) : M unit :=
  match n with
  | O => mret tt
  | S n' => body from ;; for_up n' (from + 1) body
  end.

(** ** CSRs and the CLINT *)

Definition csr {A} (f : csrs -> A) : M A := gets (fun w => f (w_csrs w)).
Definition set_csr (f : csrs -> csrs) : M unit := modify (fun w => set_w_csrs (f (w_csrs w)) w).

(** [csrs r, bits] and [csrc r, bits]. *)
Definition set_bits (x bits : Z) : Z := x .| bits.
Definition clear_bits (x bits : Z) : Z := Z.ldiff x bits.

Definition clint_read (a : Z) (w : world) : Z := default 0 (w_clint w !! a).
Definition clint_write (a v : Z) : M unit := modify (fun w => set_w_clint (<[a := v]> (w_clint w)) w).

(** ** Output *)

Definition out_putc (c : Z) : M unit := modify (fun w => set_w_out (putc c (w_out w)) w).
Definition out_puts (s : string) : M unit := modify (fun w => set_w_out (uart_puts s (w_out w)) w).
Definition out_hex (v : Z) : M unit := modify (fun w => set_w_out (uart_put_hex v (w_out w)) w).
Definition out_dec (v : Z) : M unit := modify (fun w => set_w_out (uart_put_dec (s32 v) (w_out w)) w).
Definition out_nl : M unit := out_putc 10.

(** ** [g_trap] *)

Definition trap {A} (f : trap_state -> A) : M A := gets (fun w => f (g_trap w)).
Definition set_trap (f : trap_state -> trap_state) : M unit :=
  modify (fun w => set_g_trap (f (g_trap w)) w).
(** [g_trap.c++] of an [int] counter. *)
Definition bump (get : trap_state -> Z) (set : Z -> trap_state -> trap_state) : M unit :=
  set_trap (fun t => set (s32 (get t + 1)) t).

(** ** Verdicts *)

Section Verdict.
Context (e : env).

Definition test_pass {A} : M A :=
  out_puts ("[PASS]" +:+ nl) ;;
  finish (if e_qemu e then qemu_pass_word else htif_pass_word).

Definition test_fail {A} (code : Z) : M A :=
  out_puts "[FAIL] code=" ;;
  out_dec code ;;
  out_nl ;;
  finish (if e_qemu e then qemu_fail_word code else htif_fail_word code).

Definition test_assert (condition : bool) (msg : string) (fail_code : Z) : M unit :=
  when (negb condition)
    (out_puts "ASSERT FAILED: " ;;
     out_puts msg ;;
     out_nl ;;
     test_fail fail_code).

Definition TEST_LOG (msg : string) : M unit :=
  out_puts "  [TEST] " ;;
  out_puts msg ;;
  out_nl.

(** Both sides are compared as [uint64_t]. *)
Definition ASSERT_EQ (actual expected : Z) (msg : string) (code : Z) : M unit :=
  when (negb (wrap64 actual =? wrap64 expected))
    (out_puts "  ASSERT_EQ FAILED: " ;;
     out_puts msg ;;
     out_puts (nl +:+ "    actual=") ;;
     out_hex (wrap64 actual) ;;
     out_puts " expected=" ;;
     out_hex (wrap64 expected) ;;
     out_nl ;;
     test_fail code).
End Verdict.

(** Runs the primitives of the monad. *)
Ltac run :=
  unfold out_nl, out_puts, out_hex, out_dec, out_putc, bump, set_trap, set_csr, csr, trap, gets,
    modify, clint_write, mbind, M_bind, mret, M_ret; cbn.
