(* ===== verification/MTrap.v ===== *)
(** * The M-mode trap handler ([common/m_trap.c])

    SBI dispatch and the forwarding of timer and software interrupts to S-mode.
    The handler gets the trap's cause, address and value and the frame of saved
    registers, and returns the address [mret] resumes at. *)

From S2P Require Import Prelude Platform Memory Sv39 Tlb Console Machine.

(** ** CSR helpers *)

Definition read_mhartid : M Z := csr mhartid.
Definition set_csr_bits_mip (bits : Z) : M unit :=
  set_csr (fun c => set_mip (set_bits (mip c) bits) c).
Definition clear_csr_bits_mip (bits : Z) : M unit :=
  set_csr (fun c => set_mip (clear_bits (mip c) bits) c).
Definition set_csr_bits_mie (bits : Z) : M unit :=
  set_csr (fun c => set_mie (set_bits (mie c) bits) c).
Definition clear_csr_bits_mie (bits : Z) : M unit :=
  set_csr (fun c => set_mie (clear_bits (mie c) bits) c).
Definition write_csr_scause (v : Z) : M unit := set_csr (set_scause v).
Definition write_csr_stval (v : Z) : M unit := set_csr (set_stval v).
Definition write_csr_sepc (v : Z) : M unit := set_csr (set_sepc v).

Definition interrupt_bit : Z := 2 ^ 63.

Section MTrap.
Context (e : env).

(** The verdict word of a panic. *)
Definition panic_word (cause_code : Z) : Z :=
  if e_qemu e
  then wrap32 (0x3333 .| wrap32 (Z.shiftl (wrap32 (500 + wrap32 cause_code)) 16))
  else wrap64 (s32 (s32 ((500 + s32 cause_code) * 2) .| 1)).

Definition panic (mcause mepc mtval cause_code : Z) : M Z :=
  modify (set_m_trap_info [mcause; mepc; mtval]) ;;
  finish (panic_word cause_code).

Definition m_trap_handler (mcause mepc mtval : Z) (frame : Z -> Z) : M Z :=
  let is_interrupt := (mcause .>> 63) .& 1 in
  let cause_code := mcause .& 0x7FFFFFFFFFFFFFFF in
  if negb (is_interrupt =? 0) then
    if cause_code =? IRQ_M_TIMER then
      (** Disable MTI, set mtimecmp=max, inject STIP *)
      clear_csr_bits_mie MIP_MTIP ;;
      hart ← read_mhartid;
      clint_write (CLINT_MTIMECMP hart) 0xFFFFFFFFFFFFFFFF ;;
      set_csr_bits_mip MIP_STIP ;;
      mret mepc
    else if cause_code =? IRQ_M_SOFT then
      (** Clear MSIP, inject SSIP *)
      hart ← read_mhartid;
      clint_write (CLINT_MSIP hart) 0 ;;
      set_csr_bits_mip MIP_SSIP ;;
      mret mepc
    else panic mcause mepc mtval cause_code
  else if cause_code =? CAUSE_ECALL_SMODE then
    (** frame[11]=a7 (SBI func), frame[4]=a0 (arg) *)
    let sbi_func := frame 11 in
    let sbi_a0 := frame 4 in
    if sbi_func =? SBI_SET_TIMER then
      hart ← read_mhartid;
      clint_write (CLINT_MTIMECMP hart) sbi_a0 ;;
      clear_csr_bits_mip MIP_STIP ;;
      set_csr_bits_mie MIP_MTIP ;;
      mret (wrap64 (mepc + 4))
    else if sbi_func =? SBI_SEND_IPI then
      when (sbi_a0 <? NUM_HARTS) (clint_write (CLINT_MSIP sbi_a0) 1) ;;
      mret (wrap64 (mepc + 4))
    else if sbi_func =? SBI_CLEAR_IPI then
      clear_csr_bits_mip MIP_SSIP ;;
      mret (wrap64 (mepc + 4))
    else
      (** Non-SBI ecall: reflect to S-mode trap handler *)
      write_csr_scause CAUSE_ECALL_SMODE ;;
      write_csr_sepc mepc ;;
      write_csr_stval 0 ;;
      stvec ← csr stvec;
      mstatus ← csr mstatus;
      set_csr (set_mstatus (mstatus .| (1 .<< 8))) ;;
      mret (stvec .& not64 3)
  else panic mcause mepc mtval cause_code.
End MTrap.
