(* ===== verification/STrap.v ===== *)
(** * The S-mode trap handler ([common/smode.c]) and the trap vectors

    [s_trap_handler] with its page-table repair, and what surrounds it: the
    hardware's trap entry and [sret]/[mret], the assembly vectors of [boot.S]
    (the saved [sepc] in [frame[30]]), and the S-mode [ecall].  The handler reads
    page tables and the halfword at [sepc] through the identity mapping of SRAM,
    so these are accesses to physical memory. *)

From S2P Require Import Prelude Platform Memory Sv39 PtTree PageMap PageTable Tlb Console Machine MTrap.

(** ** Entering and leaving traps *)

Definition mstatus_flag (x m : Z) (b : bool) : Z := if b then set_bits x m else clear_bits x m.

(** Entry to S-mode: SPIE := SIE, SIE := 0, SPP := S. *)
Definition s_entry_status (ms : Z) : Z :=
  set_bits (clear_bits (mstatus_flag ms MSTATUS_SPIE (tst ms MSTATUS_SIE)) MSTATUS_SIE) MSTATUS_SPP.
Definition s_entry (cause tval pc : Z) : M unit :=
  set_csr (fun c => set_mstatus (s_entry_status (mstatus c))
    (set_scause cause (set_stval tval (set_sepc pc c)))).

(** [sret]: SIE := SPIE, SPIE := 1, SPP := 0. *)
Definition sret_status (ms : Z) : Z :=
  clear_bits (set_bits (mstatus_flag ms MSTATUS_SIE (tst ms MSTATUS_SPIE)) MSTATUS_SPIE) MSTATUS_SPP.
Definition do_sret : M unit := set_csr (fun c => set_mstatus (sret_status (mstatus c)) c).

(** Entry to M-mode from S-mode: MPIE := MIE, MIE := 0, MPP := S. *)
Definition m_entry_status (ms : Z) : Z :=
  set_bits (clear_bits (clear_bits (mstatus_flag ms MSTATUS_MPIE (tst ms MSTATUS_MIE)) MSTATUS_MIE)
    MSTATUS_MPP_MASK) MSTATUS_MPP_S.
Definition m_entry : M unit := set_csr (fun c => set_mstatus (m_entry_status (mstatus c)) c).

(** [mret]: MIE := MPIE, MPIE := 1, MPP := U. *)
Definition mret_status (ms : Z) : Z :=
  clear_bits (set_bits (mstatus_flag ms MSTATUS_MIE (tst ms MSTATUS_MPIE)) MSTATUS_MPIE)
    MSTATUS_MPP_MASK.
Definition do_mret : M unit := set_csr (fun c => set_mstatus (mret_status (mstatus c)) c).

#[global] Arguments s_entry_status : simpl never.
#[global] Arguments sret_status : simpl never.
#[global] Arguments m_entry_status : simpl never.
#[global] Arguments mret_status : simpl never.

(** The frame of saved registers: only [a0] and [a7] are read. *)
Definition regs_frame (a0 a7 : Z) (i : Z) : Z := if i =? 11 then a7 else if i =? 4 then a0 else 0.

(** ** [sfence.vma] and [satp] *)

Definition sfence_all : M unit := modify (fun w => set_w_tlb (sfence_vma_all (w_tlb w)) w).
Definition sfence_addr (a : Z) : M unit := modify (fun w => set_w_tlb (sfence_vma_addr a (w_tlb w)) w).

Definition mmu_enable_sv39 (root : Z) : M unit :=
  set_csr (set_satp (satp_value root)) ;;
  sfence_all.

(** The root table [satp] designates. *)
Definition satp_root (satp : Z) : Z := (satp .& 0x00000FFFFFFFFFFF) .<< PGSHIFT.

Section STrap.
Context (e : env).

(** An [ecall] handled in M-mode, from [pc]; where the hart resumes. *)
Definition m_trap (mcause mtval pc a0 a7 : Z) : M Z :=
  m_entry ;;
  resume ← m_trap_handler e mcause pc mtval (regs_frame a0 a7);
  do_mret ;;
  mret resume.

(** [sbi_set_timer(0xFFFFFFFFFFFFFFFF)] inside the handler. *)
Definition sbi_ecall (a0 a7 : Z) : M unit :=
  m_trap CAUSE_ECALL_SMODE 0 (e_pc e) a0 a7 ;;
  mret tt.

(** The entry with the bits of a cause added. *)
Definition fixed_pte (cause_code pte : Z) : Z :=
  let fixed := pte .| (PTE_V .| PTE_A .| PTE_D) in
  if cause_code =? CAUSE_LOAD_PAGE_FAULT then fixed .| PTE_R
  else if cause_code =? CAUSE_STORE_PAGE_FAULT then fixed .| (PTE_R .| PTE_W)
  else if cause_code =? CAUSE_INST_PAGE_FAULT then fixed .| (PTE_R .| PTE_X)
  else fixed.

(** "Default: fix PTE". [pt_walk] never returns NULL, so the source's test for
    it ([test_fail(200)]) has no counterpart. *)
Definition fix_fault (cause_code stval : Z) : M unit :=
  satp ← csr satp;
  let root := satp_root satp in
  m ← gets w_mem;
  let '(pte_ptr, level) := pt_walk m root stval in
  out_puts "  [TRAP] PTE before fix: " ;;
  out_hex (rd64 m pte_ptr) ;;
  out_nl ;;
  modify (fun w => set_w_mem (wr64 (w_mem w) pte_ptr (fixed_pte cause_code (rd64 m pte_ptr))) w) ;;
  out_puts "  [TRAP] PTE after fix:  " ;;
  m ← gets w_mem;
  out_hex (rd64 m pte_ptr) ;;
  out_nl ;;
  sfence_addr stval.

(** Returns the value left in [frame[30]], [slot] on entry. *)
Definition page_fault (cause_code stval sepc slot : Z) : M Z :=
  out_puts "  [TRAP] Page fault: cause=" ;;
  out_dec cause_code ;;
  out_puts " stval=" ;;
  out_hex stval ;;
  out_puts " sepc=" ;;
  out_hex sepc ;;
  out_nl ;;
  action ← trap handler_action;
  if action =? 1 then
    (** Skip faulting instruction *)
    if cause_code =? CAUSE_INST_PAGE_FAULT then
      out_puts ("  [TRAP] ERROR: skip unsupported for ifetch faults" +:+ nl) ;;
      test_fail e 201
    else
      m ← gets w_mem;
      let insn_lo := rd16 m sepc in
      let insn_len := if insn_lo .& 0x3 =? 0x3 then 4 else 2 in
      mret (wrap64 (sepc + insn_len))
  else
    fix_fault cause_code stval ;;
    mret slot.

Definition s_interrupt (scause cause_code slot : Z) : M Z :=
  bump irq_count set_irq_count ;;
  set_trap (set_last_irq_cause scause) ;;
  if cause_code =? IRQ_S_TIMER then
    bump timer_irq_count set_timer_irq_count ;;
    (** Clear STIP via SBI set_timer(max) *)
    sbi_ecall 0xFFFFFFFFFFFFFFFF SBI_SET_TIMER ;;
    mret slot
  else if cause_code =? IRQ_S_SOFT then
    bump soft_irq_count set_soft_irq_count ;;
    clear_csr_bits_mip SIP_SSIP ;;
    mret slot
  else if cause_code =? IRQ_S_EXT then mret slot
  else
    out_puts "UNEXPECTED S-MODE INTERRUPT: cause=" ;;
    out_hex scause ;;
    out_nl ;;
    test_fail e (100 + s32 cause_code).

Definition s_exception (cause_code stval sepc slot : Z) : M Z :=
  if (cause_code =? CAUSE_INST_PAGE_FAULT) || (cause_code =? CAUSE_LOAD_PAGE_FAULT)
     || (cause_code =? CAUSE_STORE_PAGE_FAULT)
  then page_fault cause_code stval sepc slot
  else if cause_code =? CAUSE_ILLEGAL_INST then
    out_puts "  [TRAP] Illegal instruction at sepc=" ;;
    out_hex sepc ;;
    out_nl ;;
    test_fail e 300
  else if cause_code =? CAUSE_ECALL_SMODE then
    out_puts "  [TRAP] ecall from S-mode at sepc=" ;;
    out_hex sepc ;;
    out_nl ;;
    mret (wrap64 (sepc + 4))
  else
    out_puts "  [TRAP] Unexpected exception: cause=" ;;
    out_dec cause_code ;;
    out_puts " stval=" ;;
    out_hex stval ;;
    out_nl ;;
    test_fail e (400 + s32 cause_code).

Definition s_trap_handler (scause stval sepc slot : Z) : M Z :=
  set_trap (fun t => set_ts_scause scause (set_ts_stval stval (set_ts_sepc sepc t))) ;;
  bump fault_count set_fault_count ;;
  let is_interrupt := (scause .>> 63) .& 1 in
  let cause_code := scause .& 0x7FFFFFFFFFFFFFFF in
  if negb (is_interrupt =? 0) then s_interrupt scause cause_code slot
  else s_exception cause_code stval sepc slot.

(** [_s_trap_vector]: save [sepc] in the frame, call the handler, [sret] to what
    the handler left there. *)
Definition s_vector : M Z :=
  c ← gets w_csrs;
  slot ← s_trap_handler (scause c) (stval c) (sepc c) (sepc c);
  write_csr_sepc slot ;;
  do_sret ;;
  mret slot.

Definition s_trap (cause tval pc : Z) : M Z :=
  s_entry cause tval pc ;;
  s_vector.

(** An [ecall] of the test program at [e_pc]: M-mode resumes it, or sends it to
    the S-mode vector, which resumes it. *)
Definition ecall (a0 a7 : Z) : M unit :=
  resume ← m_trap CAUSE_ECALL_SMODE 0 (e_pc e) a0 a7;
  if resume =? wrap64 (e_pc e + 4) then mret tt
  else if resume =? e_s_trap_vector e then
    resume ← s_vector;
    if resume =? wrap64 (e_pc e + 4) then mret tt else out_of_fuel
  else out_of_fuel.

Definition sbi_set_timer (val : Z) : M unit := ecall val SBI_SET_TIMER.
Definition sbi_send_ipi (target_hart : Z) : M unit := ecall target_hart SBI_SEND_IPI.
Definition sbi_clear_ipi : M unit := ecall 0 SBI_CLEAR_IPI.
End STrap.
