(* ===== verification/Hart.v ===== *)
(** * The hart: interrupts and memory accesses

    When an interrupt is taken, and what an access of the test program does: it is
    translated through the hart's cache and the tables, a fault enters the S-mode
    handler, and the instruction is retried or skipped as the handler decides.
    [irq_window] is the point between two instructions at which time passes and
    pending interrupts are taken; the programs call it where they wait. *)

From S2P Require Import Prelude Platform Memory Sv39 PtTree PageMap PageTable Tlb TlbRel Console Machine MTrap STrap.

(** ** Pending interrupts *)

Definition mtip (w : world) : bool :=
  clint_read (CLINT_MTIMECMP (mhartid (w_csrs w))) w <=? clint_read CLINT_MTIME w.
Definition msip (w : world) : bool :=
  tst (clint_read (CLINT_MSIP (mhartid (w_csrs w))) w) 1.

(** The M-level interrupt a hart in S-mode takes next: software before timer. *)
Definition m_pending (w : world) : option Z :=
  if msip w && tst (mie (w_csrs w)) MIP_MSIP then Some IRQ_M_SOFT
  else if mtip w && tst (mie (w_csrs w)) MIP_MTIP then Some IRQ_M_TIMER
  else None.

(** The delegated interrupts, external before software before timer, when
    [sstatus.SIE] is set. *)
Definition s_ready (w : world) : Z := mip (w_csrs w) .& mie (w_csrs w) .& asm_MIDELEG_DEFAULT.
Definition s_pending (w : world) : option Z :=
  if tst (mstatus (w_csrs w)) MSTATUS_SIE then
    if tst (s_ready w) SIP_SEIP then Some IRQ_S_EXT
    else if tst (s_ready w) SIP_SSIP then Some IRQ_S_SOFT
    else if tst (s_ready w) SIP_STIP then Some IRQ_S_TIMER
    else None
  else None.

Section Hart.
Context (e : env).

(** Take interrupts until none is pending. *)
Fixpoint deliver (fuel : nat) : M unit := fun w =>
  match m_pending w with
  | Some code =>
      match fuel with
      | O => OutOfFuel w
      | S fuel' => (m_trap e (interrupt_bit + code) 0 (e_pc e) 0 0 ;; deliver fuel') w
      end
  | None =>
      match s_pending w with
      | Some code =>
          match fuel with
          | O => OutOfFuel w
          | S fuel' => (s_trap e (interrupt_bit + code) 0 (e_pc e) ;; deliver fuel') w
          end
      | None => Ret tt w
      end
  end.

(** [mtime] advances; then interrupts are taken. *)
Definition tick : M unit := fun w =>
  let now := wrap64 (clint_read CLINT_MTIME w + e_dt e (w_steps w)) in
  Ret tt (set_w_steps (S (w_steps w)) (set_w_clint (<[CLINT_MTIME := now]> (w_clint w)) w)).
Definition irq_window : M unit := tick ;; deliver 8.

Definition read_mtime : M Z := gets (clint_read CLINT_MTIME).

(** [wfi]: time passes until an interrupt is pending in [mip & mie], enabled or
    not; at most [fuel] windows. *)
Definition wfi_wakes (w : world) : bool :=
  match m_pending w with
  | Some _ => true
  | None => negb (mip (w_csrs w) .& mie (w_csrs w) =? 0)
  end.
Fixpoint wfi (fuel : nat) : M unit := fun w =>
  if wfi_wakes w then irq_window w
  else match fuel with
       | O => OutOfFuel w
       | S fuel' => (irq_window ;; wfi fuel') w
       end.

(** ** S-mode CSR helpers of [test.h] *)

(** [sstatus] shows these bits of [mstatus]: SIE, SPIE, UBE, SPP, VS, FS, XS, SUM,
    MXR, UXL and SD. *)
Definition sstatus_view : Z := 0x80000003000DE762.
Definition read_sstatus : M Z := csr (fun c => mstatus c .& sstatus_view).
(** Only the bits of the S-mode view change. *)
Definition sstatus_mask : Z :=
  MSTATUS_SIE .| MSTATUS_SPIE .| MSTATUS_SPP .| MSTATUS_SUM .| MSTATUS_MXR.
Definition write_sstatus (v : Z) : M unit :=
  set_csr (fun c => set_mstatus (Z.ldiff (mstatus c) sstatus_mask .| (v .& sstatus_mask)) c).
Definition read_sip : M Z := csr (fun c => mip c .& asm_MIDELEG_DEFAULT).
Definition write_sie (v : Z) : M unit :=
  set_csr (fun c => set_mie
    (Z.ldiff (mie c) asm_MIDELEG_DEFAULT .| (v .& asm_MIDELEG_DEFAULT)) c).
Definition clear_sip_ssip : M unit := clear_csr_bits_mip SIP_SSIP.
Definition enable_s_interrupts : M unit :=
  set_csr (fun c => set_mstatus (set_bits (mstatus c) MSTATUS_SIE) c) ;; irq_window.
Definition disable_s_interrupts : M unit :=
  set_csr (fun c => set_mstatus (clear_bits (mstatus c) MSTATUS_SIE) c).
Definition enable_s_timer_irq : M unit := set_csr_bits_mie SIP_STIP ;; irq_window.
Definition enable_s_soft_irq : M unit := set_csr_bits_mie SIP_SSIP ;; irq_window.
Definition enable_s_ext_irq : M unit := set_csr_bits_mie SIP_SEIP ;; irq_window.

(** ** Memory accesses *)

Definition hw_ctx (w : world) : hwctx :=
  {| hw_sum := tst (mstatus (w_csrs w)) MSTATUS_SUM;
     hw_mxr := tst (mstatus (w_csrs w)) MSTATUS_MXR;
     hw_svadu := e_svadu e |}.

Definition paging (w : world) : bool := satp (w_csrs w) .>> SATP_MODE_SHIFT =? SATP_MODE_SV39.

(** One translation of the hart; [None] is a page fault. *)
Definition translate_once (acc : access) (va : Z) : M (option Z) := fun w =>
  if paging w then
    let '(pa, m, t) := tlb_translate (hw_ctx w) (e_hit e (w_steps w)) (w_mem w)
                         (satp_root (satp (w_csrs w))) (w_tlb w) acc va in
    let agrees := log_agrees (w_mem w) (satp_root (satp (w_csrs w))) (w_tlb w) va in
    Ret pa (set_w_stale (w_stale w || negb agrees)
              (set_w_steps (S (w_steps w)) (set_w_mem m (set_w_tlb t w))))
  else Ret (Some va) w.

(** An access: the physical address, or [None] when the handler resumed past
    the instruction.  The instruction is at [e_pc], or at [va] for a fetch. *)
Fixpoint do_access (fuel : nat) (acc : access) (va : Z) : M (option Z) :=
  pa ← translate_once acc va;
  match pa with
  | Some pa => mret (Some pa)
  | None =>
      let pc := if bool_decide (acc = Fetch) then va else e_pc e in
      resume ← s_trap e (fault_cause acc) va pc;
      if resume =? pc
      then match fuel with
           | O => out_of_fuel
           | S fuel' => do_access fuel' acc va
           end
      else mret None
  end.

(** Retries of one instruction before the model gives up. *)
Definition retries : nat := 4.

(** [*(volatile uint64_t * )va]; a skipped load leaves its register as it was,
    which the tests do not look at: 0. *)
Definition load64 (va : Z) : M Z :=
  pa ← do_access retries Load va;
  match pa with
  | Some pa => gets (fun w => rd64 (w_mem w) pa)
  | None => mret 0
  end.
Definition store64 (va v : Z) : M unit :=
  pa ← do_access retries Store va;
  match pa with
  | Some pa => modify (fun w => set_w_mem (wr64 (w_mem w) pa v) w)
  | None => mret tt
  end.
Definition store32 (va v : Z) : M unit :=
  pa ← do_access retries Store va;
  match pa with
  | Some pa => modify (fun w => set_w_mem (wr32 (w_mem w) pa v) w)
  | None => mret tt
  end.

(** [((void ( * )(void))va)()] where a [ret] was planted. *)
Definition INSN_RET : Z := 0x00008067.
Definition call_ret (va : Z) : M unit :=
  pa ← do_access retries Fetch va;
  match pa with
  | Some pa =>
      insn ← gets (fun w => rd32 (w_mem w) pa);
      if insn =? INSN_RET then mret tt else out_of_fuel
  | None => out_of_fuel
  end.

(** ** The page-table functions as programs *)

Definition pt_state (w : world) : ptstate :=
  {| pt_mem := w_mem w; pt_pool_next_page := w_pool w |}.
Definition with_pt (st : ptstate) (w : world) : world :=
  set_w_mem (pt_mem st) (set_w_pool (pt_pool_next_page st) w).

Definition do_pt_reset : M unit := modify (fun w => with_pt (pt_reset (pt_state w)) w).
Definition do_pt_setup_identity_kernel : M Z := fun w =>
  let '(root, st) := pt_setup_identity_kernel (e_page_table_start e) (pt_state w) in
  Ret root (with_pt st w).
Definition do_pt_alloc_page : M Z := fun w =>
  let '(page, st) := pt_alloc_page (e_page_table_start e) (pt_state w) in
  Ret page (with_pt st w).
Definition do_pt_map_page (root va pa perm : Z) (valid : bool) : M unit := fun w =>
  Ret tt (with_pt (pt_map_page (e_page_table_start e) (pt_state w) root va pa perm valid) w).
End Hart.
