(* ===== verification/Faults.v ===== *)
(** * Page faults of the test programs: repair, skip, and the faults that stay

    The contract of [s_trap_handler]'s page-fault branch: with [handler_action]
    other than 1 the faulting access is repaired and its first retry succeeds,
    with 1 it is skipped; a user page is never repaired, and an access where a
    table is missing is turned into a superpage over physical address 0. *)

From S2P Require Import Prelude Platform Memory Sv39 PtTree PageMap PageTable Tlb Console Machine MTrap STrap Hart.

(** ** [mstatus] across a trap *)

Lemma mstatus_bit_flag x n b i :
  0 <= n -> 0 <= i ->
  Z.testbit (mstatus_flag x (2 ^ n) b) i = if Z.eqb i n then b else Z.testbit x i.
Proof.
  intros Hn Hi. unfold mstatus_flag, set_bits, clear_bits.
  destruct b; rewrite ?Z.lor_spec, ?Z.ldiff_spec, Z.pow2_bits_eqb by lia;
    rewrite (Z.eqb_sym n i); destruct (Z.eqb i n); btauto.
Qed.

Lemma set_bits_bit x n i :
  0 <= n -> 0 <= i -> Z.testbit (set_bits x (2 ^ n)) i = if Z.eqb i n then true else Z.testbit x i.
Proof. intros. by apply (mstatus_bit_flag x n true). Qed.

Lemma clear_bits_bit x n i :
  0 <= n -> 0 <= i -> Z.testbit (clear_bits x (2 ^ n)) i = if Z.eqb i n then false else Z.testbit x i.
Proof. intros. by apply (mstatus_bit_flag x n false). Qed.

(** A trap to S-mode and its [sret] restore every bit but SPIE and SPP; in
    particular SIE. *)
Lemma s_trap_status ms i :
  0 <= i -> i <> 5 -> i <> 8 ->
  Z.testbit (sret_status (s_entry_status ms)) i = Z.testbit ms i.
Proof.
  intros Hi H5 H8. unfold sret_status, s_entry_status.
  change MSTATUS_SPIE with (2 ^ 5). change MSTATUS_SIE with (2 ^ 1). change MSTATUS_SPP with (2 ^ 8).
  rewrite clear_bits_bit, set_bits_bit, mstatus_bit_flag by lia.
  rewrite !tst_bit by lia.
  rewrite !set_bits_bit, !clear_bits_bit, !mstatus_bit_flag by lia.
  destruct (Z.eqb_spec i 8); [done|]. destruct (Z.eqb_spec i 5); [done|].
  change (5 =? 8) with false. change (5 =? 1) with false. change (5 =? 5) with true. cbv iota.
  destruct (Z.eqb_spec i 1) as [->|]; done.
Qed.

(** ** The entry the handler repairs *)

Definition suite_mask (acc : access) : Z :=
  (PTE_V .| PTE_A .| PTE_D) .|
  match acc with Load => PTE_R | Store => PTE_R .| PTE_W | Fetch => PTE_R .| PTE_X end.

Lemma fixed_pte_mask acc pte : fixed_pte (fault_cause acc) pte = pte .| suite_mask acc.
Proof. destruct acc; symmetry; apply Z.lor_assoc. Qed.

(** [pt_walk] stops at the first entry that is no pointer. *)
Lemma pt_walk_tbl l m root va t :
  (l <= 2)%nat -> tbl m root (upper_path l va) = Some t ->
  ((1 <= l)%nat -> pte_ptr (rd64 m (t + 8 * vpn va l)) = false) ->
  pt_walk m root va = (t + 8 * vpn va l, Z.of_nat l).
Proof.
  intros Hl Ht HP. unfold pt_walk. change (vpn2 va) with (vpn va 2).
  change (vpn1 va) with (vpn va 1). change (vpn0 va) with (vpn va 0).
  fold PTE_RWX. fold (pte_pa (rd64 m (root + 8 * vpn va 2))).
  destruct l as [|[|[|]]]; [| | |lia].
  - apply tbl_two in Ht as (V2 & X2 & V1 & X1 & <-). unfold pte_pa in *.
    by rewrite V2, X2, V1, X1.
  - cbn [upper_path vpath take tbl Nat.sub] in Ht. unfold pte_ptr in Ht, HP.
    destruct (tst (rd64 m (root + 8 * vpn va 2)) PTE_V), (tst _ PTE_RWX); try done.
    injection Ht as <-. specialize (HP ltac:(lia)). unfold pte_pa in *. bsimpl.
    by destruct (tst (rd64 m _) PTE_V), (tst (rd64 m _) PTE_RWX).
  - injection Ht as <-. specialize (HP ltac:(lia)). unfold pte_ptr in HP.
    by destruct (tst (rd64 m (root + 8 * vpn va 2)) PTE_V), (tst _ PTE_RWX).
Qed.

#[global] Arguments fixed_pte : simpl never.
#[global] Arguments pt_walk : simpl never.
#[global] Arguments satp_root : simpl never.

(** ** The handler on a page fault *)

Section Handler.
Context (e : env).

(** [g_trap] after a page fault. *)
Definition faulted (acc : access) (va pc : Z) (t : trap_state) : trap_state :=
  set_fault_count (s32 (fault_count t + 1))
    (set_ts_scause (fault_cause acc) (set_ts_stval va (set_ts_sepc pc t))).

(** What a trap leaves alone beside memory, caches, [g_trap], the console and the
    number of steps. *)
Record same_hart (w w' : world) : Prop := {
  sh_pool : w_pool w' = w_pool w;
  sh_clint : w_clint w' = w_clint w;
  sh_verdict : w_verdict w' = w_verdict w;
  sh_hartid : mhartid (w_csrs w') = mhartid (w_csrs w);
  sh_mie : mie (w_csrs w') = mie (w_csrs w);
  sh_mip : mip (w_csrs w') = mip (w_csrs w);
  sh_satp : satp (w_csrs w') = satp (w_csrs w);
  sh_stvec : stvec (w_csrs w') = stvec (w_csrs w);
  sh_mstatus : mstatus (w_csrs w') = sret_status (s_entry_status (mstatus (w_csrs w)))
}.

Lemma s_trap_handler_fault acc va pc slot :
  s_trap_handler e (fault_cause acc) va pc slot =
    (set_trap (fun t => set_ts_scause (fault_cause acc) (set_ts_stval va (set_ts_sepc pc t))) ;;
     bump fault_count set_fault_count ;;
     page_fault e (fault_cause acc) va pc slot).
Proof using. by destruct acc. Qed.

Lemma s_trap_fix acc va pc w p lvl :
  handler_action (g_trap w) <> 1 ->
  pt_walk (w_mem w) (satp_root (satp (w_csrs w))) va = (p, lvl) ->
  exists w', s_trap e (fault_cause acc) va pc w = Ret pc w' /\ same_hart w w' /\
    w_mem w' = wr64 (w_mem w) p (rd64 (w_mem w) p .| suite_mask acc) /\
    w_tlb w' = sfence_vma_addr va (w_tlb w) /\
    g_trap w' = faulted acc va pc (g_trap w).
Proof using.
  intros Ha Hw. rewrite <- fixed_pte_mask. destruct w as [m pool c cl t g o n mi v rv sl].
  destruct c, g. cbn in Ha, Hw. apply Z.eqb_neq in Ha.
  eexists. split.
  - unfold s_trap, s_vector, s_entry. run. rewrite s_trap_handler_fault.
    unfold page_fault, fix_fault, do_sret, write_csr_sepc, sfence_addr. run.
    rewrite Ha. run. rewrite Hw. run. reflexivity.
  - by split_and!.
Qed.
End Handler.

(** ** Fix and retry *)

Section Repair.
Context (e : env).
Context (Hpool : is_page (e_page_table_start e)).
Context (Hpool_end : _page_table_end (e_page_table_start e) <= 2 ^ 56).

Abbreviation root w := (satp_root (satp (w_csrs w))).
Abbreviation tables := (tables_ok (H := suite_ptstate (e_page_table_start e))).
Abbreviation laws := (suite_ptstate_laws (e_page_table_start e) Hpool Hpool_end).

(** Paging is on over well-formed tables, and the hart's cache agrees with them. *)
Record paged (w : world) : Prop := {
  pg_on : paging w = true;
  pg_tables : tables (pt_state w) (root w);
  pg_coherent : coherent (w_mem w) (root w) (w_tlb w)
}.

(** [va] has a last-level table, whose entry is [pte]. *)
Record page_entry (w : world) (va t pte : Z) : Prop := {
  pe_canonical : canonical va = true;
  pe_tbl : tbl (w_mem w) (root w) (upper_path 0 va) = Some t;
  pe_entry : rd64 (w_mem w) (t + 8 * vpn va 0) = pte;
  pe_reserved : pte .>> 54 = 0
}.

Lemma hw_ctx_trap w w' : same_hart w w' -> hw_ctx e w' = hw_ctx e w.
Proof using.
  intros Hs. unfold hw_ctx. rewrite (sh_mstatus _ _ Hs).
  change MSTATUS_SUM with (2 ^ 18). change MSTATUS_MXR with (2 ^ 19).
  by rewrite !tst_bit, !s_trap_status by lia.
Qed.

(** A faulting translation changes nothing but the cache. *)
Lemma translate_once_fault w acc va :
  paged w -> translate (hw_ctx e w) (w_mem w) (root w) acc va = None ->
  exists t b, translate_once e acc va w
    = Ret None (set_w_stale b (set_w_steps (S (w_steps w)) (set_w_mem (w_mem w) (set_w_tlb t w)))) /\
    coherent (w_mem w) (root w) t.
Proof using.
  intros [Hon _ Hcoh] Hnone. unfold translate_once. rewrite Hon.
  pose proof (tlb_translate_coherent (hw_ctx e w) (root w) (e_hit e (w_steps w)) _ _ acc va Hcoh) as H1.
  destruct (tlb_translate _ _ _ _ _ _ _) as [[pa m] t] eqn:E1.
  destruct H1 as [-> Hc]. rewrite Hnone in E1 |- *.
  pose proof (tlb_translate_fault _ _ _ _ _ _ _ _ _ _ E1 eq_refl) as ->.
  do 2 eexists. by split.
Qed.

Lemma translate_once_ok w acc va pa :
  paging w = true -> coherent (w_mem w) (root w) (w_tlb w) ->
  translate (hw_ctx e w) (w_mem w) (root w) acc va = Some (pa, w_mem w) ->
  exists t n b, translate_once e acc va w
    = Ret (Some pa) (set_w_stale b (set_w_steps n (set_w_tlb t w))) /\
    coherent (w_mem w) (root w) t.
Proof using.
  intros Hon Hcoh Htr. unfold translate_once. rewrite Hon.
  pose proof (tlb_translate_coherent (hw_ctx e w) (root w) (e_hit e (w_steps w)) _ _ acc va Hcoh) as H1.
  destruct (tlb_translate _ _ _ _ _ _ _) as [[pa' m] t] eqn:E. destruct H1 as [-> Hc].
  pose proof (tlb_translate_pure _ _ _ _ _ _ _ _ _ _ _ E Htr) as ->. rewrite Htr.
  do 3 eexists. split; [|done]. by destruct w.
Qed.

Lemma suite_mask_facts acc :
  0 <= suite_mask acc < 1024 /\ tst (suite_mask acc) PTE_U = false /\
  tst (suite_mask acc) PTE_V = true /\ tst (suite_mask acc) PTE_R = true /\
  tst (suite_mask acc) PTE_A = true /\ tst (suite_mask acc) (access_bit acc) = true /\
  (acc = Store -> tst (suite_mask acc) PTE_D = true).
Proof using. destruct acc; by vm_compute. Qed.

Definition trap_pc (acc : access) (va : Z) : Z := if bool_decide (acc = Fetch) then va else e_pc e.

(** [w'] is [w] after a trap that set the suite's bits in one entry. *)
Record rewritten (acc : access) (va t pte : Z) (w w' : world) : Prop := {
  rw_hart : same_hart w w';
  rw_mem : w_mem w' = wr64 (w_mem w) (t + 8 * vpn va 0) (pte .| suite_mask acc);
  rw_tlb : w_tlb w' = sfence_vma_addr va (w_tlb w)
}.

Lemma fixed_range m a pte acc : rd64 m a = pte -> 0 <= pte .| suite_mask acc < 2 ^ 64.
Proof using.
  intros <-. apply lor_range; [lia|apply rd64_range|].
  destruct (suite_mask_facts acc) as (? & _). lia.
Qed.

Lemma rewritten_paged acc va w w' t pte :
  paged w -> page_entry w va t pte -> rewritten acc va t pte w w' -> paged w'.
Proof using Hpool Hpool_end.
  intros [Hon Hok Hcoh] [Hc Ht He Hres] [Hs Hm Htl].
  pose proof (fixed_range _ _ _ acc He).
  destruct (write_level (H0 := laws) 0 (pt_state w) (root w) va t (pte .| suite_mask acc))
    as [Hok' Hw]; try done; [lia..|].
  cbn [st_mem st_put suite_ptstate put64 pt_mem pt_state] in Hw, Hok'. rewrite <- Hm in Hw.
  split.
  - unfold paging. by rewrite (sh_satp _ _ Hs).
  - rewrite (sh_satp _ _ Hs). unfold pt_state. rewrite Hm, (sh_pool _ _ Hs). exact Hok'.
  - rewrite (sh_satp _ _ Hs), Htl. apply (sfence_vma_addr_coherent (root w) (w_mem w)); [done|done|].
    intros va' Hc' Hne. rewrite Hw by done. by rewrite decide_False.
Qed.

Lemma rewritten_entry acc va w w' t pte :
  paged w -> page_entry w va t pte -> rewritten acc va t pte w w' ->
  page_entry w' va t (pte .| suite_mask acc).
Proof using Hpool Hpool_end.
  intros [Hon Hok Hcoh] [Hc Ht He Hres] [Hs Hm Htl]. pose proof (fixed_range _ _ _ acc He) as Hr.
  destruct (suite_mask_facts acc) as (Hmr & _).
  split; rewrite ?(sh_satp _ _ Hs), ?Hm; [done| |by apply rd64_wr64_eq|by rewrite fix_shr by lia].
  apply (slot_tbl_self (w_mem w) _ (root w) (pt_used (e_page_table_start e) (pt_state w))
    (upper_path 0 va) t (vpn va 0) (pte .| suite_mask acc)); [exact Hok|done|exact Ht|].
  apply (wr64_slot_written (w_mem w) (root w)); [exact Hok| |done|done].
  apply (wf_used _ _ _ Hok (upper_path 0 va)); done.
Qed.

(** The bits are all there: the retry has no A or D to set. *)
Lemma touch_fixed c acc pte : leaf_touch c acc (pte .| suite_mask acc) = pte .| suite_mask acc.
Proof using.
  unfold leaf_touch. destruct (hw_svadu c); [|done]. rewrite <- !Z.lor_assoc. f_equal. by destruct acc.
Qed.

Lemma repaired acc va w w' t pte :
  paged w -> page_entry w va t pte -> leaf_user (hw_ctx e w) acc pte = true ->
  rewritten acc va t pte w w' ->
  translate (hw_ctx e w') (w_mem w') (root w') acc va = Some (pte_pa pte + va mod 4096, w_mem w').
Proof using Hpool Hpool_end.
  intros [Hon Hok Hcoh] [Hc Ht He Hres] Hu [Hs Hm Htl].
  destruct (suite_mask_facts acc) as (Hmr & HmU & HmV & HmR & HmA & Hma & HmD).
  assert (leaf_aligned 0 pte = true) as Hal.
  { unfold leaf_aligned. change (Z.ones (9 * Z.of_nat 0)) with 0. by rewrite Z.land_0_r. }
  destruct (repair_translates (H0 := laws) 0 (pt_state w) (root w) va t pte (suite_mask acc)
              (hw_ctx e w) acc) as [_ Htr]; try done; [lia|].
  cbn [st_mem st_put suite_ptstate put64 pt_mem pt_state] in Htr.
  rewrite <- Hm, touch_fixed, Z.eqb_refl in Htr. by rewrite (hw_ctx_trap _ _ Hs), (sh_satp _ _ Hs), Htr.
Qed.

(** The handler runs once and the retry succeeds: where it ends, and over which memory. *)
Lemma fix_and_retry acc va w t pte n :
  paged w -> page_entry w va t pte -> leaf_user (hw_ctx e w) acc pte = true ->
  handler_action (g_trap w) <> 1 ->
  translate (hw_ctx e w) (w_mem w) (root w) acc va = None ->
  exists w', do_access e (S n) acc va w = Ret (Some (pte_pa pte + va mod 4096)) w' /\
    same_hart w w' /\ w_mem w' = wr64 (w_mem w) (t + 8 * vpn va 0) (pte .| suite_mask acc) /\
    g_trap w' = faulted acc va (trap_pc acc va) (g_trap w) /\
    coherent (w_mem w') (root w') (w_tlb w').
Proof using Hpool Hpool_end.
  intros Hpg Hpe Hu Ha Hnone.
  destruct (translate_once_fault w acc va Hpg Hnone) as (tl & b & Ho & Hcoh1).
  set (w1 := set_w_stale b (set_w_steps (S (w_steps w)) (set_w_mem (w_mem w) (set_w_tlb tl w)))) in *.
  assert (paged w1) as Hpg1 by (by destruct w, Hpg; split).
  assert (page_entry w1 va t pte) as Hpe1 by (by destruct w, Hpe; split).
  pose proof Hpe1 as [Hc Ht He Hres].
  destruct (s_trap_fix e acc va (trap_pc acc va) w1 (t + 8 * vpn va 0) 0) as (w2 & Hst & Hs & Hm & Htl & Hg).
  { by destruct w. }
  { apply (pt_walk_tbl 0); [lia|done|lia]. }
  rewrite He in Hm. assert (rewritten acc va t pte w1 w2) as Hrw by done.
  pose proof (repaired acc va w1 w2 t pte Hpg1 Hpe1 ltac:(by destruct w) Hrw) as Htr.
  pose proof (rewritten_paged acc va w1 w2 t pte Hpg1 Hpe1 Hrw) as Hpg2.
  destruct (translate_once_ok w2 acc va _ (pg_on _ Hpg2) (pg_coherent _ Hpg2) Htr) as (t3 & n3 & b3 & Ho3 & Hc3).
  exists (set_w_stale b3 (set_w_steps n3 (set_w_tlb t3 w2))). split_and!.
  - cbn [do_access]. unfold mbind, M_bind. rewrite Ho. fold (trap_pc acc va). rewrite Hst.
    rewrite Z.eqb_refl. destruct n; cbn [do_access]; unfold mbind, M_bind; rewrite Ho3; done.
  - destruct Hs. by split.
  - exact Hm.
  - exact Hg.
  - exact Hc3.
Qed.

(** C2: With [handler_action] other than 1, an access that faults on a page that has
    its tables, and whose U bit does not forbid the access ([leaf_user]: U clear, or for
    a load or store SUM set), is repaired: the handler runs once, records the fault, and
    the retry reaches the physical page of the entry; tables and cache stay good.  On
    the other pages the repair is no use ([user_translate]). *)
Theorem fault_fix_and_retry acc va w t pte n :
  paged w -> page_entry w va t pte -> leaf_user (hw_ctx e w) acc pte = true ->
  handler_action (g_trap w) <> 1 ->
  translate (hw_ctx e w) (w_mem w) (root w) acc va = None ->
  exists w', do_access e (S n) acc va w = Ret (Some (pte_pa pte + va mod 4096)) w' /\
    g_trap w' = faulted acc va (trap_pc acc va) (g_trap w) /\
    coherent (w_mem w') (root w') (w_tlb w').
Proof using Hpool Hpool_end.
  intros Hpg Hpe Hu Ha Hnone.
  destruct (fix_and_retry acc va w t pte n Hpg Hpe Hu Ha Hnone) as (w' & He & _ & _ & Hg & Hc). by exists w'.
Qed.

(** ** Skip *)

(** The length of the instruction at [pc], as the handler reads it. *)
Definition insn_len (m : mem) (pc : Z) : Z := if rd16 m pc .& 0x3 =? 0x3 then 4 else 2.

Lemma s_trap_skip acc va pc w :
  acc <> Fetch -> handler_action (g_trap w) = 1 ->
  exists w', s_trap e (fault_cause acc) va pc w = Ret (wrap64 (pc + insn_len (w_mem w) pc)) w' /\
    same_hart w w' /\ w_mem w' = w_mem w /\ w_tlb w' = w_tlb w /\
    g_trap w' = faulted acc va pc (g_trap w) /\
    sepc (w_csrs w') = wrap64 (pc + insn_len (w_mem w) pc).
Proof using.
  intros Hacc Ha. destruct w as [m pool c cl t g o k mi v rv sl]. destruct c, g. cbn in Ha. subst.
  eexists. split.
  - unfold s_trap, s_vector, s_entry. run. rewrite s_trap_handler_fault.
    unfold page_fault, do_sret, write_csr_sepc. run.
    replace (fault_cause acc =? CAUSE_INST_PAGE_FAULT) with false by (by destruct acc).
    run. reflexivity.
  - by split_and!.
Qed.

(** C23: With [handler_action] 1, a faulting load or store is skipped: the hart
    resumes after the instruction, by the length its first halfword encodes,
    with memory unchanged and one fault recorded. *)
Theorem fault_skipped acc va w n :
  paged w -> acc <> Fetch -> handler_action (g_trap w) = 1 -> 0 <= e_pc e < 2 ^ 64 ->
  translate (hw_ctx e w) (w_mem w) (root w) acc va = None ->
  exists w', do_access e n acc va w = Ret None w' /\ w_mem w' = w_mem w /\
    g_trap w' = faulted acc va (e_pc e) (g_trap w) /\
    sepc (w_csrs w') = wrap64 (e_pc e + insn_len (w_mem w) (e_pc e)) /\
    coherent (w_mem w') (root w') (w_tlb w').
Proof using.
  intros Hpg Hacc Ha Hpc Hnone.
  destruct (translate_once_fault w acc va Hpg Hnone) as (tl & b & Ho & Hcoh1).
  set (w1 := set_w_stale b (set_w_steps (S (w_steps w)) (set_w_mem (w_mem w) (set_w_tlb tl w)))) in *.
  destruct (s_trap_skip acc va (e_pc e) w1 Hacc ltac:(by destruct w))
    as (w2 & Hst & Hs & Hm & Htl & Hg & Hsepc).
  assert (w_mem w1 = w_mem w) as Hm1 by (by destruct w). rewrite Hm1 in *.
  assert (insn_len (w_mem w) (e_pc e) = 4 \/ insn_len (w_mem w) (e_pc e) = 2) as Hlen
    by (unfold insn_len; case_goal; auto).
  exists w2. split_and!; [|done|by rewrite Hg; destruct w|done|].
  - destruct n; cbn [do_access]; unfold mbind, M_bind; rewrite Ho;
      (rewrite bool_decide_eq_false_2 by done); rewrite Hst;
      (replace (wrap64 _ =? e_pc e) with false; [done|]);
      symmetry; apply Z.eqb_neq; unfold wrap64; Z.div_mod_to_equations; lia.
  - rewrite Hm, Htl, (sh_satp _ _ Hs). by destruct w.
Qed.

(** A faulting fetch cannot be skipped: the suite fails with code 201. *)
Theorem fetch_skip_fails va w n :
  paged w -> handler_action (g_trap w) = 1 ->
  translate (hw_ctx e w) (w_mem w) (root w) Fetch va = None ->
  exists w', do_access e n Fetch va w = Halt w' /\
    w_verdict w' = Some (if e_qemu e then qemu_fail_word 201 else htif_fail_word 201).
Proof using.
  intros Hpg Ha Hnone.
  destruct (translate_once_fault w Fetch va Hpg Hnone) as (tl & b & Ho & Hcoh1).
  set (w1 := set_w_stale b (set_w_steps (S (w_steps w)) (set_w_mem (w_mem w) (set_w_tlb tl w)))) in *.
  assert (exists w', s_trap e (fault_cause Fetch) va va w1 = Halt w' /\
    w_verdict w' = Some (if e_qemu e then qemu_fail_word 201 else htif_fail_word 201)) as (w2 & Hst & Hv).
  { destruct w as [m pool c cl t g o k mi v rv sl]. destruct c, g. cbn in Ha. subst. eexists. split.
    - unfold s_trap, s_vector, s_entry. run. change CAUSE_INST_PAGE_FAULT with (fault_cause Fetch).
      rewrite s_trap_handler_fault. unfold page_fault, test_fail, finish. run. reflexivity.
    - done. }
  exists w2. split; [|done].
  destruct n; cbn [do_access]; unfold mbind, M_bind; rewrite Ho;
    (rewrite bool_decide_eq_true_2 by done); by rewrite Hst.
Qed.

(** ** Faults the repair does not cover *)

Lemma user_translate c w va t pte acc :
  paged w -> page_entry w va t pte -> leaf_user c acc pte = false ->
  translate c (w_mem w) (root w) acc va = None.
Proof using Hpool Hpool_end.
  intros [_ Hok _] [Hc Ht He _] Hu.
  pose proof (span_walk (H := suite_ptstate (e_page_table_start e)) 0 (pt_state w) (root w) va t va ltac:(lia) Hok Ht ltac:(lia) eq_refl) as Hw.
  cbn [st_mem suite_ptstate pt_mem pt_state] in Hw. unfold translate. rewrite Hc, Hw, He.
  unfold entry_walk. case_goal; [|done].
  unfold leaf_ok. by rewrite Hu, !andb_false_r.
Qed.

(** C38: An access to a user page with SUM clear is retried for ever: the handler
    sets V, R, W or X, but the page stays a user page. *)
Theorem user_fault_never_ends acc va w t pte n :
  paged w -> page_entry w va t pte -> leaf_user (hw_ctx e w) acc pte = false ->
  handler_action (g_trap w) <> 1 ->
  exists w', do_access e n acc va w = OutOfFuel w'.
Proof using Hpool Hpool_end.
  revert w pte. induction n as [|n IH]; intros w pte Hpg Hpe Hu Ha;
    pose proof (user_translate _ w va t pte acc Hpg Hpe Hu) as Hnone;
    destruct (translate_once_fault w acc va Hpg Hnone) as (tl & b & Ho & Hcoh1);
    set (w1 := set_w_stale b (set_w_steps (S (w_steps w)) (set_w_mem (w_mem w) (set_w_tlb tl w)))) in *;
    assert (page_entry w1 va t pte) as Hpe1 by (by destruct w, Hpe; split);
    pose proof Hpe1 as [Hc Ht He Hres];
    (destruct (s_trap_fix e acc va (trap_pc acc va) w1 (t + 8 * vpn va 0) 0)
      as (w2 & Hst & Hs & Hm & Htl & Hg);
      [by destruct w|apply (pt_walk_tbl 0); [lia|done|lia]|]);
    cbn [do_access]; unfold mbind, M_bind; rewrite Ho; fold (trap_pc acc va); rewrite Hst, Z.eqb_refl.
  { by eexists. }
  rewrite He in Hm. assert (paged w1) as Hpg1 by (by destruct w, Hpg; split).
  assert (rewritten acc va t pte w1 w2) as Hrw by done.
  apply (IH w2 (pte .| suite_mask acc)).
  - by eapply (rewritten_paged acc va w1).
  - by eapply (rewritten_entry acc va w1).
  - rewrite (hw_ctx_trap _ _ Hs). unfold leaf_user in *. rewrite tst_lor_l.
    destruct (suite_mask_facts acc) as (_ & -> & _). rewrite orb_false_r. by destruct w.
  - rewrite Hg. by destruct w as [? ? ? ? ? [] ? ? ? ? ?].
Qed.

(** An access where a whole table is missing (an address that was never mapped)
    is "repaired" into a superpage over physical address 0: instead of failing,
    the access reaches the device and boot memory at the bottom. *)
Theorem missing_table_maps_zero acc va pc w l t :
  paged w -> (1 <= l <= 2)%nat -> canonical va = true ->
  tbl (w_mem w) (root w) (upper_path l va) = Some t ->
  rd64 (w_mem w) (t + 8 * vpn va l) = 0 -> handler_action (g_trap w) <> 1 ->
  exists w', s_trap e (fault_cause acc) va pc w = Ret pc w' /\
    fst <$> translate (hw_ctx e w') (w_mem w') (root w') acc va = Some (va mod span l).
Proof using Hpool Hpool_end.
  intros [Hon Hok Hcoh] Hl Hc Ht He Ha.
  destruct (s_trap_fix e acc va pc w (t + 8 * vpn va l) (Z.of_nat l)) as (w' & Hst & Hs & Hm & _ & _);
    [done|apply pt_walk_tbl; [lia|done|intros; by rewrite He]|].
  exists w'. split; [done|].
  destruct (suite_mask_facts acc) as (Hmr & HmU & HmV & HmR & HmA & Hma & HmD).
  destruct (repair_translates (H0 := laws) l (pt_state w) (root w) va t 0 (suite_mask acc)
              (hw_ctx e w) acc) as [_ Htr]; try done; [lia|].
  cbn [st_mem st_put suite_ptstate put64 pt_mem pt_state] in Htr. rewrite He in Hm.
  rewrite <- Hm in Htr. by rewrite (hw_ctx_trap _ _ Hs), (sh_satp _ _ Hs), Htr.
Qed.

(** ** Turning the MMU on *)

Lemma satp_value_fields r :
  is_page r -> satp_root (satp_value r) = r /\ satp_value r .>> SATP_MODE_SHIFT = SATP_MODE_SV39.
Proof using.
  intros [Ha Hr]. unfold satp_value, satp_root, pt_ppn, PGSHIFT, SATP_MODE_SHIFT.
  rewrite (shr_div r 12) by lia.
  assert (0 <= r / 2 ^ 12 < 2 ^ 44) as Hd
    by (split; [apply Z.div_pos; lia|apply Z.div_lt_upper_bound; lia]).
  assert (SATP_MODE_SV39 .<< 60 = Z.shiftl 8 60) as -> by reflexivity.
  rewrite (lor_field 8 (r / 2 ^ 12) 60) by lia. split; [|by rewrite shr_field by lia].
  change 0x00000FFFFFFFFFFF with (Z.ones 44).
  replace (8 * 2 ^ 60 + r / 2 ^ 12) with (r / 2 ^ 12 + (8 * 2 ^ 16) * 2 ^ 44) by lia.
  rewrite Z.land_ones, Z_mod_plus_full, Z.mod_small by lia.
  pose proof (Z.div_mod r 4096 ltac:(lia)). change (2 ^ 12) with 4096 in *.
  rewrite shl64_small by lia. lia.
Qed.

(** C28: [pt_reset], [pt_setup_identity_kernel] and [mmu_enable_sv39], from any state:
    the hart then runs with paging on, over well-formed tables whose root is the
    one [satp] designates, with nothing stale in its cache. *)
Theorem mmu_enable_paged w :
  exists r w', (do_pt_reset ;; r ← do_pt_setup_identity_kernel e; mmu_enable_sv39 r ;; mret r) w
      = Ret r w' /\
    paged w' /\ satp_root (satp (w_csrs w')) = r /\ r = e_page_table_start e.
Proof using Hpool Hpool_end.
  pose proof (setup_ok (e_page_table_start e) Hpool Hpool_end (pt_reset (pt_state w)) eq_refl) as Hok.
  destruct (setup_root (e_page_table_start e) (pt_reset (pt_state w)) eq_refl) as [Hr _].
  destruct (satp_value_fields (e_page_table_start e) Hpool) as [Hs Hm].
  destruct (pt_setup_identity_kernel (e_page_table_start e) (pt_reset (pt_state w))) as [r st] eqn:E.
  cbn [fst snd] in *. subst r. do 2 eexists. split.
  - unfold do_pt_reset, do_pt_setup_identity_kernel, mmu_enable_sv39, sfence_all, set_csr, modify.
    unfold mbind, M_bind, mret, M_ret.
    assert (pt_state (with_pt (pt_reset (pt_state w)) w) = pt_reset (pt_state w)) as -> by (by destruct w).
    rewrite E. reflexivity.
  - cbn [w_csrs set_w_tlb set_w_csrs satp set_satp]. split; [|done].
    split.
    + unfold paging. cbn [w_csrs set_w_tlb set_w_csrs satp set_satp]. rewrite Hm. done.
    + cbn [w_csrs set_w_tlb set_w_csrs satp set_satp]. rewrite Hs.
      replace (pt_state _) with st; [exact Hok|]. by destruct st, w.
    + apply sfence_vma_all_coherent.
Qed.
End Repair.

(** ** At concrete inputs: the pages of P1B and P1C *)

Definition env0 : env :=
  {| e_qemu := false; e_svadu := false; e_hit := Nat.even; e_dt := fun _ => 0; e_sc := fun _ => true;
     e_page_table_start := pool0; e_s_trap_vector := 0x80001000; e_pc := 0x80002000;
     e_heap_start := 0x80020000; e_heap_end := 0x801FF000 |}.

(** The hart over tables [st], with [g_trap.handler_action]. *)
Definition page_world (st : ptstate) (action : Z) : world :=
  mk_world (pt_mem st) (pt_pool_next_page st) (mk_csrs 0 0 0 0 (satp_value pool0) 0 0 0 0) ∅ ∅
    (mk_trap_state 0 0 0 0 0 0 action 0 0 0 0) [] 0 [] None None false.

Lemma page_world_root st action : satp_root (satp (w_csrs (page_world st action))) = pool0.
Proof. vm_compute. reflexivity. Qed.

Lemma page_world_paged st action :
  @tables_ok _ (suite_ptstate pool0) st pool0 -> paged env0 (page_world st action).
Proof.
  intros Hok. split.
  - vm_compute. reflexivity.
  - rewrite page_world_root. by destruct st.
  - apply (sfence_vma_all_coherent _ _ ∅).
Qed.

(** A page of P1C.1: V clear. *)
Definition fault_state (perm : Z) (valid : bool) : ptstate :=
  pt_map_page pool0 kernel_state pool0 0xD0100000 0x801B0000 perm valid.

Lemma fault_page perm valid action :
  0 <= perm < 1024 ->
  let w := page_world (fault_state perm valid) action in
  paged env0 w /\
  exists t, page_entry w 0xD0100008 t (map_entry 0x801B0000 perm valid).
Proof.
  intros Hp; cbv zeta.
  destruct (pt_map_page_mapped pool0 pool0_page pool0_end kernel_state pool0 0xD0100000 0x801B0000
    perm valid) as [Hok (t & Ht & He & _) _ _ _];
    [split; [apply kernel_state_ok|vm_compute; reflexivity]|by split|done|].
  split; [by apply page_world_paged|]. exists t. split.
  - reflexivity.
  - rewrite page_world_root. exact Ht.
  - exact He.
  - pose proof (map_entry_range 0x801B0000 perm valid ltac:(by split) Hp) as Hr.
    rewrite shr_div by lia. by apply Z.div_small.
Qed.

Lemma fault_page_faults acc perm action :
  0 <= perm < 1024 ->
  translate (hw_ctx env0 (page_world (fault_state perm false) action))
    (w_mem (page_world (fault_state perm false) action))
    (satp_root (satp (w_csrs (page_world (fault_state perm false) action)))) acc 0xD0100008 = None.
Proof.
  intros Hp. rewrite page_world_root.
  destruct (pt_map_page_walk pool0 pool0_page pool0_end kernel_state pool0 0xD0100000 0x801B0000
    perm false 0xD0100008) as (a & Hw);
    [split; [apply kernel_state_ok|vm_compute; reflexivity]|by split|done|done|done|].
  rewrite decide_True in Hw by reflexivity. unfold translate. cbn [andb] in Hw.
  change (canonical 0xD0100008) with true. cbv iota.
  change (w_mem (page_world (fault_state perm false) action)) with (pt_mem (fault_state perm false)).
  unfold fault_state. by rewrite Hw.
Qed.

Lemma fault_fix_and_retry_witness :
  exists w', do_access env0 1 Load 0xD0100008 (page_world (fault_state (PTE_R .| PTE_W) false) 0)
    = Ret (Some 0x801B0008) w' /\ fault_count (g_trap w') = 1.
Proof.
  destruct (fault_page (PTE_R .| PTE_W) false 0 ltac:(by split)) as [Hpg (t & Hpe)].
  destruct (fault_fix_and_retry env0 pool0_page pool0_end Load 0xD0100008 _ t _ 0 Hpg Hpe
    ltac:(vm_compute; reflexivity) ltac:(by vm_compute)
    (fault_page_faults Load (PTE_R .| PTE_W) 0 ltac:(by split))) as (w' & He & Hg & _).
  exists w'. split; [|by rewrite Hg]. rewrite He. f_equal.
Defined.

Lemma fault_skipped_witness :
  exists w', do_access env0 0 Load 0xD0100008 (page_world (fault_state (PTE_R .| PTE_W) false) 1)
    = Ret None w' /\ fault_count (g_trap w') = 1.
Proof.
  destruct (fault_page (PTE_R .| PTE_W) false 1 ltac:(by split)) as [Hpg _].
  destruct (fault_skipped env0 Load 0xD0100008 _ 0 Hpg ltac:(discriminate) eq_refl ltac:(by split)
    (fault_page_faults Load (PTE_R .| PTE_W) 1 ltac:(by split))) as (w' & He & _ & Hg & _).
  exists w'. split; [exact He|by rewrite Hg].
Defined.

Lemma fetch_skip_fails_witness :
  exists w', do_access env0 0 Fetch 0xD0100008 (page_world (fault_state (PTE_R .| PTE_X) false) 1)
    = Halt w' /\ w_verdict w' = Some 403.
Proof.
  destruct (fault_page (PTE_R .| PTE_X) false 1 ltac:(by split)) as [Hpg _].
  destruct (fetch_skip_fails env0 0xD0100008 _ 0 Hpg eq_refl
    (fault_page_faults Fetch (PTE_R .| PTE_X) 1 ltac:(by split))) as (w' & He & Hv).
  exists w'. split; [exact He|by rewrite Hv].
Defined.

Lemma user_fault_never_ends_witness :
  exists w', do_access env0 7 Load 0xD0100008
    (page_world (fault_state (PTE_R .| PTE_W .| PTE_U) true) 0) = OutOfFuel w'.
Proof.
  destruct (fault_page (PTE_R .| PTE_W .| PTE_U) true 0 ltac:(by split)) as [Hpg (t & Hpe)].
  exact (user_fault_never_ends env0 pool0_page pool0_end Load 0xD0100008 _ t _ 7 Hpg Hpe
    ltac:(vm_compute; reflexivity) ltac:(by vm_compute)).
Defined.

Lemma missing_table_maps_zero_witness :
  exists w', s_trap env0 (fault_cause Load) 0x140000010 0x80002000 (page_world kernel_state 0)
      = Ret 0x80002000 w' /\
    fst <$> translate (hw_ctx env0 w') (w_mem w') (satp_root (satp (w_csrs w'))) Load 0x140000010
      = Some 0x10.
Proof.
  destruct (missing_table_maps_zero env0 pool0_page pool0_end Load 0x140000010 0x80002000
    (page_world kernel_state 0) 2 pool0 (page_world_paged _ 0 kernel_state_ok) ltac:(lia) eq_refl)
    as (w' & He & Ht); [rewrite page_world_root; reflexivity|vm_compute; reflexivity|by vm_compute|].
  exists w'. split; [exact He|rewrite Ht; reflexivity].
Defined.

Lemma mmu_enable_paged_witness :
  exists w', (do_pt_reset ;; r ← do_pt_setup_identity_kernel env0; mmu_enable_sv39 r ;; mret r)
      (page_world boot_state 0) = Ret pool0 w' /\ paging w' = true.
Proof.
  destruct (mmu_enable_paged env0 pool0_page pool0_end (page_world boot_state 0))
    as (r & w' & He & [Hon _ _] & _ & Hr).
  exists w'. rewrite He, Hr. by split.
Defined.

(** P1D.1: an absent page is cached as absent, then mapped and fenced. *)
Lemma targeted_fence_enough_witness :
  let c := {| hw_sum := false; hw_mxr := false; hw_svadu := true |} in
  let t := (cached_run c pool0 (pt_mem kernel_state) ∅ [(Load, 0xD0100008, false)]).2 in
  (cached_run c pool0 (pt_mem (fault_state (PTE_R .| PTE_W) true)) (sfence_vma_addr 0xD0100000 t)
     [(Load, 0xD0100008, true)]).1.1 = [Some 0x801B0008].
Proof.
  set (c := {| hw_sum := false; hw_mxr := false; hw_svadu := true |}); cbv zeta.
  rewrite (targeted_fence_enough c pool0 (pt_mem kernel_state) (pt_mem (fault_state (PTE_R .| PTE_W) true))
    (cached_run c pool0 (pt_mem kernel_state) ∅ [(Load, 0xD0100008, false)]).2
    0xD0100000 [(Load, 0xD0100008, true)]).
  - vm_compute. reflexivity.
  - pose proof (cached_run_table c pool0 (pt_mem kernel_state) ∅ [(Load, 0xD0100008, false)]
      (empty_coherent _ _)) as [_ H]. exact H.
  - reflexivity.
  - intros va' Hc Hne.
    destruct (pt_map_page_walk pool0 pool0_page pool0_end kernel_state pool0 0xD0100000 0x801B0000
      (PTE_R .| PTE_W) true va') as (a & Hw);
      [split; [apply kernel_state_ok|vm_compute; reflexivity]|by split|by split|done|done|].
    rewrite decide_False in Hw by exact Hne. exact Hw.
Defined.
