(* ===== verification/Interrupts.v ===== *)
(** * Interrupts: forwarding by M-mode, delivery to S-mode

    What [m_trap_handler] promises S-mode: a machine timer or software interrupt
    becomes exactly one supervisor interrupt, taken when the test has it enabled
    and pending until then; the SBI calls arm, send and clear; anything else ends
    the run with a code that names the cause. *)

From S2P Require Import Prelude Platform Memory Sv39 PtTree PageMap PageTable Tlb Console Machine MTrap STrap Hart Faults.

(** ** Bits of the interrupt registers *)

Lemma tst_set_bits x a b : 0 <= a -> 0 <= b ->
  tst (set_bits x (2 ^ a)) (2 ^ b) = if b =? a then true else tst x (2 ^ b).
Proof. intros. by rewrite !tst_bit, set_bits_bit by lia. Qed.

Lemma tst_clear_bits x a b : 0 <= a -> 0 <= b ->
  tst (clear_bits x (2 ^ a)) (2 ^ b) = if b =? a then false else tst x (2 ^ b).
Proof. intros. by rewrite !tst_bit, clear_bits_bit by lia. Qed.

(** Whether a bit of [x] is set, by its mask in [platform.h]. *)
Ltac irq_bits :=
  change MIP_SSIP with (2 ^ 1) in *; change MIP_MSIP with (2 ^ 3) in *;
  change MIP_STIP with (2 ^ 5) in *; change MIP_MTIP with (2 ^ 7) in *;
  change MIP_SEIP with (2 ^ 9) in *; change SIP_SSIP with (2 ^ 1) in *;
  change SIP_STIP with (2 ^ 5) in *; change SIP_SEIP with (2 ^ 9) in *;
  rewrite ?tst_set_bits, ?tst_clear_bits by lia; cbn [Z.eqb Pos.eqb].

Lemma s_ready_bit w n :
  n = 1 \/ n = 5 \/ n = 9 ->
  tst (s_ready w) (2 ^ n) = tst (mip (w_csrs w)) (2 ^ n) && tst (mie (w_csrs w)) (2 ^ n).
Proof.
  intros Hn. unfold s_ready. rewrite !tst_bit, !Z.land_spec by lia.
  replace (Z.testbit asm_MIDELEG_DEFAULT n) with true by (by destruct Hn as [-> |[-> | ->]]).
  by rewrite andb_true_r.
Qed.

(** A trap to M-mode and its [mret] restore every bit but MPIE and MPP. *)
Lemma m_trap_status ms i :
  0 <= i -> i <> 7 -> i <> 11 -> i <> 12 ->
  Z.testbit (mret_status (m_entry_status ms)) i = Z.testbit ms i.
Proof.
  intros Hi H7 H11 H12. unfold mret_status, m_entry_status.
  change MSTATUS_MPIE with (2 ^ 7). change MSTATUS_MIE with (2 ^ 3).
  change MSTATUS_MPP_S with (2 ^ 11).
  assert (forall x j, 0 <= j -> j <> 11 -> j <> 12 ->
    Z.testbit (clear_bits x MSTATUS_MPP_MASK) j = Z.testbit x j) as Hmpp.
  { intros x j Hj H1 H2. unfold clear_bits. rewrite Z.ldiff_spec.
    change MSTATUS_MPP_MASK with (2 ^ 11 .| 2 ^ 12).
    rewrite Z.lor_spec, !Z.pow2_bits_false by lia. btauto. }
  rewrite Hmpp, set_bits_bit, mstatus_bit_flag, tst_bit by lia.
  rewrite !set_bits_bit, !Hmpp, !clear_bits_bit, !mstatus_bit_flag, ?tst_bit by lia.
  destruct (Z.eqb_spec i 7); [done|].
  change (7 =? 11) with false. change (7 =? 3) with false. change (7 =? 7) with true. cbv iota.
  destruct (Z.eqb_spec i 3) as [->|]; [done|].
  destruct (Z.eqb_spec i 11); [done|]. done.
Qed.

(** ** M-mode's part *)

Definition MTIMECMP_MAX : Z := 0xFFFFFFFFFFFFFFFF.

Section Forward.
Context (e : env).
Implicit Types w : world.

Definition map_csrs (f : csrs -> csrs) (w : world) : world := set_w_csrs (f (w_csrs w)) w.
Definition set_clint (a v : Z) (w : world) : world := set_w_clint (<[a := v]> (w_clint w)) w.

(** [mstatus] after a trap to M-mode and back. *)
Definition m_round (c : csrs) : csrs := set_mstatus (mret_status (m_entry_status (mstatus c))) c.

Definition after_m_timer (w : world) : world :=
  set_clint (CLINT_MTIMECMP (mhartid (w_csrs w))) MTIMECMP_MAX
    (map_csrs (fun c => m_round (set_mie (clear_bits (mie c) MIP_MTIP)
                          (set_mip (set_bits (mip c) MIP_STIP) c))) w).
Definition after_m_soft (w : world) : world :=
  set_clint (CLINT_MSIP (mhartid (w_csrs w))) 0
    (map_csrs (fun c => m_round (set_mip (set_bits (mip c) MIP_SSIP) c)) w).
Definition after_set_timer (val : Z) (w : world) : world :=
  set_clint (CLINT_MTIMECMP (mhartid (w_csrs w))) val
    (map_csrs (fun c => m_round (set_mie (set_bits (mie c) MIP_MTIP)
                          (set_mip (clear_bits (mip c) MIP_STIP) c))) w).

Ltac m_run :=
  unfold m_trap, m_trap_handler, m_entry, do_mret, clear_csr_bits_mie, set_csr_bits_mie,
    clear_csr_bits_mip, set_csr_bits_mip, read_mhartid, when; run.

Lemma m_timer_run tval pc a0 a7 w :
  m_trap e (interrupt_bit + IRQ_M_TIMER) tval pc a0 a7 w = Ret pc (after_m_timer w).
Proof using. destruct w as [? ? [] ? ? ? ? ? ? ? ?]. reflexivity. Qed.

Lemma m_soft_run tval pc a0 a7 w :
  m_trap e (interrupt_bit + IRQ_M_SOFT) tval pc a0 a7 w = Ret pc (after_m_soft w).
Proof using. destruct w as [? ? [] ? ? ? ? ? ? ? ?]. reflexivity. Qed.

Lemma set_timer_run val pc w :
  m_trap e CAUSE_ECALL_SMODE 0 pc val SBI_SET_TIMER w
  = Ret (wrap64 (pc + 4)) (after_set_timer val w).
Proof using. destruct w as [? ? [] ? ? ? ? ? ? ? ?]. reflexivity. Qed.
End Forward.

(** ** S-mode's part *)

Section Handled.
Context (e : env).
Implicit Types (w : world) (t : trap_state).

(** [g_trap] after an interrupt, before its own counter. *)
Definition trapped (cause pc : Z) t : trap_state :=
  set_last_irq_cause cause (set_irq_count (s32 (irq_count t + 1))
    (set_fault_count (s32 (fault_count t + 1))
      (set_ts_scause cause (set_ts_stval 0 (set_ts_sepc pc t))))).
Definition timer_counted t : trap_state := set_timer_irq_count (s32 (timer_irq_count t + 1)) t.
Definition soft_counted t : trap_state := set_soft_irq_count (s32 (soft_irq_count t + 1)) t.

(** The CSRs a trap to S-mode and its [sret] write. *)
Definition s_round (ms : Z -> Z) (cause pc : Z) (c : csrs) : csrs :=
  set_mstatus (sret_status (ms (s_entry_status (mstatus c))))
    (set_scause cause (set_stval 0 (set_sepc pc c))).

(** The handler's own [ecall] runs in between. *)
Definition through_m (ms : Z) : Z := mret_status (m_entry_status ms).

Definition after_s_timer (pc : Z) w : world :=
  set_g_trap (timer_counted (trapped (interrupt_bit + IRQ_S_TIMER) pc (g_trap w)))
    (set_clint (CLINT_MTIMECMP (mhartid (w_csrs w))) MTIMECMP_MAX
      (map_csrs (fun c => s_round through_m (interrupt_bit + IRQ_S_TIMER) pc
                   (set_mie (set_bits (mie c) MIP_MTIP) (set_mip (clear_bits (mip c) MIP_STIP) c))) w)).
Definition after_s_soft (pc : Z) w : world :=
  set_g_trap (soft_counted (trapped (interrupt_bit + IRQ_S_SOFT) pc (g_trap w)))
    (map_csrs (fun c => s_round id (interrupt_bit + IRQ_S_SOFT) pc
                 (set_mip (clear_bits (mip c) SIP_SSIP) c)) w).

Lemma s_timer_run pc w :
  s_trap e (interrupt_bit + IRQ_S_TIMER) 0 pc w = Ret pc (after_s_timer pc w).
Proof using. destruct w as [? ? [] ? ? [] ? ? ? ? ?]. reflexivity. Qed.

Lemma s_soft_run pc w :
  s_trap e (interrupt_bit + IRQ_S_SOFT) 0 pc w = Ret pc (after_s_soft pc w).
Proof using. destruct w as [? ? [] ? ? [] ? ? ? ? ?]. reflexivity. Qed.
End Handled.

(** ** What is pending after each step *)

Section Pending.
Context (e : env).
Implicit Types w : world.

Definition s_enabled w : bool := tst (mstatus (w_csrs w)) MSTATUS_SIE.
Definition ip w (n : Z) : bool := Z.testbit (mip (w_csrs w)) n.
Definition ie w (n : Z) : bool := Z.testbit (mie (w_csrs w)) n.

(** One of the two harts, with a clock that has not reached the end of time. *)
Record hart_ok w : Prop := {
  ho_id : 0 <= mhartid (w_csrs w) < NUM_HARTS;
  ho_time : clint_read CLINT_MTIME w < MTIMECMP_MAX
}.

(** No interrupt but [n] is ready for S-mode. *)
Definition others_quiet w (n : Z) : Prop :=
  forall i, i = 1 \/ i = 5 \/ i = 9 -> i <> n -> ip w i && ie w i = false.

Lemma s_pending_eq w :
  s_pending w =
    if s_enabled w then
      if ip w 9 && ie w 9 then Some IRQ_S_EXT
      else if ip w 1 && ie w 1 then Some IRQ_S_SOFT
      else if ip w 5 && ie w 5 then Some IRQ_S_TIMER
      else None
    else None.
Proof using.
  unfold s_pending, s_enabled, ip, ie. change SIP_SEIP with (2 ^ 9). change SIP_SSIP with (2 ^ 1).
  change SIP_STIP with (2 ^ 5). rewrite !s_ready_bit, !tst_bit by (tauto || lia). done.
Qed.

Lemma s_pending_only w n :
  others_quiet w n -> n = 1 \/ n = 5 ->
  s_pending w = if s_enabled w && (ip w n && ie w n) then Some n else None.
Proof using.
  intros Hq Hn. rewrite s_pending_eq, (Hq 9) by lia.
  destruct (s_enabled w); [|done]. destruct Hn as [-> | ->].
  - rewrite (Hq 5) by lia. by destruct (ip w 1), (ie w 1).
  - rewrite (Hq 1) by lia. by destruct (ip w 5), (ie w 5).
Qed.

Lemma clint_read_set a b v w :
  clint_read a (set_clint b v w) = if a =? b then v else clint_read a w.
Proof using.
  unfold clint_read, set_clint. destruct w. cbn.
  destruct (Z.eqb_spec a b) as [->|]; [by rewrite lookup_insert_eq|by rewrite lookup_insert_ne].
Qed.

Lemma clint_distinct h :
  0 <= h < NUM_HARTS ->
  CLINT_MTIME <> CLINT_MTIMECMP h /\ CLINT_MTIME <> CLINT_MSIP h /\
  CLINT_MSIP h <> CLINT_MTIMECMP h.
Proof using. unfold CLINT_MTIME, CLINT_MTIMECMP, CLINT_MSIP, CLINT_BASE, NUM_HARTS. lia. Qed.

(** *** The trap handlers as changes of the interrupt state *)

(** [w'] has the pending bits [ip'] and the enable bits [ie'], the same clock and
    the same [sstatus.SIE]. *)
Record irq_step (ip' ie' : Z -> bool -> bool) w w' : Prop := {
  is_ok : hart_ok w';
  is_id : mhartid (w_csrs w') = mhartid (w_csrs w);
  is_enabled : s_enabled w' = s_enabled w;
  is_ip n : 0 <= n -> ip w' n = ip' n (ip w n);
  is_ie n : 0 <= n -> ie w' n = ie' n (ie w n);
  is_mem : w_mem w' = w_mem w /\ w_tlb w' = w_tlb w /\ satp (w_csrs w') = satp (w_csrs w);
  is_pool : w_pool w' = w_pool w
}.

Definition raise_bit (k n : Z) (b : bool) : bool := (n =? k) || b.
Definition lower_bit (k n : Z) (b : bool) : bool := negb (n =? k) && b.
Definition same_bit (n : Z) (b : bool) : bool := b.

Lemma raise_set x k n : 0 <= k -> 0 <= n ->
  Z.testbit (set_bits x (2 ^ k)) n = raise_bit k n (Z.testbit x n).
Proof using. intros. rewrite set_bits_bit by lia. unfold raise_bit. by destruct (n =? k). Qed.

Lemma lower_clear x k n : 0 <= k -> 0 <= n ->
  Z.testbit (clear_bits x (2 ^ k)) n = lower_bit k n (Z.testbit x n).
Proof using. intros. rewrite clear_bits_bit by lia. unfold lower_bit. by destruct (n =? k). Qed.

(** The hart's own timer comparator, or its software-interrupt register, was
    written. *)
Lemma mtimecmp_set w w' v :
  hart_ok w -> mhartid (w_csrs w') = mhartid (w_csrs w) ->
  w_clint w' = <[CLINT_MTIMECMP (mhartid (w_csrs w)) := v]> (w_clint w) ->
  hart_ok w' /\ mtip w' = (v <=? clint_read CLINT_MTIME w) /\ msip w' = msip w.
Proof using.
  intros [Hid Ht] E Ec. destruct (clint_distinct _ Hid) as (D1 & D2 & D3).
  unfold mtip, msip, clint_read in *. rewrite E, Ec, lookup_insert_eq, !lookup_insert_ne by congruence.
  split_and!; [|done..]. split; [by rewrite E|]. unfold clint_read.
  by rewrite Ec, lookup_insert_ne by congruence.
Qed.

Lemma msip_set w w' v :
  hart_ok w -> mhartid (w_csrs w') = mhartid (w_csrs w) ->
  w_clint w' = <[CLINT_MSIP (mhartid (w_csrs w)) := v]> (w_clint w) ->
  hart_ok w' /\ mtip w' = mtip w /\ msip w' = tst v 1.
Proof using.
  intros [Hid Ht] E Ec. destruct (clint_distinct _ Hid) as (D1 & D2 & D3).
  unfold mtip, msip, clint_read in *. rewrite E, Ec, lookup_insert_eq, !lookup_insert_ne by congruence.
  split_and!; [|done..]. split; [by rewrite E|]. unfold clint_read.
  by rewrite Ec, lookup_insert_ne by congruence.
Qed.

Lemma m_trap_enabled ms :
  tst (mret_status (m_entry_status ms)) MSTATUS_SIE = tst ms MSTATUS_SIE.
Proof using. change MSTATUS_SIE with (2 ^ 1). by rewrite !tst_bit, m_trap_status by lia. Qed.

Lemma s_trap_enabled ms :
  tst (sret_status (s_entry_status ms)) MSTATUS_SIE = tst ms MSTATUS_SIE.
Proof using. change MSTATUS_SIE with (2 ^ 1). by rewrite !tst_bit, s_trap_status by lia. Qed.

(** [sret] looks at SPIE and SPP, which a trap to M-mode leaves alone. *)
Lemma sret_through_m ms :
  tst (sret_status (through_m (s_entry_status ms))) MSTATUS_SIE = tst ms MSTATUS_SIE.
Proof using.
  rewrite <- (s_trap_enabled ms). unfold sret_status, through_m.
  change MSTATUS_SPP with (2 ^ 8). change MSTATUS_SPIE with (2 ^ 5). change MSTATUS_SIE with (2 ^ 1).
  rewrite !tst_bit, !clear_bits_bit, !set_bits_bit, !mstatus_bit_flag by lia.
  change (1 =? 8) with false. change (1 =? 5) with false. change (1 =? 1) with true. cbv iota.
  by rewrite m_trap_status by lia.
Qed.

(** A change of CSRs that moves the pending and enable bits as said. *)
Ltac irq_moves :=
  first [done
        | unfold s_enabled; first [apply m_trap_enabled | apply s_trap_enabled | apply sret_through_m]
        | intros n Hn; unfold ip, ie; first [done | match goal with
            | |- _ = raise_bit ?k n (Z.testbit ?x n) => exact (raise_set x k n ltac:(lia) Hn)
            | |- _ = lower_bit ?k n (Z.testbit ?x n) => exact (lower_clear x k n ltac:(lia) Hn)
            end]].

Lemma m_timer_step w :
  hart_ok w -> irq_step (raise_bit 5) (lower_bit 7) w (after_m_timer w) /\
    mtip (after_m_timer w) = false /\ msip (after_m_timer w) = msip w.
Proof using.
  intros Hok. destruct (mtimecmp_set w (after_m_timer w) MTIMECMP_MAX Hok) as (Hok' & -> & ->);
    [done..|]. split_and!; [split; irq_moves| |done].
  apply Z.leb_gt, (ho_time _ Hok).
Qed.

Lemma m_soft_step w :
  hart_ok w -> irq_step (raise_bit 1) same_bit w (after_m_soft w) /\
    mtip (after_m_soft w) = mtip w /\ msip (after_m_soft w) = false.
Proof using.
  intros Hok. destruct (msip_set w (after_m_soft w) 0 Hok) as (Hok' & -> & ->); [done..|].
  split_and!; [split; irq_moves|done..].
Qed.

Lemma set_timer_step val w :
  hart_ok w -> irq_step (lower_bit 5) (raise_bit 7) w (after_set_timer val w) /\
    mtip (after_set_timer val w) = (val <=? clint_read CLINT_MTIME w) /\
    msip (after_set_timer val w) = msip w.
Proof using.
  intros Hok. destruct (mtimecmp_set w (after_set_timer val w) val Hok) as (Hok' & -> & ->); [done..|].
  split_and!; [split; irq_moves|done..].
Qed.

Lemma s_timer_step pc w :
  hart_ok w -> irq_step (lower_bit 5) (raise_bit 7) w (after_s_timer pc w) /\
    mtip (after_s_timer pc w) = false /\ msip (after_s_timer pc w) = msip w.
Proof using.
  intros Hok. destruct (mtimecmp_set w (after_s_timer pc w) MTIMECMP_MAX Hok) as (Hok' & -> & ->);
    [done..|]. split_and!; [split; irq_moves| |done].
  apply Z.leb_gt, (ho_time _ Hok).
Qed.

Lemma s_soft_step pc w :
  hart_ok w -> irq_step (lower_bit 1) same_bit w (after_s_soft pc w) /\
    mtip (after_s_soft pc w) = mtip w /\ msip (after_s_soft pc w) = msip w.
Proof using.
  intros Hok. split_and!; [|done..]. split; irq_moves || by destruct Hok.
Qed.
End Pending.

(** ** Delivery *)

Section Delivery.
Context (e : env).
Implicit Types w : world.

Lemma m_pending_eq w :
  m_pending w = if msip w && ie w 3 then Some IRQ_M_SOFT
                else if mtip w && ie w 7 then Some IRQ_M_TIMER else None.
Proof using.
  unfold m_pending, ie. change MIP_MSIP with (2 ^ 3). change MIP_MTIP with (2 ^ 7).
  by rewrite !tst_bit by lia.
Qed.

Lemma deliver_m_timer fuel w :
  m_pending w = Some IRQ_M_TIMER -> deliver e (S fuel) w = deliver e fuel (after_m_timer w).
Proof using. intros H. cbn [deliver]. rewrite H. unfold mbind, M_bind. by rewrite m_timer_run. Qed.

Lemma deliver_m_soft fuel w :
  m_pending w = Some IRQ_M_SOFT -> deliver e (S fuel) w = deliver e fuel (after_m_soft w).
Proof using. intros H. cbn [deliver]. rewrite H. unfold mbind, M_bind. by rewrite m_soft_run. Qed.

Lemma deliver_s_timer fuel w :
  m_pending w = None -> s_pending w = Some IRQ_S_TIMER ->
  deliver e (S fuel) w = deliver e fuel (after_s_timer (e_pc e) w).
Proof using.
  intros H1 H2. cbn [deliver]. rewrite H1, H2. unfold mbind, M_bind. by rewrite s_timer_run.
Qed.

Lemma deliver_s_soft fuel w :
  m_pending w = None -> s_pending w = Some IRQ_S_SOFT ->
  deliver e (S fuel) w = deliver e fuel (after_s_soft (e_pc e) w).
Proof using.
  intros H1 H2. cbn [deliver]. rewrite H1, H2. unfold mbind, M_bind. by rewrite s_soft_run.
Qed.

Lemma deliver_idle fuel w :
  m_pending w = None -> s_pending w = None -> deliver e fuel w = Ret tt w.
Proof using. intros H1 H2. destruct fuel; cbn [deliver]; by rewrite H1, H2. Qed.

(** Nothing is pending any more, for either mode. *)
Definition nothing_pending w : Prop := m_pending w = None /\ s_pending w = None.

(** [g_trap] after one timer interrupt, or one software interrupt. *)
Definition one_timer (t : trap_state) : trap_state :=
  timer_counted (trapped (interrupt_bit + IRQ_S_TIMER) (e_pc e) t).
Definition one_soft (t : trap_state) : trap_state :=
  soft_counted (trapped (interrupt_bit + IRQ_S_SOFT) (e_pc e) t).

Lemma others_quiet_step ip' ie' w w' n k l :
  irq_step ip' ie' w w' -> others_quiet w n -> (k = n \/ k = 3 \/ k = 7) -> (l = n \/ l = 3 \/ l = 7) ->
  (ip' = raise_bit k \/ ip' = lower_bit k) ->
  (ie' = raise_bit l \/ ie' = lower_bit l \/ ie' = same_bit) -> others_quiet w' n.
Proof using.
  intros Hs Hq Hk Hl Hip Hie i Hi Hne.
  rewrite (is_ip _ _ _ _ Hs), (is_ie _ _ _ _ Hs), <- (Hq i Hi Hne) by lia. f_equal.
  - assert ((i =? k) = false) as E by (apply Z.eqb_neq; lia).
    by destruct Hip as [-> | ->]; unfold raise_bit, lower_bit; rewrite E.
  - assert ((i =? l) = false) as E by (apply Z.eqb_neq; lia).
    by destruct Hie as [-> |[-> | ->]]; unfold raise_bit, lower_bit, same_bit; rewrite ?E.
Qed.

(** The S-mode timer handler leaves nothing pending. *)
Lemma s_timer_taken fuel w :
  hart_ok w -> msip w = false -> m_pending w = None -> others_quiet w 5 ->
  s_enabled w = true -> ip w 5 = true -> ie w 5 = true ->
  exists w', deliver e (S fuel) w = Ret tt w' /\ g_trap w' = one_timer (g_trap w) /\
    nothing_pending w' /\ s_enabled w' = true /\ w_mem w' = w_mem w /\ w_tlb w' = w_tlb w.
Proof using.
  intros Hok Hsip Hm Hq Hen Hip Hie. exists (after_s_timer (e_pc e) w).
  destruct (s_timer_step (e_pc e) w Hok) as (Hs & Ht' & Hs').
  assert (nothing_pending (after_s_timer (e_pc e) w)) as Hn.
  { split; [by rewrite m_pending_eq, Ht', Hs', Hsip|].
    rewrite (s_pending_only _ 5), (is_ip _ _ _ _ Hs) by
      (lia || by eapply (others_quiet_step _ _ _ _ 5 5 7 Hs); tauto).
    by rewrite andb_false_r. }
  rewrite deliver_s_timer, deliver_idle by (apply Hn || done ||
    by rewrite (s_pending_only w 5), Hen, Hip, Hie by (done || lia)).
  split_and!; try done. by rewrite (is_enabled _ _ _ _ Hs).
Qed.

(** C4: A timer that is due and enabled is forwarded by M-mode and taken by S-mode
    exactly once: the counters rise by one, the cause is recorded, and no
    interrupt is pending for either mode afterwards. *)
Theorem timer_delivered_once fuel w :
  hart_ok w -> mtip w = true -> msip w = false -> ie w 7 = true ->
  s_enabled w = true -> ie w 5 = true -> others_quiet w 5 ->
  exists w', deliver e (S (S fuel)) w = Ret tt w' /\ g_trap w' = one_timer (g_trap w) /\
    nothing_pending w' /\ s_enabled w' = true /\ w_mem w' = w_mem w /\ w_tlb w' = w_tlb w.
Proof using.
  intros Hok Ht Hsip H7 Hen H5 Hq. destruct (m_timer_step w Hok) as (Hs & Ht' & Hs').
  rewrite deliver_m_timer by (by rewrite m_pending_eq, Hsip, Ht, H7).
  apply (s_timer_taken fuel (after_m_timer w)).
  - apply (is_ok _ _ _ _ Hs).
  - by rewrite Hs'.
  - by rewrite m_pending_eq, Ht', Hs', Hsip.
  - eapply (others_quiet_step _ _ _ _ 5 5 7 Hs); tauto.
  - by rewrite (is_enabled _ _ _ _ Hs).
  - by rewrite (is_ip _ _ _ _ Hs) by lia.
  - by rewrite (is_ie _ _ _ _ Hs) by lia.
Qed.

(** [csrs sie, STIE] and [csrs sstatus, SIE]. *)
Definition unmask_timer w : world :=
  map_csrs (fun c => set_mstatus (set_bits (mstatus c) MSTATUS_SIE)
                       (set_mie (set_bits (mie c) SIP_STIP) c)) w.

Lemma unmask_timer_facts w :
  hart_ok w -> hart_ok (unmask_timer w) /\ s_enabled (unmask_timer w) = true /\
    (forall n, ip (unmask_timer w) n = ip w n) /\
    (forall n, 0 <= n -> ie (unmask_timer w) n = raise_bit 5 n (ie w n)) /\
    m_pending (unmask_timer w) = m_pending w.
Proof using.
  intros Hok. assert (forall n, 0 <= n -> ie (unmask_timer w) n = raise_bit 5 n (ie w n)) as Hie.
  { intros n Hn. exact (raise_set (mie (w_csrs w)) 5 n ltac:(lia) Hn). }
  split_and!; try done.
  - by destruct Hok.
  - unfold s_enabled. change MSTATUS_SIE with (2 ^ 1). rewrite tst_bit by lia.
    exact (raise_set (mstatus (w_csrs w)) 1 1 ltac:(lia) ltac:(lia)).
  - by rewrite !m_pending_eq, !Hie by lia.
Qed.

(** C22: A timer that is due while [sstatus.SIE] or [sie.STIE] is clear is held, not
    lost: no handler runs and STIP is pending; enabling it later takes it
    exactly once. *)
Theorem timer_held_until_enabled fuel w :
  hart_ok w -> mtip w = true -> msip w = false -> ie w 7 = true ->
  s_enabled w && ie w 5 = false -> others_quiet w 5 ->
  exists w1, deliver e (S fuel) w = Ret tt w1 /\ g_trap w1 = g_trap w /\
    ip w1 5 = true /\ nothing_pending w1 /\
    exists w2, deliver e (S fuel) (unmask_timer w1) = Ret tt w2 /\
      g_trap w2 = one_timer (g_trap w) /\ nothing_pending w2.
Proof using.
  intros Hok Ht Hsip H7 Hmask Hq. destruct (m_timer_step w Hok) as (Hs & Ht' & Hs').
  set (w1 := after_m_timer w) in *. exists w1.
  assert (others_quiet w1 5) as Hq1 by (eapply (others_quiet_step _ _ _ _ 5 5 7 Hs); tauto).
  assert (nothing_pending w1) as Hn.
  { split; [by rewrite m_pending_eq, Ht', Hs', Hsip|].
    rewrite (s_pending_only _ 5), (is_enabled _ _ _ _ Hs), (is_ie _ _ _ _ Hs), (is_ip _ _ _ _ Hs)
      by (done || lia).
    unfold raise_bit, lower_bit. cbn [Z.eqb Pos.eqb negb orb andb]. by rewrite Hmask. }
  split_and!; [|done|by rewrite (is_ip _ _ _ _ Hs) by lia|done|].
  { rewrite deliver_m_timer by (by rewrite m_pending_eq, Hsip, Ht, H7).
    apply deliver_idle; apply Hn. }
  destruct (unmask_timer_facts w1 (is_ok _ _ _ _ Hs)) as (Hok2 & Hen2 & Hip2 & Hie2 & Hm2).
  destruct (s_timer_taken fuel (unmask_timer w1)) as (w2 & Hd & Hg & Hn2 & _).
  - done.
  - by change (msip w1 = false); rewrite Hs'.
  - rewrite Hm2. apply Hn.
  - intros i Hi Hne. rewrite Hip2, Hie2 by lia. unfold raise_bit.
    replace (i =? 5) with false by (symmetry; by apply Z.eqb_neq). by apply Hq1.
  - done.
  - rewrite Hip2. by rewrite (is_ip _ _ _ _ Hs) by lia.
  - by rewrite Hie2 by lia.
  - exists w2. split_and!; [done|done|apply Hn2..].
Qed.
End Delivery.

(** ** SBI calls, reflected calls, panics *)

Section Calls.
Context (e : env).
Implicit Types w : world.

Definition after_send_ipi (target : Z) w : world :=
  let w := map_csrs m_round w in
  if target <? NUM_HARTS then set_clint (CLINT_MSIP target) 1 w else w.
Definition after_clear_ipi w : world :=
  map_csrs (fun c => m_round (set_mip (clear_bits (mip c) MIP_SSIP) c)) w.

Lemma sbi_send_ipi_run target w : sbi_send_ipi e target w = Ret tt (after_send_ipi target w).
Proof using.
  unfold sbi_send_ipi, ecall, after_send_ipi. unfold mbind, M_bind.
  assert (m_trap e CAUSE_ECALL_SMODE 0 (e_pc e) target SBI_SEND_IPI w
          = Ret (wrap64 (e_pc e + 4)) (after_send_ipi target w)) as ->.
  { unfold after_send_ipi, m_trap, m_trap_handler, m_entry, do_mret, when.
    destruct w as [? ? [] ? ? ? ? ? ? ? ?]. run.
    change (CAUSE_ECALL_SMODE .>> 63 .& 1) with 0. by destruct (target <? NUM_HARTS). }
  by rewrite Z.eqb_refl.
Qed.

Lemma sbi_clear_ipi_run w : sbi_clear_ipi e w = Ret tt (after_clear_ipi w).
Proof using.
  unfold sbi_clear_ipi, ecall. unfold mbind, M_bind.
  assert (m_trap e CAUSE_ECALL_SMODE 0 (e_pc e) 0 SBI_CLEAR_IPI w
          = Ret (wrap64 (e_pc e + 4)) (after_clear_ipi w)) as ->
    by (by destruct w as [? ? [] ? ? ? ? ? ? ? ?]).
  by rewrite Z.eqb_refl.
Qed.

Lemma send_ipi_self_step w :
  hart_ok w ->
  let w' := after_send_ipi (mhartid (w_csrs w)) w in
  irq_step same_bit same_bit w w' /\ mtip w' = mtip w /\ msip w' = true.
Proof using.
  intros Hok; cbv zeta. unfold after_send_ipi.
  replace (mhartid (w_csrs w) <? NUM_HARTS) with true
    by (symmetry; apply Z.ltb_lt, (ho_id _ Hok)).
  destruct (msip_set w (set_clint (CLINT_MSIP (mhartid (w_csrs w))) 1 (map_csrs m_round w)) 1 Hok)
    as (Hok' & -> & ->); [done..|].
  split_and!; [split|done..]; try done. unfold s_enabled. apply m_trap_enabled.
Qed.

(** C36: A hart that sends itself an IPI with software interrupts enabled takes
    exactly one supervisor software interrupt, and the request is consumed. *)
Theorem self_ipi_delivered_once fuel w :
  hart_ok w -> ie w 3 = true -> mtip w && ie w 7 = false ->
  s_enabled w = true -> ie w 1 = true -> others_quiet w 1 ->
  exists w', (sbi_send_ipi e (mhartid (w_csrs w)) ;; deliver e (S (S fuel))) w = Ret tt w' /\
    g_trap w' = one_soft e (g_trap w) /\ nothing_pending w' /\ s_enabled w' = true.
Proof using.
  intros Hok H3 Hmt Hen H1 Hq. unfold mbind, M_bind. rewrite sbi_send_ipi_run.
  destruct (send_ipi_self_step w Hok) as (Ha & Hat & Has).
  set (wa := after_send_ipi (mhartid (w_csrs w)) w) in *.
  assert (g_trap wa = g_trap w) as Hg by (unfold wa, after_send_ipi; by destruct (_ <? _)).
  destruct (m_soft_step wa (is_ok _ _ _ _ Ha)) as (Hb & Hbt & Hbs).
  set (wb := after_m_soft wa) in *.
  destruct (s_soft_step (e_pc e) wb (is_ok _ _ _ _ Hb)) as (Hc & Hct & Hcs).
  set (wc := after_s_soft (e_pc e) wb) in *.
  assert (forall n, 0 <= n -> ie wc n = ie w n) as Hie.
  { intros n Hn. by rewrite (is_ie _ _ _ _ Hc), (is_ie _ _ _ _ Hb), (is_ie _ _ _ _ Ha) by done. }
  assert (m_pending wb = None) as Hmb.
  { rewrite m_pending_eq, Hbs, Hbt, Hat. cbn [andb].
    rewrite (is_ie _ _ _ _ Hb), (is_ie _ _ _ _ Ha) by lia. unfold same_bit. by rewrite Hmt. }
  assert (others_quiet wb 1) as Hqb.
  { intros i Hi Hne. rewrite (is_ip _ _ _ _ Hb), (is_ie _ _ _ _ Hb), (is_ip _ _ _ _ Ha),
      (is_ie _ _ _ _ Ha) by lia. unfold raise_bit, same_bit.
    replace (i =? 1) with false by (symmetry; by apply Z.eqb_neq). by apply Hq. }
  assert (s_pending wb = Some IRQ_S_SOFT) as Hsb.
  { rewrite (s_pending_only wb 1) by (done || lia).
    rewrite (is_enabled _ _ _ _ Hb), (is_enabled _ _ _ _ Ha), Hen.
    rewrite (is_ip _ _ _ _ Hb), (is_ie _ _ _ _ Hb), (is_ie _ _ _ _ Ha) by lia.
    unfold same_bit. by rewrite H1. }
  assert (nothing_pending wc) as Hn.
  { split.
    - rewrite m_pending_eq, Hcs, Hct, Hbs, Hbt, Hat, !Hie by lia. cbn [andb]. by rewrite Hmt.
    - rewrite (s_pending_only wc 1), (is_ip _ _ _ _ Hc); [by rewrite andb_false_r|lia| |lia].
      eapply (others_quiet_step _ _ _ _ 1 1 1 Hc Hqb); tauto. }
  exists wc. split_and!; [|by rewrite <- Hg|apply Hn..|].
  - rewrite deliver_m_soft; [fold wb|].
    + rewrite deliver_s_soft by done. apply deliver_idle; apply Hn.
    + rewrite m_pending_eq, Has, (is_ie _ _ _ _ Ha) by lia. unfold same_bit. by rewrite H3.
  - by rewrite (is_enabled _ _ _ _ Hc), (is_enabled _ _ _ _ Hb), (is_enabled _ _ _ _ Ha).
Qed.

(** [sbi_send_ipi] raises the software interrupt of its target and of no other
    hart; a target beyond the two harts raises none. *)
Theorem sbi_send_ipi_targets target h w :
  0 <= target -> 0 <= h < NUM_HARTS ->
  exists w', sbi_send_ipi e target w = Ret tt w' /\
    clint_read (CLINT_MSIP h) w' = (if h =? target then 1 else clint_read (CLINT_MSIP h) w) /\
    g_trap w' = g_trap w /\ w_mem w' = w_mem w.
Proof using.
  intros Ht Hh. exists (after_send_ipi target w). split; [apply sbi_send_ipi_run|].
  unfold after_send_ipi. destruct (Z.ltb_spec target NUM_HARTS) as [Hlt|Hge].
  - split_and!; [|done..]. rewrite clint_read_set. unfold CLINT_MSIP.
    destruct (Z.eqb_spec h target) as [->|Hne]; [by rewrite Z.eqb_refl|].
    destruct (Z.eqb_spec (CLINT_BASE + 0x0000 + h * 4) (CLINT_BASE + 0x0000 + target * 4)); [lia|done].
  - split_and!; [|done..]. destruct (Z.eqb_spec h target); [lia|done].
Qed.

(** *** Panics *)

(** [mcause] of a trap [m_trap_handler] does not handle. *)
Definition unhandled (is_int : bool) (cause : Z) : bool :=
  if is_int then negb (cause =? IRQ_M_TIMER) && negb (cause =? IRQ_M_SOFT)
  else negb (cause =? CAUSE_ECALL_SMODE).
Definition mcause_of (is_int : bool) (cause : Z) : Z := (if is_int then interrupt_bit else 0) + cause.

Lemma mcause_fields is_int cause :
  0 <= cause < 2 ^ 63 ->
  ((mcause_of is_int cause .>> 63) .& 1 =? 0) = negb is_int /\
  mcause_of is_int cause .& 0x7FFFFFFFFFFFFFFF = cause.
Proof using.
  intros Hc. unfold mcause_of, interrupt_bit. change 0x7FFFFFFFFFFFFFFF with (Z.ones 63).
  rewrite Z.land_ones by lia. destruct is_int.
  - replace (2 ^ 63 + cause) with (1 * 2 ^ 63 + cause) by lia. rewrite shr_field by lia.
    split; [done|]. rewrite Z.add_comm, Z_mod_plus_full, Z.mod_small; lia.
  - rewrite Z.add_0_l, Z.mod_small by lia. split; [|done].
    rewrite shr_div, Z.div_small by lia. done.
Qed.

Lemma panic_reads cause :
  0 <= cause < 2 ^ 16 - 500 ->
  (if e_qemu e then panic_word e cause = 0x3333 + (500 + cause) * 2 ^ 16
   else htif_exit (panic_word e cause) = Some (500 + cause)).
Proof using.
  intros Hc. unfold panic_word. destruct (e_qemu e).
  - rewrite (wrap32_small cause), (wrap32_small (500 + cause)) by lia.
    rewrite (wrap32_small (Z.shiftl (500 + cause) 16)) by (rewrite Z.shiftl_mul_pow2 by lia; lia).
    rewrite Z.lor_comm, lor_field by lia. rewrite wrap32_small by lia. lia.
  - rewrite (s32_small cause), (s32_small ((500 + cause) * 2)) by lia.
    replace ((500 + cause) * 2 .| 1) with ((500 + cause) * 2 ^ 1 + 1)
      by (rewrite <- (lor_field (500 + cause) 1 1), Z.shiftl_mul_pow2 by lia; done).
    rewrite s32_small, wrap64_small by lia. unfold htif_exit.
    change (tst ((500 + cause) * 2 ^ 1 + 1) 1) with (tst ((500 + cause) * 2 ^ 1 + 1) (2 ^ 0)).
    rewrite tst_bit, Z.bit0_odd by lia.
    replace (Z.odd _) with true.
    + f_equal. rewrite shr_field; lia.
    + symmetry. rewrite Z.odd_add. rewrite Z.odd_mul. by rewrite andb_false_r.
Qed.

(** C30: A trap M-mode does not know ends the run: cause, pc and value are kept in
    [_m_trap_info], and the host is told 500 plus the cause. *)
Theorem m_trap_panics is_int cause tval pc a0 a7 w :
  0 <= cause < 2 ^ 16 - 500 -> unhandled is_int cause = true ->
  exists w', m_trap e (mcause_of is_int cause) tval pc a0 a7 w = Halt w' /\
    m_trap_info w' = [mcause_of is_int cause; pc; tval] /\
    w_verdict w' = Some (panic_word e cause) /\
    (if e_qemu e then panic_word e cause = 0x3333 + (500 + cause) * 2 ^ 16
     else htif_exit (panic_word e cause) = Some (500 + cause)).
Proof using.
  intros Hc Hu. destruct (mcause_fields is_int cause ltac:(lia)) as [E1 E2].
  eexists. split.
  - unfold m_trap, m_entry, m_trap_handler. rewrite E1, E2, negb_involutive. run.
    destruct is_int; unfold unhandled in Hu.
    + apply andb_true_iff in Hu as [->%negb_true_iff ->%negb_true_iff]. reflexivity.
    + apply negb_true_iff in Hu as ->. reflexivity.
  - split_and!; [done..|by apply panic_reads].
Qed.
End Calls.

(** ** The reflected [ecall] *)

Section Reflect.
Context (e : env).
Implicit Types w : world.

(** [g_trap] after a reflected [ecall]. *)
Definition ecalled (pc : Z) (t : trap_state) : trap_state :=
  set_fault_count (s32 (fault_count t + 1))
    (set_ts_scause CAUSE_ECALL_SMODE (set_ts_stval 0 (set_ts_sepc pc t))).

(** [mstatus] on the way: to M-mode, SPP set by hand, [mret], [sret]. *)
Definition reflected_status (ms : Z) : Z :=
  sret_status (mret_status (m_entry_status ms .| (1 .<< 8))).

Lemma reflected_SIE ms :
  tst (reflected_status ms) MSTATUS_SIE = tst ms MSTATUS_SPIE.
Proof using.
  unfold reflected_status, sret_status, mret_status, m_entry_status.
  change (1 .<< 8) with (2 ^ 8).
  change MSTATUS_SPP with (2 ^ 8). change MSTATUS_SPIE with (2 ^ 5). change MSTATUS_SIE with (2 ^ 1).
  change MSTATUS_MPIE with (2 ^ 7). change MSTATUS_MIE with (2 ^ 3). change MSTATUS_MPP_S with (2 ^ 11).
  assert (forall x j, 0 <= j -> j <> 11 -> j <> 12 ->
    Z.testbit (clear_bits x MSTATUS_MPP_MASK) j = Z.testbit x j) as Hmpp.
  { intros x j Hj H1 H2. unfold clear_bits. rewrite Z.ldiff_spec.
    change MSTATUS_MPP_MASK with (2 ^ 11 .| 2 ^ 12).
    rewrite Z.lor_spec, !Z.pow2_bits_false by lia. btauto. }
  rewrite !tst_bit, clear_bits_bit, set_bits_bit, mstatus_bit_flag by lia.
  change (1 =? 8) with false. change (1 =? 5) with false. change (1 =? 1) with true. cbv iota.
  rewrite Hmpp, set_bits_bit, mstatus_bit_flag by lia.
  change (5 =? 7) with false. change (5 =? 3) with false. cbv iota.
  rewrite Z.lor_spec, (Z.pow2_bits_false 8 5), orb_false_r by lia.
  rewrite set_bits_bit, Hmpp, clear_bits_bit, mstatus_bit_flag by lia. done.
Qed.

(** C29: A non-SBI [ecall] of the test program reaches the S-mode handler with cause
    9 and the address of the [ecall], and resumes after it.  M-mode does not
    save [sstatus.SIE] to SPIE on the way, as the hardware's trap entry would:
    the program resumes with the interrupt enable that SPIE held. *)
Theorem ecall_reflected a0 a7 w :
  a7 <> SBI_SET_TIMER -> a7 <> SBI_SEND_IPI -> a7 <> SBI_CLEAR_IPI ->
  stvec (w_csrs w) .& not64 3 = e_s_trap_vector e ->
  e_s_trap_vector e <> wrap64 (e_pc e + 4) ->
  exists w', ecall e a0 a7 w = Ret tt w' /\
    g_trap w' = ecalled (e_pc e) (g_trap w) /\ w_mem w' = w_mem w /\
    sepc (w_csrs w') = wrap64 (e_pc e + 4) /\
    s_enabled w' = tst (mstatus (w_csrs w)) MSTATUS_SPIE.
Proof using.
  intros H0 H1 H2 Hv Hne. apply Z.eqb_neq in H0, H1, H2, Hne.
  destruct w as [m pool c cl t g o k mi v rv sl]. destruct c as [hid ms ie' ip' sa sv sp sc st], g.
  cbn in Hv. eexists. split_and!.
  - unfold ecall, m_trap, m_entry, m_trap_handler, do_mret. run.
    unfold regs_frame. change (11 =? 11) with true. cbv iota.
    change (CAUSE_ECALL_SMODE .>> 63 .& 1) with 0. change (negb (0 =? 0)) with false.
    change (CAUSE_ECALL_SMODE .& 0x7FFFFFFFFFFFFFFF =? CAUSE_ECALL_SMODE) with true. cbv iota.
    rewrite H0, H1, H2.
    unfold write_csr_scause, write_csr_sepc, write_csr_stval. run. rewrite Hv, Hne, Z.eqb_refl.
    unfold s_vector, s_trap_handler, do_sret, write_csr_sepc. run.
    change (CAUSE_ECALL_SMODE .>> 63 .& 1) with 0. change (negb (0 =? 0)) with false. cbv iota.
    unfold s_exception.
    change (CAUSE_ECALL_SMODE .& 0x7FFFFFFFFFFFFFFF) with 9. cbn [Z.eqb Pos.eqb orb]. run.
    rewrite Z.eqb_refl. reflexivity.
  - done.
  - done.
  - done.
  - apply reflected_SIE.
Qed.
End Reflect.

(** ** At concrete inputs *)

(** A hart after boot, with the timer due or not and the interrupts it has on. *)
Definition irq_world (ms mie : Z) (mtimecmp : Z) : world :=
  mk_world ∅ 0 (mk_csrs 0 ms mie 0 0 0x80001000 0 0 0)
    (<[CLINT_MTIME := 1000]> (<[CLINT_MTIMECMP 0 := mtimecmp]> ∅)) ∅
    (mk_trap_state 0 0 0 0 0 0 0 0 0 0 0) [] 0 [] None None false.

Lemma irq_world_ok ms mie cmp : hart_ok (irq_world ms mie cmp).
Proof. split; [by split|by vm_compute]. Qed.

Lemma irq_world_quiet ms mie cmp n : others_quiet (irq_world ms mie cmp) n.
Proof. intros i _ _. unfold ip. cbn [irq_world w_csrs mip]. by rewrite Z.bits_0. Qed.

Lemma timer_delivered_once_witness :
  exists w', deliver env0 2 (irq_world 2 (2 ^ 7 + 2 ^ 5) 900) = Ret tt w' /\
    timer_irq_count (g_trap w') = 1 /\ nothing_pending w'.
Proof.
  destruct (timer_delivered_once env0 0 (irq_world 2 (2 ^ 7 + 2 ^ 5) 900) (irq_world_ok _ _ _)
    eq_refl eq_refl eq_refl eq_refl eq_refl (irq_world_quiet _ _ _ _)) as (w' & He & Hg & Hn & _).
  exists w'. split; [exact He|]. split; [by rewrite Hg|exact Hn].
Defined.

Lemma timer_held_until_enabled_witness :
  exists w1, deliver env0 1 (irq_world 0 (2 ^ 7 + 2 ^ 5) 900) = Ret tt w1 /\ ip w1 5 = true /\
    exists w2, deliver env0 1 (unmask_timer w1) = Ret tt w2 /\ timer_irq_count (g_trap w2) = 1.
Proof.
  destruct (timer_held_until_enabled env0 0 (irq_world 0 (2 ^ 7 + 2 ^ 5) 900) (irq_world_ok _ _ _)
    eq_refl eq_refl eq_refl eq_refl (irq_world_quiet _ _ _ _))
    as (w1 & He & _ & Hip & _ & w2 & He2 & Hg & _).
  exists w1. split; [exact He|]. split; [exact Hip|]. exists w2. split; [exact He2|by rewrite Hg].
Defined.

Lemma self_ipi_delivered_once_witness :
  exists w', (sbi_send_ipi env0 0 ;; deliver env0 2) (irq_world 2 (2 ^ 3 + 2 ^ 1) MTIMECMP_MAX) = Ret tt w' /\
    soft_irq_count (g_trap w') = 1 /\ nothing_pending w'.
Proof.
  destruct (self_ipi_delivered_once env0 0 (irq_world 2 (2 ^ 3 + 2 ^ 1) MTIMECMP_MAX) (irq_world_ok _ _ _)
    eq_refl eq_refl eq_refl eq_refl (irq_world_quiet _ _ _ _)) as (w' & He & Hg & Hn & _).
  exists w'. split; [exact He|]. split; [by rewrite Hg|exact Hn].
Defined.

(** Hart 0 wakes hart 1. *)
Lemma sbi_send_ipi_targets_witness :
  exists w', sbi_send_ipi env0 1 (irq_world 0 0 0) = Ret tt w' /\ clint_read (CLINT_MSIP 1) w' = 1.
Proof.
  destruct (sbi_send_ipi_targets env0 1 1 (irq_world 0 0 0) ltac:(lia) ltac:(by split)) as (w' & He & Hc & _).
  exists w'. split; [exact He|exact Hc].
Defined.

(** A page fault that is not delegated. *)
Lemma m_trap_panics_witness :
  exists w', m_trap env0 13 0x1234 0x80002000 0 0 (irq_world 0 0 0) = Halt w' /\
    htif_exit (panic_word env0 13) = Some 513.
Proof.
  destruct (m_trap_panics env0 false 13 0x1234 0x80002000 0 0 (irq_world 0 0 0) ltac:(lia) eq_refl)
    as (w' & He & _ & _ & Hv).
  exists w'. split; [exact He|exact Hv].
Defined.

(** P0.3, from a state with SIE clear and SPIE set: SIE is set afterwards. *)
Lemma ecall_reflected_witness :
  exists w', ecall env0 0 0xFF (irq_world (2 ^ 5) 0 0) = Ret tt w' /\
    ts_scause (g_trap w') = 9 /\ fault_count (g_trap w') = 1 /\ s_enabled w' = true.
Proof.
  destruct (ecall_reflected env0 0 0xFF (irq_world (2 ^ 5) 0 0) ltac:(discriminate) ltac:(discriminate)
    ltac:(discriminate) eq_refl ltac:(discriminate)) as (w' & He & Hg & _ & _ & Hs).
  exists w'. split; [exact He|]. rewrite Hg, Hs. by split_and!.
Defined.
