(* ===== verification/SuiteMmu.v ===== *)
(** * The MMU tests ([tests/p0_sanity.c], [tests/p1a_mmu_enable.c], [tests/p1b_fault_gen.c])

    The test programs on the machine of [Hart], one definition per subtest, and
    [s_mode_entry], which turns the result of [test_main] into the verdict.
    Accesses through a pointer to data are accesses of the hart. *)

From S2P Require Import Prelude Platform Memory Sv39 PtTree PageMap PageTable Tlb Console Machine MTrap STrap Hart.

Definition banner (s : string) : M unit :=
  out_puts (nl +:+ "========================================" +:+ nl) ;;
  out_puts (s +:+ nl) ;;
  out_puts ("========================================" +:+ nl).

Section Suite.
Context (e : env).

(** [void s_mode_entry(void)] *)
Definition s_mode_entry (test_main : M Z) : M unit :=
  set_csr (set_stvec (e_s_trap_vector e)) ;;
  out_puts (nl +:+ "=== S-mode entry, stvec set ===" +:+ nl) ;;
  result ← test_main;
  if result =? 0 then test_pass e else test_fail e result.

(** ** Phase 0 *)

Definition p0_3 : M unit :=
  TEST_LOG "P0.3 — S-mode trap handler (ecall)..." ;;
  set_trap (set_fault_count 0) ;;
  set_trap (set_ts_scause 0) ;;
  (** Non-SBI ecall *)
  ecall e 0 0xFF ;;
  scause ← trap ts_scause;
  ASSERT_EQ e scause CAUSE_ECALL_SMODE "ecall should produce scause=9" 31 ;;
  count ← trap fault_count;
  ASSERT_EQ e count 1 "fault_count should be 1 after ecall" 32 ;;
  TEST_LOG "P0.3 — S-mode trap handler: OK".

(** The body of the checking loop; [mem_errors] before and after. *)
Definition p0_check (i mem_errors : Z) : M Z :=
  let expected := 0xDEAD0000 .| i in
  v ← load64 e (e_heap_start e + 8 * i);
  if v =? expected then mret mem_errors
  else
    when (mem_errors <? 3)
      (out_puts "    MEM ERROR at offset " ;;
       out_dec i ;;
       out_puts ": got " ;;
       v ← load64 e (e_heap_start e + 8 * i);
       out_hex v ;;
       out_puts " expected " ;;
       out_hex expected ;;
       out_nl) ;;
    mret (s32 (mem_errors + 1)).
Fixpoint p0_check_loop (n : nat) (i mem_errors : Z) : M Z :=
  match n with
  | O => mret mem_errors
  | S n' =>
      mem_errors ← p0_check i mem_errors;
      p0_check_loop n' (i + 1) mem_errors
  end.

Definition p0_4 : M unit :=
  TEST_LOG "P0.4 — SRAM read/write sweep..." ;;
  let heap_size_words := wrap64 (e_heap_end e - e_heap_start e) / 8 in
  let heap_size_words := if 1024 <? heap_size_words then 1024 else heap_size_words in
  for_up (Z.to_nat heap_size_words) 0
    (fun i => store64 e (e_heap_start e + 8 * i) (0xDEAD0000 .| i)) ;;
  mem_errors ← p0_check_loop (Z.to_nat heap_size_words) 0 0;
  ASSERT_EQ e mem_errors 0 "SRAM read/write errors detected" 41 ;;
  out_puts "    Tested " ;;
  out_dec heap_size_words ;;
  out_puts (" 64-bit words: OK" +:+ nl) ;;
  TEST_LOG "P0.4 — SRAM read/write sweep: OK".

Definition p0_test_main : M Z :=
  banner "Phase 0: Pre-MMU Sanity Tests" ;;
  TEST_LOG "P0.1 — UART TX: OK (you are reading this)" ;;
  TEST_LOG "P0.2 — CSR read/write..." ;;
  sstatus ← read_sstatus;
  out_puts "    sstatus = " ;;
  out_hex sstatus ;;
  out_nl ;;
  TEST_LOG "P0.2 — CSR read: OK" ;;
  p0_3 ;;
  p0_4 ;;
  TEST_LOG "P0.5 — HTIF will be tested by final PASS signal" ;;
  banner "Phase 0: ALL TESTS PASSED" ;;
  mret 0.

(** ** Phase 1A *)

Definition p1a_1 : M Z :=
  TEST_LOG "P1A.1 — Enable Sv39 with identity-mapped kernel..." ;;
  do_pt_reset ;;
  root ← do_pt_setup_identity_kernel e;
  out_puts "    Root PT at PA " ;;
  out_hex root ;;
  out_nl ;;
  mmu_enable_sv39 root ;;
  TEST_LOG "P1A.1 — MMU enabled, identity map: OK" ;;
  let test_addr := SRAM_BASE + 0x100000 in
  store64 e test_addr 0xCAFEBABE12345678 ;;
  readback ← load64 e test_addr;
  ASSERT_EQ e readback 0xCAFEBABE12345678 "Store/load through identity map failed" 11 ;;
  TEST_LOG "P1A.1 — Store/load through identity map: OK" ;;
  out_puts ("    UART via I/O gigapage: OK" +:+ nl) ;;
  mret root.

Definition p1a_2 (root : Z) : M unit :=
  TEST_LOG "P1A.2 — 4 KB page mapping load/store..." ;;
  let test_va := 0xC0000000 in
  let test_pa := SRAM_BASE + 0x180000 in
  do_pt_map_page e root test_va test_pa (PTE_R .| PTE_W) true ;;
  sfence_all ;;
  store64 e test_va 0xA5A5A5A5A5A5A5A5 ;;
  v ← load64 e test_pa;
  ASSERT_EQ e v 0xA5A5A5A5A5A5A5A5 "4KB page mapping: PA readback mismatch" 12 ;;
  v ← load64 e test_va;
  ASSERT_EQ e v 0xA5A5A5A5A5A5A5A5 "4KB page mapping: VA readback mismatch" 13 ;;
  TEST_LOG "P1A.2 — 4 KB page load/store: OK".

Definition p1a_3 (root : Z) : M unit :=
  TEST_LOG "P1A.3 — Instruction fetch via mapped page..." ;;
  let exec_pa := SRAM_BASE + 0x180000 in
  let exec_va := 0xC0010000 in
  store32 e exec_pa INSN_RET ;;
  do_pt_map_page e root exec_va exec_pa (PTE_R .| PTE_X) true ;;
  sfence_all ;;
  call_ret e exec_va ;;
  TEST_LOG "P1A.3 — Instruction fetch via mapped page: OK".

Definition p1a_test_main : M Z :=
  banner "Phase 1A: MMU Enable & Identity Map" ;;
  root ← p1a_1;
  p1a_2 root ;;
  p1a_3 root ;;
  banner "Phase 1A: ALL TESTS PASSED" ;;
  mret 0.

(** ** Phase 1B *)

Definition verify_fault (name : string) (expected_cause expected_stval test_code : Z) : M unit :=
  scause ← trap ts_scause;
  ASSERT_EQ e scause expected_cause name test_code ;;
  stval ← trap ts_stval;
  ASSERT_EQ e stval expected_stval name (test_code + 1) ;;
  out_puts "    " ;;
  out_puts name ;;
  out_puts ": scause=" ;;
  scause ← trap ts_scause;
  out_dec (wrap32 scause) ;;
  out_puts " stval=" ;;
  stval ← trap ts_stval;
  out_hex stval ;;
  out_puts (" OK" +:+ nl).

(** [g_trap.fault_count = 0; g_trap.scause = 0;] *)
Definition clear_trap : M unit :=
  set_trap (set_fault_count 0) ;;
  set_trap (set_ts_scause 0).

Definition p1b_1 (root : Z) : M unit :=
  TEST_LOG "P1B.1 — Load from V=0 page..." ;;
  let va := 0xD0000000 in
  let pa := SRAM_BASE + 0x1A0000 in
  do_pt_map_page e root va pa (PTE_R .| PTE_W) false ;;
  sfence_all ;;
  clear_trap ;;
  load64 e va ;;
  count ← trap fault_count;
  ASSERT_EQ e count 1 "P1B.1 fault_count" 110 ;;
  verify_fault "P1B.1 Load V=0" CAUSE_LOAD_PAGE_FAULT va 111.

Definition p1b_2 (root : Z) : M unit :=
  TEST_LOG "P1B.2 — Store to V=0 page..." ;;
  let va := 0xD0010000 in
  let pa := SRAM_BASE + 0x1A1000 in
  do_pt_map_page e root va pa (PTE_R .| PTE_W) false ;;
  sfence_all ;;
  clear_trap ;;
  store64 e va 0xBEEF ;;
  count ← trap fault_count;
  ASSERT_EQ e count 1 "P1B.2 fault_count" 120 ;;
  verify_fault "P1B.2 Store V=0" CAUSE_STORE_PAGE_FAULT va 121.

(** P1B.3 and P1B.6: a planted [ret] in a page that is not executable. *)
Definition p1b_execute (root va pa perm : Z) (valid : bool) (name : string) (code : Z) : M unit :=
  set_trap (set_handler_action 0) ;;
  store32 e pa INSN_RET ;;
  do_pt_map_page e root va pa perm valid ;;
  sfence_all ;;
  clear_trap ;;
  call_ret e va ;;
  count ← trap fault_count;
  ASSERT_EQ e count 1 (name +:+ " fault_count") code ;;
  scause ← trap ts_scause;
  ASSERT_EQ e scause CAUSE_INST_PAGE_FAULT (name +:+ " scause") (code + 1).

Definition p1b_3 (root : Z) : M unit :=
  TEST_LOG "P1B.3 — Execute from V=0 page..." ;;
  p1b_execute root 0xD0030000 (SRAM_BASE + 0x1A3000) (PTE_R .| PTE_X) false "P1B.3" 130 ;;
  TEST_LOG "P1B.3 — Execute from V=0 page: OK" ;;
  set_trap (set_handler_action 1).

Definition p1b_4 (root : Z) : M unit :=
  TEST_LOG "P1B.4 — Load from R=0 page..." ;;
  let va := 0xD0040000 in
  let pa := SRAM_BASE + 0x1A4000 in
  do_pt_map_page e root va pa PTE_X true ;;
  sfence_all ;;
  clear_trap ;;
  load64 e va ;;
  count ← trap fault_count;
  ASSERT_EQ e count 1 "P1B.4 fault_count" 140 ;;
  verify_fault "P1B.4 Load R=0" CAUSE_LOAD_PAGE_FAULT va 141.

Definition p1b_5 (root : Z) : M unit :=
  TEST_LOG "P1B.5 — Store to W=0 page..." ;;
  let va := 0xD0050000 in
  let pa := SRAM_BASE + 0x1A5000 in
  do_pt_map_page e root va pa PTE_R true ;;
  sfence_all ;;
  clear_trap ;;
  store64 e va 0xBEEF ;;
  count ← trap fault_count;
  ASSERT_EQ e count 1 "P1B.5 fault_count" 150 ;;
  verify_fault "P1B.5 Store W=0" CAUSE_STORE_PAGE_FAULT va 151.

Definition p1b_6 (root : Z) : M unit :=
  TEST_LOG "P1B.6 — Execute from X=0 page..." ;;
  p1b_execute root 0xD0060000 (SRAM_BASE + 0x1A6000) PTE_R true "P1B.6" 160 ;;
  TEST_LOG "P1B.6 — Execute from X=0 page: OK" ;;
  set_trap (set_handler_action 1).

Definition p1b_7 (root : Z) : M unit :=
  TEST_LOG "P1B.7 — S-mode access to U=1 page (SUM=0)..." ;;
  let va := 0xD0070000 in
  let pa := SRAM_BASE + 0x1A7000 in
  do_pt_map_page e root va pa (PTE_R .| PTE_W .| PTE_U) true ;;
  sfence_all ;;
  sstatus ← read_sstatus;
  write_sstatus (sstatus .& not64 MSTATUS_SUM) ;;
  clear_trap ;;
  load64 e va ;;
  count ← trap fault_count;
  ASSERT_EQ e count 1 "P1B.7 fault_count" 170 ;;
  verify_fault "P1B.7 U-page from S-mode" CAUSE_LOAD_PAGE_FAULT va 171.

(** [p[i]], [p[i] = v] on a table, through the identity mapping. *)
Definition get_entry (p i : Z) : M Z := gets (fun w => rd64 (w_mem w) (p + 8 * i)).
Definition set_entry (p i v : Z) : M unit :=
  modify (fun w => set_w_mem (wr64 (w_mem w) (p + 8 * i) v) w).

(** [if (!(table[idx] & PTE_V)) { ... pt_alloc_page() ... }] and the table below. *)
Definition child_table (table idx : Z) : M Z :=
  pte ← get_entry table idx;
  when (negb (tst pte PTE_V))
    (page ← do_pt_alloc_page e;
     set_entry table idx (((page .>> PGSHIFT) .<< PTE_PPN_SHIFT) .| PTE_V)) ;;
  pte ← get_entry table idx;
  mret ((pte .>> PTE_PPN_SHIFT) .<< PGSHIFT).

Definition p1b_8 (root : Z) : M unit :=
  TEST_LOG "P1B.8 — Misaligned superpage..." ;;
  let va := 0xE0000000 in
  let idx2 := (va .>> 30) .& 0x1FF in
  let idx1 := (va .>> 21) .& 0x1FF in
  l1 ← child_table root idx2;
  (** Megapage leaf with misaligned PPN (PPN[0] bit 0 set) *)
  let bad_ppn := (SRAM_BASE .>> PGSHIFT) .| 0x1 in
  set_entry l1 idx1
    ((bad_ppn .<< PTE_PPN_SHIFT) .| PTE_V .| PTE_R .| PTE_W .| PTE_A .| PTE_D) ;;
  sfence_all ;;
  clear_trap ;;
  load64 e va ;;
  count ← trap fault_count;
  ASSERT_EQ e count 1 "P1B.8 fault_count" 180 ;;
  verify_fault "P1B.8 Misaligned megapage" CAUSE_LOAD_PAGE_FAULT va 181.

Definition p1b_test_main : M Z :=
  banner "Phase 1B: Page Fault Generation" ;;
  do_pt_reset ;;
  root ← do_pt_setup_identity_kernel e;
  mmu_enable_sv39 root ;;
  TEST_LOG "MMU enabled with identity kernel map" ;;
  set_trap (set_handler_action 1) ;;
  p1b_1 root ;;
  p1b_2 root ;;
  p1b_3 root ;;
  p1b_4 root ;;
  p1b_5 root ;;
  p1b_6 root ;;
  p1b_7 root ;;
  p1b_8 root ;;
  banner "Phase 1B: ALL TESTS PASSED" ;;
  mret 0.
End Suite.
