(* ===== verification/SuiteFault.v ===== *)
(** * The fault-handling and TLB tests ([tests/p1c_fault_handle.c], [tests/p1d_tlb_ptw.c])

    The test programs on the machine of [Hart], one definition per subtest. *)

From S2P Require Import Prelude Platform Memory Sv39 PtTree PageMap PageTable Tlb Console Machine MTrap STrap Hart SuiteMmu.

Section Suite.
Context (e : env).

(** ** Phase 1C *)

Definition p1c_1 (root : Z) : M unit :=
  TEST_LOG "P1C.1 — Load fault fix and retry..." ;;
  let va := 0xD0100000 in
  let pa := SRAM_BASE + 0x1B0000 in
  store64 e pa 0xFEEDFACECAFE0001 ;;
  do_pt_map_page e root va pa (PTE_R .| PTE_W) false ;;
  sfence_all ;;
  set_trap (set_fault_count 0) ;;
  loaded_val ← load64 e va;
  count ← trap fault_count;
  ASSERT_EQ e count 1 "P1C.1 fault_count" 210 ;;
  scause ← trap ts_scause;
  ASSERT_EQ e scause CAUSE_LOAD_PAGE_FAULT "P1C.1 scause" 211 ;;
  ASSERT_EQ e loaded_val 0xFEEDFACECAFE0001 "P1C.1 loaded value mismatch" 212 ;;
  TEST_LOG "P1C.1 — Load fault fix + retry: OK".

Definition p1c_2 (root : Z) : M unit :=
  TEST_LOG "P1C.2 — Store fault fix and retry..." ;;
  let va := 0xD0110000 in
  let pa := SRAM_BASE + 0x1B1000 in
  do_pt_map_page e root va pa PTE_R true ;;
  sfence_all ;;
  set_trap (set_fault_count 0) ;;
  store64 e va 0xDEADBEEF00000002 ;;
  count ← trap fault_count;
  ASSERT_EQ e count 1 "P1C.2 fault_count" 220 ;;
  scause ← trap ts_scause;
  ASSERT_EQ e scause CAUSE_STORE_PAGE_FAULT "P1C.2 scause" 221 ;;
  v ← load64 e pa;
  ASSERT_EQ e v 0xDEADBEEF00000002 "P1C.2 store value mismatch" 222 ;;
  TEST_LOG "P1C.2 — Store fault fix + retry: OK".

Definition p1c_3 (root : Z) : M unit :=
  TEST_LOG "P1C.3 — Execute fault fix and retry..." ;;
  let va := 0xD0120000 in
  let pa := SRAM_BASE + 0x1B2000 in
  store32 e pa INSN_RET ;;
  do_pt_map_page e root va pa PTE_R true ;;
  sfence_all ;;
  set_trap (set_fault_count 0) ;;
  call_ret e va ;;
  count ← trap fault_count;
  ASSERT_EQ e count 1 "P1C.3 fault_count" 230 ;;
  scause ← trap ts_scause;
  ASSERT_EQ e scause CAUSE_INST_PAGE_FAULT "P1C.3 scause" 231 ;;
  TEST_LOG "P1C.3 — Execute fault fix + retry: OK".

Definition NUM_FAULTS : Z := 8.
Definition p1c_4 (root : Z) : M unit :=
  TEST_LOG "P1C.4 — Multiple sequential faults..." ;;
  set_trap (set_fault_count 0) ;;
  let base_va := 0xD0200000 in
  let base_pa := SRAM_BASE + 0x1C0000 in
  for_up (Z.to_nat NUM_FAULTS) 0 (fun i =>
    let va := base_va + i * PGSIZE in
    let pa := base_pa + i * PGSIZE in
    store64 e pa (0xA000000000000000 .| i) ;;
    do_pt_map_page e root va pa (PTE_R .| PTE_W) false) ;;
  sfence_all ;;
  for_up (Z.to_nat NUM_FAULTS) 0 (fun i =>
    let va := base_va + i * PGSIZE in
    val ← load64 e va;
    let expected := 0xA000000000000000 .| i in
    ASSERT_EQ e val expected "P1C.4 value mismatch" (240 + i)) ;;
  count ← trap fault_count;
  ASSERT_EQ e count NUM_FAULTS "P1C.4 total fault count" 250 ;;
  out_puts "    Triggered and handled " ;;
  out_dec NUM_FAULTS ;;
  out_puts (" sequential page faults: OK" +:+ nl) ;;
  TEST_LOG "P1C.4 — Multiple sequential faults: OK".

Definition p1c_5 (root : Z) : M unit :=
  TEST_LOG "P1C.5 — A/D bit behavior detection..." ;;
  let va := 0xD0300000 in
  let pa := SRAM_BASE + 0x1D0000 in
  let idx2 := (va .>> 30) .& 0x1FF in
  let idx1 := (va .>> 21) .& 0x1FF in
  let idx0 := (va .>> 12) .& 0x1FF in
  l1 ← child_table e root idx2;
  l2 ← child_table e l1 idx1;
  (** Leaf PTE: V=1, R=1, W=1, but A=0, D=0 *)
  let ppn := pa .>> PGSHIFT in
  set_entry l2 idx0 ((ppn .<< PTE_PPN_SHIFT) .| PTE_V .| PTE_R .| PTE_W) ;;
  sfence_all ;;
  set_trap (set_fault_count 0) ;;
  store64 e pa 0x1234567890ABCDEF ;;
  val ← load64 e va;
  count ← trap fault_count;
  (if count =? 0 then
     out_puts ("    A/D mode: SVADU (hardware sets A/D bits)" +:+ nl) ;;
     ASSERT_EQ e val 0x1234567890ABCDEF "P1C.5 svadu load val" 260 ;;
     pte_now ← get_entry l2 idx0;
     when (tst pte_now PTE_A) (out_puts ("    Confirmed: A bit set by hardware" +:+ nl))
   else
     out_puts ("    A/D mode: SVADE (software must manage A/D)" +:+ nl) ;;
     scause ← trap ts_scause;
     ASSERT_EQ e scause CAUSE_LOAD_PAGE_FAULT "P1C.5 svade fault type" 261 ;;
     ASSERT_EQ e val 0x1234567890ABCDEF "P1C.5 svade load val" 262) ;;
  TEST_LOG "P1C.5 — A/D bit behavior: OK (mode detected)".

Definition p1c_test_main : M Z :=
  banner "Phase 1C: Fault Handling & Retry" ;;
  do_pt_reset ;;
  root ← do_pt_setup_identity_kernel e;
  mmu_enable_sv39 root ;;
  TEST_LOG "MMU enabled" ;;
  set_trap (set_handler_action 0) ;;
  p1c_1 root ;;
  p1c_2 root ;;
  p1c_3 root ;;
  p1c_4 root ;;
  p1c_5 root ;;
  banner "Phase 1C: ALL TESTS PASSED" ;;
  mret 0.

(** ** Phase 1D *)

(** [*pte = (ppn_new << PTE_PPN_SHIFT) | V | R | W | A | D] where [pt_walk] found it. *)
Definition remap (root va pa_new : Z) : M unit :=
  m ← gets w_mem;
  let '(pte, _) := pt_walk m root va in
  let ppn_new := pa_new .>> PGSHIFT in
  set_entry pte 0 ((ppn_new .<< PTE_PPN_SHIFT) .| PTE_V .| PTE_R .| PTE_W .| PTE_A .| PTE_D).

Definition p1d_1 (root : Z) : M unit :=
  TEST_LOG "P1D.1 — Targeted sfence.vma..." ;;
  let va_a := 0xD1000000 in
  let va_b := 0xD1010000 in
  let pa_a := SRAM_BASE + 0x1E0000 in
  let pa_b := SRAM_BASE + 0x1E1000 in
  let pa_a_new := SRAM_BASE + 0x1E2000 in
  store64 e pa_a 0xAAAAAAAA00000001 ;;
  store64 e pa_b 0xBBBBBBBB00000002 ;;
  store64 e pa_a_new 0xAAAAAAAA00000003 ;;
  do_pt_map_page e root va_a pa_a (PTE_R .| PTE_W) true ;;
  do_pt_map_page e root va_b pa_b (PTE_R .| PTE_W) true ;;
  sfence_all ;;
  val_a ← load64 e va_a;
  val_b ← load64 e va_b;
  ASSERT_EQ e val_a 0xAAAAAAAA00000001 "P1D.1 initial VA_A" 310 ;;
  ASSERT_EQ e val_b 0xBBBBBBBB00000002 "P1D.1 initial VA_B" 311 ;;
  (** Remap VA_A, flush only VA_A *)
  remap root va_a pa_a_new ;;
  sfence_addr va_a ;;
  val_a ← load64 e va_a;
  ASSERT_EQ e val_a 0xAAAAAAAA00000003 "P1D.1 VA_A after targeted flush" 312 ;;
  val_b ← load64 e va_b;
  ASSERT_EQ e val_b 0xBBBBBBBB00000002 "P1D.1 VA_B after targeted flush" 313 ;;
  TEST_LOG "P1D.1 — Targeted sfence.vma: OK".

(** [read] is the load after the entry has changed without a fence. *)
Definition p1d_2_reading (read : Z -> M Z) (root : Z) : M unit :=
  TEST_LOG "P1D.2 — Stale TLB (no sfence.vma after PTE change)..." ;;
  let va := 0xD1100000 in
  let pa_old := SRAM_BASE + 0x1E4000 in
  let pa_new := SRAM_BASE + 0x1E5000 in
  store64 e pa_old 0x1111111111111111 ;;
  store64 e pa_new 0x2222222222222222 ;;
  do_pt_map_page e root va pa_old (PTE_R .| PTE_W) true ;;
  sfence_all ;;
  val ← load64 e va;
  ASSERT_EQ e val 0x1111111111111111 "P1D.2 initial" 320 ;;
  remap root va pa_new ;;
  (** Deliberately NO sfence.vma *)
  val ← read va;
  let got_old := val =? 0x1111111111111111 in
  let got_new := val =? 0x2222222222222222 in
  out_puts "    Without sfence.vma, read returned: " ;;
  out_hex val ;;
  (if got_old then out_puts " (old — stale TLB hit)"
   else if got_new then out_puts " (new — TLB re-walked)"
   else out_puts " (UNEXPECTED — BUG)") ;;
  out_nl ;;
  test_assert e (got_old || got_new) "P1D.2: value must be old or new" 321 ;;
  sfence_addr va ;;
  val ← load64 e va;
  ASSERT_EQ e val 0x2222222222222222 "P1D.2 after sfence should get new" 322 ;;
  TEST_LOG "P1D.2 — Stale TLB behavior: OK (spec-compliant)".

Definition p1d_2 : Z -> M unit := p1d_2_reading (load64 e).

Definition THRASH_COUNT : Z := 128.
Definition p1d_3 (root : Z) : M unit :=
  TEST_LOG "P1D.3 — TLB thrash (128 pages, TLB=64)..." ;;
  let base_va := 0xD2000000 in
  let base_pa := SRAM_BASE + 0x100000 in
  for_up (Z.to_nat THRASH_COUNT) 0 (fun i =>
    let va := base_va + i * PGSIZE in
    let pa := base_pa + i * PGSIZE in
    store64 e pa (0xCC00000000000000 .| i) ;;
    do_pt_map_page e root va pa (PTE_R .| PTE_W) true) ;;
  sfence_all ;;
  for_up 2 0 (fun pass =>
    for_up (Z.to_nat THRASH_COUNT) 0 (fun i =>
      let va := base_va + i * PGSIZE in
      val ← load64 e va;
      let expected := 0xCC00000000000000 .| i in
      when (negb (val =? expected))
        (out_puts "    TLB thrash mismatch at page " ;;
         out_dec i ;;
         out_puts " pass " ;;
         out_dec pass ;;
         out_nl ;;
         test_fail e (330 + pass * 130 + i)))) ;;
  out_puts ("    128 pages, 2 passes: all correct" +:+ nl) ;;
  TEST_LOG "P1D.3 — TLB thrash: OK".

Definition p1d_4 (root : Z) : M unit :=
  TEST_LOG "P1D.4 — 2 MB megapage translation..." ;;
  let va := 0xE0200000 in
  let pa := SRAM_BASE in
  let idx2 := (va .>> 30) .& 0x1FF in
  let idx1 := (va .>> 21) .& 0x1FF in
  l1 ← child_table e root idx2;
  let ppn := pa .>> PGSHIFT in
  set_entry l1 idx1
    ((ppn .<< PTE_PPN_SHIFT) .| PTE_V .| PTE_R .| PTE_W .| PTE_X .| PTE_A .| PTE_D) ;;
  sfence_all ;;
  (** Offset 0: should hit start of SRAM (reset vector, non-zero) *)
  val0 ← load64 e (va + 0);
  test_assert e (negb (val0 =? 0)) "P1D.4 megapage offset 0 read zero" 500 ;;
  load64 e (va + 0x1000) ;;
  (** Near end of megapage, one page below HTIF *)
  store64 e (va + 0x1FE000) 0x000E6A9A6E0F ;;
  v ← load64 e (va + 0x1FE000);
  ASSERT_EQ e v 0x000E6A9A6E0F "P1D.4 megapage end offset" 501 ;;
  out_puts ("    Megapage reads at offset 0, 0x1000: OK" +:+ nl) ;;
  TEST_LOG "P1D.4 — 2 MB megapage: OK".

Definition p1d_5 (root : Z) : M unit :=
  TEST_LOG "P1D.5 — Gigapage verification..." ;;
  let sram_idx := (SRAM_BASE .>> 30) .& 0x1FF in
  pte ← get_entry root sram_idx;
  test_assert e (tst pte PTE_V && tst pte (PTE_R .| PTE_W .| PTE_X))
    "P1D.5: identity map should be a gigapage leaf" 510 ;;
  out_puts "    root[" ;;
  out_dec sram_idx ;;
  out_puts "] = " ;;
  out_hex pte ;;
  out_puts (" (gigapage leaf)" +:+ nl) ;;
  TEST_LOG "P1D.5 — Gigapage: OK".

Definition p1d_6 (root : Z) : M unit :=
  TEST_LOG "P1D.6 — PTW through L1 D-cache..." ;;
  let va := 0xD3000000 in
  let pa := SRAM_BASE + 0x1E8000 in
  store64 e pa 0xCAC0E01700000006 ;;
  do_pt_map_page e root va pa (PTE_R .| PTE_W) false ;;
  sfence_all ;;
  set_trap (set_fault_count 0) ;;
  val ← load64 e va;
  count ← trap fault_count;
  ASSERT_EQ e count 1 "P1D.6 fault_count" 560 ;;
  ASSERT_EQ e val 0xCAC0E01700000006 "P1D.6 value after PTW cache" 561 ;;
  TEST_LOG "P1D.6 — PTW through D-cache: OK".

Definition p1d_test_with (p1d_2 : Z -> M unit) : M Z :=
  banner "Phase 1D: TLB & Page Walker Tests" ;;
  do_pt_reset ;;
  root ← do_pt_setup_identity_kernel e;
  mmu_enable_sv39 root ;;
  set_trap (set_handler_action 0) ;;
  TEST_LOG "MMU enabled" ;;
  p1d_1 root ;;
  p1d_2 root ;;
  p1d_3 root ;;
  p1d_4 root ;;
  p1d_5 root ;;
  p1d_6 root ;;
  banner "Phase 1D: ALL TESTS PASSED" ;;
  mret 0.
Definition p1d_test_main : M Z := p1d_test_with p1d_2.
End Suite.
