(* ===== verification/SuiteIrq.v ===== *)
(** * The interrupt tests ([tests/p2_interrupts.c])

    The test program on the machine of [Hart], one definition per subtest.  Each
    turn of a waiting loop is a point at which interrupts are taken. *)

From S2P Require Import Prelude Platform Memory Sv39 PtTree PageMap PageTable Tlb Console Machine MTrap STrap Hart SuiteMmu.

Section Suite.
Context (e : env).

(** [while (waiting && --timeout > 0);], the final [timeout]. *)
Fixpoint spin (fuel : nat) (waiting : trap_state -> bool) (timeout : Z) : M Z :=
  busy ← trap waiting;
  if busy : bool then
    let timeout := timeout - 1 in
    if 0 <? timeout then
      match fuel with
      | O => out_of_fuel
      | S fuel' => irq_window e ;; spin fuel' waiting timeout
      end
    else mret timeout
  else mret timeout.
Definition spin_while (waiting : trap_state -> bool) (timeout : Z) : M Z :=
  spin (Z.to_nat timeout) waiting timeout.

(** [for (volatile int d = 0; d < n; d++);] *)
Definition delay (n : Z) : M unit := for_up (Z.to_nat n) 0 (fun _ => irq_window e).

(** Instructions that do nothing else: a point at which interrupts are taken. *)
Definition nops : M unit := irq_window e.

Definition s_cause (irq : Z) : Z := (1 .<< 63) .| irq.

Definition p2_1 : M unit :=
  TEST_LOG "P2.1 — S-mode timer interrupt via SBI..." ;;
  set_trap (set_fault_count 0) ;;
  set_trap (set_irq_count 0) ;;
  set_trap (set_timer_irq_count 0) ;;
  enable_s_timer_irq e ;;
  enable_s_interrupts e ;;
  now ← read_mtime;
  sbi_set_timer e (wrap64 (now + 1000)) ;;
  timeout ← spin_while (fun t => timer_irq_count t =? 0) 1000000;
  disable_s_interrupts ;;
  test_assert e (0 <? timeout) "P2.1: timer interrupt timeout" 600 ;;
  count ← trap timer_irq_count;
  ASSERT_EQ e count 1 "P2.1 timer_irq_count" 601 ;;
  cause ← trap last_irq_cause;
  ASSERT_EQ e cause (s_cause IRQ_S_TIMER) "P2.1 scause" 602 ;;
  TEST_LOG "P2.1 — S-mode timer interrupt: OK".

Definition p2_2 : M unit :=
  TEST_LOG "P2.2 — S-mode software interrupt (self-IPI)..." ;;
  set_trap (set_irq_count 0) ;;
  set_trap (set_soft_irq_count 0) ;;
  enable_s_soft_irq e ;;
  enable_s_interrupts e ;;
  sbi_send_ipi e 0 ;;
  timeout ← spin_while (fun t => soft_irq_count t =? 0) 100000;
  disable_s_interrupts ;;
  test_assert e (0 <? timeout) "P2.2: software interrupt timeout" 610 ;;
  count ← trap soft_irq_count;
  ASSERT_EQ e count 1 "P2.2 soft_irq_count" 611 ;;
  cause ← trap last_irq_cause;
  ASSERT_EQ e cause (s_cause IRQ_S_SOFT) "P2.2 scause" 612 ;;
  TEST_LOG "P2.2 — S-mode software interrupt: OK".

Definition p2_3 : M unit :=
  TEST_LOG "P2.3 — Multiple timer interrupts..." ;;
  set_trap (set_timer_irq_count 0) ;;
  enable_s_timer_irq e ;;
  enable_s_interrupts e ;;
  for_up 3 0 (fun i =>
    now ← read_mtime;
    sbi_set_timer e (wrap64 (now + 500)) ;;
    let expected := i + 1 in
    timeout ← spin_while (fun t => timer_irq_count t <? expected) 500000;
    test_assert e (0 <? timeout) "P2.3: timer interrupt not arrived" (620 + i)) ;;
  disable_s_interrupts ;;
  count ← trap timer_irq_count;
  ASSERT_EQ e count 3 "P2.3 total timer_irq_count" 625 ;;
  TEST_LOG "P2.3 — Multiple timer interrupts: OK".

Definition p2_4 : M unit :=
  TEST_LOG "P2.4 — Timer + page fault interaction..." ;;
  do_pt_reset ;;
  root ← do_pt_setup_identity_kernel e;
  mmu_enable_sv39 root ;;
  set_trap (set_handler_action 0) ;;
  set_trap (set_fault_count 0) ;;
  set_trap (set_timer_irq_count 0) ;;
  let va := 0xD0400000 in
  let pa := SRAM_BASE + 0x1E0000 in
  store64 e pa 0xDEAD0004 ;;
  do_pt_map_page e root va pa (PTE_R .| PTE_W) false ;;
  sfence_all ;;
  enable_s_timer_irq e ;;
  enable_s_interrupts e ;;
  now ← read_mtime;
  sbi_set_timer e (wrap64 (now + 200)) ;;
  val ← load64 e va;
  delay 10000 ;;
  disable_s_interrupts ;;
  count ← trap fault_count;
  test_assert e (1 <=? count) "P2.4: page fault not handled" 630 ;;
  ASSERT_EQ e val 0xDEAD0004 "P2.4 loaded value" 631 ;;
  count ← trap timer_irq_count;
  (if 0 <? count then out_puts ("    Timer interrupt also fired: OK" +:+ nl)
   else out_puts ("    Timer did not fire (timing dependent, OK)" +:+ nl)) ;;
  set_csr (set_satp 0) ;;
  sfence_all ;;
  TEST_LOG "P2.4 — Timer + page fault: OK".

Definition p2_5 : M unit :=
  TEST_LOG "P2.5 — Interrupt enable/disable..." ;;
  set_trap (set_soft_irq_count 0) ;;
  enable_s_soft_irq e ;;
  disable_s_interrupts ;;
  sbi_send_ipi e 0 ;;
  delay 10000 ;;
  count ← trap soft_irq_count;
  ASSERT_EQ e count 0 "P2.5: delivered with SIE=0" 640 ;;
  enable_s_interrupts e ;;
  nops ;;
  timeout ← spin_while (fun t => soft_irq_count t =? 0) 100000;
  disable_s_interrupts ;;
  count ← trap soft_irq_count;
  ASSERT_EQ e count 1 "P2.5: not delivered after SIE=1" 641 ;;
  TEST_LOG "P2.5 — Interrupt enable/disable: OK".

Definition p2_6 : M unit :=
  TEST_LOG "P2.6 — sie masking..." ;;
  set_trap (set_timer_irq_count 0) ;;
  write_sie SIP_SSIP ;;
  enable_s_interrupts e ;;
  now ← read_mtime;
  sbi_set_timer e (wrap64 (now + 100)) ;;
  delay 50000 ;;
  count ← trap timer_irq_count;
  ASSERT_EQ e count 0 "P2.6: timer delivered with STIE=0" 650 ;;
  sip ← read_sip;
  test_assert e (tst sip SIP_STIP) "P2.6: STIP not pending" 651 ;;
  enable_s_timer_irq e ;;
  nops ;;
  timeout ← spin_while (fun t => timer_irq_count t =? 0) 100000;
  disable_s_interrupts ;;
  count ← trap timer_irq_count;
  ASSERT_EQ e count 1 "P2.6: timer not delivered after STIE=1" 652 ;;
  TEST_LOG "P2.6 — sie masking: OK".

Definition p2_7 : M unit :=
  TEST_LOG "P2.7 — wfi behavior..." ;;
  set_trap (set_timer_irq_count 0) ;;
  enable_s_timer_irq e ;;
  disable_s_interrupts ;;
  now ← read_mtime;
  sbi_set_timer e (wrap64 (now + 500)) ;;
  wfi e 1000 ;;
  sip ← read_sip;
  test_assert e (tst sip SIP_STIP) "P2.7: STIP not pending after wfi" 660 ;;
  count ← trap timer_irq_count;
  ASSERT_EQ e count 0 "P2.7: delivered during wfi with SIE=0" 661 ;;
  enable_s_interrupts e ;;
  nops ;;
  disable_s_interrupts ;;
  count ← trap timer_irq_count;
  ASSERT_EQ e count 1 "P2.7: timer not cleared after enable" 662 ;;
  TEST_LOG "P2.7 — wfi: OK".

Definition p2_test_main : M Z :=
  banner "Phase 2: Interrupt & Exception Tests" ;;
  p2_1 ;;
  p2_2 ;;
  p2_3 ;;
  p2_4 ;;
  p2_5 ;;
  p2_6 ;;
  p2_7 ;;
  banner "Phase 2: ALL TESTS PASSED" ;;
  mret 0.
End Suite.
