(* ===== verification/AllHarts.v ===== *)
(** * The bare-metal programs on every hart

    A reference hart makes every walk in the tables ([no_hit]) and keeps them as a
    log.  While its runs never meet a logged walk the tables no longer give
    ([w_stale]), a hart that answers from cached walks, whichever it uses, follows it
    step by step ([Lockstep]).  So one evaluated run stands for every hart. *)

From S2P Require Import Prelude Platform Memory Sv39 PtTree PageMap PageTable Tlb TlbRel Console Machine MTrap STrap Hart SuiteMmu SuiteFault SuiteIrq.

(** ** The reference hart and the relation *)

Definition with_hit (hit : nat -> bool) (e : env) : env :=
  {| e_qemu := e_qemu e; e_svadu := e_svadu e; e_hit := hit; e_dt := e_dt e; e_sc := e_sc e;
     e_page_table_start := e_page_table_start e; e_s_trap_vector := e_s_trap_vector e;
     e_pc := e_pc e; e_heap_start := e_heap_start e; e_heap_end := e_heap_end e |}.
Abbreviation no_hit := (with_hit (fun _ => false)).
Abbreviation all_hit := (with_hit (fun _ => true)).

(** The same state with other cached walks. *)
Definition twin (t : tlb) (b : bool) (w : world) : world := set_w_tlb t (set_w_stale b w).

Inductive world_rel : world -> world -> Prop :=
| world_twin t b w : tlb_rel t (w_tlb w) -> world_rel (twin t b w) w.

Definition end_of {A} (o : outcome A) : world :=
  match o with
  | Ret _ w | Halt w | OutOfFuel w => w
  end.

Definition outcome_rel {A} (o o' : outcome A) : Prop :=
  match o, o' with
  | Ret a w, Ret a' w' => a = a' /\ world_rel w w'
  | Halt w, Halt w' | OutOfFuel w, OutOfFuel w' => world_rel w w'
  | _, _ => False
  end.

Definition stale_kept {A} (m : M A) : Prop :=
  forall w, w_stale w = true -> w_stale (end_of (m w)) = true.

(** [m] follows [m'] wherever [m'] does not meet a stale walk. *)
Record Lockstep {A} (m m' : M A) : Prop := {
  ls_kept : stale_kept m';
  ls_follows w w' : world_rel w w' -> w_stale (end_of (m' w')) = false ->
    outcome_rel (m w) (m' w')
}.

(** [m] follows one of two. *)
Record Either {A} (m m1 m2 : M A) : Prop := {
  ei_kept1 : stale_kept m1;
  ei_kept2 : stale_kept m2;
  ei_follows w w' : world_rel w w' ->
    w_stale (end_of (m1 w')) = false -> w_stale (end_of (m2 w')) = false ->
    outcome_rel (m w) (m1 w') \/ outcome_rel (m w) (m2 w')
}.

(** ** The monad *)

Lemma lockstep_raw {A} (m m' : M A) (g : world -> A) (f : world -> world) :
  (forall w, m' w = Ret (g w) (f w)) ->
  (forall w, w_stale (f w) = w_stale w) ->
  (forall t b w, tlb_rel t (w_tlb w) ->
     exists t', m (twin t b w) = Ret (g w) (twin t' b (f w)) /\ tlb_rel t' (w_tlb (f w))) ->
  Lockstep m m'.
Proof.
  intros Hm' Hs Hm. split; [intros w Hw; by rewrite Hm'; cbn; rewrite Hs|].
  intros ? _ [t b w Ht] _. rewrite Hm'. destruct (Hm t b w Ht) as (t' & -> & Ht').
  split; [done|]. by constructor.
Qed.

(** Steps that neither read nor change the cached walks. *)
Lemma lockstep_blind {A} (m m' : M A) (g : world -> A) (f : world -> world) :
  (forall w, m' w = Ret (g w) (f w)) ->
  (forall t b w, m (twin t b w) = Ret (g w) (twin t b (f w))) ->
  (forall w, w_stale (f w) = w_stale w /\ w_tlb (f w) = w_tlb w) ->
  Lockstep m m'.
Proof.
  intros Hm' Hm Hf. apply (lockstep_raw m m' g f Hm'); [apply Hf|].
  intros t b w Ht. exists t. split; [apply Hm|]. by rewrite (proj2 (Hf w)).
Qed.

Lemma lockstep_gets {A} (f f' : world -> A) :
  (forall t b w, f (twin t b w) = f' w) -> Lockstep (gets f) (gets f').
Proof.
  intros Hf. apply (lockstep_blind _ _ f' id); [done| |done].
  intros t b w. unfold gets. by rewrite Hf.
Qed.

Lemma lockstep_modify (f f' : world -> world) :
  (forall t b w, f (twin t b w) = twin t b (f' w)) ->
  (forall w, w_stale (f' w) = w_stale w /\ w_tlb (f' w) = w_tlb w) ->
  Lockstep (modify f) (modify f').
Proof.
  intros Hf Hk. apply (lockstep_blind _ _ (fun _ => tt) f'); [done| |done].
  intros t b w. unfold modify. by rewrite Hf.
Qed.

Lemma lockstep_ret {A} (a : A) : Lockstep (mret a) (mret a).
Proof. by apply (lockstep_blind _ _ (fun _ => a) id). Qed.

Lemma lockstep_finish {A} v : Lockstep (@finish A v) (finish v).
Proof.
  split; [by intros w Hw|]. intros ? _ [t b w Ht] _.
  exact (world_twin t b (set_w_verdict (Some v) w) Ht).
Qed.

Lemma lockstep_out_of_fuel {A} : Lockstep (@out_of_fuel A) out_of_fuel.
Proof. split; [by intros w Hw|]. intros ? _ [t b w Ht] _. by constructor. Qed.

Lemma kept_unstale {A} (m : M A) w :
  stale_kept m -> w_stale (end_of (m w)) = false -> w_stale w = false.
Proof. intros Hk Hf. destruct (w_stale w) eqn:Hw; [|done]. by rewrite (Hk w Hw) in Hf. Qed.

Lemma kept_bind {A B} (m : M A) (k : A -> M B) :
  stale_kept m -> (forall a, stale_kept (k a)) -> stale_kept (mbind k m).
Proof.
  intros Hm Hk w Hw. specialize (Hm w Hw). unfold mbind, M_bind.
  destruct (m w); cbn in *; [by apply Hk|done..].
Qed.

Lemma bind_unstale {A B} (m : M A) (k : A -> M B) w :
  (forall a, stale_kept (k a)) -> w_stale (end_of (mbind k m w)) = false ->
  w_stale (end_of (m w)) = false.
Proof.
  intros Hk. unfold mbind, M_bind. destruct (m w); [|done..]. cbn [end_of].
  apply kept_unstale, Hk.
Qed.

Lemma outcome_rel_bind {A B} (m m' : M A) (k k' : A -> M B) w w' :
  outcome_rel (m w) (m' w') ->
  (forall a v v', m' w' = Ret a v' -> world_rel v v' -> outcome_rel (k a v) (k' a v')) ->
  outcome_rel (mbind k m w) (mbind k' m' w').
Proof.
  unfold mbind, M_bind. intros Hr Hk.
  destruct (m w), (m' w'); cbn [outcome_rel] in *; try done.
  destruct Hr as [<- Hr]. by apply Hk.
Qed.

Lemma lockstep_bind {A B} (m m' : M A) (k k' : A -> M B) :
  Lockstep m m' -> (forall a, Lockstep (k a) (k' a)) -> Lockstep (mbind k m) (mbind k' m').
Proof.
  intros [Hm Hf] Hk. split; [apply kept_bind; [done|apply Hk]|].
  intros w w' Hw Hs. apply outcome_rel_bind.
  - apply Hf; [done|]. eapply bind_unstale; [apply Hk|done].
  - intros a v v' Hv Hr. apply (ls_follows _ _ (Hk a)); [done|].
    unfold mbind, M_bind in Hs. by rewrite Hv in Hs.
Qed.

(** The same runs. *)
Definition Same {A} (m n : M A) : Prop := forall w, m w = n w.

Lemma lockstep_same {A} (m n m' n' : M A) : Same m n -> Same m' n' -> Lockstep n n' -> Lockstep m m'.
Proof.
  intros Hm Hm' [Hk Hf]. split; [intros w|intros w w']; rewrite ?Hm, Hm'; [apply Hk|apply Hf].
Qed.

Lemma either_then {A B} (m m1 m2 : M A) (k k' : A -> M B) :
  Either m m1 m2 -> (forall a, Lockstep (k a) (k' a)) ->
  Either (mbind k m) (mbind k' m1) (mbind k' m2).
Proof.
  intros [Hk1 Hk2 Hf] Hk. split; [by apply kept_bind; [|apply Hk]..|].
  intros w w' Hw Hs1 Hs2. assert (forall m', w_stale (end_of (mbind k' m' w')) = false ->
    outcome_rel (m w) (m' w') -> outcome_rel (mbind k m w) (mbind k' m' w')) as Hgo.
  { intros m' Hs Hr. apply outcome_rel_bind; [done|]. intros a v v' Hv Hvr.
    apply (ls_follows _ _ (Hk a)); [done|]. unfold mbind, M_bind in Hs. by rewrite Hv in Hs. }
  destruct (Hf w w' Hw) as [H|H]; [eapply bind_unstale; [apply Hk|done]..|left|right]; by apply Hgo.
Qed.

Lemma either_after {A B} (m m' : M A) (k k1 k2 : A -> M B) :
  Lockstep m m' -> (forall a, Either (k a) (k1 a) (k2 a)) ->
  Either (mbind k m) (mbind k1 m') (mbind k2 m').
Proof.
  intros [Hm Hf] Hk. split; [by apply kept_bind; [|apply Hk]..|].
  intros w w' Hw Hs1 Hs2. pose proof (bind_unstale _ _ _ (fun a => ei_kept1 _ _ _ (Hk a)) Hs1) as Hs.
  specialize (Hf w w' Hw Hs). unfold mbind, M_bind in *.
  destruct (m w), (m' w'); cbn [outcome_rel end_of] in *; try done; try (by left).
  destruct Hf as [<- Hv]. by apply (ei_follows _ _ _ (Hk a)).
Qed.

Lemma lockstep_if {A} (b : bool) (m n m' n' : M A) :
  Lockstep m m' -> Lockstep n n' -> Lockstep (if b then m else n) (if b then m' else n').
Proof. by destruct b. Qed.

Lemma lockstep_for n : forall i (body body' : Z -> M unit),
  (forall i, Lockstep (body i) (body' i)) -> Lockstep (for_up n i body) (for_up n i body').
Proof.
  induction n as [|n IH]; intros; cbn [for_up]; [apply lockstep_ret|].
  apply lockstep_bind; [done|]. intros _. by apply IH.
Qed.

Lemma lockstep_sfence_all : Lockstep sfence_all sfence_all.
Proof.
  apply (lockstep_raw _ _ (fun _ => tt) (fun w => set_w_tlb (sfence_vma_all (w_tlb w)) w));
    [done..|].
  intros t b w Ht. exists ∅. split; [done|apply tlb_rel_empty].
Qed.

Lemma lockstep_sfence_addr va : Lockstep (sfence_addr va) (sfence_addr va).
Proof.
  apply (lockstep_raw _ _ (fun _ => tt) (fun w => set_w_tlb (sfence_vma_addr va (w_tlb w)) w));
    [done..|].
  intros t b w Ht. exists (sfence_vma_addr va t). split; [done|by apply tlb_rel_fence].
Qed.

(** ** What changes one part of the state *)

Lemma lockstep_out (f : console -> console) :
  Lockstep (modify (fun w => set_w_out (f (w_out w)) w)) (modify (fun w => set_w_out (f (w_out w)) w)).
Proof. by apply lockstep_modify. Qed.

Lemma lockstep_putc c : Lockstep (out_putc c) (out_putc c).
Proof. exact (lockstep_out (putc c)). Qed.
Lemma lockstep_puts s : Lockstep (out_puts s) (out_puts s).
Proof. exact (lockstep_out (uart_puts s)). Qed.
Lemma lockstep_hex v : Lockstep (out_hex v) (out_hex v).
Proof. exact (lockstep_out (uart_put_hex v)). Qed.
Lemma lockstep_dec v : Lockstep (out_dec v) (out_dec v).
Proof. exact (lockstep_out (uart_put_dec (s32 v))). Qed.

Lemma lockstep_set_csr f : Lockstep (set_csr f) (set_csr f).
Proof. by apply lockstep_modify. Qed.
Lemma lockstep_csr {A} (f : csrs -> A) : Lockstep (csr f) (csr f).
Proof. by apply lockstep_gets. Qed.
Lemma lockstep_set_trap f : Lockstep (set_trap f) (set_trap f).
Proof. by apply lockstep_modify. Qed.
Lemma lockstep_trap {A} (f : trap_state -> A) : Lockstep (trap f) (trap f).
Proof. by apply lockstep_gets. Qed.
Lemma lockstep_clint a v : Lockstep (clint_write a v) (clint_write a v).
Proof. by apply lockstep_modify. Qed.

Lemma lockstep_set_mem (f : mem -> mem) :
  Lockstep (modify (fun w => set_w_mem (f (w_mem w)) w)) (modify (fun w => set_w_mem (f (w_mem w)) w)).
Proof. by apply lockstep_modify. Qed.
Lemma lockstep_mem {A} (f : mem -> A) :
  Lockstep (gets (fun w => f (w_mem w))) (gets (fun w => f (w_mem w))).
Proof. by apply lockstep_gets. Qed.

(** ** The proof of a program's lockstep follows the program *)

Create HintDb all_harts discriminated.
#[export] Hint Constants Opaque : all_harts.
#[export] Hint Resolve lockstep_ret lockstep_out_of_fuel lockstep_sfence_all
  lockstep_sfence_addr lockstep_putc lockstep_puts lockstep_hex lockstep_dec lockstep_set_csr
  lockstep_csr lockstep_set_trap lockstep_trap lockstep_clint : all_harts.

Ltac head_of m := lazymatch m with ?f _ => head_of f | _ => m end.

(** The two harts are in the same environment. *)
Ltac same_env :=
  repeat match goal with
  | |- context [e_qemu (with_hit ?h ?e)] => change (e_qemu (with_hit h e)) with (e_qemu e)
  | |- context [e_pc (with_hit ?h ?e)] => change (e_pc (with_hit h e)) with (e_pc e)
  | |- context [e_s_trap_vector (with_hit ?h ?e)] =>
      change (e_s_trap_vector (with_hit h e)) with (e_s_trap_vector e)
  | |- context [e_heap_start (with_hit ?h ?e)] =>
      change (e_heap_start (with_hit h e)) with (e_heap_start e)
  | |- context [e_heap_end (with_hit ?h ?e)] => change (e_heap_end (with_hit h e)) with (e_heap_end e)
  end.

Ltac lockstep_step :=
  lazymatch goal with
  | |- Lockstep (mbind _ _) _ => apply lockstep_bind; [|intros ?]
  | |- Lockstep (finish _) _ => apply lockstep_finish
  | |- Lockstep (for_up _ _ _) _ => apply lockstep_for; intros ?
  | |- Lockstep (if ?x then _ else _) _ => first [apply lockstep_if | destruct x]
  | |- Lockstep (match ?x with _ => _ end) _ => destruct x
  | |- Lockstep (let _ := _ in _) _ => cbv zeta
  | |- Lockstep (gets _) _ => apply lockstep_gets; intros; reflexivity
  | |- Lockstep (modify _) _ =>
      first [apply lockstep_set_mem | apply lockstep_modify; [intros; reflexivity|intros; split; reflexivity]]
  | |- Lockstep ?m _ =>
      first [solve [auto with all_harts nocore] | progress (let h := head_of m in unfold h); same_env]
  end.
Ltac lockstep := repeat lockstep_step.

(** ** The hart *)

Section Hart.
Context (e : env).
Abbreviation e0 := (no_hit e).

Lemma lockstep_translate acc va : Lockstep (translate_once e acc va) (translate_once e0 acc va).
Proof using.
  split.
  - intros w Hw. unfold translate_once. destruct (paging w); [|done].
    destruct (tlb_translate _ _ _ _ _ _ _) as [[pa m] t]. cbn. by rewrite Hw.
  - intros ? _ [t b w Ht]. unfold translate_once. change (paging (twin t b w)) with (paging w).
    destruct (paging w); [|by split].
    change (hw_ctx e (twin t b w)) with (hw_ctx e0 w).
    change (w_mem (twin t b w)) with (w_mem w). change (w_csrs (twin t b w)) with (w_csrs w).
    change (w_tlb (twin t b w)) with t. change (w_steps (twin t b w)) with (w_steps w).
    change (e_hit e0 (w_steps w)) with false.
    pose proof (translate_rel (hw_ctx e0 w) (e_hit e (w_steps w)) (w_mem w)
      (satp_root (satp (w_csrs w))) t (w_tlb w) acc va Ht) as Hr.
    destruct (log_agrees _ _ (w_tlb w) va); cycle 1.
    { destruct (tlb_translate _ false _ _ _ _ _) as [[pa m] t1]. cbn [end_of].
      intros Hs. exfalso. revert Hs. cbn [w_stale set_w_stale negb]. rewrite orb_true_r. discriminate. }
    specialize (Hr eq_refl).
    destruct (tlb_translate _ (e_hit e _) _ _ _ _ _) as [[pa m] t1].
    destruct (tlb_translate _ false _ _ _ _ _) as [[pa' m'] t1'].
    destruct Hr as (<- & <- & Hr). intros _. split; [done|].
    apply (world_twin t1 _ (set_w_stale _ (set_w_steps (S (w_steps w)) (set_w_mem m (set_w_tlb t1' w))))), Hr.
Qed.
#[local] Hint Resolve lockstep_translate : all_harts.

Lemma lockstep_s_trap cause tval pc : Lockstep (s_trap e cause tval pc) (s_trap e0 cause tval pc).
Proof using. lockstep. Qed.

Lemma lockstep_m_trap mcause mtval pc a0 a7 :
  Lockstep (m_trap e mcause mtval pc a0 a7) (m_trap e0 mcause mtval pc a0 a7).
Proof using. lockstep. Qed.

Lemma lockstep_ecall a0 a7 : Lockstep (ecall e a0 a7) (ecall e0 a0 a7).
Proof using. lockstep. Qed.
#[local] Hint Resolve lockstep_s_trap lockstep_m_trap lockstep_ecall : all_harts.

Lemma lockstep_access acc va n : Lockstep (do_access e n acc va) (do_access e0 n acc va).
Proof using.
  induction n as [|n IH]; cbn [do_access]; same_env; lockstep; exact IH.
Qed.

Lemma lockstep_load va : Lockstep (load64 e va) (load64 e0 va).
Proof using. unfold load64. lockstep; apply lockstep_access. Qed.

Lemma lockstep_store va v : Lockstep (store64 e va v) (store64 e0 va v).
Proof using. unfold store64. lockstep; apply lockstep_access. Qed.

Lemma lockstep_store32 va v : Lockstep (store32 e va v) (store32 e0 va v).
Proof using. unfold store32. lockstep; apply lockstep_access. Qed.

Lemma lockstep_call va : Lockstep (call_ret e va) (call_ret e0 va).
Proof using. unfold call_ret. lockstep; apply lockstep_access. Qed.

(** *** Interrupts *)

Lemma deliver_eq e' n :
  Same (deliver e' n)
  (m ← gets m_pending;
  match m, n with
  | Some code, S n' => m_trap e' (interrupt_bit + code) 0 (e_pc e') 0 0 ;; deliver e' n'
  | Some code, O => out_of_fuel
  | None, _ =>
      s ← gets s_pending;
      match s, n with
      | Some code, S n' => s_trap e' (interrupt_bit + code) 0 (e_pc e') ;; deliver e' n'
      | Some code, O => out_of_fuel
      | None, _ => mret tt
      end
  end).
Proof using.
  intros w. destruct n; cbn [deliver]; unfold gets, mbind, M_bind;
    (destruct (m_pending w); [reflexivity|]); by destruct (s_pending w).
Qed.

Lemma lockstep_deliver n : Lockstep (deliver e n) (deliver e0 n).
Proof using.
  induction n as [|n IH]; (eapply lockstep_same; [apply deliver_eq..|]); cbv iota; same_env; lockstep; exact IH.
Qed.

Lemma lockstep_tick : Lockstep (tick e) (tick e0).
Proof using. by apply (lockstep_blind _ _ (fun _ => tt) (fun w => end_of (tick e0 w))). Qed.

Lemma lockstep_window : Lockstep (irq_window e) (irq_window e0).
Proof using. apply lockstep_bind; [apply lockstep_tick|intros _; apply lockstep_deliver]. Qed.
#[local] Hint Resolve lockstep_load lockstep_store lockstep_store32 lockstep_call lockstep_window
  : all_harts.

Lemma wfi_eq e' n :
  Same (wfi e' n)
  (b ← gets wfi_wakes;
   if b : bool then irq_window e'
   else match n with
        | O => out_of_fuel
        | S n' => irq_window e' ;; wfi e' n'
        end).
Proof using. intros w. by destruct n; cbn [wfi]; unfold gets, mbind, M_bind; destruct (wfi_wakes w). Qed.

Lemma lockstep_wfi n : Lockstep (wfi e n) (wfi e0 n).
Proof using.
  induction n as [|n IH]; (eapply lockstep_same; [apply wfi_eq..|]); cbv iota; lockstep; exact IH.
Qed.

Lemma lockstep_spin n : forall waiting timeout,
  Lockstep (spin e n waiting timeout) (spin e0 n waiting timeout).
Proof using. induction n as [|n IH]; intros; cbn [spin]; lockstep; apply IH. Qed.

Lemma lockstep_check_loop n : forall i errors,
  Lockstep (p0_check_loop e n i errors) (p0_check_loop e0 n i errors).
Proof using.
  induction n as [|n IH]; intros; cbn [p0_check_loop]; [lockstep|].
  apply lockstep_bind; [lockstep|]. intros errors'. apply IH.
Qed.

(** *** The page-table functions *)

Lemma lockstep_reset : Lockstep do_pt_reset do_pt_reset.
Proof using. by apply lockstep_modify. Qed.

Lemma lockstep_setup : Lockstep (do_pt_setup_identity_kernel e) (do_pt_setup_identity_kernel e0).
Proof using.
  apply (lockstep_blind _ _
    (fun w => (pt_setup_identity_kernel (e_page_table_start e) (pt_state w)).1)
    (fun w => with_pt (pt_setup_identity_kernel (e_page_table_start e) (pt_state w)).2 w)); [| |done].
  - intros w. unfold do_pt_setup_identity_kernel. by destruct (pt_setup_identity_kernel _ _).
  - intros t b w. unfold do_pt_setup_identity_kernel. change (pt_state (twin t b w)) with (pt_state w).
    by destruct (pt_setup_identity_kernel _ _).
Qed.

Lemma lockstep_alloc : Lockstep (do_pt_alloc_page e) (do_pt_alloc_page e0).
Proof using.
  apply (lockstep_blind _ _ (fun w => (pt_alloc_page (e_page_table_start e) (pt_state w)).1)
    (fun w => with_pt (pt_alloc_page (e_page_table_start e) (pt_state w)).2 w)); [| |done].
  - intros w. unfold do_pt_alloc_page. by destruct (pt_alloc_page _ _).
  - intros t b w. unfold do_pt_alloc_page. change (pt_state (twin t b w)) with (pt_state w).
    by destruct (pt_alloc_page _ _).
Qed.

Lemma lockstep_map root va pa perm valid :
  Lockstep (do_pt_map_page e root va pa perm valid) (do_pt_map_page e0 root va pa perm valid).
Proof using.
  by apply (lockstep_blind _ _ (fun _ => tt)
    (fun w => with_pt (pt_map_page (e_page_table_start e) (pt_state w) root va pa perm valid) w)).
Qed.
#[local] Hint Resolve lockstep_wfi lockstep_spin lockstep_check_loop lockstep_reset lockstep_setup
  lockstep_alloc lockstep_map : all_harts.

(** ** The programs *)

Lemma lockstep_p0 : Lockstep (p0_test_main e) (p0_test_main e0).
Proof using. lockstep. Qed.

Lemma lockstep_p1a : Lockstep (p1a_test_main e) (p1a_test_main e0).
Proof using. lockstep. Qed.

Lemma lockstep_p1b : Lockstep (p1b_test_main e) (p1b_test_main e0).
Proof using. lockstep. Qed.

Lemma lockstep_p1c : Lockstep (p1c_test_main e) (p1c_test_main e0).
Proof using. lockstep. Qed.

Lemma lockstep_p2 : Lockstep (p2_test_main e) (p2_test_main e0).
Proof using. lockstep. Qed.

(** *** P1D.2 reads through an entry that has changed without a fence *)

(** A load of the reference hart that uses the log if [e'] says so, and that may
    find it stale; the reference hart gives up if it faults. *)
Definition peek (e' : env) (va : Z) : M Z := fun w =>
  match translate_once e' Load va w with
  | Ret (Some pa) v => Ret (rd64 (w_mem v) pa) (set_w_stale (w_stale w) v)
  | _ => OutOfFuel (set_w_stale true w)
  end.

Lemma peek_kept e' va : stale_kept (peek e' va).
Proof using. intros w Hw. unfold peek. by destruct (translate_once _ _ _ _) as [[]| |]. Qed.

(** A load that does not fault. *)
Lemma load_at va w pa v :
  translate_once e Load va w = Ret (Some pa) v -> load64 e va w = Ret (rd64 (w_mem v) pa) v.
Proof using.
  intros Ht. unfold load64. cbn [do_access retries]. unfold mbind, M_bind. by rewrite Ht.
Qed.

Lemma translate_paged e' acc va w :
  paging w = true ->
  exists pa m t b,
    translate_once e' acc va w = Ret pa (twin t b (set_w_steps (S (w_steps w)) (set_w_mem m w))) /\
    tlb_translate (hw_ctx e' w) (e_hit e' (w_steps w)) (w_mem w) (satp_root (satp (w_csrs w)))
      (w_tlb w) acc va = (pa, m, t).
Proof using.
  intros Hp. unfold translate_once. rewrite Hp.
  destruct (tlb_translate _ _ _ _ _ _ _) as [[pa m] t]. eexists pa, m, t, _. by split.
Qed.

(** The load follows the reference hart that made the same choice. *)
Lemma load_follows c va t b w :
  tlb_rel t (w_tlb w) -> paging w = true ->
  answers_rel
    (tlb_translate (hw_ctx e w) (e_hit e (w_steps w)) (w_mem w) (satp_root (satp (w_csrs w))) t Load va)
    (tlb_translate (hw_ctx e w) c (w_mem w) (satp_root (satp (w_csrs w))) (w_tlb w) Load va) ->
  w_stale (end_of (peek (with_hit (fun _ => c) e) va w)) = false ->
  outcome_rel (load64 e va (twin t b w)) (peek (with_hit (fun _ => c) e) va w).
Proof using.
  intros Ht Hp Ha Hs.
  destruct (translate_paged e Load va (twin t b w) Hp) as (pa & m & t1 & b1 & E & Et).
  destruct (translate_paged (with_hit (fun _ => c) e) Load va w Hp) as (pa' & m' & t2 & b2 & E' & Et').
  change (tlb_translate (hw_ctx e w) (e_hit e (w_steps w)) (w_mem w) (satp_root (satp (w_csrs w))) t
    Load va = (pa, m, t1)) in Et.
  change (tlb_translate (hw_ctx e w) c (w_mem w) (satp_root (satp (w_csrs w))) (w_tlb w)
    Load va = (pa', m', t2)) in Et'.
  rewrite Et, Et' in Ha. destruct Ha as (<- & <- & Ha). unfold peek in *. rewrite E' in *.
  destruct pa as [pa|]; [|discriminate Hs]. rewrite (load_at va _ _ _ E). split; [done|].
  exact (world_twin t1 b1 (set_w_stale (w_stale w) (twin t2 b2 (set_w_steps (S (w_steps w)) (set_w_mem m w)))) Ha).
Qed.

Lemma either_load va : Either (load64 e va) (peek e0 va) (peek (all_hit e) va).
Proof using.
  split; [apply peek_kept..|]. intros ? _ [t b w Ht] H1 H2. destruct (paging w) eqn:Hp; cycle 1.
  { left. unfold peek. rewrite (load_at va (twin t b w) va (twin t b w));
      unfold translate_once; change (paging (twin t b w)) with (paging w); rewrite Hp; [|done].
    split; [done|]. exact (world_twin t b (set_w_stale (w_stale w) w) Ht). }
  destruct (translate_either (hw_ctx e w) (e_hit e (w_steps w)) (w_mem w)
    (satp_root (satp (w_csrs w))) _ _ Load va Ht) as [[] Ha]; [right|left]; by apply load_follows.
Qed.

(** P1D with a reference hart's load in P1D.2. *)
Definition p1d_peeking (e' e : env) : M Z := p1d_test_with e (p1d_2_reading e (peek e')).

Ltac either := repeat first
  [ apply either_load
  | apply either_then; [apply either_load|intros ?; lockstep]
  | apply either_after; [solve [lockstep]|intros ?] ].

Lemma either_p1d_2 root :
  Either (p1d_2 e root) (p1d_2_reading e0 (peek e0) root) (p1d_2_reading e0 (peek (all_hit e)) root).
Proof using. unfold p1d_2, p1d_2_reading. cbv zeta. either. Qed.

Lemma either_p1d : Either (p1d_test_main e) (p1d_peeking e0 e0) (p1d_peeking (all_hit e) e0).
Proof using.
  unfold p1d_test_main, p1d_peeking, p1d_test_with.
  repeat first
    [ apply either_then; [apply either_p1d_2|intros ?; lockstep]
    | apply either_after; [solve [lockstep]|intros ?] ].
Qed.

Lemma lockstep_entry m m' : Lockstep m m' -> Lockstep (s_mode_entry e m) (s_mode_entry e0 m').
Proof using. intros Hm. unfold s_mode_entry. lockstep. Qed.

Lemma either_entry m m1 m2 :
  Either m m1 m2 -> Either (s_mode_entry e m) (s_mode_entry e0 m1) (s_mode_entry e0 m2).
Proof using.
  intros Hm. unfold s_mode_entry. do 2 (apply either_after; [lockstep|intros _]).
  apply either_then; [exact Hm|]. intros a. lockstep.
Qed.
End Hart.

#[export] Hint Resolve lockstep_translate lockstep_s_trap lockstep_m_trap lockstep_ecall lockstep_access
  lockstep_load lockstep_store lockstep_store32 lockstep_call lockstep_window lockstep_wfi lockstep_spin
  lockstep_check_loop lockstep_reset lockstep_setup lockstep_alloc lockstep_map : all_harts.
