(* ===== verification/QemuCopy.v ===== *)
(** * The QEMU copy of the suite's runtime ([baremetal/common])

    [smode.c] and [m_trap.c] of [src/baremetal/common] are copies of the suite's, made
    for QEMU with another sink for the verdict.  Here the copy's functions are
    translated from the copy's own text, statement by statement on the machine of
    [Machine]; nothing of the original's definitions is used but the machine, the
    hardware's trap entry and the record [g_trap].  [Builds] shows that they do what
    the original does.  Pointers are dereferenced through the identity mapping of SRAM,
    so [peek] and [poke] access physical memory. *)

From S2P Require Import Prelude Platform Memory Sv39 PtTree PageMap PageTable Tlb Console Machine MTrap STrap.

Module Copy.
Section Copy.
Context (e : env).

Definition peek (a : Z) : M Z := gets (fun w => rd64 (w_mem w) a).
Definition poke (a v : Z) : M unit := modify (fun w => set_w_mem (wr64 (w_mem w) a v) w).

(** ** UART *)

(** The transmitter is polled until it is ready ([Console.uart_putc_appends]). *)
Definition uart_putc (c : Z) : M unit := modify (fun w => set_w_out (uchar c :: w_out w) w).

Fixpoint uart_puts (s : string) : M unit :=
  match s with
  | EmptyString => mret tt
  | String a s' =>
      when (code_of a =? 10) (uart_putc 13) ;;
      uart_putc (code_of a) ;;
      uart_puts s'
  end.

(** [for (int i = 60; i >= 0; i -= 4)]: [n] digits are left. *)
Fixpoint put_digits (n : nat) (val : Z) : M unit :=
  match n with
  | O => mret tt
  | S n' =>
      let i := 4 * Z.of_nat n' in
      uart_putc (hex_digit ((val .>> i) .& 0xF)) ;;
      put_digits n' val
  end.
Definition uart_put_hex (val : Z) : M unit :=
  uart_puts "0x" ;;
  put_digits 16 val.

(** [do { buf[i++] = '0' + (val % 10); val /= 10; } while (val > 0);] with [char buf[20]] *)
Fixpoint fill_buf (fuel : nat) (val : Z) (buf : list Z) : list Z :=
  match fuel with
  | O => buf
  | S fuel' =>
      let buf := buf ++ [48 + Z.rem val 10] in
      let val := Z.quot val 10 in
      if 0 <? val then fill_buf fuel' val buf else buf
  end.
(** [while (--i >= 0) uart_putc(buf[i]);] on the reversed buffer. *)
Fixpoint put_buf (l : list Z) : M unit :=
  match l with
  | [] => mret tt
  | c :: l' => uart_putc c ;; put_buf l'
  end.
(** [val] is converted to an [int] by the call. *)
Definition uart_put_dec (val : Z) : M unit :=
  let val := s32 val in
  when (val <? 0) (uart_putc 45) ;;
  let val := if val <? 0 then s32 (- val) else val in
  put_buf (rev (fill_buf 20 val [])).

(** ** Verdict *)

(** [*(volatile uint32_t * )QEMU_SIFIVE_TEST = value; while (1) wfi;] *)
Definition qemu_test_exit {A} (value : Z) : M A := finish (wrap32 value).

Definition test_pass {A} : M A :=
  uart_puts ("[PASS]" +:+ nl) ;;
  qemu_test_exit QEMU_FINISH_PASS.

Definition test_fail {A} (code : Z) : M A :=
  uart_puts "[FAIL] code=" ;;
  uart_put_dec code ;;
  uart_putc 10 ;;
  qemu_test_exit (QEMU_FINISH_FAIL .| wrap32 (Z.shiftl (wrap32 code) 16)).

Definition test_assert (condition : bool) (msg : string) (fail_code : Z) : M unit :=
  if negb condition then
    uart_puts "ASSERT FAILED: " ;;
    uart_puts msg ;;
    uart_putc 10 ;;
    test_fail fail_code
  else mret tt.

(** ** CSR helpers *)

Definition read_csr_satp : M Z := csr satp.
Definition write_csr_satp (val : Z) : M unit := set_csr (set_satp val).
Definition sfence_vma_all : M unit := modify (fun w => set_w_tlb (Tlb.sfence_vma_all (w_tlb w)) w).
Definition sfence_vma_addr (addr : Z) : M unit :=
  modify (fun w => set_w_tlb (Tlb.sfence_vma_addr addr (w_tlb w)) w).
Definition write_csr_stvec (val : Z) : M unit := set_csr (set_stvec val).

(** ** Page table utilities *)

Definition pt_alloc_page : M Z :=
  next ← gets w_pool;
  let page := e_page_table_start e + 8 * (next * PTES_PER_PT) in
  modify (set_w_pool (s32 (next + 1))) ;;
  for_up 512 0 (fun i => poke (page + 8 * i) 0) ;;
  mret page.

Definition pt_reset : M unit := modify (set_w_pool 0).

Definition pt_ppn (pt : Z) : Z := pt .>> PGSHIFT.
Definition pte_branch (child_pt : Z) : Z := (pt_ppn child_pt .<< PTE_PPN_SHIFT) .| PTE_V.
Definition pte_leaf (phys_addr perm : Z) : Z :=
  ((phys_addr .>> PGSHIFT) .<< PTE_PPN_SHIFT) .| perm .| PTE_V .| PTE_A .| PTE_D.
Definition vpn2 (va : Z) : Z := (va .>> 30) .& 0x1FF.
Definition vpn1 (va : Z) : Z := (va .>> 21) .& 0x1FF.
Definition vpn0 (va : Z) : Z := (va .>> 12) .& 0x1FF.

Definition pt_setup_identity_kernel : M Z :=
  root ← pt_alloc_page;
  let sram_vpn2 := vpn2 SRAM_BASE in
  poke (root + 8 * sram_vpn2)
    (pte_leaf (SRAM_BASE .& not64 (GIGAPAGE_SIZE - 1)) (PTE_R .| PTE_W .| PTE_X)) ;;
  poke (root + 8 * 0) (pte_leaf 0x00000000 (PTE_R .| PTE_W)) ;;
  mret root.

Definition pt_map_page (root va pa perm : Z) (valid : bool) : M unit :=
  let idx2 := vpn2 va in
  let idx1 := vpn1 va in
  let idx0 := vpn0 va in
  pte ← peek (root + 8 * idx2);
  when (negb (tst pte PTE_V))
    (page ← pt_alloc_page; poke (root + 8 * idx2) (pte_branch page)) ;;
  pte ← peek (root + 8 * idx2);
  let l1 := (pte .>> PTE_PPN_SHIFT) .<< PGSHIFT in
  pte ← peek (l1 + 8 * idx1);
  when (negb (tst pte PTE_V))
    (page ← pt_alloc_page; poke (l1 + 8 * idx1) (pte_branch page)) ;;
  pte ← peek (l1 + 8 * idx1);
  let l2 := (pte .>> PTE_PPN_SHIFT) .<< PGSHIFT in
  if valid then poke (l2 + 8 * idx0) (pte_leaf pa perm)
  else poke (l2 + 8 * idx0) (((pa .>> PGSHIFT) .<< PTE_PPN_SHIFT) .| (perm .& not64 PTE_V)).

(** The address of the entry, and [*level]. *)
Definition pt_walk (root va : Z) : M (Z * Z) :=
  let idx2 := vpn2 va in
  pte ← peek (root + 8 * idx2);
  if tst pte PTE_V && tst pte (PTE_R .| PTE_W .| PTE_X) then mret (root + 8 * idx2, 2)
  else if negb (tst pte PTE_V) then mret (root + 8 * idx2, 2)
  else
    let l1 := (pte .>> PTE_PPN_SHIFT) .<< PGSHIFT in
    let idx1 := vpn1 va in
    pte ← peek (l1 + 8 * idx1);
    if tst pte PTE_V && tst pte (PTE_R .| PTE_W .| PTE_X) then mret (l1 + 8 * idx1, 1)
    else if negb (tst pte PTE_V) then mret (l1 + 8 * idx1, 1)
    else
      let l2 := (pte .>> PTE_PPN_SHIFT) .<< PGSHIFT in
      let idx0 := vpn0 va in
      mret (l2 + 8 * idx0, 0).

Definition mmu_enable_sv39 (root : Z) : M unit :=
  let satp_val := (SATP_MODE_SV39 .<< SATP_MODE_SHIFT) .| pt_ppn root in
  write_csr_satp satp_val ;;
  sfence_vma_all.

(** ** M-mode trap handler *)

Definition read_mhartid : M Z := csr mhartid.
Definition set_csr_bits_mip (bits : Z) : M unit := set_csr (fun c => set_mip (mip c .| bits) c).
Definition clear_csr_bits_mip (bits : Z) : M unit := set_csr (fun c => set_mip (Z.ldiff (mip c) bits) c).
Definition set_csr_bits_mie (bits : Z) : M unit := set_csr (fun c => set_mie (mie c .| bits) c).
Definition clear_csr_bits_mie (bits : Z) : M unit := set_csr (fun c => set_mie (Z.ldiff (mie c) bits) c).
Definition write_csr_scause (v : Z) : M unit := set_csr (set_scause v).
Definition write_csr_stval (v : Z) : M unit := set_csr (set_stval v).
Definition write_csr_sepc (v : Z) : M unit := set_csr (set_sepc v).

(** [panic:] FAIL with code 500+cause. *)
Definition panic (mcause mepc mtval cause_code : Z) : M Z :=
  modify (set_m_trap_info [mcause; mepc; mtval]) ;;
  let code := wrap32 (500 + wrap32 cause_code) in
  finish (wrap32 (0x3333 .| wrap32 (Z.shiftl code 16))).

Definition m_trap_handler (mcause mepc mtval : Z) (frame : Z -> Z) : M Z :=
  let is_interrupt := (mcause .>> 63) .& 1 in
  let cause_code := mcause .& 0x7FFFFFFFFFFFFFFF in
  if negb (is_interrupt =? 0) then
    if cause_code =? IRQ_M_TIMER then
      clear_csr_bits_mie MIP_MTIP ;;
      hart ← read_mhartid;
      clint_write (CLINT_MTIMECMP hart) 0xFFFFFFFFFFFFFFFF ;;
      set_csr_bits_mip MIP_STIP ;;
      mret mepc
    else if cause_code =? IRQ_M_SOFT then
      hart ← read_mhartid;
      clint_write (CLINT_MSIP hart) 0 ;;
      set_csr_bits_mip MIP_SSIP ;;
      mret mepc
    else panic mcause mepc mtval cause_code
  else if cause_code =? CAUSE_ECALL_SMODE then
    let sbi_func := frame 11 in
    let sbi_a0 := frame 4 in
    if sbi_func =? SBI_SET_TIMER then
      hart ← read_mhartid;
      clint_write (CLINT_MTIMECMP hart) sbi_a0 ;;
      clear_csr_bits_mip MIP_STIP ;;
      set_csr_bits_mie MIP_MTIP ;;
      mret (wrap64 (mepc + 4))
    else if sbi_func =? SBI_SEND_IPI then
      (if sbi_a0 <? NUM_HARTS then clint_write (CLINT_MSIP sbi_a0) 1 else mret tt) ;;
      mret (wrap64 (mepc + 4))
    else if sbi_func =? SBI_CLEAR_IPI then
      clear_csr_bits_mip MIP_SSIP ;;
      mret (wrap64 (mepc + 4))
    else
      write_csr_scause CAUSE_ECALL_SMODE ;;
      write_csr_sepc mepc ;;
      write_csr_stval 0 ;;
      stvec ← csr stvec;
      let stvec := stvec .& not64 3 in
      mstatus ← csr mstatus;
      (** SPP = S-mode *)
      let mstatus := mstatus .| (1 .<< 8) in
      set_csr (set_mstatus mstatus) ;;
      mret stvec
  else panic mcause mepc mtval cause_code.

(** The [ecall] in the S-mode handler: the trap to M-mode and its return. *)
Definition sbi_set_timer (a0 : Z) : M unit :=
  m_entry ;;
  m_trap_handler CAUSE_ECALL_SMODE (e_pc e) 0 (regs_frame a0 SBI_SET_TIMER) ;;
  do_mret.

(** ** S-mode trap handler *)

(** Returns what is left in [frame[30]], [slot] on entry.  [pt_walk] never returns a
    null pointer, so [test_fail(200)] has no counterpart. *)
Definition s_trap_handler (scause stval sepc slot : Z) : M Z :=
  set_trap (set_ts_scause scause) ;;
  set_trap (set_ts_stval stval) ;;
  set_trap (set_ts_sepc sepc) ;;
  set_trap (fun t => set_fault_count (s32 (fault_count t + 1)) t) ;;
  let is_interrupt := (scause .>> 63) .& 1 in
  let cause_code := scause .& 0x7FFFFFFFFFFFFFFF in
  if negb (is_interrupt =? 0) then
    set_trap (fun t => set_irq_count (s32 (irq_count t + 1)) t) ;;
    set_trap (set_last_irq_cause scause) ;;
    if cause_code =? IRQ_S_TIMER then
      set_trap (fun t => set_timer_irq_count (s32 (timer_irq_count t + 1)) t) ;;
      sbi_set_timer 0xFFFFFFFFFFFFFFFF ;;
      mret slot
    else if cause_code =? IRQ_S_SOFT then
      set_trap (fun t => set_soft_irq_count (s32 (soft_irq_count t + 1)) t) ;;
      clear_csr_bits_mip SIP_SSIP ;;
      mret slot
    else if cause_code =? IRQ_S_EXT then mret slot
    else
      uart_puts "UNEXPECTED S-MODE INTERRUPT: cause=" ;;
      uart_put_hex scause ;;
      uart_putc 10 ;;
      test_fail (100 + s32 cause_code)
  else if (cause_code =? CAUSE_INST_PAGE_FAULT) || (cause_code =? CAUSE_LOAD_PAGE_FAULT)
          || (cause_code =? CAUSE_STORE_PAGE_FAULT) then
    uart_puts "  [TRAP] Page fault: cause=" ;;
    uart_put_dec cause_code ;;
    uart_puts " stval=" ;;
    uart_put_hex stval ;;
    uart_puts " sepc=" ;;
    uart_put_hex sepc ;;
    uart_putc 10 ;;
    action ← trap handler_action;
    if action =? 1 then
      if cause_code =? CAUSE_INST_PAGE_FAULT then
        uart_puts ("  [TRAP] ERROR: skip unsupported for ifetch faults" +:+ nl) ;;
        test_fail 201
      else
        insn_lo ← gets (fun w => rd16 (w_mem w) sepc);
        let insn_len := if insn_lo .& 0x3 =? 0x3 then 4 else 2 in
        mret (wrap64 (sepc + insn_len))
    else
      satp ← read_csr_satp;
      let root := (satp .& 0x00000FFFFFFFFFFF) .<< PGSHIFT in
      walked ← pt_walk root stval;
      let pte_ptr := walked.1 in
      uart_puts "  [TRAP] PTE before fix: " ;;
      pte ← peek pte_ptr;
      uart_put_hex pte ;;
      uart_putc 10 ;;
      pte ← peek pte_ptr;
      let fixed := pte .| (PTE_V .| PTE_A .| PTE_D) in
      let fixed :=
        if cause_code =? CAUSE_LOAD_PAGE_FAULT then fixed .| PTE_R
        else if cause_code =? CAUSE_STORE_PAGE_FAULT then fixed .| (PTE_R .| PTE_W)
        else if cause_code =? CAUSE_INST_PAGE_FAULT then fixed .| (PTE_R .| PTE_X)
        else fixed in
      poke pte_ptr fixed ;;
      uart_puts "  [TRAP] PTE after fix:  " ;;
      pte ← peek pte_ptr;
      uart_put_hex pte ;;
      uart_putc 10 ;;
      sfence_vma_addr stval ;;
      mret slot
  else if cause_code =? CAUSE_ILLEGAL_INST then
    uart_puts "  [TRAP] Illegal instruction at sepc=" ;;
    uart_put_hex sepc ;;
    uart_putc 10 ;;
    test_fail 300
  else if cause_code =? CAUSE_ECALL_SMODE then
    uart_puts "  [TRAP] ecall from S-mode at sepc=" ;;
    uart_put_hex sepc ;;
    uart_putc 10 ;;
    mret (wrap64 (sepc + 4))
  else
    uart_puts "  [TRAP] Unexpected exception: cause=" ;;
    uart_put_dec cause_code ;;
    uart_puts " stval=" ;;
    uart_put_hex stval ;;
    uart_putc 10 ;;
    test_fail (400 + s32 cause_code).

(** ** S-mode entry point *)

Definition s_mode_entry (test_main : M Z) : M unit :=
  write_csr_stvec (e_s_trap_vector e) ;;
  uart_puts (nl +:+ "=== S-mode entry, stvec set ===" +:+ nl) ;;
  result ← test_main;
  if result =? 0 then test_pass else test_fail result.

(** Zephyr's reset code calls this in place of its kernel; [wfi] for ever. *)
Definition baremetal_main (test_main : M Z) : M unit :=
  s_mode_entry test_main ;;
  out_of_fuel.
End Copy.
End Copy.
