(* ===== verification/Builds.v ===== *)
(** * The two builds of the suite

    [src/baremetal/common] holds a copy of [smode.c] and [m_trap.c] for QEMU whose
    only change is the sink of the verdict.  [e_qemu] chooses between the two.  Here
    the copy's own functions are written out and shown to be the shared ones at
    [e_qemu = true] ([Copy]), and every handler and program is shown to run the same
    under both builds up to the word that reports the verdict ([Copies]). *)

From S2P Require Import Prelude Platform Memory Sv39 PtTree PageMap PageTable Tlb TlbRel Console Machine MTrap STrap Hart SuiteMmu SuiteFault SuiteIrq AllHarts QemuCopy.

(** ** The builds and their verdicts *)

Definition with_qemu (b : bool) (e : env) : env :=
  {| e_qemu := b; e_svadu := e_svadu e; e_hit := e_hit e; e_dt := e_dt e; e_sc := e_sc e;
     e_page_table_start := e_page_table_start e; e_s_trap_vector := e_s_trap_vector e;
     e_pc := e_pc e; e_heap_start := e_heap_start e; e_heap_end := e_heap_end e |}.
Abbreviation spike := (with_qemu false).
Abbreviation qemu := (with_qemu true).

(** The words the two builds write for the same verdict. *)
Inductive same_verdict : Z -> Z -> Prop :=
| verdict_pass : same_verdict htif_pass_word qemu_pass_word
| verdict_fail code : same_verdict (htif_fail_word code) (qemu_fail_word code)
| verdict_panic e cause : same_verdict (panic_word (spike e) cause) (panic_word (qemu e) cause).

(** The same run, but for those words. *)
Inductive same_run {A} : outcome A -> outcome A -> Prop :=
| same_ret a w : same_run (Ret a w) (Ret a w)
| same_halt v v' w : same_verdict v v' ->
    same_run (Halt (set_w_verdict (Some v) w)) (Halt (set_w_verdict (Some v') w))
| same_fuel w : same_run (OutOfFuel w) (OutOfFuel w).

Definition Copies {A} (m m' : M A) : Prop := forall w, same_run (m w) (m' w).

(** ** The copy does what the original does

    Function by function, with the original at [e_qemu = true]. *)

Section SameFunctions.
Context (e : env).

Lemma same_bind {A B} (m m' : M A) (k k' : A -> M B) :
  Same m m' -> (forall a, Same (k a) (k' a)) -> Same (mbind k m) (mbind k' m').
Proof using.
  intros Hm Hk w. unfold mbind, M_bind. rewrite (Hm w). destruct (m' w); [apply Hk|done..].
Qed.

Lemma same_assoc {A B C} (m : M A) (k : A -> M B) (k' : B -> M C) m' :
  Same (a ← m; (b ← k a; k' b)) m' -> Same (b ← (a ← m; k a); k' b) m'.
Proof using. intros H w. rewrite <- (H w). unfold mbind, M_bind. by destruct (m w). Qed.

Lemma same_sym {A} (m m' : M A) : Same m m' -> Same m' m.
Proof using. intros H w. by rewrite (H w). Qed.

Lemma same_putc c : Same (Copy.uart_putc c) (out_putc c).
Proof using. done. Qed.

Lemma same_puts s : Same (Copy.uart_puts s) (out_puts s).
Proof using.
  induction s as [|a s IH]; intros w; [by destruct w|]. cbn [Copy.uart_puts].
  unfold when, mbind, M_bind. destruct (code_of a =? 10) eqn:E; cbn; rewrite IH;
    unfold out_puts, modify, uart_puts; fold uart_puts; rewrite E; reflexivity.
Qed.

Lemma put_digits_out val n w :
  Copy.put_digits n val w = Ret tt (set_w_out (put_hex_digits n val (w_out w)) w).
Proof using.
  revert w. induction n as [|n IH]; intros w; [by destruct w|]. cbn [Copy.put_digits].
  unfold mbind, M_bind. cbn. by rewrite IH.
Qed.

Lemma same_hex val : Same (Copy.uart_put_hex val) (out_hex val).
Proof using.
  intros w. unfold Copy.uart_put_hex, mbind, M_bind. rewrite same_puts. cbn -[Copy.put_digits].
  by rewrite put_digits_out.
Qed.

Lemma fill_buf_digits n : forall val buf, Copy.fill_buf n val buf = buf ++ dec_digits n val.
Proof using.
  induction n as [|n IH]; intros val buf; cbn [Copy.fill_buf dec_digits]; [by rewrite app_nil_r|].
  destruct (0 <? Z.quot val 10); [|done]. by rewrite IH, <- app_assoc.
Qed.

(** The buffer has room for more digits than an [int] has. *)
Lemma dec_digits_room n m : forall val, (0 < n)%nat -> val < 10 ^ Z.of_nat n ->
  dec_digits (n + m) val = dec_digits n val.
Proof using.
  induction n as [|n IH]; intros val Hn Hv; [lia|]. cbn [Nat.add dec_digits].
  destruct (Z.ltb_spec 0 (Z.quot val 10)) as [Hq|]; [|done]. f_equal.
  assert (0 <= val) by (Z.to_euclidean_division_equations; lia).
  rewrite Z.quot_div_nonneg in * by lia.
  rewrite Nat2Z.inj_succ, Z.pow_succ_r in Hv by lia.
  assert (val / 10 < 10 ^ Z.of_nat n) by (apply Z.div_lt_upper_bound; lia).
  apply IH; [|done]. destruct n; [cbn in *; lia|lia].
Qed.

Lemma put_buf_out l w : Copy.put_buf l w = Ret tt (set_w_out (foldl (fun o c => putc c o) (w_out w) l) w).
Proof using.
  revert w. induction l as [|c l IH]; intros w; [by destruct w|]. cbn [Copy.put_buf].
  unfold mbind, M_bind. cbn. by rewrite IH.
Qed.

Lemma put_rev l o : foldl (fun o c => putc c o) o (rev l) = fold_right putc o l.
Proof using. induction l as [|c l IH]; [done|]. cbn [rev fold_right]. by rewrite foldl_app, IH. Qed.

Lemma same_dec val : Same (Copy.uart_put_dec val) (out_dec val).
Proof using.
  intros w. unfold Copy.uart_put_dec, out_dec, modify, uart_put_dec.
  assert (forall v, - 2 ^ 31 <= s32 v < 2 ^ 31) as Hr
    by (intros v; unfold s32; pose proof (Z.mod_pos_bound (v + 2 ^ 31) (2 ^ 32)); lia).
  assert (forall v, rev (Copy.fill_buf 20 (s32 v) []) = rev (dec_digits 10 (s32 v))) as Hd.
  { intros v. rewrite fill_buf_digits. f_equal. apply (dec_digits_room 10 10); [lia|].
    specialize (Hr v). change (10 ^ Z.of_nat 10) with 10000000000. lia. }
  unfold when, mbind, M_bind. destruct (s32 val <? 0); cbn -[Copy.fill_buf dec_digits];
    rewrite Hd, put_buf_out, put_rev; reflexivity.
Qed.

Lemma same_pass {A} : Same (@Copy.test_pass A) (test_pass (qemu e)).
Proof using. apply same_bind; [apply same_puts|done]. Qed.

Lemma same_fail {A} code : Same (@Copy.test_fail A code) (test_fail (qemu e) code).
Proof using.
  apply same_bind; [apply same_puts|intros _]. apply same_bind; [apply same_dec|intros _].
  apply same_bind; [done|intros _]. intros w. unfold finish, Copy.qemu_test_exit, finish. cbn [e_qemu with_qemu].
  by unfold qemu_fail_word.
Qed.

Lemma same_assert condition msg code :
  Same (Copy.test_assert condition msg code) (test_assert (qemu e) condition msg code).
Proof using.
  unfold Copy.test_assert, test_assert, when. destruct (negb condition); [|done].
  do 2 (apply same_bind; [apply same_puts|intros _]). apply same_bind; [done|intros _]. apply same_fail.
Qed.

(** *** Page tables *)

Lemma for_poke n : forall a i w,
  for_up n i (fun i => Copy.poke (a + 8 * i) 0) w = Ret tt (set_w_mem (zero_words (w_mem w) (a + 8 * i) n) w).
Proof using.
  induction n as [|n IH]; intros a i w; [by destruct w|]. cbn [for_up zero_words].
  unfold mbind, M_bind. cbn [Copy.poke modify]. rewrite IH.
  by replace (a + 8 * (i + 1)) with (a + 8 * i + 8) by lia.
Qed.

Lemma copy_alloc w :
  Copy.pt_alloc_page e w = Ret (pt_alloc_page (e_page_table_start e) (pt_state w)).1
    (with_pt (pt_alloc_page (e_page_table_start e) (pt_state w)).2 w).
Proof using.
  unfold Copy.pt_alloc_page, gets, modify, mbind, M_bind. rewrite for_poke.
  by rewrite Z.mul_0_r, Z.add_0_r.
Qed.

Lemma same_alloc : Same (Copy.pt_alloc_page e) (do_pt_alloc_page (qemu e)).
Proof using. intros w. rewrite copy_alloc. reflexivity. Qed.

Lemma same_setup : Same (Copy.pt_setup_identity_kernel e) (do_pt_setup_identity_kernel (qemu e)).
Proof using.
  intros w. unfold Copy.pt_setup_identity_kernel, mbind, M_bind. rewrite copy_alloc. reflexivity.
Qed.

(** [if (!( *pte & PTE_V)) *pte = pte_branch(pt_alloc_page());] *)
Definition ensure (a : Z) (st : ptstate) : ptstate :=
  if negb (tst (rd64 (pt_mem st) a) PTE_V)
  then let '(pg, st) := pt_alloc_page (e_page_table_start e) st in put64 st a (pte_branch pg)
  else st.

Lemma copy_ensure {B} a (k : M B) w :
  (pte ← Copy.peek a;
   when (negb (tst pte PTE_V)) (page ← Copy.pt_alloc_page e; Copy.poke a (Copy.pte_branch page)) ;; k) w
  = k (with_pt (ensure a (pt_state w)) w).
Proof using.
  unfold Copy.peek, gets, when, mbind, M_bind, ensure. change (pt_mem (pt_state w)) with (w_mem w).
  destruct (negb _); [by rewrite copy_alloc|by destruct w].
Qed.

Lemma pt_state_with st w : pt_state (with_pt st w) = st.
Proof using. by destruct st. Qed.

Lemma same_map root va pa perm valid :
  Same (Copy.pt_map_page e root va pa perm valid) (do_pt_map_page (qemu e) root va pa perm valid).
Proof using.
  intros w. unfold Copy.pt_map_page. rewrite copy_ensure. set (st1 := ensure _ (pt_state w)).
  unfold mbind at 1, M_bind at 1, Copy.peek at 1, gets. cbv zeta. rewrite copy_ensure, pt_state_with.
  change (w_mem (with_pt st1 w)) with (pt_mem st1).
  set (st2 := ensure _ st1).
  assert (do_pt_map_page (qemu e) root va pa perm valid w
    = Ret tt (with_pt (let l2 := (rd64 (pt_mem st2) ((rd64 (pt_mem st1) (root + 8 * vpn2 va) .>> PTE_PPN_SHIFT) .<< PGSHIFT
                         + 8 * vpn1 va) .>> PTE_PPN_SHIFT) .<< PGSHIFT in
        if valid then put64 st2 (l2 + 8 * vpn0 va) (pte_leaf pa perm)
        else put64 st2 (l2 + 8 * vpn0 va) (((pa .>> PGSHIFT) .<< PTE_PPN_SHIFT) .| (perm .& not64 PTE_V))) w))
    as -> by reflexivity.
  unfold mbind, M_bind, Copy.peek, gets. by destruct valid.
Qed.

Lemma copy_walk root va w : Copy.pt_walk root va w = Ret (pt_walk (w_mem w) root va) w.
Proof using.
  unfold Copy.pt_walk, pt_walk, Copy.peek, gets, mbind, M_bind.
  change Copy.vpn2 with vpn2. change Copy.vpn1 with vpn1. change Copy.vpn0 with vpn0. cbv zeta.
  by repeat (case_goal; cbn [negb]).
Qed.

Lemma same_mmu_enable root : Same (Copy.mmu_enable_sv39 root) (mmu_enable_sv39 root).
Proof using. done. Qed.

(** *** The trap handlers *)

Lemma same_m_handler mcause mepc mtval frame :
  Same (Copy.m_trap_handler mcause mepc mtval frame) (m_trap_handler (qemu e) mcause mepc mtval frame).
Proof using. intros w. unfold Copy.m_trap_handler, m_trap_handler, when. by repeat case_match. Qed.

Lemma same_sbi_set_timer a0 : Same (Copy.sbi_set_timer e a0) (sbi_ecall (qemu e) a0 SBI_SET_TIMER).
Proof using.
  unfold sbi_ecall, m_trap. apply same_sym, same_assoc, same_bind; [done|intros _].
  apply same_assoc, same_bind; [apply same_sym, same_m_handler|intros resume].
  apply same_assoc. intros w. reflexivity.
Qed.

Lemma same_refl {A} (m : M A) : Same m m.
Proof using. done. Qed.
Lemma same_trans {A} (m n k : M A) : Same m n -> Same n k -> Same m k.
Proof using. intros H1 H2 w. by rewrite H1. Qed.
Lemma same_if {A} (b : bool) (m n m' n' : M A) :
  Same m m' -> Same n n' -> Same (if b then m else n) (if b then m' else n').
Proof using. by destruct b. Qed.

(** [g_trap]'s fields one by one, or at once. *)
Lemma same_set_trap {A} f g h (m m' : M A) :
  (forall t, g (f t) = h t) -> Same m m' -> Same (set_trap f ;; set_trap g ;; m) (set_trap h ;; m').
Proof using.
  intros Hf Hm w. unfold set_trap, modify, mbind, M_bind. rewrite Hm, <- Hf. reflexivity.
Qed.

(** Both functions, statement by statement. *)
Ltac statements :=
  repeat lazymatch goal with
  | |- Same (mbind _ _) (mbind _ _) => apply same_bind; [|intros ?]
  | |- Same (if _ then _ else _) (if _ then _ else _) => apply same_if
  | |- Same (Copy.uart_puts _) _ => apply same_puts
  | |- Same (Copy.uart_put_hex _) _ => apply same_hex
  | |- Same (Copy.uart_put_dec _) _ => apply same_dec
  | |- Same (Copy.uart_putc _) _ => apply same_putc
  | |- Same (Copy.test_fail _) _ => apply same_fail
  | |- Same Copy.test_pass _ => apply same_pass
  | |- Same (Copy.sbi_set_timer _ _) _ => apply same_sbi_set_timer
  | |- Same _ _ => apply same_refl
  end.

(** The repair of the entry. *)
Lemma same_fix cause_code stval slot :
  Same (A := Z)
    (satp ← Copy.read_csr_satp;
     walked ← Copy.pt_walk ((satp .& 0x00000FFFFFFFFFFF) .<< PGSHIFT) stval;
     Copy.uart_puts "  [TRAP] PTE before fix: " ;;
     pte ← Copy.peek walked.1;
     Copy.uart_put_hex pte ;;
     Copy.uart_putc 10 ;;
     pte ← Copy.peek walked.1;
     Copy.poke walked.1 (fixed_pte cause_code pte) ;;
     Copy.uart_puts "  [TRAP] PTE after fix:  " ;;
     pte ← Copy.peek walked.1;
     Copy.uart_put_hex pte ;;
     Copy.uart_putc 10 ;;
     Copy.sfence_vma_addr stval ;;
     mret slot)
    (fix_fault cause_code stval ;; mret slot).
Proof using.
  intros w. unfold fix_fault, mbind, M_bind. cbn [Copy.read_csr_satp csr gets]. rewrite copy_walk.
  unfold satp_root. destruct (pt_walk _ _ _) as [pte_ptr level]. cbn [fst].
  rewrite same_puts. cbn [out_puts modify]. unfold Copy.peek at 1, gets. rewrite same_hex.
  cbn [out_hex modify Copy.uart_putc Copy.peek gets Copy.poke]. rewrite same_puts.
  cbn [out_puts modify]. rewrite same_hex. reflexivity.
Qed.

Lemma same_s_handler scause stval sepc slot :
  Same (Copy.s_trap_handler e scause stval sepc slot) (s_trap_handler (qemu e) scause stval sepc slot).
Proof using.
  unfold Copy.s_trap_handler, s_trap_handler, s_interrupt, s_exception, page_fault. cbv zeta.
  eapply same_trans; [apply same_set_trap; [intros t; reflexivity|apply same_refl]|].
  apply same_set_trap; [intros t; reflexivity|]. statements; try apply same_fix.
  done.
Qed.

Lemma same_entry m : Same (Copy.s_mode_entry e m) (s_mode_entry (qemu e) m).
Proof using. unfold Copy.s_mode_entry, s_mode_entry. statements. Qed.
End SameFunctions.

(** ** The monad *)

Lemma copies_raw {A} (m m' : M A) : Same m m' -> (forall w, same_run (m w) (m w)) -> Copies m m'.
Proof. intros Hm Hs w. rewrite <- Hm. apply Hs. Qed.

Lemma copies_gets {A} (f : world -> A) : Copies (gets f) (gets f).
Proof. constructor. Qed.

Lemma copies_modify f : Copies (modify f) (modify f).
Proof. constructor. Qed.

Lemma copies_ret {A} (a : A) : Copies (mret a) (mret a).
Proof. constructor. Qed.

Lemma copies_out_of_fuel {A} : Copies (@out_of_fuel A) out_of_fuel.
Proof. constructor. Qed.

Lemma copies_finish {A} v v' : same_verdict v v' -> Copies (@finish A v) (finish v').
Proof. by constructor. Qed.

Lemma copies_bind {A B} (m m' : M A) (k k' : A -> M B) :
  Copies m m' -> (forall a, Copies (k a) (k' a)) -> Copies (mbind k m) (mbind k' m').
Proof.
  intros Hm Hk w. unfold mbind, M_bind.
  destruct (Hm w) as [a w1|v v' w1 Hv|w1]; [apply Hk|by constructor..].
Qed.

Lemma copies_same {A} (m n m' n' : M A) : Same m n -> Same m' n' -> Copies n n' -> Copies m m'.
Proof. intros Hm Hm' H w. rewrite Hm, Hm'. apply H. Qed.

Lemma copies_if {A} (b : bool) (m n m' n' : M A) :
  Copies m m' -> Copies n n' -> Copies (if b then m else n) (if b then m' else n').
Proof. by destruct b. Qed.

Lemma copies_for n : forall i (body body' : Z -> M unit),
  (forall i, Copies (body i) (body' i)) -> Copies (for_up n i body) (for_up n i body').
Proof.
  induction n as [|n IH]; intros; cbn [for_up]; [apply copies_ret|].
  apply copies_bind; [done|]. intros _. by apply IH.
Qed.

(** ** The proof of a program's runs follows the program *)

Create HintDb two_builds discriminated.
#[export] Hint Constants Opaque : two_builds.
#[export] Hint Resolve copies_ret copies_out_of_fuel copies_gets copies_modify : two_builds.

Lemma copies_pass {A} e : Copies (@test_pass (spike e) A) (test_pass (qemu e)).
Proof.
  apply copies_bind; [apply copies_modify|intros _]. apply copies_finish, verdict_pass.
Qed.

Lemma copies_fail {A} e code : Copies (@test_fail (spike e) A code) (test_fail (qemu e) code).
Proof.
  do 3 (apply copies_bind; [apply copies_modify|intros _]). apply copies_finish, verdict_fail.
Qed.

Lemma copies_panic e mcause mepc mtval cause :
  Copies (panic (spike e) mcause mepc mtval cause) (panic (qemu e) mcause mepc mtval cause).
Proof.
  apply copies_bind; [apply copies_modify|intros _]. apply copies_finish, verdict_panic.
Qed.
#[export] Hint Resolve copies_pass copies_fail copies_panic : two_builds.

(** The two builds run in the same environment. *)
Ltac same_build :=
  repeat match goal with
  | |- context [e_pc (with_qemu ?h ?e)] => change (e_pc (with_qemu h e)) with (e_pc e)
  | |- context [e_s_trap_vector (with_qemu ?h ?e)] =>
      change (e_s_trap_vector (with_qemu h e)) with (e_s_trap_vector e)
  | |- context [e_page_table_start (with_qemu ?h ?e)] =>
      change (e_page_table_start (with_qemu h e)) with (e_page_table_start e)
  | |- context [e_heap_start (with_qemu ?h ?e)] =>
      change (e_heap_start (with_qemu h e)) with (e_heap_start e)
  | |- context [e_heap_end (with_qemu ?h ?e)] =>
      change (e_heap_end (with_qemu h e)) with (e_heap_end e)
  end.

Ltac copies_step :=
  lazymatch goal with
  | |- Copies (mbind _ _) _ => apply copies_bind; [|intros ?]
  | |- Copies (gets _) _ => apply copies_gets
  | |- Copies (modify _) _ => apply copies_modify
  | |- Copies (for_up _ _ _) _ => apply copies_for; intros ?
  | |- Copies (if ?x then _ else _) _ => first [apply copies_if | destruct x]
  | |- Copies (match ?x with _ => _ end) _ => destruct x
  | |- Copies (let _ := _ in _) _ => cbv zeta
  | |- Copies ?m _ =>
      first [ solve [auto with two_builds nocore]
            | progress (let h := head_of m in unfold h); same_build ]
  end.
Ltac copies := repeat copies_step.

(** ** The hart *)

Section Hart.
Context (e : env).

Lemma copies_translate acc va :
  Copies (translate_once (spike e) acc va) (translate_once (qemu e) acc va).
Proof using.
  apply copies_raw; [done|]. intros w. unfold translate_once. destruct (paging w); [|constructor].
  destruct (tlb_translate _ _ _ _ _ _ _) as [[pa m] t]. constructor.
Qed.
#[local] Hint Resolve copies_translate : two_builds.

Lemma copies_m_trap mcause mtval pc a0 a7 :
  Copies (m_trap (spike e) mcause mtval pc a0 a7) (m_trap (qemu e) mcause mtval pc a0 a7).
Proof using. copies. Qed.
#[local] Hint Resolve copies_m_trap : two_builds.

Lemma copies_s_vector : Copies (s_vector (spike e)) (s_vector (qemu e)).
Proof using. copies. Qed.
#[local] Hint Resolve copies_s_vector : two_builds.

Lemma copies_s_trap cause tval pc : Copies (s_trap (spike e) cause tval pc) (s_trap (qemu e) cause tval pc).
Proof using. copies. Qed.

Lemma copies_ecall a0 a7 : Copies (ecall (spike e) a0 a7) (ecall (qemu e) a0 a7).
Proof using. copies. Qed.
#[local] Hint Resolve copies_s_trap copies_ecall : two_builds.

Lemma copies_access acc va n : Copies (do_access (spike e) n acc va) (do_access (qemu e) n acc va).
Proof using. induction n as [|n IH]; cbn [do_access]; same_build; copies; exact IH. Qed.
#[local] Hint Resolve copies_access : two_builds.

Lemma copies_deliver n : Copies (deliver (spike e) n) (deliver (qemu e) n).
Proof using.
  induction n as [|n IH]; (eapply copies_same; [apply deliver_eq..|]); cbv iota; same_build; copies; exact IH.
Qed.

Lemma copies_tick : Copies (tick (spike e)) (tick (qemu e)).
Proof using. constructor. Qed.
#[local] Hint Resolve copies_deliver copies_tick : two_builds.

Lemma copies_wfi n : Copies (wfi (spike e) n) (wfi (qemu e) n).
Proof using.
  induction n as [|n IH]; (eapply copies_same; [apply wfi_eq..|]); cbv iota; copies; exact IH.
Qed.

Lemma copies_spin n : forall waiting timeout,
  Copies (spin (spike e) n waiting timeout) (spin (qemu e) n waiting timeout).
Proof using. induction n as [|n IH]; intros; cbn [spin]; copies; apply IH. Qed.

Lemma copies_check_loop n : forall i errors,
  Copies (p0_check_loop (spike e) n i errors) (p0_check_loop (qemu e) n i errors).
Proof using.
  induction n as [|n IH]; intros; cbn [p0_check_loop]; [copies|].
  apply copies_bind; [copies|]. intros errors'. apply IH.
Qed.

Lemma copies_setup : Copies (do_pt_setup_identity_kernel (spike e)) (do_pt_setup_identity_kernel (qemu e)).
Proof using.
  apply copies_raw; [done|]. intros w. unfold do_pt_setup_identity_kernel.
  destruct (pt_setup_identity_kernel _ _). constructor.
Qed.

Lemma copies_alloc : Copies (do_pt_alloc_page (spike e)) (do_pt_alloc_page (qemu e)).
Proof using.
  apply copies_raw; [done|]. intros w. unfold do_pt_alloc_page.
  destruct (pt_alloc_page _ _). constructor.
Qed.

Lemma copies_map root va pa perm valid :
  Copies (do_pt_map_page (spike e) root va pa perm valid) (do_pt_map_page (qemu e) root va pa perm valid).
Proof using. constructor. Qed.
#[local] Hint Resolve copies_wfi copies_spin copies_check_loop copies_setup copies_alloc copies_map
  : two_builds.

(** ** The programs *)

Lemma copies_p0 : Copies (p0_test_main (spike e)) (p0_test_main (qemu e)).
Proof using. copies. Qed.
Lemma copies_p1a : Copies (p1a_test_main (spike e)) (p1a_test_main (qemu e)).
Proof using. copies. Qed.
Lemma copies_p1b : Copies (p1b_test_main (spike e)) (p1b_test_main (qemu e)).
Proof using. copies. Qed.
Lemma copies_p1c : Copies (p1c_test_main (spike e)) (p1c_test_main (qemu e)).
Proof using. copies. Qed.
Lemma copies_p1d : Copies (p1d_test_main (spike e)) (p1d_test_main (qemu e)).
Proof using. copies. Qed.
Lemma copies_p2 : Copies (p2_test_main (spike e)) (p2_test_main (qemu e)).
Proof using. copies. Qed.

Lemma copies_entry m m' : Copies m m' -> Copies (s_mode_entry (spike e) m) (s_mode_entry (qemu e) m').
Proof using. intros Hm. unfold s_mode_entry. copies. Qed.
End Hart.

#[export] Hint Resolve copies_translate copies_m_trap copies_s_vector copies_s_trap copies_ecall copies_access
  copies_deliver copies_tick copies_wfi copies_spin copies_check_loop copies_setup copies_alloc copies_map
  copies_entry : two_builds.

(** ** A pass of the copy is a pass of the original *)

Lemma low_half a : wrap32 (0x3333 .| wrap32 (Z.shiftl a 16)) .& 0xFFFF = 0x3333.
Proof.
  apply Z.bits_inj'. intros n Hn. change 0xFFFF with (Z.ones 16). unfold wrap32.
  change (2 ^ 32) with (2 ^ 32)%Z. rewrite Z.land_spec.
  destruct (Z.ltb_spec n 16) as [Hs|Hs].
  - rewrite Z.ones_spec_low by lia. rewrite andb_true_r.
    rewrite Z.mod_pow2_bits_low, Z.lor_spec, Z.mod_pow2_bits_low, Z.shiftl_spec_low by lia.
    by rewrite orb_false_r.
  - rewrite Z.ones_spec_high by lia. rewrite andb_false_r. symmetry.
    apply (Z.bits_above_log2 0x3333); [done|]. cbn. lia.
Qed.

Lemma fail_is_no_pass a : wrap32 (0x3333 .| wrap32 (Z.shiftl a 16)) <> qemu_pass_word.
Proof. intros H. pose proof (low_half a) as Hl. rewrite H in Hl. discriminate. Qed.

Lemma pass_of_copy v v' : same_verdict v v' -> v' = qemu_pass_word -> v = htif_pass_word.
Proof.
  intros [|code|e cause] H; [reflexivity|exfalso..]; revert H.
  - exact (fail_is_no_pass (wrap32 code)).
  - exact (fail_is_no_pass (wrap32 (500 + wrap32 cause))).
Qed.

(** C11: The QEMU copy of [smode.c] and [m_trap.c], translated from its own text
    ([QemuCopy]), is the original but for the verdict: its console output, verdicts,
    page-table functions, trap handlers and [s_mode_entry] do what the original's do
    at [e_qemu = true], in any state; under both builds every trap is handled and every
    single-hart program runs the same, up to the words for one verdict; and a pass of
    the copy is a pass of the original. *)
Theorem qemu_copy_agrees e :
  (forall s, Same (Copy.uart_puts s) (out_puts s)) /\
  (forall v, Same (Copy.uart_put_hex v) (out_hex v) /\ Same (Copy.uart_put_dec v) (out_dec v)) /\
  (forall b msg code, Same (Copy.test_assert b msg code) (test_assert (qemu e) b msg code)) /\
  Same (Copy.pt_alloc_page e) (do_pt_alloc_page (qemu e)) /\ Same Copy.pt_reset do_pt_reset /\
  Same (Copy.pt_setup_identity_kernel e) (do_pt_setup_identity_kernel (qemu e)) /\
  (forall root va pa perm valid,
     Same (Copy.pt_map_page e root va pa perm valid) (do_pt_map_page (qemu e) root va pa perm valid)) /\
  (forall root, Same (Copy.mmu_enable_sv39 root) (mmu_enable_sv39 root)) /\
  (forall scause stval sepc slot,
     Same (Copy.s_trap_handler e scause stval sepc slot) (s_trap_handler (qemu e) scause stval sepc slot) /\
     Copies (s_trap_handler (spike e) scause stval sepc slot) (Copy.s_trap_handler e scause stval sepc slot)) /\
  (forall mcause mepc mtval frame,
     Same (Copy.m_trap_handler mcause mepc mtval frame) (m_trap_handler (qemu e) mcause mepc mtval frame) /\
     Copies (m_trap_handler (spike e) mcause mepc mtval frame) (Copy.m_trap_handler mcause mepc mtval frame)) /\
  Forall (fun test_main : env -> M Z =>
    Copies (s_mode_entry (spike e) (test_main (spike e));; out_of_fuel)
           (Copy.baremetal_main e (test_main (qemu e))))
    [p0_test_main; p1a_test_main; p1b_test_main; p1c_test_main; p1d_test_main; p2_test_main] /\
  (forall v v', same_verdict v v' -> v' = qemu_pass_word -> v = htif_pass_word).
Proof.
  split_and!.
  - apply same_puts.
  - intros v. split; [apply same_hex|apply same_dec].
  - apply same_assert.
  - apply same_alloc.
  - done.
  - apply same_setup.
  - apply same_map.
  - apply same_mmu_enable.
  - intros scause stval sepc slot. split; [apply same_s_handler|].
    eapply copies_same; [apply same_refl|apply same_s_handler|copies].
  - intros mcause mepc mtval frame. split; [apply same_m_handler|].
    eapply copies_same; [apply same_refl|apply same_m_handler|copies].
  - assert (forall m m', Copies m m' ->
      Copies (s_mode_entry (spike e) m;; out_of_fuel) (Copy.baremetal_main e m')) as H.
    { intros m m' Hm. eapply copies_same; [apply same_refl| |apply copies_bind;
        [by apply copies_entry|intros ?; apply copies_out_of_fuel]].
      apply same_bind; [apply same_entry|done]. }
    repeat apply Forall_cons_2; [..|apply Forall_nil_2]; apply H.
    + apply copies_p0.
    + apply copies_p1a.
    + apply copies_p1b.
    + apply copies_p1c.
    + apply copies_p1d.
    + apply copies_p2.
  - exact pass_of_copy.
Qed.
