(* ===== verification/SuiteRuns.v ===== *)
(** * The test programs run to a passing verdict

    [boot.S] up to the entry of S-mode, and the single-hart programs on harts that
    differ in what the architecture leaves open: whether the hart manages A and D,
    when it answers from cached walks, and the build (Spike's or QEMU's verdict).
    The kernel evaluates the runs of the reference hart under QEMU's verdict; every
    other hart follows those ([AllHarts]), and Spike's build runs the same
    ([Builds]). *)

From S2P Require Import Prelude Platform Memory Sv39 PtTree PageMap PageTable Tlb TlbRel Console Machine MTrap STrap Hart SuiteMmu SuiteFault SuiteIrq AllHarts Builds.

(** ** [boot.S] *)

(** The CSRs as [_start] leaves them for S-mode, on a hart whose [mstatus] and
    [mie] were 0 at reset: MSIE and MTIE enabled, MPP set to S, then [mret]. *)
Definition boot_csrs (hart : Z) : csrs :=
  let mie := set_bits 0 (MIP_MSIP .| MIP_MTIP) in
  let mstatus := (0 .& not64 MSTATUS_MPP_MASK) .| MSTATUS_MPP_S in
  mk_csrs hart (mret_status mstatus) mie 0 0 0 0 0 0.

(** [.bss] is cleared, so [g_trap] is zero; the clock has run a little. *)
Definition boot_world (m : mem) : world :=
  mk_world m 0 (boot_csrs 0) (<[CLINT_MTIMECMP 0 := 0xFFFFFFFFFFFFFFFF]> ∅) ∅
    (mk_trap_state 0 0 0 0 0 0 0 0 0 0 0) [] 0 [] None None false.

(** The first instructions of the image. *)
Definition boot_mem : mem := wr64 ∅ SRAM_BASE 0x00029663F14022F3.

(** ** The harts *)

Definition suite_env (qemu svadu : bool) (hit : nat -> bool) : env :=
  {| e_qemu := qemu; e_svadu := svadu; e_hit := hit; e_dt := fun _ => 100; e_sc := fun _ => true;
     e_page_table_start := 0x80010000; e_s_trap_vector := 0x80001000; e_pc := 0x80002000;
     e_heap_start := 0x80020000; e_heap_end := SRAM_END - 0x1000 |}.

Definition verdict (o : outcome unit) : option Z :=
  match o with
  | Halt w => w_verdict w
  | _ => None
  end.

Definition pass_word (qemu : bool) : Z := if qemu then qemu_pass_word else htif_pass_word.

Definition run_on (e : env) (m : M Z) : outcome unit := s_mode_entry e m (boot_world boot_mem).

Definition passes (test_main : env -> M Z) (qemu svadu : bool) (hit : nat -> bool) : bool :=
  let e := suite_env qemu svadu hit in
  bool_decide (verdict (run_on e (test_main e)) = Some (pass_word qemu)).

(** ** From the reference hart to every hart *)

(** The run ends in the verdict [v] and meets no stale walk. *)
Definition ends_fresh (v : Z) (o : outcome unit) : bool :=
  negb (w_stale (end_of o)) && bool_decide (verdict o = Some v).

Definition ref_passes (test_main : env -> M Z) (svadu : bool) : bool :=
  let e := suite_env true svadu (fun _ => false) in
  ends_fresh (pass_word true) (run_on e (test_main e)).
Definition ref_passes_all (test_main : env -> M Z) : bool :=
  forallb (ref_passes test_main) [true; false].

Lemma ref_all test_main svadu :
  ref_passes_all test_main = true -> ref_passes test_main svadu = true.
Proof. unfold ref_passes_all. cbn [forallb]. rewrite !andb_true_iff. destruct svadu; tauto. Qed.

Lemma verdict_rel o o' : outcome_rel o o' -> verdict o = verdict o'.
Proof. destruct o, o'; cbn [outcome_rel]; try done. by intros []. Qed.

Lemma boot_rel m : world_rel (boot_world m) (boot_world m).
Proof. exact (world_twin ∅ false (boot_world m) (tlb_rel_empty _)). Qed.

Lemma follows_verdict (m m' : M unit) w v :
  Lockstep m m' -> world_rel w w -> ends_fresh v (m' w) = true -> verdict (m w) = Some v.
Proof.
  intros Hl Hw [Hs Hv]%andb_true_iff. apply negb_true_iff in Hs.
  apply bool_decide_eq_true in Hv. rewrite <- Hv. by apply verdict_rel, (ls_follows _ _ Hl).
Qed.

Lemma either_verdict (m m1 m2 : M unit) w v :
  Either m m1 m2 -> world_rel w w -> ends_fresh v (m1 w) = true -> ends_fresh v (m2 w) = true ->
  verdict (m w) = Some v.
Proof.
  intros Hl Hw [H1 V1]%andb_true_iff [H2 V2]%andb_true_iff. apply negb_true_iff in H1, H2.
  apply bool_decide_eq_true in V1, V2.
  destruct (ei_follows _ _ _ Hl w w Hw H1 H2) as [H|H]; apply verdict_rel in H; congruence.
Qed.

Lemma run_passes (o o' : outcome unit) :
  same_run o o' -> verdict o' = Some qemu_pass_word -> verdict o = Some htif_pass_word.
Proof.
  intros [a w|v v' w Hv|w] H; [discriminate H| |discriminate H].
  injection H as H. cbn. f_equal. by apply (pass_of_copy v v').
Qed.

Lemma entry_passes e m m' w :
  Copies m m' -> verdict (s_mode_entry (qemu e) m' w) = Some qemu_pass_word ->
  verdict (s_mode_entry (spike e) m w) = Some htif_pass_word.
Proof. intros Hm. apply run_passes, (copies_entry e m m' Hm). Qed.

(** A pass of the QEMU build stands for both builds. *)
Lemma passes_both test_main svadu hit :
  (forall e, Copies (test_main (spike e)) (test_main (qemu e))) ->
  passes test_main true svadu hit = true -> forall qemu, passes test_main qemu svadu hit = true.
Proof.
  intros Hc H [|]; [exact H|]. unfold passes in *.
  apply bool_decide_eq_true in H. apply bool_decide_eq_true.
  change (suite_env false svadu hit) with (spike (suite_env true svadu hit)).
  change (suite_env true svadu hit) with (qemu (suite_env true svadu hit)) in H.
  exact (entry_passes _ _ _ _ (Hc _) H).
Qed.

Lemma passes_every_hart test_main :
  (forall e, Lockstep (test_main e) (test_main (no_hit e))) ->
  (forall e, Copies (test_main (spike e)) (test_main (qemu e))) ->
  ref_passes_all test_main = true ->
  forall qemu svadu hit, passes test_main qemu svadu hit = true.
Proof.
  intros Hl Hc Hr qemu svadu hit. apply passes_both; [exact Hc|].
  apply (ref_all _ svadu) in Hr. unfold ref_passes in Hr.
  change (suite_env true svadu (fun _ => false)) with (no_hit (suite_env true svadu hit)) in Hr.
  apply bool_decide_eq_true. eapply follows_verdict; [apply lockstep_entry, Hl|apply boot_rel|exact Hr].
Qed.

Lemma passes_either_way test_main ref1 ref2 :
  (forall e, Either (test_main e) (ref1 (no_hit e)) (ref2 (no_hit e))) ->
  (forall e, Copies (test_main (spike e)) (test_main (qemu e))) ->
  ref_passes_all ref1 = true -> ref_passes_all ref2 = true ->
  forall qemu svadu hit, passes test_main qemu svadu hit = true.
Proof.
  intros Hl Hc H1 H2 qemu svadu hit. apply passes_both; [exact Hc|].
  apply (ref_all _ svadu) in H1, H2. unfold ref_passes in H1, H2.
  change (suite_env true svadu (fun _ => false)) with (no_hit (suite_env true svadu hit)) in H1, H2.
  apply bool_decide_eq_true.
  eapply either_verdict; [apply either_entry, Hl|apply boot_rel|exact H1|exact H2].
Qed.

(** ** The programs *)

Lemma p0_passes qemu svadu hit : passes p0_test_main qemu svadu hit = true.
Proof. apply passes_every_hart; [exact lockstep_p0|exact copies_p0|vm_compute; reflexivity]. Qed.

Lemma p1a_passes qemu svadu hit : passes p1a_test_main qemu svadu hit = true.
Proof. apply passes_every_hart; [exact lockstep_p1a|exact copies_p1a|vm_compute; reflexivity]. Qed.

Lemma p1b_passes qemu svadu hit : passes p1b_test_main qemu svadu hit = true.
Proof. apply passes_every_hart; [exact lockstep_p1b|exact copies_p1b|vm_compute; reflexivity]. Qed.

Lemma p1c_passes qemu svadu hit : passes p1c_test_main qemu svadu hit = true.
Proof. apply passes_every_hart; [exact lockstep_p1c|exact copies_p1c|vm_compute; reflexivity]. Qed.

(** P1D.2 reads either the old or the new page. *)
Lemma p1d_passes qemu svadu hit : passes p1d_test_main qemu svadu hit = true.
Proof.
  apply (passes_either_way _ (fun e => p1d_peeking e e) (fun e => p1d_peeking (all_hit e) e));
    [|exact copies_p1d|vm_compute; reflexivity..].
  intros e. change (all_hit (no_hit e)) with (all_hit e). exact (either_p1d e).
Qed.

Lemma p2_passes qemu svadu hit : passes p2_test_main qemu svadu hit = true.
Proof. apply passes_every_hart; [exact lockstep_p2|exact copies_p2|vm_compute; reflexivity]. Qed.

(** C9: The six single-hart programs (P0, P1A to P1D, P2) end in PASS under Spike's and
    QEMU's verdicts, on harts with and without hardware A/D management, whichever
    cached walks the hart uses and whenever it uses them, with the clock advancing by
    100 at every turn. *)
Theorem single_hart_programs_pass qemu svadu hit :
  Forall (fun p => passes p qemu svadu hit = true)
    [p0_test_main; p1a_test_main; p1b_test_main; p1c_test_main; p1d_test_main; p2_test_main].
Proof.
  apply Forall_cons_2; [apply p0_passes|]. apply Forall_cons_2; [apply p1a_passes|].
  apply Forall_cons_2; [apply p1b_passes|]. apply Forall_cons_2; [apply p1c_passes|].
  apply Forall_cons_2; [apply p1d_passes|]. apply Forall_cons_2; [apply p2_passes|apply Forall_nil_2].
Qed.
