(* ===== verification/AnyClock.v ===== *)
(** * The interrupt tests with any clock

    An abstract interrupt machine ([irqs]: the clock, the comparator, the pending and
    enable bits, [g_trap]) that the hart implements: [deliver] from any hart is
    [settle] on its [view].  Total-correctness triples over it ([ends]) show that the
    tests of [tests/p2_interrupts.c] but P2.4 return and pass however fast the clock
    runs; [P2Run] adds P2.4 and the whole program. *)

From S2P Require Import Prelude Platform Memory Sv39 PtTree PageMap PageTable Tlb Console Machine MTrap STrap Hart SuiteMmu SuiteIrq Faults Interrupts.

(** ** The abstract interrupt machine *)

Record irqs := mk_irqs {
  i_now : Z;
  i_cmp : Z;
  i_msip : bool;
  i_ip1 : bool;
  i_ip5 : bool;
  i_ie1 : bool;
  i_ie5 : bool;
  i_ie7 : bool;
  i_sie : bool;
  i_trap : trap_state
}.

Definition advance (dt : Z) (a : irqs) : irqs :=
  mk_irqs (i_now a + dt) (i_cmp a) (i_msip a) (i_ip1 a) (i_ip5 a) (i_ie1 a) (i_ie5 a) (i_ie7 a) (i_sie a) (i_trap a).
Definition arm (v : Z) (a : irqs) : irqs :=
  mk_irqs (i_now a) v (i_msip a) (i_ip1 a) false (i_ie1 a) (i_ie5 a) true (i_sie a) (i_trap a).
Definition raise_msip (a : irqs) : irqs :=
  mk_irqs (i_now a) (i_cmp a) true (i_ip1 a) (i_ip5 a) (i_ie1 a) (i_ie5 a) (i_ie7 a) (i_sie a) (i_trap a).
Definition put_ie (b1 b5 : bool) (a : irqs) : irqs :=
  mk_irqs (i_now a) (i_cmp a) (i_msip a) (i_ip1 a) (i_ip5 a) b1 b5 (i_ie7 a) (i_sie a) (i_trap a).
Definition put_sie (b : bool) (a : irqs) : irqs :=
  mk_irqs (i_now a) (i_cmp a) (i_msip a) (i_ip1 a) (i_ip5 a) (i_ie1 a) (i_ie5 a) (i_ie7 a) b (i_trap a).
Definition on_trap (f : trap_state -> trap_state) (a : irqs) : irqs :=
  mk_irqs (i_now a) (i_cmp a) (i_msip a) (i_ip1 a) (i_ip5 a) (i_ie1 a) (i_ie5 a) (i_ie7 a) (i_sie a) (f (i_trap a)).

(** What interrupts leave alone: memory, the page pool, the cached walks, [satp]. *)
Record core := mk_core { c_mem : mem; c_pool : Z; c_tlb : tlb; c_satp : Z }.
Definition core_of (w : world) : core := mk_core (w_mem w) (w_pool w) (w_tlb w) (satp (w_csrs w)).

Section Machine.
Context (e : env) (K : core).

(** M-mode forwards, S-mode takes; software before timer. *)
Definition forward_soft (a : irqs) : irqs :=
  if i_msip a
  then mk_irqs (i_now a) (i_cmp a) false true (i_ip5 a) (i_ie1 a) (i_ie5 a) (i_ie7 a) (i_sie a) (i_trap a)
  else a.
Definition forward_timer (a : irqs) : irqs :=
  if (i_cmp a <=? i_now a) && i_ie7 a
  then mk_irqs (i_now a) MTIMECMP_MAX (i_msip a) (i_ip1 a) true (i_ie1 a) (i_ie5 a) false (i_sie a) (i_trap a)
  else a.
Definition take_soft (a : irqs) : irqs :=
  if i_sie a && (i_ip1 a && i_ie1 a)
  then mk_irqs (i_now a) (i_cmp a) (i_msip a) false (i_ip5 a) (i_ie1 a) (i_ie5 a) (i_ie7 a) (i_sie a) (one_soft e (i_trap a))
  else a.
Definition take_timer (a : irqs) : irqs :=
  if i_sie a && (i_ip5 a && i_ie5 a)
  then mk_irqs (i_now a) MTIMECMP_MAX (i_msip a) (i_ip1 a) false (i_ie1 a) (i_ie5 a) true (i_sie a) (one_timer e (i_trap a))
  else a.
Definition settle (a : irqs) : irqs := take_timer (take_soft (forward_timer (forward_soft a))).

(** ** The hart implements it *)

Definition view (w : world) : irqs :=
  mk_irqs (clint_read CLINT_MTIME w) (clint_read (CLINT_MTIMECMP 0) w) (msip w)
    (ip w 1) (ip w 5) (ie w 1) (ie w 5) (ie w 7) (s_enabled w) (g_trap w).

(** Hart 0, with M-mode software interrupts on and no other source, over memory [K]. *)
Record steady (w : world) : Prop := {
  st_id : mhartid (w_csrs w) = 0;
  st_time : clint_read CLINT_MTIME w < MTIMECMP_MAX;
  st_ip n : 0 <= n -> n <> 1 -> n <> 5 -> ip w n = false;
  st_ie3 : ie w 3 = true;
  st_core : core_of w = K
}.

Lemma steady_ok w : steady w -> hart_ok w.
Proof using. intros [H ? _ _ _]. split; [rewrite H; by split|done]. Qed.

Lemma mtip_view w : steady w -> mtip w = (i_cmp (view w) <=? i_now (view w)).
Proof using. intros Hs. unfold mtip. by rewrite (st_id _ Hs). Qed.

Lemma clint_0 : CLINT_MTIME <> CLINT_MTIMECMP 0 /\ CLINT_MTIME <> CLINT_MSIP 0 /\ CLINT_MSIP 0 <> CLINT_MTIMECMP 0.
Proof using. by apply clint_distinct. Qed.

(** A step keeps [steady] and moves the view. *)
Record moves (w w' : world) (a' : irqs) : Prop := {
  mv_steady : steady w';
  mv_view : view w' = a'
}.

Lemma moves_step ip' ie' w w' a' :
  steady w -> irq_step ip' ie' w w' ->
  (forall n, 0 <= n -> n <> 1 -> n <> 5 -> ip' n false = false) -> ie' 3 true = true ->
  clint_read CLINT_MTIME w' = clint_read CLINT_MTIME w ->
  view w' = a' -> moves w w' a'.
Proof using.
  intros [Hid Ht Hip Hie Hk] Hs H1 H3 Hnow Hv. split; [|exact Hv]. split.
  - by rewrite (is_id _ _ _ _ Hs).
  - by rewrite Hnow.
  - intros n Hn N1 N5. rewrite (is_ip _ _ _ _ Hs), Hip by done. by apply H1.
  - by rewrite (is_ie _ _ _ _ Hs), Hie by lia.
  - destruct (is_mem _ _ _ _ Hs) as (E1 & E2 & E3). unfold core_of.
    rewrite E1, E2, E3, (is_pool _ _ _ _ Hs). exact Hk.
Qed.

(** The fields of the view after a step, one by one. *)
Ltac fields Hs :=
  unfold view; rewrite ?(is_ip _ _ _ _ Hs), ?(is_ie _ _ _ _ Hs), ?(is_enabled _ _ _ _ Hs) by lia.

Lemma m_timer_moves w : steady w ->
  moves w (after_m_timer w)
    (mk_irqs (i_now (view w)) MTIMECMP_MAX (msip w) (ip w 1) true (ie w 1) (ie w 5) false (s_enabled w) (g_trap w)).
Proof using.
  intros Hw. destruct (m_timer_step w (steady_ok w Hw)) as (Hs & _ & Hms). destruct clint_0 as (D1 & D2 & D3).
  assert (forall x, clint_read x (after_m_timer w) = if x =? CLINT_MTIMECMP 0 then MTIMECMP_MAX else clint_read x w) as Hc
    by (intros x; unfold after_m_timer; by rewrite clint_read_set, (st_id _ Hw)).
  eapply moves_step; [exact Hw|exact Hs| |done| |].
  - intros n Hn N1 N5. unfold raise_bit. by rewrite (proj2 (Z.eqb_neq n 5) N5).
  - by rewrite Hc, (proj2 (Z.eqb_neq _ _) D1).
  - fields Hs. rewrite Hms, !Hc, Z.eqb_refl, (proj2 (Z.eqb_neq _ _) D1). reflexivity.
Qed.

Lemma m_soft_moves w : steady w ->
  moves w (after_m_soft w)
    (mk_irqs (i_now (view w)) (i_cmp (view w)) false true (ip w 5) (ie w 1) (ie w 5) (ie w 7) (s_enabled w) (g_trap w)).
Proof using.
  intros Hw. destruct (m_soft_step w (steady_ok w Hw)) as (Hs & _ & Hms). destruct clint_0 as (D1 & D2 & D3).
  assert (forall x, clint_read x (after_m_soft w) = if x =? CLINT_MSIP 0 then 0 else clint_read x w) as Hc
    by (intros x; unfold after_m_soft; by rewrite clint_read_set, (st_id _ Hw)).
  eapply moves_step; [exact Hw|exact Hs| |done| |].
  - intros n Hn N1 N5. unfold raise_bit. by rewrite (proj2 (Z.eqb_neq n 1) N1).
  - by rewrite Hc, (proj2 (Z.eqb_neq _ _) D2).
  - fields Hs. rewrite Hms, !Hc, (proj2 (Z.eqb_neq _ _) D2), (proj2 (Z.eqb_neq (CLINT_MTIMECMP 0) (CLINT_MSIP 0)) (not_eq_sym D3)).
    reflexivity.
Qed.

Lemma s_soft_moves w : steady w ->
  moves w (after_s_soft (e_pc e) w)
    (mk_irqs (i_now (view w)) (i_cmp (view w)) (msip w) false (ip w 5) (ie w 1) (ie w 5) (ie w 7) (s_enabled w) (one_soft e (g_trap w))).
Proof using.
  intros Hw. destruct (s_soft_step (e_pc e) w (steady_ok w Hw)) as (Hs & _ & Hms).
  eapply moves_step; [exact Hw|exact Hs| |done|done|].
  - intros n Hn N1 N5. unfold lower_bit. by rewrite andb_false_r.
  - fields Hs. rewrite Hms. reflexivity.
Qed.

Lemma s_timer_moves w : steady w ->
  moves w (after_s_timer (e_pc e) w)
    (mk_irqs (i_now (view w)) MTIMECMP_MAX (msip w) (ip w 1) false (ie w 1) (ie w 5) true (s_enabled w) (one_timer e (g_trap w))).
Proof using.
  intros Hw. destruct (s_timer_step (e_pc e) w (steady_ok w Hw)) as (Hs & _ & Hms). destruct clint_0 as (D1 & D2 & D3).
  assert (forall x, clint_read x (after_s_timer (e_pc e) w) = if x =? CLINT_MTIMECMP 0 then MTIMECMP_MAX else clint_read x w) as Hc.
  { intros x. rewrite <- (st_id _ Hw). exact (clint_read_set x _ MTIMECMP_MAX (map_csrs _ w)). }
  eapply moves_step; [exact Hw|exact Hs| |done| |].
  - intros n Hn N1 N5. unfold lower_bit. by rewrite andb_false_r.
  - by rewrite Hc, (proj2 (Z.eqb_neq _ _) D1).
  - fields Hs. rewrite Hms, !Hc, Z.eqb_refl, (proj2 (Z.eqb_neq _ _) D1). reflexivity.
Qed.

Lemma set_timer_moves v w : steady w -> moves w (after_set_timer v w) (arm v (view w)).
Proof using.
  intros Hw. destruct (set_timer_step v w (steady_ok w Hw)) as (Hs & _ & Hms). destruct clint_0 as (D1 & D2 & D3).
  assert (forall x, clint_read x (after_set_timer v w) = if x =? CLINT_MTIMECMP 0 then v else clint_read x w) as Hc
    by (intros x; unfold after_set_timer; by rewrite clint_read_set, (st_id _ Hw)).
  eapply moves_step; [exact Hw|exact Hs| |done| |].
  - intros n Hn N1 N5. unfold lower_bit. by rewrite andb_false_r.
  - by rewrite Hc, (proj2 (Z.eqb_neq _ _) D1).
  - fields Hs. rewrite Hms, !Hc, Z.eqb_refl, (proj2 (Z.eqb_neq _ _) D1). reflexivity.
Qed.

Lemma send_ipi_moves w : steady w -> moves w (after_send_ipi 0 w) (raise_msip (view w)).
Proof using.
  intros Hw. destruct (send_ipi_self_step w (steady_ok w Hw)) as (Hs & _ & Hms). rewrite (st_id _ Hw) in *.
  destruct clint_0 as (D1 & D2 & D3).
  assert (forall x, clint_read x (after_send_ipi 0 w) = if x =? CLINT_MSIP 0 then 1 else clint_read x w) as Hc
    by (intros x; exact (clint_read_set x _ 1 (map_csrs _ w))).
  eapply moves_step; [exact Hw|exact Hs|done|done| |].
  - by rewrite Hc, (proj2 (Z.eqb_neq _ _) D2).
  - fields Hs. rewrite Hms, !Hc, (proj2 (Z.eqb_neq _ _) D2), (proj2 (Z.eqb_neq (CLINT_MTIMECMP 0) (CLINT_MSIP 0)) (not_eq_sym D3)).
    reflexivity.
Qed.

(** *** Delivery, interrupt by interrupt *)

(** [deliver] goes on from a state that [a'] describes, one interrupt taken at most. *)
Definition delivers (n : nat) (w : world) (a' : irqs) : Prop := exists n' w',
  (n <= n')%nat /\ deliver e (S n) w = deliver e n' w' /\ moves w w' a'.

Lemma delivers_moves n w w' a' : deliver e (S n) w = deliver e n w' -> moves w w' a' -> delivers n w a'.
Proof using. intros E Hm. by exists n, w'. Qed.
Lemma delivers_nothing n w : steady w -> delivers n w (view w).
Proof using. intros Hw. exists (S n), w. split; [lia|]. by split. Qed.

Lemma deliver_1 n w : steady w -> delivers n w (forward_soft (view w)).
Proof using.
  intros Hw. unfold forward_soft. cbn [i_msip view]. destruct (msip w) eqn:E; [|by apply delivers_nothing].
  eapply delivers_moves; [|by apply m_soft_moves].
  apply deliver_m_soft. by rewrite m_pending_eq, E, (st_ie3 _ Hw).
Qed.

Lemma deliver_2 n w : steady w -> msip w = false -> delivers n w (forward_timer (view w)).
Proof using.
  intros Hw Hm. unfold forward_timer. rewrite <- mtip_view by done. cbn [i_ie7 view].
  destruct (mtip w && ie w 7) eqn:E; [|by apply delivers_nothing].
  eapply delivers_moves; [|by apply m_timer_moves].
  apply deliver_m_timer. by rewrite m_pending_eq, Hm, E.
Qed.

(** Nothing left for M-mode. *)
Definition m_quiet (a : irqs) : Prop := i_msip a = false /\ (i_cmp a <=? i_now a) && i_ie7 a = false.

Lemma m_quiet_pending w : steady w -> m_quiet (view w) -> m_pending w = None.
Proof using.
  intros Hw [Hm Ht]. rewrite <- mtip_view in Ht by done.
  change (msip w = false) in Hm. change (mtip w && ie w 7 = false) in Ht. by rewrite m_pending_eq, Hm, Ht.
Qed.

Lemma s_pending_view w : steady w ->
  s_pending w = if s_enabled w && (ip w 1 && ie w 1) then Some IRQ_S_SOFT
                else if s_enabled w && (ip w 5 && ie w 5) then Some IRQ_S_TIMER else None.
Proof using. intros Hw. rewrite s_pending_eq, (st_ip _ Hw 9) by lia. by destruct (s_enabled w). Qed.

Lemma deliver_3 n w : steady w -> m_quiet (view w) -> delivers n w (take_soft (view w)).
Proof using.
  intros Hw Hq. unfold take_soft. cbn [i_sie i_ip1 i_ie1 view].
  destruct (s_enabled w && (ip w 1 && ie w 1)) eqn:E; [|by apply delivers_nothing].
  eapply delivers_moves; [|by apply s_soft_moves].
  apply deliver_s_soft; [by apply m_quiet_pending|]. by rewrite s_pending_view, E.
Qed.

Lemma deliver_4 n w : steady w -> m_quiet (view w) -> s_enabled w && (ip w 1 && ie w 1) = false ->
  delivers n w (take_timer (view w)).
Proof using.
  intros Hw Hq Hs. unfold take_timer. cbn [i_sie i_ip5 i_ie5 view].
  destruct (s_enabled w && (ip w 5 && ie w 5)) eqn:E; [|by apply delivers_nothing].
  eapply delivers_moves; [|by apply s_timer_moves].
  apply deliver_s_timer; [by apply m_quiet_pending|]. by rewrite s_pending_view, Hs, E.
Qed.

Lemma forward_timer_quiet a : i_now a < MTIMECMP_MAX -> i_msip a = false -> m_quiet (forward_timer a).
Proof using.
  intros Ht Hm. unfold forward_timer, m_quiet. destruct (_ && _) eqn:E; [|by split].
  split; [exact Hm|apply andb_false_r].
Qed.

Lemma take_soft_quiet a : m_quiet a -> m_quiet (take_soft a).
Proof using. unfold take_soft. by destruct (_ && _). Qed.

Lemma take_soft_taken a : i_sie (take_soft a) && (i_ip1 (take_soft a) && i_ie1 (take_soft a)) = false.
Proof using. 
  unfold take_soft. destruct (i_sie a && (i_ip1 a && i_ie1 a)) eqn:E; [apply andb_false_r|exact E].
Qed.

Definition soft_ready (a : irqs) : bool := i_sie a && (i_ip1 a && i_ie1 a).
Definition timer_ready (a : irqs) : bool := i_sie a && (i_ip5 a && i_ie5 a).

Lemma take_timer_quiet a : i_now a < MTIMECMP_MAX -> m_quiet a -> soft_ready a = false ->
  m_quiet (take_timer a) /\ soft_ready (take_timer a) = false /\ timer_ready (take_timer a) = false.
Proof using.
  intros Ht Hq Hs. unfold take_timer. destruct (i_sie a && (i_ip5 a && i_ie5 a)) eqn:E; [|done].
  destruct Hq as [Hm _]. split_and!; [split; [exact Hm|]|exact Hs|apply andb_false_r].
  apply andb_false_intro1, Z.leb_gt, Ht.
Qed.

(** Any number of turns of [deliver] above four takes what is pending, as [settle]
    says, and ends. *)
Lemma deliver_settles n w : steady w -> exists w',
  deliver e (4 + n) w = Ret tt w' /\ moves w w' (settle (view w)).
Proof using.
  intros Hw. destruct (deliver_1 (3 + n) w Hw) as (n1 & w1 & L1 & E1 & [H1 V1]).
  destruct n1 as [|n1]; [lia|].
  assert (msip w1 = false) as Hm1 by (change (msip w1) with (i_msip (view w1)); rewrite V1;
    unfold forward_soft; destruct (i_msip (view w)) eqn:E; [done|exact E]).
  destruct (deliver_2 n1 w1 H1 Hm1) as (n2 & w2 & L2 & E2 & [H2 V2]). destruct n2 as [|n2]; [lia|].
  assert (m_quiet (view w2)) as Q2 by (rewrite V2; apply forward_timer_quiet; [apply (st_time _ H1)|exact Hm1]).
  destruct (deliver_3 n2 w2 H2 Q2) as (n3 & w3 & L3 & E3 & [H3 V3]). destruct n3 as [|n3]; [lia|].
  assert (m_quiet (view w3)) as Q3 by (rewrite V3; by apply take_soft_quiet).
  assert (s_enabled w3 && (ip w3 1 && ie w3 1) = false) as S3
    by (change (i_sie (view w3) && (i_ip1 (view w3) && i_ie1 (view w3)) = false); rewrite V3; apply take_soft_taken).
  destruct (deliver_4 n3 w3 H3 Q3 S3) as (n4 & w4 & _ & E4 & [H4 V4]).
  exists w4. split; [|split; [exact H4|rewrite V4, V3, V2, V1; reflexivity]].
  change (4 + n)%nat with (S (3 + n)). rewrite E1, E2, E3, E4.
  destruct (take_timer_quiet (view w3) (st_time _ H3) Q3 S3) as (Q4 & A4 & B4). rewrite <- V4 in Q4, A4, B4.
  apply deliver_idle; [by apply m_quiet_pending|]. rewrite s_pending_view by done.
  unfold soft_ready, timer_ready in A4, B4. cbn [i_sie i_ip1 i_ie1 i_ip5 i_ie5 view] in A4, B4. by rewrite A4, B4.
Qed.

(** ** Programs on the abstract machine *)

(** [m] returns, from any state the view of which is [a], and [Q] holds of its value
    and of the view it leaves. *)
Definition ends {A} (m : M A) (a : irqs) (Q : A -> irqs -> Prop) : Prop :=
  forall w, steady w -> view w = a -> exists v w', m w = Ret v w' /\ steady w' /\ Q v (view w').

Lemma ends_bind {A B} (m : M A) (k : A -> M B) a Q :
  ends m a (fun v a' => ends (k v) a' Q) -> ends (mbind k m) a Q.
Proof using.
  intros Hm w Hw Hv. destruct (Hm w Hw Hv) as (v & w1 & E1 & Hw1 & Hk).
  destruct (Hk w1 Hw1 eq_refl) as (v2 & w2 & E2 & Hw2 & HQ).
  exists v2, w2. split_and!; [|done..]. unfold mbind, M_bind. by rewrite E1.
Qed.

Lemma ends_mono {A} (m : M A) a (Q R : A -> irqs -> Prop) :
  ends m a Q -> (forall v a', Q v a' -> R v a') -> ends m a R.
Proof using.
  intros Hm HQ w Hw Hv. destruct (Hm w Hw Hv) as (v & w1 & E & Hw1 & H). exists v, w1. auto.
Qed.

Lemma ends_ret {A} (v : A) a (Q : A -> irqs -> Prop) : Q v a -> ends (mret v) a Q.
Proof using. intros HQ w Hw <-. by exists v, w. Qed.

Lemma ends_run {A} (m : M A) (f : world -> A) (g : world -> world) a (Q : A -> irqs -> Prop) a' :
  (forall w, m w = Ret (f w) (g w)) -> (forall w, steady w -> view w = a -> moves w (g w) a') ->
  (forall w, steady w -> view w = a -> Q (f w) a') -> ends m a Q.
Proof using.
  intros Hm Hg HQ w Hw Hv. destruct (Hg w Hw Hv) as [Hw' Hv']. exists (f w), (g w).
  split; [apply Hm|]. split; [exact Hw'|]. rewrite Hv'. by apply HQ.
Qed.

Lemma moves_same w w' : steady w ->
  w_csrs w' = w_csrs w -> w_clint w' = w_clint w -> g_trap w' = g_trap w -> core_of w' = core_of w ->
  moves w w' (view w).
Proof using.
  intros [H1 H2 H3 H4 H5] Ec El Et Ek.
  assert (view w' = view w) as Hv by (unfold view, msip, ip, ie, s_enabled, clint_read; by rewrite Ec, El, Et).
  split; [|exact Hv]. unfold ip, ie, clint_read in *. split; unfold ip, ie, clint_read; by rewrite ?Ec, ?El, ?Ek.
Qed.

Lemma ends_out f a (Q : unit -> irqs -> Prop) :
  Q tt a -> ends (modify (fun w => set_w_out (f w) w)) a Q.
Proof using.
  intros HQ. apply (ends_run _ (fun _ => tt) (fun w => set_w_out (f w) w) a Q a); [done| |done].
  intros w Hw <-. by apply moves_same.
Qed.

Lemma ends_gets {A} (f : world -> A) a (Q : A -> irqs -> Prop) :
  (forall w, steady w -> view w = a -> Q (f w) a) -> ends (gets f) a Q.
Proof using.
  intros HQ. apply (ends_run _ f id a Q a); [done| |done]. intros w Hw <-. by split.
Qed.

Lemma ends_trap {A} (f : trap_state -> A) a (Q : A -> irqs -> Prop) :
  Q (f (i_trap a)) a -> ends (trap f) a Q.
Proof using. intros HQ. apply ends_gets. by intros w _ <-. Qed.

Lemma ends_set_trap f a (Q : unit -> irqs -> Prop) : Q tt (on_trap f a) -> ends (set_trap f) a Q.
Proof using.
  intros HQ. apply (ends_run _ (fun _ => tt) (fun w => set_g_trap (f (g_trap w)) w) a Q (on_trap f a));
    [done| |done]. intros w Hw <-. split; [by destruct Hw|done].
Qed.

Lemma ends_mtime a (Q : Z -> irqs -> Prop) : Q (i_now a) a -> ends read_mtime a Q.
Proof using. intros HQ. apply ends_gets. by intros w _ <-. Qed.

Lemma ends_sip a (Q : Z -> irqs -> Prop) :
  (forall v, tst v SIP_STIP = i_ip5 a -> Q v a) -> ends read_sip a Q.
Proof using.
  intros HQ. apply ends_gets. intros w _ <-. apply HQ. change SIP_STIP with (2 ^ 5).
  rewrite tst_bit, Z.land_spec by lia. apply andb_true_r.
Qed.

Lemma ends_assert b msg code a (Q : unit -> irqs -> Prop) :
  b = true -> Q tt a -> ends (test_assert e b msg code) a Q.
Proof using. intros ->. apply ends_ret. Qed.

Lemma ends_assert_eq x y msg code a (Q : unit -> irqs -> Prop) :
  x = y -> Q tt a -> ends (ASSERT_EQ e x y msg code) a Q.
Proof using. intros ->. unfold ASSERT_EQ. rewrite Z.eqb_refl. apply ends_ret. Qed.

(** *** The enable bits *)

Lemma ends_mie f a (Q : unit -> irqs -> Prop) b1 b5 :
  (forall x, Z.testbit (f x) 3 = Z.testbit x 3) -> (forall x, Z.testbit (f x) 7 = Z.testbit x 7) ->
  (forall w, view w = a -> Z.testbit (f (mie (w_csrs w))) 1 = b1 /\ Z.testbit (f (mie (w_csrs w))) 5 = b5) ->
  Q tt (put_ie b1 b5 a) -> ends (set_csr (fun c => set_mie (f (mie c)) c)) a Q.
Proof using.
  intros H3 H7 Hb HQ.
  apply (ends_run _ (fun _ => tt) (fun w => set_w_csrs (set_mie (f (mie (w_csrs w))) (w_csrs w)) w) a Q (put_ie b1 b5 a));
    [done| |done].
  intros w Hw Hv. destruct (Hb w Hv) as [E1 E5]. subst a. destruct Hw as [S1 S2 S3 S4 S5]. split.
  - split; [exact S1|exact S2|exact S3| |exact S5]. unfold ie. cbn [w_csrs set_w_csrs mie set_mie]. by rewrite H3.
  - unfold view, put_ie, ie. cbn [w_csrs set_w_csrs mie set_mie i_ie7]. by rewrite E1, E5, H7.
Qed.

Lemma ends_stie a (Q : unit -> irqs -> Prop) :
  Q tt (put_ie (i_ie1 a) true a) -> ends (set_csr_bits_mie SIP_STIP) a Q.
Proof using.
  apply (ends_mie (fun x => set_bits x SIP_STIP)); intros x; change SIP_STIP with (2 ^ 5);
    [by rewrite set_bits_bit by lia..|]. intros <-. by rewrite !set_bits_bit by lia.
Qed.

Lemma ends_ssie a (Q : unit -> irqs -> Prop) :
  Q tt (put_ie true (i_ie5 a) a) -> ends (set_csr_bits_mie SIP_SSIP) a Q.
Proof using.
  apply (ends_mie (fun x => set_bits x SIP_SSIP)); intros x; change SIP_SSIP with (2 ^ 1);
    [by rewrite set_bits_bit by lia..|]. intros <-. by rewrite !set_bits_bit by lia.
Qed.

(** [write_sie(SIP_SSIP)] *)
Lemma ends_write_sie a (Q : unit -> irqs -> Prop) :
  Q tt (put_ie true false a) -> ends (write_sie SIP_SSIP) a Q.
Proof using.
  apply (ends_mie (fun x => Z.ldiff x asm_MIDELEG_DEFAULT .| (SIP_SSIP .& asm_MIDELEG_DEFAULT)));
    intros x; cbv beta; change (SIP_SSIP .& asm_MIDELEG_DEFAULT) with (2 ^ 1); rewrite ?Z.lor_spec, ?Z.ldiff_spec.
  - change (Z.testbit asm_MIDELEG_DEFAULT 3) with false. by destruct (Z.testbit x 3).
  - change (Z.testbit asm_MIDELEG_DEFAULT 7) with false. by destruct (Z.testbit x 7).
  - intros _.
    change (Z.testbit asm_MIDELEG_DEFAULT 1) with true. change (Z.testbit asm_MIDELEG_DEFAULT 5) with true.
    by rewrite !andb_false_r.
Qed.

Lemma ends_sie f b a (Q : unit -> irqs -> Prop) :
  (forall x, tst (f x) MSTATUS_SIE = b) ->
  Q tt (put_sie b a) -> ends (set_csr (fun c => set_mstatus (f (mstatus c)) c)) a Q.
Proof using.
  intros Hf HQ.
  apply (ends_run _ (fun _ => tt) (fun w => set_w_csrs (set_mstatus (f (mstatus (w_csrs w))) (w_csrs w)) w) a Q (put_sie b a));
    [done| |done].
  intros w [S1 S2 S3 S4 S5] <-. split; [by split|]. unfold view, put_sie, s_enabled.
  cbn [w_csrs set_w_csrs mstatus set_mstatus]. by rewrite Hf.
Qed.

Lemma ends_disable a (Q : unit -> irqs -> Prop) : Q tt (put_sie false a) -> ends disable_s_interrupts a Q.
Proof using.
  apply (ends_sie (fun x => clear_bits x MSTATUS_SIE)). intros x. change MSTATUS_SIE with (2 ^ 1).
  by rewrite tst_clear_bits by lia.
Qed.

(** *** SBI calls *)

Lemma sbi_set_timer_run v w : sbi_set_timer e v w = Ret tt (after_set_timer v w).
Proof using.
  unfold sbi_set_timer, ecall, mbind, M_bind. rewrite set_timer_run. by rewrite Z.eqb_refl.
Qed.

Lemma ends_set_timer v a (Q : unit -> irqs -> Prop) : Q tt (arm v a) -> ends (sbi_set_timer e v) a Q.
Proof using.
  intros HQ. apply (ends_run _ (fun _ => tt) (after_set_timer v) a Q (arm v a)); [apply sbi_set_timer_run| |done].
  intros w Hw <-. by apply set_timer_moves.
Qed.

Lemma ends_send_ipi a (Q : unit -> irqs -> Prop) : Q tt (raise_msip a) -> ends (sbi_send_ipi e 0) a Q.
Proof using.
  intros HQ. apply (ends_run _ (fun _ => tt) (after_send_ipi 0) a Q (raise_msip a)); [apply sbi_send_ipi_run| |done].
  intros w Hw <-. by apply send_ipi_moves.
Qed.

(** *** Time *)

(** Every turn takes some time, and not too much. *)
Definition max_dt : Z := 2 ^ 20.
Context (Hclock : forall n, 1 <= e_dt e n <= max_dt).

Lemma tick_moves w : steady w -> 0 <= i_now (view w) -> i_now (view w) + max_dt < 2 ^ 63 ->
  exists dt w', tick e w = Ret tt w' /\ 1 <= dt <= max_dt /\ moves w w' (advance dt (view w)).
Proof using Hclock.
  intros Hw H0 H1. destruct (Hclock (w_steps w)) as [Hlo Hhi]. destruct clint_0 as (D1 & D2 & D3).
  set (now := clint_read CLINT_MTIME w + e_dt e (w_steps w)).
  change (0 <= clint_read CLINT_MTIME w) in H0. change (clint_read CLINT_MTIME w + max_dt < 2 ^ 63) in H1.
  exists (e_dt e (w_steps w)), (set_w_steps (S (w_steps w)) (set_clint CLINT_MTIME now w)).
  assert (wrap64 now = now) as E by (apply wrap64_small; unfold now, max_dt in *; lia).
  split; [unfold tick; fold now; by rewrite E|]. split; [done|].
  assert (forall x, clint_read x (set_w_steps (S (w_steps w)) (set_clint CLINT_MTIME now w))
                    = if x =? CLINT_MTIME then now else clint_read x w) as Hc
    by (intros x; exact (clint_read_set x CLINT_MTIME now w)).
  split.
  - split; [apply (st_id _ Hw)| |apply (st_ip _ Hw)|apply (st_ie3 _ Hw)|apply (st_core _ Hw)].
    rewrite Hc, Z.eqb_refl. unfold now, max_dt, MTIMECMP_MAX in *. lia.
  - unfold view, advance, msip. cbn [i_now i_cmp i_msip i_ip1 i_ip5 i_ie1 i_ie5 i_ie7 i_sie i_trap].
    rewrite !Hc. change (w_csrs (set_w_steps (S (w_steps w)) (set_clint CLINT_MTIME now w))) with (w_csrs w).
    rewrite (st_id _ Hw), Z.eqb_refl, (proj2 (Z.eqb_neq _ _) (not_eq_sym D1)), (proj2 (Z.eqb_neq _ _) (not_eq_sym D2)).
    reflexivity.
Qed.

Lemma ends_window a (Q : unit -> irqs -> Prop) :
  0 <= i_now a -> i_now a + max_dt < 2 ^ 63 ->
  (forall dt, 1 <= dt <= max_dt -> Q tt (settle (advance dt a))) -> ends (irq_window e) a Q.
Proof using Hclock.
  intros H0 H1 HQ w Hw <-. destruct (tick_moves w Hw H0 H1) as (dt & w1 & E & Hdt & [Hw1 Hv1]).
  destruct (deliver_settles 4 w1 Hw1) as (w2 & E2 & [Hw2 Hv2]). exists tt, w2.
  split; [|split; [exact Hw2|rewrite Hv2, Hv1; by apply HQ]].
  unfold irq_window, mbind, M_bind. by rewrite E.
Qed.

(** ** The states the tests go through *)

(** Nothing pending; a timer set for [v]; the timer held; a software interrupt asked
    for; the software interrupt held. *)
Definition idle now b1 b5 sie t : irqs := mk_irqs now MTIMECMP_MAX false false false b1 b5 true sie t.
Definition armed now v b1 b5 sie t : irqs := mk_irqs now v false false false b1 b5 true sie t.
Definition held now b1 b5 sie t : irqs := mk_irqs now MTIMECMP_MAX false false true b1 b5 false sie t.
Definition sent now b1 b5 sie t : irqs := mk_irqs now MTIMECMP_MAX true false false b1 b5 true sie t.
Definition soft_held now b1 b5 sie t : irqs := mk_irqs now MTIMECMP_MAX false true false b1 b5 true sie t.

Lemma not_due now dt : now + dt < 2 ^ 63 -> (MTIMECMP_MAX <=? now + dt) = false.
Proof using. intros H. apply Z.leb_gt. unfold MTIMECMP_MAX. lia. Qed.

Ltac settles := intros; unfold idle, armed, held, sent, soft_held, advance, settle, forward_soft, forward_timer;
  cbn [i_now i_cmp i_msip i_ip1 i_ip5 i_ie1 i_ie5 i_ie7 i_sie i_trap];
  rewrite ?not_due by done; cbn [andb].

Lemma settle_idle now b1 b5 sie t dt : now + dt < 2 ^ 63 ->
  settle (advance dt (idle now b1 b5 sie t)) = idle (now + dt) b1 b5 sie t.
Proof using. settles. by destruct sie. Qed.

Lemma settle_early now v b1 b5 sie t dt : now + dt < v ->
  settle (advance dt (armed now v b1 b5 sie t)) = armed (now + dt) v b1 b5 sie t.
Proof using. settles. rewrite (proj2 (Z.leb_gt _ _)) by done. by destruct sie. Qed.

Lemma settle_due now v b1 b5 sie t dt : v <= now + dt ->
  settle (advance dt (armed now v b1 b5 sie t)) =
    if sie && b5 then idle (now + dt) b1 b5 sie (one_timer e t) else held (now + dt) b1 b5 sie t.
Proof using. settles. rewrite (proj2 (Z.leb_le _ _)) by done. by destruct sie, b5. Qed.

Lemma settle_held now b1 b5 sie t dt : now + dt < 2 ^ 63 ->
  settle (advance dt (held now b1 b5 sie t)) =
    if sie && b5 then idle (now + dt) b1 b5 sie (one_timer e t) else held (now + dt) b1 b5 sie t.
Proof using. settles. by destruct sie, b5. Qed.

Lemma settle_sent now b1 b5 sie t dt : now + dt < 2 ^ 63 ->
  settle (advance dt (sent now b1 b5 sie t)) =
    if sie && b1 then idle (now + dt) b1 b5 sie (one_soft e t) else soft_held (now + dt) b1 b5 sie t.
Proof using. settles. by destruct sie, b1. Qed.

Lemma settle_soft_held now b1 b5 sie t dt : now + dt < 2 ^ 63 ->
  settle (advance dt (soft_held now b1 b5 sie t)) =
    if sie && b1 then idle (now + dt) b1 b5 sie (one_soft e t) else soft_held (now + dt) b1 b5 sie t.
Proof using. settles. by destruct sie, b1. Qed.

(** ** Waiting *)

Ltac clk := unfold max_dt in *; lia.

Lemma window_idle now b1 b5 sie t (Q : unit -> irqs -> Prop) : 0 <= now -> now + max_dt < 2 ^ 63 ->
  (forall now', now < now' <= now + max_dt -> Q tt (idle now' b1 b5 sie t)) ->
  ends (irq_window e) (idle now b1 b5 sie t) Q.
Proof using Hclock.
  intros H0 H1 HQ. apply ends_window; [done..|]. intros dt Hdt. rewrite settle_idle by clk. apply HQ. clk.
Qed.

Lemma window_held now b1 t (Q : unit -> irqs -> Prop) : 0 <= now -> now + max_dt < 2 ^ 63 ->
  (forall now', now < now' <= now + max_dt -> Q tt (idle now' b1 true true (one_timer e t))) ->
  ends (irq_window e) (held now b1 true true t) Q.
Proof using Hclock.
  intros H0 H1 HQ. apply ends_window; [done..|]. intros dt Hdt. rewrite settle_held by clk. apply HQ. clk.
Qed.

Lemma window_soft_held now b5 t (Q : unit -> irqs -> Prop) : 0 <= now -> now + max_dt < 2 ^ 63 ->
  (forall now', now < now' <= now + max_dt -> Q tt (idle now' true b5 true (one_soft e t))) ->
  ends (irq_window e) (soft_held now true b5 true t) Q.
Proof using Hclock.
  intros H0 H1 HQ. apply ends_window; [done..|]. intros dt Hdt. rewrite settle_soft_held by clk. apply HQ. clk.
Qed.

Lemma window_masked now b5 t (Q : unit -> irqs -> Prop) : 0 <= now -> now + max_dt < 2 ^ 63 ->
  (forall now', now < now' <= now + max_dt -> Q tt (soft_held now' true b5 false t)) ->
  ends (irq_window e) (sent now true b5 false t) Q.
Proof using Hclock.
  intros H0 H1 HQ. apply ends_window; [done..|]. intros dt Hdt. rewrite settle_sent by clk. apply HQ. clk.
Qed.

(** [n] turns in a state that only the clock changes. *)
Lemma windows_same (st : Z -> irqs) n : forall i now (Q : unit -> irqs -> Prop),
  (forall now, i_now (st now) = now) ->
  (forall now dt, now + dt < 2 ^ 63 -> settle (advance dt (st now)) = st (now + dt)) ->
  0 <= now -> now + (Z.of_nat n + 1) * max_dt < 2 ^ 63 ->
  (forall now', now <= now' <= now + Z.of_nat n * max_dt -> Q tt (st now')) ->
  ends (for_up n i (fun _ => irq_window e)) (st now) Q.
Proof using Hclock.
  induction n as [|n IH]; intros i now Q Hnow Hst H0 H1 HQ; cbn [for_up].
  - apply ends_ret, HQ. clk.
  - apply ends_bind, ends_window; rewrite ?Hnow; [done|clk|]. intros dt Hdt.
    rewrite Hst by clk. apply IH; [done|done|clk|clk|]. intros now' Hn. apply HQ. clk.
Qed.

(** [n] turns are enough for a timer due within [n]. *)
Lemma windows_armed b1 b5 sie t v n : forall i now (Q : unit -> irqs -> Prop),
  sie && b5 = false -> v - now <= Z.of_nat n -> (0 < n)%nat ->
  0 <= now -> now + (Z.of_nat n + 1) * max_dt < 2 ^ 63 ->
  (forall now', now <= now' <= now + Z.of_nat n * max_dt -> Q tt (held now' b1 b5 sie t)) ->
  ends (for_up n i (fun _ => irq_window e)) (armed now v b1 b5 sie t) Q.
Proof using Hclock.
  induction n as [|n IH]; intros i now Q Hm Hv Hn H0 H1 HQ; cbn [for_up]; [lia|].
  apply ends_bind, ends_window; [done|cbn; clk|]. intros dt Hdt.
  destruct (Z.le_gt_cases v (now + dt)) as [Hd|Hd].
  - rewrite settle_due, Hm by done.
    apply (windows_same (fun now => held now b1 b5 sie t)); [done| |clk|clk|].
    + intros now' dt' Hb. by rewrite settle_held, Hm.
    + intros now' Hb. apply HQ. clk.
  - rewrite settle_early by lia. apply IH; [done|lia|lia|clk|clk|]. intros now' Hb. apply HQ. clk.
Qed.

(** With the interrupt enabled, one of them takes it. *)
Lemma windows_fire b1 t v n : forall i now (Q : unit -> irqs -> Prop),
  v - now <= Z.of_nat n -> (0 < n)%nat -> 0 <= now -> now + (Z.of_nat n + 1) * max_dt < 2 ^ 63 ->
  (forall now', now <= now' <= now + Z.of_nat n * max_dt -> Q tt (idle now' b1 true true (one_timer e t))) ->
  ends (for_up n i (fun _ => irq_window e)) (armed now v b1 true true t) Q.
Proof using Hclock.
  induction n as [|n IH]; intros i now Q Hv Hn H0 H1 HQ; cbn [for_up]; [lia|].
  apply ends_bind, ends_window; [done|cbn; clk|]. intros dt Hdt.
  destruct (Z.le_gt_cases v (now + dt)) as [Hd|Hd].
  - rewrite settle_due by done.
    apply (windows_same (fun now => idle now b1 true true (one_timer e t))); [done| |clk|clk|].
    + intros now' dt' Hb. by rewrite settle_idle.
    + intros now' Hb. apply HQ. clk.
  - rewrite settle_early by lia. apply IH; [lia|lia|clk|clk|]. intros now' Hb. apply HQ. clk.
Qed.

Lemma spin_done fuel waiting timeout a (Q : Z -> irqs -> Prop) :
  waiting (i_trap a) = false -> Q timeout a -> ends (spin e fuel waiting timeout) a Q.
Proof using.
  intros Hw HQ. destruct fuel; cbn [spin]; apply ends_bind, ends_trap; rewrite Hw; by apply ends_ret.
Qed.

Lemma spin_turn fuel waiting timeout a (Q : Z -> irqs -> Prop) :
  waiting (i_trap a) = true -> 1 < timeout ->
  ends (irq_window e) a (fun _ a' => ends (spin e fuel waiting (timeout - 1)) a' Q) ->
  ends (spin e (S fuel) waiting timeout) a Q.
Proof using.
  intros Hw Ht Hs. cbn [spin]. apply ends_bind, ends_trap. rewrite Hw.
  rewrite (proj2 (Z.ltb_lt 0 (timeout - 1))) by lia. by apply ends_bind.
Qed.

(** A spin loop sees its timer interrupt, and its timeout is not used up. *)
Lemma spin_timer waiting b1 t v : waiting t = true -> waiting (one_timer e t) = false ->
  forall fuel timeout now (Q : Z -> irqs -> Prop),
  Z.max 1 (v - now) <= Z.of_nat fuel -> Z.max 1 (v - now) < timeout ->
  0 <= now -> now + (Z.of_nat fuel + 1) * max_dt < 2 ^ 63 ->
  (forall r now', 0 < r -> now <= now' <= now + (Z.max 1 (v - now) + 1) * max_dt ->
     Q r (idle now' b1 true true (one_timer e t))) ->
  ends (spin e fuel waiting timeout) (armed now v b1 true true t) Q.
Proof using Hclock.
  intros Hw1 Hw2. induction fuel as [|fuel IH]; intros timeout now Q Hf Ht H0 H1 HQ; [lia|].
  apply spin_turn; [exact Hw1|lia|]. apply ends_window; [done|cbn; clk|]. intros dt Hdt.
  destruct (Z.le_gt_cases v (now + dt)) as [Hd|Hd].
  - rewrite settle_due by done. apply spin_done; [exact Hw2|]. apply HQ; [lia|clk].
  - rewrite settle_early by lia. apply IH; [lia|lia|clk|clk|]. intros r now' Hr Hb. apply HQ; [done|clk].
Qed.

Lemma spin_soft waiting b5 t : waiting t = true -> waiting (one_soft e t) = false ->
  forall fuel timeout now (Q : Z -> irqs -> Prop), 1 < timeout ->
  0 <= now -> now + max_dt < 2 ^ 63 ->
  (forall r now', 0 < r -> now <= now' <= now + max_dt -> Q r (idle now' true b5 true (one_soft e t))) ->
  ends (spin e (S fuel) waiting timeout) (sent now true b5 true t) Q.
Proof using Hclock.
  intros Hw1 Hw2 fuel timeout now Q Ht H0 H1 HQ. apply spin_turn; [exact Hw1|done|].
  apply ends_window; [done..|]. intros dt Hdt. rewrite settle_sent by clk.
  apply spin_done; [exact Hw2|]. apply HQ; [lia|clk].
Qed.

(** *** [wfi] *)

Lemma wfi_wakes_view w : steady w ->
  wfi_wakes w = msip w || mtip w && ie w 7 || (ip w 1 && ie w 1 || ip w 5 && ie w 5).
Proof using.
  intros Hw. unfold wfi_wakes. rewrite m_pending_eq, (st_ie3 _ Hw), andb_true_r.
  destruct (msip w); [done|]. destruct (mtip w && ie w 7); [done|]. cbn [orb].
  destruct (Z.eqb_spec (mip (w_csrs w) .& mie (w_csrs w)) 0) as [E|E]; cbn [negb].
  - assert (forall n, 0 <= n -> ip w n && ie w n = false) as Hn
      by (intros n Hn; unfold ip, ie; by rewrite <- Z.land_spec, E, Z.testbit_0_l).
    by rewrite !Hn by lia.
  - symmetry. apply not_false_iff_true. intros [H1 H5]%orb_false_iff. apply E. apply Z.bits_inj_0. intros n.
    destruct (Z.neg_nonneg_cases n) as [Hn|Hn]; [by apply Z.testbit_neg_r|]. rewrite Z.land_spec.
    destruct (Z.eq_dec n 1) as [->|N1]; [exact H1|]. destruct (Z.eq_dec n 5) as [->|N5]; [exact H5|].
    apply andb_false_intro1. exact (st_ip _ Hw n Hn N1 N5).
Qed.

Definition wakes (a : irqs) : bool :=
  i_msip a || (i_cmp a <=? i_now a) && i_ie7 a || (i_ip1 a && i_ie1 a || i_ip5 a && i_ie5 a).

Lemma wfi_awake n a (Q : unit -> irqs -> Prop) : wakes a = true -> ends (irq_window e) a Q -> ends (wfi e n) a Q.
Proof using.
  intros Ha Hq w Hw <-. assert (wfi_wakes w = true) as E by (rewrite wfi_wakes_view, mtip_view by done; exact Ha).
  destruct n; cbn [wfi]; rewrite E; by apply Hq.
Qed.

Lemma wfi_asleep n a (Q : unit -> irqs -> Prop) : wakes a = false ->
  ends (irq_window e ;; wfi e n) a Q -> ends (wfi e (S n)) a Q.
Proof using.
  intros Ha Hq w Hw <-. assert (wfi_wakes w = false) as E by (rewrite wfi_wakes_view, mtip_view by done; exact Ha).
  cbn [wfi]. rewrite E. by apply Hq.
Qed.

Lemma wfi_held n now b1 t (Q : unit -> irqs -> Prop) : 0 <= now -> now + max_dt < 2 ^ 63 ->
  (forall now', now <= now' <= now + max_dt -> Q tt (held now' b1 true false t)) ->
  ends (wfi e n) (held now b1 true false t) Q.
Proof using Hclock.
  intros H0 H1 HQ. apply wfi_awake; [unfold wakes; cbn; by rewrite orb_true_r|]. apply ends_window; [done..|].
  intros dt Hdt. rewrite settle_held by clk. apply HQ. clk.
Qed.

Lemma wfi_armed b1 t v n : forall now (Q : unit -> irqs -> Prop), v - now <= Z.of_nat n ->
  0 <= now -> now + (Z.of_nat n + 2) * max_dt < 2 ^ 63 ->
  (forall now', now <= now' <= now + (Z.of_nat n + 1) * max_dt -> Q tt (held now' b1 true false t)) ->
  ends (wfi e n) (armed now v b1 true false t) Q.
Proof using Hclock.
  induction n as [|n IH]; intros now Q Hv H0 H1 HQ;
    (destruct (Z.le_gt_cases v now) as [Hd|Hd];
      [apply wfi_awake; [unfold wakes, armed; cbn [i_msip i_cmp i_now i_ie7 orb]; by rewrite (proj2 (Z.leb_le _ _) Hd)|];
       apply ends_window; [done|cbn; clk|]; intros dt Hdt; rewrite settle_due by lia; apply HQ; clk|]); [lia|].
  apply wfi_asleep.
  { unfold wakes, armed. cbn [i_msip i_cmp i_now i_ie7 i_ip1 i_ip5 orb andb]. by rewrite (proj2 (Z.leb_gt _ _) Hd). }
  apply ends_bind, ends_window; [done|cbn; clk|]. intros dt Hdt.
  destruct (Z.le_gt_cases v (now + dt)) as [Hd2|Hd2].
  - rewrite settle_due by done. apply wfi_held; [clk|clk|]. intros now' Hb. apply HQ. clk.
  - rewrite settle_early by lia. apply IH; [lia|clk|clk|]. intros now' Hb. apply HQ. clk.
Qed.

(** ** The tests *)

Lemma ends_log msg a (Q : unit -> irqs -> Prop) : Q tt a -> ends (TEST_LOG msg) a Q.
Proof using. intros HQ. unfold TEST_LOG. do 2 (apply ends_bind, ends_out). by apply ends_out. Qed.

Lemma enable_timer now b1 b5 sie t (Q : unit -> irqs -> Prop) : 0 <= now -> now + max_dt < 2 ^ 63 ->
  (forall now', now < now' <= now + max_dt -> Q tt (idle now' b1 true sie t)) ->
  ends (enable_s_timer_irq e) (idle now b1 b5 sie t) Q.
Proof using Hclock. intros H0 H1 HQ. apply ends_bind, ends_stie. by apply window_idle. Qed.

Lemma enable_soft now b1 b5 sie t (Q : unit -> irqs -> Prop) : 0 <= now -> now + max_dt < 2 ^ 63 ->
  (forall now', now < now' <= now + max_dt -> Q tt (idle now' true b5 sie t)) ->
  ends (enable_s_soft_irq e) (idle now b1 b5 sie t) Q.
Proof using Hclock. intros H0 H1 HQ. apply ends_bind, ends_ssie. by apply window_idle. Qed.

Lemma ends_enable a (Q : unit -> irqs -> Prop) :
  ends (irq_window e) (put_sie true a) Q -> ends (enable_s_interrupts e) a Q.
Proof using.
  intros HQ. apply ends_bind. apply (ends_sie (fun x => set_bits x MSTATUS_SIE) true); [|exact HQ].
  intros x. change MSTATUS_SIE with (2 ^ 1). by rewrite tst_set_bits by lia.
Qed.

Lemma enable_idle now b1 b5 sie t (Q : unit -> irqs -> Prop) : 0 <= now -> now + max_dt < 2 ^ 63 ->
  (forall now', now < now' <= now + max_dt -> Q tt (idle now' b1 b5 true t)) ->
  ends (enable_s_interrupts e) (idle now b1 b5 sie t) Q.
Proof using Hclock. intros H0 H1 HQ. apply ends_enable. by apply window_idle. Qed.

(** [sbi_set_timer(read_mtime() + delta)] *)
Lemma set_timer_in {B} (k : unit -> M B) now delta b1 b5 sie t (Q : B -> irqs -> Prop) :
  0 <= now -> 0 <= delta -> now + delta < 2 ^ 63 ->
  ends (k tt) (armed now (now + delta) b1 b5 sie t) Q ->
  ends (now ← read_mtime; sbi_set_timer e (wrap64 (now + delta)) ≫= k) (idle now b1 b5 sie t) Q.
Proof using.
  intros H0 H1 H2 HQ. apply ends_bind, ends_mtime. cbn [i_now idle].
  rewrite wrap64_small by lia. by apply ends_bind, ends_set_timer.
Qed.

(** A test from an idle state with interrupts off, to such a state, in a bounded time. *)
Definition test_passes (test : M unit) : Prop := forall now b1 b5 t, 0 <= now <= 2 ^ 62 ->
  ends test (idle now b1 b5 false t) (fun _ a =>
    exists now' b1' b5' t', a = idle now' b1' b5' false t' /\ now <= now' <= now + 2 ^ 40).

Ltac now_later := let now' := fresh "now" in let H := fresh "Hn" in intros now' H.
(** The state as a record. *)
Ltac raw :=
  lazymatch goal with
  | |- ends ?m ?a ?Q =>
      let a' := eval cbv beta delta [on_trap put_ie put_sie arm raise_msip idle armed held sent soft_held
        i_now i_cmp i_msip i_ip1 i_ip5 i_ie1 i_ie5 i_ie7 i_sie i_trap] iota in a in
      change (ends m a' Q)
  | _ => idtac
  end.
(** The statements that take no time. *)
Ltac quick_one :=
  lazymatch goal with
  | |- ends (TEST_LOG _) _ _ => apply ends_log
  | |- ends (set_trap _) _ _ => apply ends_set_trap
  | |- ends disable_s_interrupts _ _ => apply ends_disable
  | |- ends (trap _) _ _ => apply ends_trap
  | |- ends (test_assert _ _ _ _) _ _ => apply ends_assert; [first [reflexivity | by apply Z.ltb_lt]|]
  | |- ends (ASSERT_EQ _ _ _ _ _) _ _ => apply ends_assert_eq; [reflexivity|]
  end.
Ltac quick :=
  raw; repeat (lazymatch goal with
               | |- ends (mbind _ _) _ _ => apply ends_bind; quick_one
               | |- ends _ _ _ => quick_one
               end; cbv beta; raw).
Ltac passed := eexists _, _, _, _; split; [reflexivity|clk].

Lemma p2_1_passes : test_passes (p2_1 e).
Proof using Hclock.
  intros now b1 b5 t Hn. unfold p2_1. quick.
  apply ends_bind, enable_timer; [clk..|]. now_later.
  apply ends_bind, enable_idle; [clk..|]. now_later.
  apply set_timer_in; [clk..|]. apply ends_bind.
  apply (spin_timer (fun t => timer_irq_count t =? 0)); [done|done|clk..|].
  intros r now2 Hr Hb. quick. passed.
Qed.

Lemma p2_2_passes : test_passes (p2_2 e).
Proof using Hclock.
  intros now b1 b5 t Hn. unfold p2_2. quick.
  apply ends_bind, enable_soft; [clk..|]. now_later.
  apply ends_bind, enable_idle; [clk..|]. now_later.
  apply ends_bind, ends_send_ipi. raw. apply ends_bind.
  apply (spin_soft (fun t => soft_irq_count t =? 0)); [done|done|done|clk..|].
  intros r now2 Hr Hb. quick. passed.
Qed.

(** One turn of the loop of P2.3. *)
Lemma p2_3_turn now b1 t i c msg code (Q : unit -> irqs -> Prop) :
  timer_irq_count t = c -> (c <? i) = true -> (s32 (c + 1) <? i) = false -> 0 <= now <= 2 ^ 62 + 2 ^ 38 ->
  (forall now', now <= now' <= now + 2 ^ 30 -> Q tt (idle now' b1 true true (one_timer e t))) ->
  ends (now ← read_mtime;
        sbi_set_timer e (wrap64 (now + 500)) ;;
        timeout ← spin_while e (fun t => timer_irq_count t <? i) 500000;
        test_assert e (0 <? timeout) msg code) (idle now b1 true true t) Q.
Proof using Hclock.
  intros Hc H1 H2 Hn HQ. apply set_timer_in; [clk..|]. apply ends_bind.
  apply spin_timer; [by rewrite Hc|cbn; by rewrite Hc|clk..|]. intros r now' Hr Hb.
  apply ends_assert; [by apply Z.ltb_lt|]. apply HQ. clk.
Qed.

Lemma p2_3_passes : test_passes (p2_3 e).
Proof using Hclock.
  intros now b1 b5 t Hn. unfold p2_3. quick.
  apply ends_bind, enable_timer; [clk..|]. now_later.
  apply ends_bind, enable_idle; [clk..|]. now_later.
  apply ends_bind. cbn [for_up].
  apply ends_bind, (p2_3_turn _ _ _ _ 0); [done|done|done|clk|]. now_later.
  apply ends_bind, (p2_3_turn _ _ _ _ 1); [done|done|done|clk|]. now_later.
  apply ends_bind, (p2_3_turn _ _ _ _ 2); [done|done|done|clk|]. now_later.
  apply ends_ret. quick. passed.
Qed.

Lemma p2_5_passes : test_passes (p2_5 e).
Proof using Hclock.
  intros now b1 b5 t Hn. unfold p2_5. quick.
  apply ends_bind, enable_soft; [clk..|]. now_later. quick.
  apply ends_bind, ends_send_ipi. raw. apply ends_bind.
  change (delay e 10000) with (irq_window e ;; for_up (Z.to_nat 9999) 1 (fun _ => irq_window e)).
  apply ends_bind, window_masked; [clk..|]. now_later.
  apply (windows_same (fun now => soft_held now true b5 false _)); [done| |clk..|].
  { intros now3 dt H1. by rewrite settle_soft_held. }
  intros now4 Hb. quick.
  apply ends_bind, ends_enable. raw. apply window_soft_held; [clk..|]. now_later.
  apply ends_bind, window_idle; [clk..|]. now_later.
  apply ends_bind, spin_done; [done|]. quick. passed.
Qed.

Lemma p2_6_passes : test_passes (p2_6 e).
Proof using Hclock.
  intros now b1 b5 t Hn. unfold p2_6. quick.
  apply ends_bind, ends_write_sie. raw.
  apply ends_bind, enable_idle; [clk..|]. now_later.
  apply set_timer_in; [clk..|].
  apply ends_bind, windows_armed; [done|clk..|]. intros now4 Hb. quick.
  apply ends_bind, ends_sip. intros sip Hsip. apply ends_bind, ends_assert; [exact Hsip|].
  apply ends_bind. apply ends_bind, ends_stie. raw. apply window_held; [clk..|]. now_later.
  apply ends_bind, window_idle; [clk..|]. now_later.
  apply ends_bind, spin_done; [done|]. quick. passed.
Qed.

Lemma p2_7_passes : test_passes (p2_7 e).
Proof using Hclock.
  intros now b1 b5 t Hn. unfold p2_7. quick.
  apply ends_bind, enable_timer; [clk..|]. now_later. quick.
  apply set_timer_in; [clk..|].
  apply ends_bind, wfi_armed; [clk..|]. intros now4 Hb.
  apply ends_bind, ends_sip. intros sip Hsip. apply ends_bind, ends_assert; [exact Hsip|]. quick.
  apply ends_bind, ends_enable. raw. apply window_held; [clk..|]. now_later.
  apply ends_bind, window_idle; [clk..|]. now_later. quick. passed.
Qed.
End Machine.
