(* ===== verification/P2Run.v ===== *)
(** * Phase 2 as a whole, with any clock

    [tests/p2_interrupts.c] from the boot of the hart to its verdict, whatever time
    each turn takes: P2.4, which takes a page fault while a timer is set, and the
    composition with the tests of [AnyClock]. *)

From S2P Require Import Prelude Platform Memory Sv39 PtTree PageMap PageTable Tlb Console Machine MTrap STrap Hart SuiteMmu SuiteIrq Faults Interrupts AllHarts Builds SuiteRuns AnyClock.

(** ** The tables of P2.4 *)

Definition p2_4_va : Z := 0xD0400000.
Definition p2_4_pa : Z := SRAM_BASE + 0x1E0000.
Definition p2_4_perm : Z := PTE_R .| PTE_W.
Abbreviation p2_4_entry := (map_entry p2_4_pa p2_4_perm false).

Section Tables.
Context (start : Z) (Hpool : is_page start) (Hend : _page_table_end start <= p2_4_pa).
Abbreviation tables := (tables_ok (H := suite_ptstate start)).

Lemma p2_4_pool_end : _page_table_end start <= 2 ^ 56.
Proof using Hend. unfold p2_4_pa, SRAM_BASE in *. lia. Qed.

Lemma p2_4_page : is_page p2_4_pa.
Proof using. split; [done|]. by vm_compute. Qed.

Lemma p2_4_perm_range : 0 <= p2_4_perm < 1024.
Proof using. by split. Qed.

(** A store to the page leaves the tables alone. *)
Definition p2_4_stored (st : ptstate) (v : Z) : ptstate := put64 st p2_4_pa v.

Lemma slot_below st root t i : tables st root -> 0 <= pt_pool_next_page st <= 8 ->
  pt_used start st t -> idx_ok i -> t + 8 * i < _page_table_end start /\ (t + 8 * i) mod 8 = 0.
Proof using Hpool.
  intros Hok Hn Hu [Hi1 Hi2]. pose proof (slot_aligned t i (wf_page _ _ _ Hok t Hu)) as Ha.
  destruct Hu as (k & Hk & ->). split; [|exact Ha]. unfold pool_page, _page_table_end. lia.
Qed.

Lemma stored_tables st root v : tables st root -> 0 <= pt_pool_next_page st <= 8 ->
  tables (p2_4_stored st v) root.
Proof using Hpool Hend.
  intros Hok Hn. eapply wf_agree; [exact Hok|]. intros t i Hu Hi.
  destruct (slot_below st root t i Hok Hn Hu Hi) as [Hb Ha].
  cbn [st_mem suite_ptstate p2_4_stored put64 pt_mem]. apply rd64_wr64_other; [done|done|lia].
Qed.

(** The kernel's tables with the value stored, and the page mapped without V. *)
Definition p2_4_kernel (m : mem) : ptstate :=
  (pt_setup_identity_kernel start (pt_reset {| pt_mem := m; pt_pool_next_page := 0 |})).2.
Definition p2_4_mapped (m : mem) (v : Z) : ptstate :=
  pt_map_page start (p2_4_stored (p2_4_kernel m) v) start p2_4_va p2_4_pa p2_4_perm false.

Lemma kernel_pool m : pt_pool_next_page (p2_4_kernel m) = 1.
Proof using. by apply setup_root. Qed.

Lemma kernel_tables m : tables (p2_4_kernel m) start.
Proof using Hpool Hend.
  pose proof (setup_ok start Hpool p2_4_pool_end (pt_reset {| pt_mem := m; pt_pool_next_page := 0 |}) eq_refl) as H.
  rewrite (proj1 (setup_root start (pt_reset _) eq_refl)) in H. exact H.
Qed.

(** Two tables are missing for the page. *)
Lemma p2_4_missing m v :
  no_leafb (pt_mem (p2_4_stored (p2_4_kernel m) v)) start (upper_path 0 p2_4_va) = true /\
  missing (pt_mem (p2_4_stored (p2_4_kernel m) v)) start (upper_path 0 p2_4_va) = 2.
Proof using Hpool Hend.
  assert (rd64 (pt_mem (p2_4_stored (p2_4_kernel m) v)) (start + 8 * 3) = 0) as E.
  { cbn [p2_4_stored put64 pt_mem].
    pose proof (slot_aligned start 3 Hpool). unfold _page_table_end in Hend.
    rewrite rd64_wr64_other by (done || lia). by apply setup_slots. }
  change (upper_path 0 p2_4_va) with [3; 130]. cbn [no_leafb missing]. by rewrite E.
Qed.

Lemma p2_4_map_pre m v : map_pre start (p2_4_stored (p2_4_kernel m) v) start p2_4_va.
Proof using Hpool Hend.
  split; [apply stored_tables; [apply kernel_tables|rewrite kernel_pool; lia]|].
  unfold map_room. cbn [st_mem st_room suite_ptstate]. destruct (p2_4_missing m v) as [-> ->].
  cbn [p2_4_stored put64 pt_pool_next_page]. by rewrite kernel_pool.
Qed.

(** What P2.4's load meets. *)
Record faulting (st : ptstate) (v : Z) : Prop := {
  fa_tables : tables st start;
  fa_none c : translate c (pt_mem st) start Load p2_4_va = None;
  fa_slot : exists t, tbl (pt_mem st) start (upper_path 0 p2_4_va) = Some t /\
    rd64 (pt_mem st) (t + 8 * vpn p2_4_va 0) = p2_4_entry /\
    t + 8 * vpn p2_4_va 0 < p2_4_pa /\ (t + 8 * vpn p2_4_va 0) mod 8 = 0;
  fa_value : rd64 (pt_mem st) p2_4_pa = v
}.

Section Mapped.
Context (s s' : ptstate) (Hm : mapped (H := suite_ptstate start) 0 s s' start p2_4_va p2_4_entry).
Context (Hn : pt_pool_next_page s = 1) (Hmiss : missing (pt_mem s) start (upper_path 0 p2_4_va) = 2).

Lemma mapped_pool : 0 <= pt_pool_next_page s' <= 8.
Proof using Hm Hn Hmiss.
  pose proof (md_room _ _ _ _ _ _ Hm) as Hroom. cbn [st_room st_mem suite_ptstate] in Hroom.
  rewrite Hmiss, Hn in Hroom. change (if 0 <=? 1 then 8 - 1 else 0) with 7 in Hroom.
  destruct (Z.leb_spec 0 (pt_pool_next_page s')); lia.
Qed.

Lemma mapped_value : rd64 (pt_mem s') p2_4_pa = rd64 (pt_mem s) p2_4_pa.
Proof using Hend Hm Hn Hmiss.
  apply (md_data _ _ _ _ _ _ Hm); [reflexivity|]. pose proof mapped_pool.
  intros x (k & Hk & ->). unfold pool_page, _page_table_end in *. lia.
Qed.

Lemma mapped_none c : translate c (pt_mem s') start Load p2_4_va = None.
Proof using Hm.
  destruct (md_slot _ _ _ _ _ _ Hm) as (t & _ & _ & Hw). specialize (Hw p2_4_va eq_refl eq_refl).
  rewrite decide_True in Hw by reflexivity. unfold translate. change (canonical p2_4_va) with true. cbv iota.
  cbn [st_mem suite_ptstate] in Hw. rewrite Hw. reflexivity.
Qed.

Lemma mapped_slot : exists t, tbl (pt_mem s') start (upper_path 0 p2_4_va) = Some t /\
    rd64 (pt_mem s') (t + 8 * vpn p2_4_va 0) = p2_4_entry /\
    t + 8 * vpn p2_4_va 0 < p2_4_pa /\ (t + 8 * vpn p2_4_va 0) mod 8 = 0.
Proof using Hpool Hend Hm Hn Hmiss.
  destruct (md_slot _ _ _ _ _ _ Hm) as (t & Ht & He & _). pose proof (md_ok _ _ _ _ _ _ Hm) as Hok.
  assert (pt_used start s' t) as Hu by (eapply (wf_used _ _ _ Hok); [apply upper_path_ok|exact Ht]).
  assert (idx_ok (vpn p2_4_va 0)) as Hi by (split; by vm_compute).
  destruct (slot_below _ start t _ Hok mapped_pool Hu Hi) as [Hb Ha].
  exists t. split_and!; [exact Ht|exact He|lia|exact Ha].
Qed.

Lemma mapped_faulting : faulting s' (rd64 (pt_mem s) p2_4_pa).
Proof using Hpool Hend Hm Hn Hmiss.
  split; [apply (md_ok _ _ _ _ _ _ Hm)|exact mapped_none|exact mapped_slot|exact mapped_value].
Qed.
End Mapped.

Lemma p2_4_faulting m v : 0 <= v < 2 ^ 64 -> faulting (p2_4_mapped m v) v.
Proof using Hpool Hend.
  intros Hv.
  assert (faulting (p2_4_mapped m v) (rd64 (pt_mem (p2_4_stored (p2_4_kernel m) v)) p2_4_pa)) as H;
    [|unfold p2_4_stored in H; cbn [put64 pt_mem] in H; by rewrite rd64_wr64_eq in H].
  apply mapped_faulting; [|exact (kernel_pool m)|exact (proj2 (p2_4_missing m v))].
  exact (pt_map_page_mapped start Hpool p2_4_pool_end _ start p2_4_va p2_4_pa p2_4_perm false
    (p2_4_map_pre m v) p2_4_page p2_4_perm_range).
Qed.
End Tables.

(** ** Programs that change memory *)

Section Runs.
Context (e : env).

(** [m] returns from any hart with memory [K] and interrupt state [a]; [Q] holds of
    its value, the memory and the interrupt state it leaves. *)
Definition runs {A} (m : M A) (K : core) (a : irqs) (Q : A -> core -> irqs -> Prop) : Prop :=
  forall w, steady K w -> view w = a ->
    exists v w' K', m w = Ret v w' /\ steady K' w' /\ Q v K' (view w').

Lemma runs_bind {A B} (m : M A) (k : A -> M B) K a Q :
  runs m K a (fun v K' a' => runs (k v) K' a' Q) -> runs (mbind k m) K a Q.
Proof using.
  intros Hm w Hw Hv. destruct (Hm w Hw Hv) as (v & w1 & K1 & E1 & Hw1 & Hk).
  destruct (Hk w1 Hw1 eq_refl) as (v2 & w2 & K2 & E2 & Hw2 & HQ).
  exists v2, w2, K2. split_and!; [|done..]. unfold mbind, M_bind. by rewrite E1.
Qed.

Lemma runs_mono {A} (m : M A) K a (Q R : A -> core -> irqs -> Prop) :
  runs m K a Q -> (forall v K' a', Q v K' a' -> R v K' a') -> runs m K a R.
Proof using.
  intros Hm HQ w Hw Hv. destruct (Hm w Hw Hv) as (v & w1 & K1 & E & Hw1 & H). exists v, w1, K1. auto.
Qed.

(** A program of [AnyClock] leaves memory alone. *)
Lemma runs_ends {A} (m : M A) K a (Q : A -> core -> irqs -> Prop) :
  ends K m a (fun v a' => Q v K a') -> runs m K a Q.
Proof using.
  intros Hm w Hw Hv. destruct (Hm w Hw Hv) as (v & w1 & E & Hw1 & H). by exists v, w1, K.
Qed.

(** The hart [w] over another memory. *)
Definition over (K : core) (w : world) : world :=
  set_w_mem (c_mem K) (set_w_pool (c_pool K) (set_w_tlb (c_tlb K) (set_w_csrs (set_satp (c_satp K) (w_csrs w)) w))).

Lemma over_steady K K' w : steady K w -> steady K' (over K' w) /\ view (over K' w) = view w.
Proof using. intros [H1 H2 H3 H4 _]. split; [|done]. split; [done..|]. by destruct K'. Qed.

Lemma steady_retimed K w b n : steady K w -> steady K (set_w_stale b (set_w_steps n w)).
Proof using. by intros []. Qed.

(** A program that changes only memory: the page-table functions, the fences, the
    accesses that do not fault. *)
Lemma runs_core {A} (m : M A) K a (Q : A -> core -> irqs -> Prop) :
  (forall w, core_of w = K -> exists v K' b n,
     m w = Ret v (set_w_stale b (set_w_steps n (over K' w))) /\ Q v K' a) -> runs m K a Q.
Proof using.
  intros Hm w Hw <-. destruct (Hm w (st_core _ _ Hw)) as (v & K' & b & n & E & HQ).
  destruct (over_steady K K' w Hw) as [Hs Hv].
  exists v, (set_w_stale b (set_w_steps n (over K' w))), K'.
  split; [exact E|]. split; [by apply steady_retimed|].
  change (view (set_w_stale b (set_w_steps n (over K' w)))) with (view (over K' w)). by rewrite Hv.
Qed.

(** ... in particular one that is a function of it. *)
Lemma runs_pure {A} (m : M A) (f : core -> A) (g : core -> core) K a (Q : A -> core -> irqs -> Prop) :
  (forall w, m w = Ret (f (core_of w)) (over (g (core_of w)) w)) -> Q (f K) (g K) a -> runs m K a Q.
Proof using.
  intros Hm HQ. apply runs_core. intros w <-. exists (f (core_of w)), (g (core_of w)), (w_stale w), (w_steps w).
  rewrite Hm. split; [by destruct w|exact HQ].
Qed.

(** ** The memory operations of P2.4 *)

Context (Hpool : is_page (e_page_table_start e)).
Context (Hend : _page_table_end (e_page_table_start e) <= p2_4_pa).
Abbreviation start := (e_page_table_start e).

Definition k_state (K : core) : ptstate := {| pt_mem := c_mem K; pt_pool_next_page := c_pool K |}.
Definition k_with (st : ptstate) (K : core) : core :=
  mk_core (pt_mem st) (pt_pool_next_page st) (c_tlb K) (c_satp K).
Definition k_satp (v : Z) (K : core) : core := mk_core (c_mem K) (c_pool K) (c_tlb K) v.
Definition k_fence (K : core) : core := mk_core (c_mem K) (c_pool K) (sfence_vma_all (c_tlb K)) (c_satp K).

Lemma runs_reset K a (Q : unit -> core -> irqs -> Prop) :
  Q tt (k_with (pt_reset (k_state K)) K) a -> runs do_pt_reset K a Q.
Proof using. apply (runs_pure do_pt_reset (fun _ => tt) (fun K => k_with (pt_reset (k_state K)) K)). by intros [? ? []]. Qed.

Lemma runs_setup K a (Q : Z -> core -> irqs -> Prop) :
  Q (pt_setup_identity_kernel start (k_state K)).1 (k_with (pt_setup_identity_kernel start (k_state K)).2 K) a ->
  runs (do_pt_setup_identity_kernel e) K a Q.
Proof using.
  apply (runs_pure (do_pt_setup_identity_kernel e) (fun K => (pt_setup_identity_kernel start (k_state K)).1)
    (fun K => k_with (pt_setup_identity_kernel start (k_state K)).2 K)).
  intros w. unfold do_pt_setup_identity_kernel. change (k_state (core_of w)) with (pt_state w).
  destruct (pt_setup_identity_kernel start (pt_state w)). by destruct w as [? ? []].
Qed.

Lemma runs_enable root K a (Q : unit -> core -> irqs -> Prop) :
  Q tt (k_fence (k_satp (satp_value root) K)) a -> runs (mmu_enable_sv39 root) K a Q.
Proof using.
  apply (runs_pure (mmu_enable_sv39 root) (fun _ => tt) (fun K => k_fence (k_satp (satp_value root) K))).
  by intros [? ? []].
Qed.

Lemma runs_fence K a (Q : unit -> core -> irqs -> Prop) : Q tt (k_fence K) a -> runs sfence_all K a Q.
Proof using. apply (runs_pure sfence_all (fun _ => tt) k_fence). by intros [? ? []]. Qed.

Lemma runs_satp v K a (Q : unit -> core -> irqs -> Prop) :
  Q tt (k_satp v K) a -> runs (set_csr (set_satp v)) K a Q.
Proof using. apply (runs_pure (set_csr (set_satp v)) (fun _ => tt) (k_satp v)). by intros [? ? []]. Qed.

Lemma runs_map root va pa perm valid K a (Q : unit -> core -> irqs -> Prop) :
  Q tt (k_with (pt_map_page start (k_state K) root va pa perm valid) K) a ->
  runs (do_pt_map_page e root va pa perm valid) K a Q.
Proof using.
  apply (runs_pure (do_pt_map_page e root va pa perm valid) (fun _ => tt)
    (fun K => k_with (pt_map_page start (k_state K) root va pa perm valid) K)).
  by intros [? ? []].
Qed.

(** Paging over the tables at [_page_table_start], nothing stale cached. *)
Record mmu_on (K : core) : Prop := {
  mo_satp : c_satp K = satp_value start;
  mo_coherent : coherent (c_mem K) start (c_tlb K)
}.

Lemma mmu_on_world K w : mmu_on K -> core_of w = K ->
  paging w = true /\ satp_root (satp (w_csrs w)) = start /\ coherent (w_mem w) start (w_tlb w).
Proof using Hpool.
  intros [Hs Hc] <-. cbn [core_of c_satp c_mem c_tlb] in *. destruct (satp_value_fields start Hpool) as [E1 E2].
  unfold paging. rewrite Hs, E1, E2. by split_and!.
Qed.

(** A store through the identity mapping. *)
Lemma runs_store pa v K a (Q : unit -> core -> irqs -> Prop) :
  mmu_on K -> maps_kernel (c_mem K) start -> kernel_allows Store pa = true ->
  (forall t, Q tt (mk_core (wr64 (c_mem K) pa v) (c_pool K) t (c_satp K)) a) -> runs (store64 e pa v) K a Q.
Proof using Hpool.
  intros Hon Hk Ha HQ. apply runs_core. intros w Hw. destruct (mmu_on_world K w Hon Hw) as (Hp & Hr & Hc).
  rewrite <- Hr in Hc. subst K. destruct (translate_once_ok e w Store pa pa Hp Hc) as (t & n & b & E & _).
  { rewrite Hr. by apply maps_kernel_translates. }
  exists tt, (mk_core (wr64 (w_mem w) pa v) (w_pool w) t (satp (w_csrs w))), b, n. split; [|apply HQ].
  unfold store64, retries. cbn [do_access]. unfold mbind, M_bind. rewrite E. by destruct w as [? ? []].
Qed.

(** A trap to S-mode and back. *)
Lemma trap_steady K w w' f : same_hart w w' -> g_trap w' = f (g_trap w) -> steady K w ->
  steady (core_of w') w' /\ view w' = on_trap f (view w).
Proof using.
  intros [_ Ec _ Eh Eie Eip _ _ Ems] Eg [H1 H2 H3 H4 _]. unfold clint_read, ip, ie in *. split.
  - split; unfold clint_read, ip, ie; by rewrite ?Eh, ?Ec, ?Eie, ?Eip.
  - unfold view, on_trap, clint_read, msip, ip, ie, s_enabled, clint_read.
    by rewrite Eh, Ec, Eie, Eip, Eg, Ems, s_trap_enabled.
Qed.

(** The load that faults, is repaired and reads the page. *)
Lemma runs_load v K a (Q : Z -> core -> irqs -> Prop) :
  mmu_on K -> faulting start (k_state K) v -> handler_action (i_trap a) = 0 ->
  (forall K', Q v K' (on_trap (faulted Load p2_4_va (e_pc e)) a)) -> runs (load64 e p2_4_va) K a Q.
Proof using Hpool Hend.
  intros Hon [Hok Hnone (t & Ht & He & Hlt & Hal) Hv] Hact HQ w Hw Hview.
  pose proof (st_core _ _ Hw) as Hcore. destruct (mmu_on_world K w Hon Hcore) as (Hp & Hr & Hc).
  subst K a. cbn [k_state core_of c_mem c_pool pt_mem] in *.
  destruct (fix_and_retry e Hpool (p2_4_pool_end start Hend) Load p2_4_va w t p2_4_entry 3)
    as (w' & E & Hs & Hm & Hg & _).
  - split; [exact Hp|rewrite Hr; exact Hok|by rewrite Hr].
  - rewrite <- Hr in Ht. split; [reflexivity|exact Ht|exact He|reflexivity].
  - reflexivity.
  - change (handler_action (g_trap w) = 0) in Hact. by rewrite Hact.
  - rewrite Hr. apply Hnone.
  - change (pte_pa p2_4_entry + p2_4_va mod 4096) with p2_4_pa in E.
    exists v, w', (core_of w'). split; [|split].
    + unfold load64, retries. unfold mbind, M_bind. rewrite E. unfold gets. f_equal.
      rewrite Hm, rd64_wr64_other by (done || lia). exact Hv.
    + apply (trap_steady _ w w' _ Hs Hg Hw).
    + rewrite (proj2 (trap_steady _ w w' _ Hs Hg Hw)). apply HQ.
Qed.

(** ** P2.4 *)

Context (Hclock : forall n, 1 <= e_dt e n <= max_dt).

(** A test from an idle hart, with any memory, to an idle hart in a bounded time. *)
Definition test_runs (test : M unit) : Prop := forall K now b1 b5 t, 0 <= now <= 2 ^ 62 ->
  runs test K (idle now b1 b5 false t) (fun _ _ a =>
    exists now' b1' b5' t', a = idle now' b1' b5' false t' /\ now <= now' <= now + 2 ^ 40).

Ltac clk := unfold max_dt in *; lia.
(** A statement that leaves memory alone. *)
Ltac irq_step H := apply runs_bind, runs_ends, H.
Ltac raw :=
  match goal with
  | |- runs ?m ?K ?a ?Q =>
      let a' := eval cbv beta delta [on_trap put_ie put_sie arm raise_msip idle armed held sent soft_held
        i_now i_cmp i_msip i_ip1 i_ip5 i_ie1 i_ie5 i_ie7 i_sie i_trap] iota in a in
      change (runs m K a' Q)
  end.

(** The memory of P2.4 before its load: up to the fence. *)
Definition k_mapped (K : core) (tl : tlb) : core :=
  k_fence (k_with (p2_4_mapped start (c_mem K) 0xDEAD0004) (mk_core ∅ 0 tl (satp_value start))).

Definition p2_4_zero (t : trap_state) : trap_state :=
  set_timer_irq_count 0 (set_fault_count 0 (set_handler_action 0 t)).

(** The memory with paging on over the kernel's tables. *)
Definition k_kernel (K : core) : core :=
  k_fence (k_satp (satp_value start) (k_with (p2_4_kernel start (c_mem K)) K)).

Lemma kernel_on K : mmu_on (k_kernel K) /\ maps_kernel (c_mem (k_kernel K)) start.
Proof using Hpool.
  split; [split; [reflexivity|apply sfence_vma_all_coherent]|].
  exact (setup_maps_kernel start Hpool (pt_reset {| pt_mem := c_mem K; pt_pool_next_page := 0 |}) eq_refl).
Qed.

Lemma tables_run {B} (k : M B) K a Q :
  (forall tl, runs k (k_mapped K tl) (on_trap p2_4_zero a) Q) ->
  runs (do_pt_reset ;;
        root ← do_pt_setup_identity_kernel e;
        mmu_enable_sv39 root ;;
        set_trap (set_handler_action 0) ;;
        set_trap (set_fault_count 0) ;;
        set_trap (set_timer_irq_count 0) ;;
        store64 e p2_4_pa 0xDEAD0004 ;;
        do_pt_map_page e root p2_4_va p2_4_pa p2_4_perm false ;;
        sfence_all ;;
        k) K a Q.
Proof using Hpool Hend.
  intros HQ. destruct (kernel_on K) as [Hon Hk].
  apply runs_bind, runs_reset, runs_bind, runs_setup.
  change (k_state (k_with (pt_reset (k_state K)) K)) with (pt_reset {| pt_mem := c_mem K; pt_pool_next_page := 0 |}).
  rewrite (proj1 (setup_root start (pt_reset {| pt_mem := c_mem K; pt_pool_next_page := 0 |}) eq_refl)).
  fold (p2_4_kernel start (c_mem K)).
  apply runs_bind, runs_enable. do 3 (irq_step ends_set_trap). change (k_fence _) with (k_kernel K).
  apply runs_bind, runs_store; [exact Hon|exact Hk|reflexivity|]. intros tl.
  apply runs_bind, runs_map, runs_bind, runs_fence. exact (HQ tl).
Qed.

Lemma fenced_state st K : k_state (k_fence (k_with st K)) = st.
Proof using. by destruct st. Qed.

(** P2.4's load, over those tables. *)
Lemma load_run K tl a (Q : Z -> core -> irqs -> Prop) : handler_action (i_trap a) = 0 ->
  (forall K', Q 0xDEAD0004 K' (on_trap (faulted Load p2_4_va (e_pc e)) a)) ->
  runs (load64 e p2_4_va) (k_mapped K tl) a Q.
Proof using Hpool Hend.
  intros Ha HQ. unfold k_mapped. apply (runs_load 0xDEAD0004); [split| |exact Ha|exact HQ].
  - reflexivity.
  - apply sfence_vma_all_coherent.
  - rewrite fenced_state. by apply p2_4_faulting.
Qed.

(** ** The tests, the program, the verdict *)

Lemma p2_4_passes : test_runs (p2_4 e).
Proof using Hpool Hend Hclock.
  intros K now b1 b5 t Hn. unfold p2_4. irq_step ends_log. cbv zeta.
  fold p2_4_pa p2_4_va p2_4_perm. apply tables_run. intros tl. raw.
  irq_step enable_timer; [exact Hclock|clk..|]. intros now1 H1. cbv beta.
  irq_step enable_idle; [exact Hclock|clk..|]. intros now2 H2. cbv beta.
  irq_step ends_mtime. cbn [i_now idle]. rewrite wrap64_small by clk. irq_step ends_set_timer. raw.
  apply runs_bind, load_run; [reflexivity|]. intros K'. raw.
  irq_step windows_fire; [exact Hclock|clk..|]. intros now3 H3.
  irq_step ends_disable. irq_step ends_trap. irq_step ends_assert; [reflexivity|].
  irq_step ends_assert_eq; [reflexivity|]. irq_step ends_trap.
  irq_step ends_out. apply runs_bind, runs_satp, runs_bind, runs_fence, runs_ends, ends_log.
  eexists _, _, _, _. split; [reflexivity|]. cbn [i_now idle]. clk.
Qed.

(** The others leave memory alone. *)
Lemma irq_test_runs (test : M unit) : (forall K, test_passes K test) -> test_runs test.
Proof using. intros H K now b1 b5 t Hn. apply runs_ends. by apply H. Qed.

(** One test, then the rest of the program. *)
Lemma then_runs {B} (test : M unit) (k : M B) K now b1 b5 t Q :
  test_runs test -> 0 <= now <= 2 ^ 62 ->
  (forall K' now' b1' b5' t', now <= now' <= now + 2 ^ 40 -> runs k K' (idle now' b1' b5' false t') Q) ->
  runs (test ;; k) K (idle now b1 b5 false t) Q.
Proof using.
  intros Ht Hn Hk. apply runs_bind. eapply runs_mono; [by apply Ht|].
  intros [] K' a (now' & b1' & b5' & t' & -> & Hn'). by apply Hk.
Qed.

Lemma ends_banner s K a (Q : unit -> irqs -> Prop) : Q tt a -> ends K (banner s) a Q.
Proof using. intros HQ. unfold banner. do 2 (apply ends_bind, ends_out). by apply ends_out. Qed.

(** The program returns 0, interrupts off, within seven tests' time. *)
Lemma p2_test_main_runs K now b1 b5 t : 0 <= now <= 2 ^ 61 ->
  runs (p2_test_main e) K (idle now b1 b5 false t) (fun r _ a => r = 0 /\ i_sie a = false).
Proof using Hpool Hend Hclock.
  intros Hn. unfold p2_test_main. irq_step ends_banner.
  apply then_runs; [apply irq_test_runs; intros; by apply p2_1_passes|lia|]. intros K1 now1 c1 d1 t1 H1.
  apply then_runs; [apply irq_test_runs; intros; by apply p2_2_passes|lia|]. intros K2 now2 c2 d2 t2 H2.
  apply then_runs; [apply irq_test_runs; intros; by apply p2_3_passes|lia|]. intros K3 now3 c3 d3 t3 H3.
  apply then_runs; [exact p2_4_passes|lia|]. intros K4 now4 c4 d4 t4 H4.
  apply then_runs; [apply irq_test_runs; intros; by apply p2_5_passes|lia|]. intros K5 now5 c5 d5 t5 H5.
  apply then_runs; [apply irq_test_runs; intros; by apply p2_6_passes|lia|]. intros K6 now6 c6 d6 t6 H6.
  apply then_runs; [apply irq_test_runs; intros; by apply p2_7_passes|lia|]. intros K7 now7 c7 d7 t7 H7.
  irq_step ends_banner. by apply runs_ends, ends_ret.
Qed.
End Runs.

(** The hart as [_start] leaves it, in the terms of [AnyClock]. *)
Lemma boot_idle m : steady (core_of (boot_world m)) (boot_world m) /\
  view (boot_world m) = idle 0 false false false (g_trap (boot_world m)).
Proof.
  split; [split|].
  - reflexivity.
  - reflexivity.
  - intros n Hn _ _. apply Z.bits_0.
  - reflexivity.
  - reflexivity.
  - reflexivity.
Qed.

Lemma entry_verdict e test_main w K a :
  steady K w -> view w = a -> runs test_main K a (fun r _ _ => r = 0) ->
  verdict (s_mode_entry e test_main w) = Some (pass_word (e_qemu e)).
Proof.
  intros Hw Hv Hr.
  set (w1 := set_w_out (uart_puts (nl +:+ "=== S-mode entry, stvec set ===" +:+ nl) (w_out w))
               (set_w_csrs (set_stvec (e_s_trap_vector e) (w_csrs w)) w)).
  assert (steady K w1) as Hw1 by (by destruct Hw).
  destruct (Hr w1 Hw1 Hv) as (r & w' & K' & E & _ & ->).
  unfold s_mode_entry. run. fold w1. rewrite E. change (0 =? 0) with true. cbv iota.
  unfold test_pass, finish. run. by destruct (e_qemu e).
Qed.

(** C10: The interrupt tests (P2) pass whatever time each turn takes: on any hart, with
    hardware A/D management or not, whichever cached walks it uses, under either
    build, with any page pool below the page P2.4 maps, and whatever memory holds at
    boot, if the clock advances at every turn, by 2^20 ticks at most, the program
    returns from every wait and every fault and ends in PASS. *)
Theorem p2_passes_any_clock e m :
  is_page (e_page_table_start e) -> _page_table_end (e_page_table_start e) <= p2_4_pa ->
  (forall n, 1 <= e_dt e n <= max_dt) ->
  verdict (s_mode_entry e (p2_test_main e) (boot_world m)) = Some (pass_word (e_qemu e)).
Proof.
  intros Hpool Hend Hclock. destruct (boot_idle m) as [Hw Hv].
  apply (entry_verdict e (p2_test_main e) _ _ _ Hw Hv).
  eapply runs_mono; [apply (p2_test_main_runs e Hpool Hend Hclock); lia|]. by intros r K a [-> _].
Qed.

(** A clock of 1, 2, ..., 4096, 1, ... ticks a turn. *)
Definition uneven_env : env :=
  {| e_qemu := true; e_svadu := false; e_hit := Nat.even; e_dt := fun n => Z.of_nat n mod 4096 + 1;
     e_sc := fun _ => true; e_page_table_start := 0x80010000; e_s_trap_vector := 0x80001000;
     e_pc := 0x80002000; e_heap_start := 0x80020000; e_heap_end := 0x801FF000 |}.

Lemma p2_passes_any_clock_witness :
  verdict (s_mode_entry uneven_env (p2_test_main uneven_env) (boot_world boot_mem)) = Some qemu_pass_word.
Proof.
  apply (p2_passes_any_clock uneven_env boot_mem).
  - split; [reflexivity|]. split; [discriminate|reflexivity].
  - discriminate.
  - intros n. cbn [e_dt uneven_env]. unfold max_dt. pose proof (Z.mod_pos_bound (Z.of_nat n) 4096). lia.
Defined.
