(* ===== verification/Atomics.v ===== *)
(** * Atomics ([common/test.h]) and their test ([tests/p3_atomics.c])

    Each AMO wrapper is one instruction: it returns the old value and stores the
    new one.  [lr]/[sc] use the hart's reservation; the environment decides
    whether a store-conditional that could succeed does.  The acquire and release
    bits order accesses for other harts and change nothing on one. *)

From S2P Require Import Prelude Platform Memory Sv39 PtTree PageMap PageTable Tlb Console Machine MTrap STrap Hart SuiteMmu AllHarts Builds SuiteRuns.

(** ** The operations *)

Inductive amo_op := Swap | Add | And | Or | Xor | Min | Max | Minu | Maxu.

(** What an AMO stores; [signed] reads a word as a two's complement number. *)
Definition amo_new (signed : Z -> Z) (op : amo_op) (old val : Z) : Z :=
  match op with
  | Swap => val
  | Add => old + val
  | And => old .& val
  | Or => old .| val
  | Xor => old .^ val
  | Min => if signed old <=? signed val then old else val
  | Max => if signed val <=? signed old then old else val
  | Minu => if old <=? val then old else val
  | Maxu => if val <=? old then old else val
  end.

Section Atomics.
Context (e : env).

(** An access that never resumes past the instruction. *)
Definition amo_d (op : amo_op) (addr val : Z) : M Z :=
  pa ← do_access e retries Store addr;
  match pa with
  | Some pa =>
      old ← gets (fun w => rd64 (w_mem w) pa);
      modify (fun w => set_w_mem (wr64 (w_mem w) pa (wrap64 (amo_new s64 op old (wrap64 val)))) w) ;;
      mret old
  | None => mret 0
  end.
Definition amo_w (op : amo_op) (addr val : Z) : M Z :=
  pa ← do_access e retries Store addr;
  match pa with
  | Some pa =>
      old ← gets (fun w => rd32 (w_mem w) pa);
      modify (fun w => set_w_mem (wr32 (w_mem w) pa (amo_new s32 op old (wrap32 val))) w) ;;
      mret old
  | None => mret 0
  end.

Definition amo_swap_d : Z -> Z -> M Z := amo_d Swap.
Definition amo_add_d : Z -> Z -> M Z := amo_d Add.
Definition amo_and_d : Z -> Z -> M Z := amo_d And.
Definition amo_or_d : Z -> Z -> M Z := amo_d Or.
Definition amo_xor_d : Z -> Z -> M Z := amo_d Xor.
Definition amo_min_d : Z -> Z -> M Z := amo_d Min.
Definition amo_max_d : Z -> Z -> M Z := amo_d Max.
Definition amo_minu_d : Z -> Z -> M Z := amo_d Minu.
Definition amo_maxu_d : Z -> Z -> M Z := amo_d Maxu.
Definition amo_swap_w : Z -> Z -> M Z := amo_w Swap.
Definition amo_add_w : Z -> Z -> M Z := amo_w Add.
Definition amo_and_w : Z -> Z -> M Z := amo_w And.
Definition amo_or_w : Z -> Z -> M Z := amo_w Or.
Definition amo_xor_w : Z -> Z -> M Z := amo_w Xor.
Definition amo_min_w : Z -> Z -> M Z := amo_w Min.
Definition amo_max_w : Z -> Z -> M Z := amo_w Max.
Definition amo_minu_w : Z -> Z -> M Z := amo_w Minu.
Definition amo_maxu_w : Z -> Z -> M Z := amo_w Maxu.

Definition load32 (va : Z) : M Z :=
  pa ← do_access e retries Load va;
  match pa with
  | Some pa => gets (fun w => rd32 (w_mem w) pa)
  | None => mret 0
  end.

(** ** [lr] and [sc] *)

Definition lr_d (addr : Z) : M Z :=
  pa ← do_access e retries Load addr;
  match pa with
  | Some pa =>
      modify (set_w_resv (Some pa)) ;;
      gets (fun w => rd64 (w_mem w) pa)
  | None => mret 0
  end.

(** 0 when the store was done; the reservation is gone either way. *)
Definition sc_at (pa val : Z) : M Z := fun w =>
  let ok := bool_decide (w_resv w = Some pa) && e_sc e (w_steps w) in
  let w' := set_w_steps (S (w_steps w)) (set_w_resv None w) in
  if ok then Ret 0 (set_w_mem (wr64 (w_mem w) pa (wrap64 val)) w') else Ret 1 w'.
Definition sc_d (addr val : Z) : M Z :=
  pa ← do_access e retries Store addr;
  match pa with
  | Some pa => sc_at pa val
  | None => mret 0
  end.
Definition lr_d_aq : Z -> M Z := lr_d.
Definition sc_d_rl : Z -> Z -> M Z := sc_d.

(** The [lr]/[sc] loop, at most [fuel] times. *)
Fixpoint cas_d (fuel : nat) (addr expected desired : Z) : M Z :=
  old ← lr_d_aq addr;
  if negb (old =? expected) then mret 0
  else
    sc_result ← sc_d_rl addr desired;
    if negb (sc_result =? 0) then
      match fuel with
      | O => out_of_fuel
      | S fuel' => cas_d fuel' addr expected desired
      end
    else mret 1.
End Atomics.

(** ** What they promise, with paging off *)

Section Laws.
Context (e : env).
Implicit Types w : world.

(** The value an AMO on [n]-bit words stores, by the arithmetic of the words'
    signed and unsigned readings. *)
Definition signed_n (n x : Z) : Z := (x + 2 ^ (n - 1)) mod 2 ^ n - 2 ^ (n - 1).
Definition amo_meaning (n : Z) (op : amo_op) (old val new : Z) : Prop :=
  match op with
  | Swap => new = val
  | Add => new = (old + val) mod 2 ^ n
  | And => new = old .& val
  | Or => new = old .| val
  | Xor => new = old .^ val
  | Min => signed_n n new = Z.min (signed_n n old) (signed_n n val)
  | Max => signed_n n new = Z.max (signed_n n old) (signed_n n val)
  | Minu => new = Z.min old val
  | Maxu => new = Z.max old val
  end.

Lemma bits_range (f : Z -> Z -> Z) n x y :
  0 <= n -> 0 <= x < 2 ^ n -> 0 <= y < 2 ^ n ->
  (forall i, n <= i -> Z.testbit (f x y) i = Z.testbit x i && Z.testbit y i
                    \/ Z.testbit (f x y) i = Z.testbit x i || Z.testbit y i
                    \/ Z.testbit (f x y) i = xorb (Z.testbit x i) (Z.testbit y i)) ->
  f x y mod 2 ^ n = f x y.
Proof using.
  intros Hn Hx Hy Hf. apply Z.bits_inj'. intros i Hi.
  destruct (Z.lt_ge_cases i n); [by rewrite Z.mod_pow2_bits_low by lia|].
  rewrite Z.mod_pow2_bits_high by lia.
  assert (forall z, 0 <= z < 2 ^ n -> Z.testbit z i = false) as Hz.
  { intros z Hz. rewrite <- (Z.mod_small z (2 ^ n)) by lia. by rewrite Z.mod_pow2_bits_high by lia. }
  symmetry. destruct (Hf i) as [-> |[-> | ->]]; [lia| | |]; by rewrite !Hz by done.
Qed.

Lemma amo_new_meaning n op old val :
  0 < n -> 0 <= old < 2 ^ n -> 0 <= val < 2 ^ n ->
  amo_meaning n op old val (amo_new (signed_n n) op old val mod 2 ^ n).
Proof using.
  intros Hn Ho Hv. destruct op; cbn [amo_meaning amo_new].
  - by rewrite Z.mod_small.
  - done.
  - apply (bits_range Z.land); [lia..|]. intros. left. by rewrite Z.land_spec.
  - apply (bits_range Z.lor); [lia..|]. intros. right; left. by rewrite Z.lor_spec.
  - apply (bits_range Z.lxor); [lia..|]. intros. right; right. by rewrite Z.lxor_spec.
  - case_goal; zbool; rewrite Z.mod_small by lia; lia.
  - case_goal; zbool; rewrite Z.mod_small by lia; lia.
  - case_goal; zbool; rewrite Z.mod_small by lia; lia.
  - case_goal; zbool; rewrite Z.mod_small by lia; lia.
Qed.

Lemma do_access_bare acc n va w :
  paging w = false -> do_access e n acc va w = Ret (Some va) w.
Proof using.
  intros Hp. destruct n; cbn [do_access]; unfold mbind, M_bind, translate_once; by rewrite Hp.
Qed.

(** A 64-bit AMO returns the old doubleword, stores what its arithmetic says, and
    changes no other doubleword. *)
Theorem amo_d_spec op addr val b w :
  paging w = false -> 0 <= val < 2 ^ 64 -> addr mod 8 = 0 -> b mod 8 = 0 ->
  exists new w', amo_d e op addr val w = Ret (rd64 (w_mem w) addr) w' /\
    amo_meaning 64 op (rd64 (w_mem w) addr) val new /\
    rd64 (w_mem w') b = if b =? addr then new else rd64 (w_mem w) b.
Proof using.
  intros Hp Hv Ha Hb. eexists _, _. unfold amo_d, mbind, M_bind.
  rewrite do_access_bare by done. split; [reflexivity|]. rewrite (wrap64_small val) by lia.
  split; [apply (amo_new_meaning 64); [lia|apply rd64_range|lia]|]. cbn [w_mem set_w_mem].
  destruct (Z.eqb_spec b addr) as [->|Hne].
  - rewrite rd64_wr64_same by done. apply wrap64_idem.
  - by rewrite rd64_wr64_other by congruence.
Qed.

(** A 32-bit AMO does the same on the aligned 32-bit word, and changes no other
    word: not the one that shares its doubleword either. *)
Theorem amo_w_spec op addr val b w :
  paging w = false -> 0 <= val < 2 ^ 32 -> addr mod 4 = 0 -> b mod 4 = 0 ->
  exists new w', amo_w e op addr val w = Ret (rd32 (w_mem w) addr) w' /\
    amo_meaning 32 op (rd32 (w_mem w) addr) val new /\
    rd32 (w_mem w') b = if b =? addr then new else rd32 (w_mem w) b.
Proof using.
  intros Hp Hv Ha Hb. eexists _, _. unfold amo_w, mbind, M_bind.
  rewrite do_access_bare by done. split; [reflexivity|]. rewrite (wrap32_small val) by lia.
  split; [apply (amo_new_meaning 32); [lia|apply wrap32_range|lia]|]. cbn [w_mem set_w_mem].
  destruct (Z.eqb_spec b addr) as [->|Hne].
  - by apply rd32_wr32_same.
  - by rewrite rd32_wr32_other by congruence.
Qed.

(** [cas_d] is an atomic compare-and-swap when one of the store-conditionals
    with a good reservation succeeds: it stores and returns 1 exactly when the
    doubleword holds the expected value. *)
Theorem cas_d_spec k fuel addr expected desired b w :
  paging w = false -> (k <= fuel)%nat -> e_sc e (w_steps w + k)%nat = true ->
  0 <= desired < 2 ^ 64 -> addr mod 8 = 0 -> b mod 8 = 0 ->
  let success := rd64 (w_mem w) addr =? expected in
  exists w', cas_d e fuel addr expected desired w = Ret (if success then 1 else 0) w' /\
    rd64 (w_mem w') b = if success && (b =? addr) then desired else rd64 (w_mem w) b.
Proof using.
  intros Hp Hk Hsc Hd Ha Hb success. unfold success. clear success.
  revert w fuel Hp Hk Hsc. induction k as [|k IH]; intros w fuel Hp Hk Hsc.
  all: assert (paging (set_w_resv (Some addr) w) = false) as Hp' by (by destruct w).
  all: destruct fuel as [|fuel]; try lia; cbn [cas_d]; unfold lr_d_aq, lr_d, sc_d_rl, sc_d, mbind, M_bind;
    rewrite do_access_bare by done; unfold modify, gets, mret, M_ret;
    (replace (w_mem (set_w_resv (Some addr) w)) with (w_mem w) by (by destruct w));
    destruct (Z.eqb_spec (rd64 (w_mem w) addr) expected) as [He|He]; bsimpl;
    try (eexists; split; [done|by destruct w]);
    rewrite do_access_bare by done; unfold sc_at.
  all: rewrite bool_decide_eq_true_2 by (by destruct w); cbn [andb].
  all: replace (w_steps (set_w_resv (Some addr) w)) with (w_steps w) by (by destruct w).
  1,2: rewrite Nat.add_0_r in Hsc; rewrite Hsc; eexists; (split; [done|]).
  1,2: cbn [w_mem set_w_mem set_w_steps set_w_resv]; rewrite (wrap64_small desired) by lia;
    (destruct (Z.eqb_spec b addr) as [->|Hne]; [by rewrite rd64_wr64_eq|by rewrite rd64_wr64_other by congruence]).
  destruct (e_sc e (w_steps w)).
  - eexists; (split; [done|]). cbn [w_mem set_w_mem set_w_steps set_w_resv].
    rewrite (wrap64_small desired) by lia.
    destruct (Z.eqb_spec b addr) as [->|Hne]; [by rewrite rd64_wr64_eq|by rewrite rd64_wr64_other by congruence].
  - bsimpl. change (1 =? 0) with false. bsimpl. set (w2 := set_w_steps _ _).
    destruct (IH w2 fuel) as (w' & Hr & Hm); [by destruct w|lia|by rewrite <- Hsc; f_equal; destruct w; cbn; lia|].
    assert (w_mem w2 = w_mem w) as E by (by destruct w). rewrite E in Hr, Hm.
    rewrite He, Z.eqb_refl in Hr, Hm. exists w'. by split.
Qed.
End Laws.

(** ** Phase 3 *)

(** [(uint64_t)-x] and [(uint32_t)-x]. *)
Definition minus64 (x : Z) : Z := wrap64 (- x).
Definition minus32 (x : Z) : Z := wrap32 (- x).

Section P3.
Context (e : env).
(** [static volatile struct p3_state g_p3], where the linker put it. *)
Context (g_p3 : Z).
Abbreviation atom64 := (g_p3 + 0).
Abbreviation atom32 := (g_p3 + 8).

Definition p3_1 : M unit :=
  TEST_LOG "P3.1 — LR/SC (success + failure path)..." ;;
  store64 e atom64 0x1122334455667788 ;;
  old ← lr_d e atom64;
  ASSERT_EQ e old 0x1122334455667788 "P3.1 lr.d old value" 700 ;;
  sc_ok ← sc_d e atom64 0xAABBCCDDEEFF0011;
  ASSERT_EQ e sc_ok 0 "P3.1 first sc.d should succeed" 701 ;;
  v ← load64 e atom64;
  ASSERT_EQ e v 0xAABBCCDDEEFF0011 "P3.1 first sc.d write" 702 ;;
  old ← lr_d_aq e atom64;
  ASSERT_EQ e old 0xAABBCCDDEEFF0011 "P3.1 lr.d.aq old value" 705 ;;
  sc_ok ← sc_d_rl e atom64 0x0102030405060708;
  ASSERT_EQ e sc_ok 0 "P3.1 sc.d.rl should succeed" 706 ;;
  v ← load64 e atom64;
  ASSERT_EQ e v 0x0102030405060708 "P3.1 sc.d.rl write" 707 ;;
  TEST_LOG "P3.1 — LR/SC: OK".

Definition p3_2 : M unit :=
  TEST_LOG "P3.2 — AMO .d (swap/add/and/or/xor/min/max)..." ;;
  store64 e atom64 0x10 ;;
  old ← amo_swap_d e atom64 0x44;
  ASSERT_EQ e old 0x10 "P3.2 amoswap.d old" 710 ;;
  v ← load64 e atom64;
  ASSERT_EQ e v 0x44 "P3.2 amoswap.d new" 711 ;;
  old ← amo_add_d e atom64 0x05;
  ASSERT_EQ e old 0x44 "P3.2 amoadd.d old" 712 ;;
  v ← load64 e atom64;
  ASSERT_EQ e v 0x49 "P3.2 amoadd.d new" 713 ;;
  old ← amo_and_d e atom64 0x0F;
  ASSERT_EQ e old 0x49 "P3.2 amoand.d old" 714 ;;
  v ← load64 e atom64;
  ASSERT_EQ e v 0x09 "P3.2 amoand.d new" 715 ;;
  old ← amo_or_d e atom64 0x30;
  ASSERT_EQ e old 0x09 "P3.2 amoor.d old" 716 ;;
  v ← load64 e atom64;
  ASSERT_EQ e v 0x39 "P3.2 amoor.d new" 717 ;;
  old ← amo_xor_d e atom64 0x11;
  ASSERT_EQ e old 0x39 "P3.2 amoxor.d old" 718 ;;
  v ← load64 e atom64;
  ASSERT_EQ e v 0x28 "P3.2 amoxor.d new" 719 ;;
  store64 e atom64 5 ;;
  old ← amo_min_d e atom64 (minus64 3);
  ASSERT_EQ e old 5 "P3.2 amomin.d old" 720 ;;
  v ← load64 e atom64;
  ASSERT_EQ e (s64 v) (-3) "P3.2 amomin.d new" 721 ;;
  old ← amo_max_d e atom64 7;
  ASSERT_EQ e (s64 old) (-3) "P3.2 amomax.d old" 722 ;;
  v ← load64 e atom64;
  ASSERT_EQ e v 7 "P3.2 amomax.d new" 723 ;;
  store64 e atom64 5 ;;
  old ← amo_maxu_d e atom64 (minus64 3);
  ASSERT_EQ e old 5 "P3.2 amomaxu.d old" 724 ;;
  v ← load64 e atom64;
  ASSERT_EQ e v (minus64 3) "P3.2 amomaxu.d new" 725 ;;
  store64 e atom64 (minus64 3) ;;
  old ← amo_minu_d e atom64 5;
  ASSERT_EQ e old (minus64 3) "P3.2 amominu.d old" 726 ;;
  v ← load64 e atom64;
  ASSERT_EQ e v 5 "P3.2 amominu.d new" 727 ;;
  TEST_LOG "P3.2 — AMO .d: OK".

Definition p3_3 : M unit :=
  TEST_LOG "P3.3 — AMO .w (swap/add/and/or/xor/min/max)..." ;;
  store32 e atom32 0x10 ;;
  old32 ← amo_swap_w e atom32 0x77;
  ASSERT_EQ e old32 0x10 "P3.3 amoswap.w old" 730 ;;
  v ← load32 e atom32;
  ASSERT_EQ e v 0x77 "P3.3 amoswap.w new" 731 ;;
  old32 ← amo_add_w e atom32 0x09;
  ASSERT_EQ e old32 0x77 "P3.3 amoadd.w old" 732 ;;
  v ← load32 e atom32;
  ASSERT_EQ e v 0x80 "P3.3 amoadd.w new" 733 ;;
  old32 ← amo_and_w e atom32 0x0F;
  ASSERT_EQ e old32 0x80 "P3.3 amoand.w old" 734 ;;
  v ← load32 e atom32;
  ASSERT_EQ e v 0x00 "P3.3 amoand.w new" 735 ;;
  old32 ← amo_or_w e atom32 0x33;
  ASSERT_EQ e old32 0x00 "P3.3 amoor.w old" 736 ;;
  v ← load32 e atom32;
  ASSERT_EQ e v 0x33 "P3.3 amoor.w new" 737 ;;
  old32 ← amo_xor_w e atom32 0x55;
  ASSERT_EQ e old32 0x33 "P3.3 amoxor.w old" 738 ;;
  v ← load32 e atom32;
  ASSERT_EQ e v 0x66 "P3.3 amoxor.w new" 739 ;;
  store32 e atom32 5 ;;
  old32 ← amo_min_w e atom32 (-2);
  ASSERT_EQ e old32 5 "P3.3 amomin.w old" 740 ;;
  v ← load32 e atom32;
  ASSERT_EQ e (s32 v) (-2) "P3.3 amomin.w new" 741 ;;
  old32 ← amo_max_w e atom32 7;
  ASSERT_EQ e (s32 old32) (-2) "P3.3 amomax.w old" 742 ;;
  v ← load32 e atom32;
  ASSERT_EQ e (s32 v) 7 "P3.3 amomax.w new" 743 ;;
  store32 e atom32 5 ;;
  old32 ← amo_maxu_w e atom32 (minus32 3);
  ASSERT_EQ e old32 5 "P3.3 amomaxu.w old" 744 ;;
  v ← load32 e atom32;
  ASSERT_EQ e v (minus32 3) "P3.3 amomaxu.w new" 745 ;;
  store32 e atom32 (minus32 3) ;;
  old32 ← amo_minu_w e atom32 5;
  ASSERT_EQ e old32 (minus32 3) "P3.3 amominu.w old" 746 ;;
  v ← load32 e atom32;
  ASSERT_EQ e v 5 "P3.3 amominu.w new" 747 ;;
  TEST_LOG "P3.3 — AMO .w: OK".

Definition p3_4 : M unit :=
  TEST_LOG "P3.4 — CAS via LR/SC..." ;;
  store64 e atom64 0x1111 ;;
  ok ← cas_d e 8 atom64 0x1111 0x2222;
  ASSERT_EQ e ok 1 "P3.4 CAS should succeed on matching expected" 748 ;;
  v ← load64 e atom64;
  ASSERT_EQ e v 0x2222 "P3.4 CAS success value" 749 ;;
  ok ← cas_d e 8 atom64 0x1111 0x3333;
  ASSERT_EQ e ok 0 "P3.4 CAS should fail on mismatched expected" 750 ;;
  v ← load64 e atom64;
  ASSERT_EQ e v 0x2222 "P3.4 CAS failure should not update" 751 ;;
  TEST_LOG "P3.4 — CAS: OK".

Definition p3_test_main : M Z :=
  banner "Phase 3: Atomic Operations Tests" ;;
  p3_1 ;;
  p3_2 ;;
  p3_3 ;;
  p3_4 ;;
  banner "Phase 3: ALL TESTS PASSED" ;;
  mret 0.
End P3.

Definition g_p3_addr : Z := 0x8000F000.

(** *** Every hart follows the reference hart *)

Lemma lockstep_sc e pa val : Lockstep (sc_at e pa val) (sc_at (no_hit e) pa val).
Proof.
  pose (ok w := bool_decide (w_resv w = Some pa) && e_sc e (w_steps w)).
  pose (w' w := set_w_steps (S (w_steps w)) (set_w_resv None w)).
  apply (lockstep_blind _ _ (fun w => if ok w then 0 else 1)
    (fun w => if ok w then set_w_mem (wr64 (w_mem w) pa (wrap64 val)) (w' w) else w' w)).
  - intros w. unfold sc_at, ok, w'. cbn [e_sc with_hit]. by destruct (_ && _).
  - intros t b w. unfold sc_at, ok, w'. cbn [w_resv w_steps w_mem twin set_w_tlb set_w_stale].
    by destruct (_ && _).
  - intros w. by destruct (ok w).
Qed.
#[export] Hint Resolve lockstep_sc : all_harts.

Lemma lockstep_cas e n : forall addr expected desired,
  Lockstep (cas_d e n addr expected desired) (cas_d (no_hit e) n addr expected desired).
Proof. induction n as [|n IH]; intros; cbn [cas_d]; lockstep; apply IH. Qed.
#[export] Hint Resolve lockstep_cas : all_harts.

Lemma lockstep_p3 e addr : Lockstep (p3_test_main e addr) (p3_test_main (no_hit e) addr).
Proof. lockstep. Qed.

Lemma copies_sc e pa v : Copies (sc_at (spike e) pa v) (sc_at (qemu e) pa v).
Proof. apply copies_raw; [done|]. intros w. unfold sc_at. destruct (_ && _); constructor. Qed.
#[export] Hint Resolve copies_sc : two_builds.

Lemma copies_cas e n : forall addr expected desired,
  Copies (cas_d (spike e) n addr expected desired) (cas_d (qemu e) n addr expected desired).
Proof. induction n as [|n IH]; intros; cbn [cas_d]; copies; apply IH. Qed.
#[export] Hint Resolve copies_cas : two_builds.

Lemma copies_p3 e addr : Copies (p3_test_main (spike e) addr) (p3_test_main (qemu e) addr).
Proof. copies. Qed.

(** Phase 3 passes on every hart whose store-conditionals succeed; the instruction
    set lets one fail spuriously outside of a retry loop, and then P3.1 fails with
    code 701. *)
Theorem p3_passes :
  (forall qemu svadu hit, passes (fun e => p3_test_main e g_p3_addr) qemu svadu hit = true) /\
  let e := {| e_qemu := false; e_svadu := true; e_hit := fun _ => false; e_dt := fun _ => 100;
              e_sc := fun n => negb (n =? 0)%nat; e_page_table_start := 0x80010000;
              e_s_trap_vector := 0x80001000; e_pc := 0x80002000;
              e_heap_start := 0x80020000; e_heap_end := SRAM_END - 0x1000 |} in
  verdict (s_mode_entry e (p3_test_main e g_p3_addr) (boot_world boot_mem))
  = Some (htif_fail_word 701).
Proof.
  split; [|vm_compute; reflexivity]. apply passes_every_hart.
  - intros e. apply lockstep_p3.
  - intros e. apply copies_p3.
  - vm_compute. reflexivity.
Qed.

(** ** At concrete inputs: P3.2's minimum, P3.3's addition beside the doubleword,
    P3.4's success after one spurious failure *)

Definition p3_env : env := suite_env false true Nat.even.
Definition p3_world : world := boot_world (wr64 ∅ g_p3_addr 5).

Lemma amo_d_spec_witness :
  exists w', amo_d p3_env Min g_p3_addr (minus64 3) p3_world = Ret 5 w' /\
    s64 (rd64 (w_mem w') g_p3_addr) = -3.
Proof.
  destruct (amo_d_spec p3_env Min g_p3_addr (minus64 3) g_p3_addr p3_world eq_refl ltac:(by split)
    eq_refl eq_refl) as (new & w' & He & Hn & Hm).
  exists w'. split; [exact He|]. rewrite Hm, Z.eqb_refl. exact Hn.
Defined.

Lemma amo_w_spec_witness :
  exists w', amo_w p3_env Add (g_p3_addr + 4) 9 p3_world = Ret 0 w' /\
    rd32 (w_mem w') g_p3_addr = 5.
Proof.
  destruct (amo_w_spec p3_env Add (g_p3_addr + 4) 9 g_p3_addr p3_world eq_refl ltac:(by split)
    eq_refl eq_refl) as (new & w' & He & _ & Hm).
  exists w'. split; [exact He|]. rewrite Hm. reflexivity.
Defined.

Lemma cas_d_spec_witness :
  let e := {| e_qemu := false; e_svadu := true; e_hit := fun _ => false; e_dt := fun _ => 100;
              e_sc := fun n => negb (n =? 0)%nat; e_page_table_start := 0x80010000;
              e_s_trap_vector := 0x80001000; e_pc := 0x80002000;
              e_heap_start := 0x80020000; e_heap_end := SRAM_END - 0x1000 |} in
  exists w', cas_d e 1 g_p3_addr 5 7 p3_world = Ret 1 w' /\ rd64 (w_mem w') g_p3_addr = 7.
Proof.
  intros e. destruct (cas_d_spec e 1 1 g_p3_addr 5 7 g_p3_addr p3_world eq_refl ltac:(lia) eq_refl
    ltac:(by split) eq_refl eq_refl) as (w' & He & Hm).
  exists w'. split; [exact He|]. rewrite Hm. reflexivity.
Defined.
