(* ===== verification/Typed.v ===== *)
(** * The invariant of the state: the timer's line, and the C types

    The handlers pass the timer on between two levels: M-mode arms [mtimecmp] with
    [mie.MTIE], and forwards an expiry as [mip.STIP].  [line_ok] says that these agree:
    a forwarded timer cannot fire again before S-mode asks for it, and a deadline is
    never set with its interrupt disabled, which would lose it.  With the types of the
    registers and counters it is the invariant [world_ok], preserved by every access,
    trap handler, interrupt and program ([Typed]), whatever values the programs
    compute. *)

From S2P Require Import Prelude Platform Memory Sv39 PtTree PageMap PageTable Tlb TlbRel Console Machine MTrap STrap Hart SuiteMmu SuiteFault SuiteIrq Faults Interrupts AllHarts SuiteRuns Atomics.

(** ** The invariant *)

Definition word (v : Z) : Prop := 0 <= v < 2 ^ 64.
Definition cint (v : Z) : Prop := - 2 ^ 31 <= v < 2 ^ 31.

Record csrs_ok (c : csrs) : Prop := {
  ok_mhartid : word (mhartid c);
  ok_mstatus : word (mstatus c);
  ok_mie : word (mie c);
  ok_mip : word (mip c);
  ok_satp : word (satp c);
  ok_stvec : word (stvec c);
  ok_sepc : word (sepc c);
  ok_scause : word (scause c);
  ok_stval : word (stval c)
}.

(** [struct trap_state]. *)
Record trap_ok (t : trap_state) : Prop := {
  ok_ts_scause : word (ts_scause t);
  ok_ts_stval : word (ts_stval t);
  ok_ts_sepc : word (ts_sepc t);
  ok_fault_count : cint (fault_count t);
  ok_expected_cause : word (expected_cause t);
  ok_expected_stval : word (expected_stval t);
  ok_handler_action : cint (handler_action t);
  ok_irq_count : cint (irq_count t);
  ok_timer_irq_count : cint (timer_irq_count t);
  ok_soft_irq_count : cint (soft_irq_count t);
  ok_last_irq_cause : word (last_irq_cause t)
}.

(** The timer's line. *)
Record line_ok (c : csrs) (clint : gmap Z Z) : Prop := {
  ln_hart : 0 <= mhartid c < NUM_HARTS;
  (** a pending STIP: M-mode takes no timer interrupt *)
  ln_once : tst (mip c) MIP_STIP = true -> tst (mie c) MIP_MTIP = false;
  (** MTIE clear: no deadline is set *)
  ln_kept : tst (mie c) MIP_MTIP = false ->
    default 0 (clint !! CLINT_MTIMECMP (mhartid c)) = MTIMECMP_MAX
}.

Record world_ok (w : world) : Prop := {
  ok_csrs : csrs_ok (w_csrs w);
  ok_clint : map_Forall (fun _ v => word v) (w_clint w);
  ok_trap : trap_ok (g_trap w);
  ok_pool : cint (w_pool w);
  ok_info : Forall word (m_trap_info w);
  ok_line : line_ok (w_csrs w) (w_clint w)
}.

(** The linker's addresses are addresses. *)
Record env_ok (e : env) : Prop := {
  ok_table : word (e_page_table_start e);
  ok_vector : word (e_s_trap_vector e);
  ok_pc : word (e_pc e);
  ok_heap : 0 <= e_heap_start e /\ e_heap_start e + 8 * 1024 <= 2 ^ 64
}.

(** [m] keeps the invariant, and its value is a [Q]. *)
Definition Typed {A} (Q : A -> Prop) (m : M A) : Prop :=
  forall w, world_ok w ->
    match m w with
    | Ret a v => Q a /\ world_ok v
    | Halt v | OutOfFuel v => world_ok v
    end.
Abbreviation Keeps := (Typed (fun _ => True)).

(** ** Words *)

Lemma word_const v : (0 <=? v) && (v <? 2 ^ 64) = true -> word v.
Proof. intros [?%Z.leb_le ?%Z.ltb_lt]%andb_true_iff. by split. Qed.

Lemma cint_const v : (- 2 ^ 31 <=? v) && (v <? 2 ^ 31) = true -> cint v.
Proof. intros [?%Z.leb_le ?%Z.ltb_lt]%andb_true_iff. by split. Qed.

Lemma cint_s32 v : cint (s32 v).
Proof. unfold cint, s32. pose proof (Z.mod_pos_bound (v + 2 ^ 31) (2 ^ 32)). lia. Qed.

Lemma word_wrap v : word (wrap64 v).
Proof. apply wrap64_range. Qed.

Lemma word_not v : word (not64 v).
Proof. apply wrap64_range. Qed.

Lemma word_set x b : word x -> word b -> word (set_bits x b).
Proof. by apply lor_range. Qed.

Lemma word_lor x y : word x -> word y -> word (x .| y).
Proof. by apply lor_range. Qed.

Lemma word_land x y : word x -> word (x .& y).
Proof. by apply land_range. Qed.

Lemma word_land_r x y : word y -> word (x .& y).
Proof. rewrite Z.land_comm. apply word_land. Qed.

Lemma word_clear x b : word x -> word (clear_bits x b).
Proof. by apply ldiff_range. Qed.

Lemma word_ldiff x b : word x -> word (Z.ldiff x b).
Proof. by apply ldiff_range. Qed.

Lemma word_flag x m b : word x -> word m -> word (mstatus_flag x m b).
Proof. destruct b; [apply word_set|intros; by apply word_clear]. Qed.

Lemma word_satp root : word root -> word (satp_value root).
Proof.
  intros H. apply word_lor; [by apply word_const|]. unfold pt_ppn, word in *.
  unfold PGSHIFT. rewrite Z.shiftr_div_pow2 by done. change (2 ^ 12) with 4096.
  split; [apply Z.div_pos; lia|]. apply Z.div_lt_upper_bound; lia.
Qed.

Create HintDb typed discriminated.
#[export] Hint Constants Opaque : typed.

#[export] Hint Extern 5 (word _) => (apply word_const; reflexivity) : typed.
#[export] Hint Resolve ok_pc ok_vector ok_table word_wrap word_not cint_s32 : typed.

(** Follows the term: known words, the operations on words, constants. *)
Ltac word :=
  lazymatch goal with
  | H : ?P |- ?P => exact H
  | |- word (set_bits _ _) => apply word_set; word
  | |- word (clear_bits _ _) => apply word_clear; word
  | |- word (_ .| _) => apply word_lor; word
  | |- word (_ .& _) => first [apply word_land; word | apply word_land_r; word]
  | |- word (Z.ldiff _ _) => apply word_ldiff; word
  | |- word (wrap64 _) => apply word_wrap
  | |- word (not64 _) => apply word_not
  | |- word (mstatus_flag _ _ _) => apply word_flag; word
  | |- word (satp_value _) => apply word_satp; word
  | |- cint (s32 _) => apply cint_s32
  | |- word _ => first [solve [auto with typed] | apply word_const; reflexivity]
  | |- cint _ => first [solve [auto with typed] | apply cint_const; reflexivity]
  end.

(** ** The monad *)

Lemma typed_ret {A} (Q : A -> Prop) a : Q a -> Typed Q (mret a).
Proof. by intros HQ w Hw. Qed.

Lemma typed_weaken {A} (Q Q' : A -> Prop) m : (forall a, Q a -> Q' a) -> Typed Q m -> Typed Q' m.
Proof. intros H Hm w Hw. specialize (Hm w Hw). destruct (m w); [|done..]. destruct Hm; auto. Qed.

Lemma typed_bind {A B} (Q : A -> Prop) (R : B -> Prop) m (k : A -> M B) :
  Typed Q m -> (forall a, Q a -> Typed R (k a)) -> Typed R (mbind k m).
Proof.
  intros Hm Hk w Hw. specialize (Hm w Hw). unfold mbind, M_bind.
  destruct (m w); [|done..]. destruct Hm as [HQ Hv]. by apply Hk.
Qed.

Lemma typed_gets {A} (Q : A -> Prop) f : (forall w, world_ok w -> Q (f w)) -> Typed Q (gets f).
Proof. intros Hf w Hw. split; [by apply Hf|done]. Qed.

Lemma typed_modify f : (forall w, world_ok w -> world_ok (f w)) -> Keeps (modify f).
Proof. intros Hf w Hw. split; [done|by apply Hf]. Qed.

Lemma typed_finish {A} (Q : A -> Prop) v : Typed Q (finish v).
Proof. by intros w []. Qed.

Lemma typed_out_of_fuel {A} (Q : A -> Prop) : Typed Q out_of_fuel.
Proof. by intros w Hw. Qed.

Lemma typed_if {A} (Q : A -> Prop) (b : bool) m n :
  Typed Q m -> Typed Q n -> Typed Q (if b then m else n).
Proof. by destruct b. Qed.

(** The body of a loop, with its index in range. *)
Lemma typed_for n : forall from body,
  (forall i, from <= i < from + Z.of_nat n -> Keeps (body i)) -> Keeps (for_up n from body).
Proof.
  induction n as [|n IH]; intros from body Hb; cbn [for_up]; [by apply typed_ret|].
  apply typed_bind with (Q := fun _ => True); [apply Hb; lia|]. intros _ _.
  apply IH. intros i Hi. apply Hb. lia.
Qed.

(** ** What changes one part of the state *)

Lemma typed_out f : Keeps (modify (fun w => set_w_out (f (w_out w)) w)).
Proof. apply typed_modify. by intros w []. Qed.

Lemma typed_putc c : Keeps (out_putc c).
Proof. exact (typed_out (putc c)). Qed.
Lemma typed_puts s : Keeps (out_puts s).
Proof. exact (typed_out (uart_puts s)). Qed.
Lemma typed_hex v : Keeps (out_hex v).
Proof. exact (typed_out (uart_put_hex v)). Qed.
Lemma typed_dec v : Keeps (out_dec v).
Proof. exact (typed_out (uart_put_dec (s32 v))). Qed.

(** A write that leaves the timer's bits, or clears STIP. *)
Definition off_line (f : csrs -> csrs) : Prop := forall c,
  mhartid (f c) = mhartid c /\ tst (mie (f c)) MIP_MTIP = tst (mie c) MIP_MTIP /\
  (tst (mip (f c)) MIP_STIP = true -> tst (mip c) MIP_STIP = true).

Lemma typed_set_csr f : (forall c, csrs_ok c -> csrs_ok (f c)) -> off_line f -> Keeps (set_csr f).
Proof.
  intros Hf Hl. apply typed_modify. intros w [? ? ? ? ? [L1 L2 L3]]. split; [by apply Hf|done..|].
  destruct (Hl (w_csrs w)) as (E1 & E2 & E3). split; cbn [w_csrs w_clint set_w_csrs]; rewrite ?E1, ?E2; auto.
Qed.
Lemma typed_csr {A} (Q : A -> Prop) f : (forall c, csrs_ok c -> Q (f c)) -> Typed Q (csr f).
Proof. intros Hf. apply typed_gets. intros w []. by apply Hf. Qed.
Lemma typed_set_trap f : (forall t, trap_ok t -> trap_ok (f t)) -> Keeps (set_trap f).
Proof. intros Hf. apply typed_modify. intros w []. split; try done. by apply Hf. Qed.
Lemma typed_bump get set :
  (forall t v, trap_ok t -> cint v -> trap_ok (set v t)) -> Keeps (bump get set).
Proof. intros Hf. apply typed_set_trap. intros t Ht. apply Hf; [done|apply cint_s32]. Qed.

(** A write to a CLINT register other than the harts' [mtimecmp]. *)
Lemma typed_clint a v :
  word v -> (forall h, 0 <= h < NUM_HARTS -> a <> CLINT_MTIMECMP h) -> Keeps (clint_write a v).
Proof.
  intros Hv Ha. apply typed_modify. intros w [? ? ? ? ? [L1 L2 L3]]. split; try done.
  - by apply map_Forall_insert_2.
  - split; [done..|]. intros Hm. rewrite <- (L3 Hm). cbn [w_clint set_w_clint w_csrs].
    by rewrite lookup_insert_ne by auto.
Qed.

(** The two ends of the line: a deadline is set, and an expiry is forwarded. *)
Lemma typed_arm {B} (R : B -> Prop) v (k : M B) : word v -> Typed R k ->
  Typed R (hart ← read_mhartid; clint_write (CLINT_MTIMECMP hart) v ;;
           clear_csr_bits_mip MIP_STIP ;; set_csr_bits_mie MIP_MTIP ;; k).
Proof.
  intros Hv Hk w [[] ? ? ? ? [L1 L2 L3]]. apply Hk. split; cbn; try done.
  - split; cbn; try done; [by apply lor_range|by apply ldiff_range].
  - by apply map_Forall_insert_2.
  - split; [done|cbn; intros Hp..]; exfalso; revert Hp; irq_bits; done.
Qed.

Lemma typed_forward {B} (R : B -> Prop) (k : M B) : Typed R k ->
  Typed R (clear_csr_bits_mie MIP_MTIP ;; hart ← read_mhartid;
           clint_write (CLINT_MTIMECMP hart) MTIMECMP_MAX ;; set_csr_bits_mip MIP_STIP ;; k).
Proof.
  intros Hk w [[] ? ? ? ? [L1 L2 L3]]. apply Hk. split; cbn; try done.
  - split; cbn; try done; [by apply ldiff_range|by apply lor_range].
  - by apply map_Forall_insert_2.
  - split; [done|cbn; intros Hp; irq_bits; done|].
    intros _. cbn. by rewrite lookup_insert_eq.
Qed.

#[export] Hint Resolve typed_finish typed_out_of_fuel typed_putc typed_puts typed_hex typed_dec : typed.

(** ** The proof of a program's typing follows the program *)

Ltac ok_record :=
  intros; repeat match goal with
  | H : csrs_ok _ |- _ => destruct H
  | H : trap_ok _ |- _ => destruct H
  end; split; cbn; word.

(** A write of [sie] leaves MTIE. *)
Lemma line_sie x v :
  tst (Z.ldiff x asm_MIDELEG_DEFAULT .| (v .& asm_MIDELEG_DEFAULT)) MIP_MTIP = tst x MIP_MTIP.
Proof.
  change MIP_MTIP with (2 ^ 7). rewrite !tst_bit, Z.lor_spec, Z.ldiff_spec, Z.land_spec by lia.
  change (Z.testbit asm_MIDELEG_DEFAULT 7) with false. btauto.
Qed.

(** A write to other CSRs, or to other bits of [mie] and [mip]. *)
Ltac off_line :=
  intros ?; split_and!; [reflexivity|..]; cbn;
  first [done | apply line_sie | irq_bits; done].
Ltac other_register :=
  intros ? ?; unfold NUM_HARTS, CLINT_MSIP, CLINT_MTIMECMP in *; lia.

(** Known values of the first part of a bind, or none. *)
Ltac typed_step :=
  lazymatch goal with
  | |- Typed _ (mbind _ (csr _)) =>
      first [ apply typed_bind with (Q := word); [apply typed_csr; intros ? []; assumption|intros ? ?]
            | apply typed_bind with (Q := fun _ => True); [by apply typed_csr|intros ? _] ]
  | |- Typed _ (mbind _ (gets w_csrs)) =>
      apply typed_bind with (Q := csrs_ok); [apply typed_gets; by intros ? []|intros ? ?]
  | |- Typed _ (mbind _ _) =>
      first [ apply typed_bind with (Q := word); [solve [eauto with typed]|intros ? ?]
            | apply typed_bind with (Q := fun _ => True); [|intros ? _] ]
  | |- Typed _ (mret _) => apply typed_ret; first [exact I | word]
  | |- Typed _ (if ?x then _ else _) => first [apply typed_if | destruct x]
  | |- Typed _ (match ?x with _ => _ end) => destruct x
  | |- Typed _ (let _ := _ in _) => cbv zeta
  | |- Typed _ (gets _) => by apply typed_gets
  | |- Typed _ (csr _) => by apply typed_csr
  | |- Typed _ (trap _) => by apply typed_gets
  | |- Typed _ (set_csr _) => apply typed_set_csr; [ok_record|off_line]
  | |- Typed _ (set_trap _) => apply typed_set_trap; ok_record
  | |- Typed _ (bump _ _) => apply typed_bump; ok_record
  | |- Typed _ (clint_write _ _) => apply typed_clint; [word|other_register]
  | |- Typed _ (modify _) => apply typed_modify; intros ? []; by split
  | |- Typed _ (for_up _ _ _) => apply typed_for; intros ? ?
  | |- Typed _ ?m =>
      first [solve [eauto with typed] | progress (let h := head_of m in unfold h)]
  end.
Ltac typed := repeat typed_step.

(** Entering and leaving traps. *)
Lemma word_s_entry ms : word ms -> word (s_entry_status ms).
Proof. intros. unfold s_entry_status. word. Qed.
Lemma word_sret ms : word ms -> word (sret_status ms).
Proof. intros. unfold sret_status. word. Qed.
Lemma word_m_entry ms : word ms -> word (m_entry_status ms).
Proof. intros. unfold m_entry_status. word. Qed.
Lemma word_mret ms : word ms -> word (mret_status ms).
Proof. intros. unfold mret_status. word. Qed.
#[export] Hint Resolve word_s_entry word_sret word_m_entry word_mret : typed.

(** ** The handlers *)

Section Handlers.
Context (e : env) (He : env_ok e).

Lemma typed_fail {A} (Q : A -> Prop) code : Typed Q (test_fail e code).
Proof using. unfold test_fail. typed. Qed.
#[local] Hint Resolve typed_fail : typed.

Lemma typed_panic mcause mepc mtval code :
  word mcause -> word mepc -> word mtval -> Typed word (panic e mcause mepc mtval code).
Proof using.
  intros H1 H2 H3. unfold panic. apply typed_bind with (Q := fun _ => True); [|intros _ _; apply typed_finish].
  apply typed_modify. intros w []. split; try done.
  cbn. by repeat first [apply Forall_nil_2 | apply Forall_cons_2].
Qed.
#[local] Hint Resolve typed_panic : typed.

Lemma typed_hart : Typed (fun h => 0 <= h < NUM_HARTS) read_mhartid.
Proof using. apply typed_gets. intros w Hw. apply (ln_hart _ _ (ok_line _ Hw)). Qed.

Lemma typed_m_handler mcause mepc mtval frame :
  word mcause -> word mepc -> word mtval -> (forall i, word (frame i)) ->
  Typed word (m_trap_handler e mcause mepc mtval frame).
Proof using.
  intros Hc Hpc Htv Hf. unfold m_trap_handler. cbv zeta. destruct (negb _).
  - destruct (_ =? IRQ_M_TIMER); [apply typed_forward; typed|].
    destruct (_ =? IRQ_M_SOFT); [|typed].
    apply typed_bind with (Q := fun h => 0 <= h < NUM_HARTS); [exact typed_hart|intros hart Hh]. typed.
  - destruct (_ =? CAUSE_ECALL_SMODE); [|typed].
    destruct (_ =? SBI_SET_TIMER); [apply typed_arm; [apply Hf|typed]|].
    destruct (_ =? SBI_SEND_IPI); [|typed].
    typed_step; [|typed]. pose proof (Hf 4) as [Ha _]. unfold when.
    destruct (Z.ltb_spec (frame 4) NUM_HARTS); typed.
Qed.
#[local] Hint Resolve typed_m_handler : typed.

Lemma word_frame a0 a7 i : word a0 -> word a7 -> word (regs_frame a0 a7 i).
Proof using. intros. unfold regs_frame. repeat case_match; word. Qed.

Lemma typed_m_trap mcause mtval pc a0 a7 :
  word mcause -> word mtval -> word pc -> word a0 -> word a7 ->
  Typed word (m_trap e mcause mtval pc a0 a7).
Proof using.
  intros. unfold m_trap. typed_step; [typed|].
  apply typed_bind with (Q := word); [apply typed_m_handler; auto using word_frame|]. intros resume ?. typed.
Qed.
#[local] Hint Resolve typed_m_trap : typed.

Lemma typed_sbi a0 a7 : word a0 -> word a7 -> Keeps (sbi_ecall e a0 a7).
Proof using He.
  intros. unfold sbi_ecall.
  apply typed_bind with (Q := word); [apply typed_m_trap; word|]. intros. typed.
Qed.

#[local] Hint Resolve typed_sbi : typed.

Lemma typed_s_handler cause tval pc slot :
  word cause -> word tval -> word pc -> word slot -> Typed word (s_trap_handler e cause tval pc slot).
Proof using He.
  intros. unfold s_trap_handler. typed.
Qed.
#[local] Hint Resolve typed_s_handler : typed.

Lemma typed_s_vector : Typed word (s_vector e).
Proof using He.
  unfold s_vector. apply typed_bind with (Q := csrs_ok); [by apply typed_gets; intros ? []|].
  intros c []. typed.
Qed.
#[local] Hint Resolve typed_s_vector : typed.

Lemma typed_s_trap cause tval pc :
  word cause -> word tval -> word pc -> Typed word (s_trap e cause tval pc).
Proof using He. intros. unfold s_trap. typed. Qed.
#[local] Hint Resolve typed_s_trap : typed.

Lemma typed_ecall a0 a7 : word a0 -> word a7 -> Keeps (ecall e a0 a7).
Proof using He. intros. unfold ecall. typed. Qed.
#[local] Hint Resolve typed_ecall : typed.

(** *** Interrupts *)

Definition cause_ok (o : option Z) : Prop := forall code, o = Some code -> word (interrupt_bit + code).

Lemma m_pending_ok w : cause_ok (m_pending w).
Proof using. intros code. unfold m_pending. repeat case_match; intros [= <-]; word. Qed.

Lemma s_pending_ok w : cause_ok (s_pending w).
Proof using. intros code. unfold s_pending. repeat case_match; intros [= <-]; word. Qed.

Lemma typed_same {A} (Q : A -> Prop) m n : Same m n -> Typed Q n -> Typed Q m.
Proof using. intros Hs Hn w Hw. rewrite (Hs w). by apply Hn. Qed.

Lemma typed_deliver n : Keeps (deliver e n).
Proof using He.
  assert (forall f (k : Z -> M unit) d, (forall w, cause_ok (f w)) -> Keeps d ->
    (forall code, word (interrupt_bit + code) -> Keeps (k code)) ->
    Keeps (o ← gets f; match o with Some code => k code | None => d end)) as Hif.
  { intros f k d Hf Hd Hk. apply typed_bind with (Q := cause_ok); [by apply typed_gets|].
    intros [code|] Hc; [apply Hk, Hc; done|done]. }
  induction n as [|n IH]; (eapply typed_same; [apply deliver_eq|]); cbv iota;
    (apply Hif; [apply m_pending_ok|apply Hif; [apply s_pending_ok|by apply typed_ret|]|];
     intros code Hcode; typed; exact IH).
Qed.

Lemma typed_tick : Keeps (tick e).
Proof using.
  intros w [? ? ? ? ? [L1 L2 L3]]. split; [done|]. split; try done.
  - apply map_Forall_insert_2; [apply word_wrap|done].
  - split; [done..|]. intros Hm. rewrite <- (L3 Hm). cbn [w_clint set_w_clint set_w_steps w_csrs].
    rewrite lookup_insert_ne; [done|].
    unfold NUM_HARTS, CLINT_MTIME, CLINT_MTIMECMP in *. cbn in L1. lia.
Qed.

Lemma typed_window : Keeps (irq_window e).
Proof using He.
  apply typed_bind with (Q := fun _ => True); [apply typed_tick|intros _ _; apply typed_deliver].
Qed.
#[local] Hint Resolve typed_window : typed.

Lemma typed_wfi n : Keeps (wfi e n).
Proof using He.
  induction n as [|n IH]; (eapply typed_same; [apply wfi_eq|]); cbv iota; typed; exact IH.
Qed.

Lemma typed_spin n : forall waiting timeout, Keeps (spin e n waiting timeout).
Proof using He. induction n as [|n IH]; intros; cbn [spin]; typed; apply IH. Qed.
#[local] Hint Resolve typed_wfi typed_spin : typed.

(** *** Accesses *)

Lemma typed_translate acc va : Keeps (translate_once e acc va).
Proof using.
  intros w Hw. unfold translate_once. destruct (paging w); [|done].
  destruct (tlb_translate _ _ _ _ _ _ _) as [[pa m] t]. destruct Hw. by split.
Qed.

Lemma word_cause acc : word (fault_cause acc).
Proof using. destruct acc; word. Qed.

Lemma typed_access acc va n : word va -> Keeps (do_access e n acc va).
Proof using He.
  intros Hva. assert (word (if bool_decide (acc = Fetch) then va else e_pc e)) as Hpc
    by (case_bool_decide; word).
  induction n as [|n IH]; cbn [do_access];
    (apply typed_bind with (Q := fun _ => True); [apply typed_translate|]);
    intros [pa|] _; try (by apply typed_ret); cbv zeta;
    (apply typed_bind with (Q := word);
      [apply typed_s_trap; [apply word_cause|done|done]|]); intros resume _; typed; exact IH.
Qed.
#[local] Hint Resolve typed_access : typed.

Lemma typed_load va : word va -> Keeps (load64 e va).
Proof using He. intros. unfold load64. typed. Qed.
Lemma typed_store va v : word va -> Keeps (store64 e va v).
Proof using He. intros. unfold store64. typed. Qed.
Lemma typed_store32 va v : word va -> Keeps (store32 e va v).
Proof using He. intros. unfold store32. typed. Qed.
Lemma typed_call va : word va -> Keeps (call_ret e va).
Proof using He. intros. unfold call_ret. typed. Qed.
#[local] Hint Resolve typed_load typed_store typed_store32 typed_call : typed.

(** *** The page-table functions *)

Lemma typed_reset : Keeps do_pt_reset.
Proof using. apply typed_modify. intros w []. by split. Qed.

(** After [pt_reset] the root is the first page of the pool. *)
Lemma typed_setup {B} (R : B -> Prop) (k : Z -> M B) :
  (forall root, word root -> Typed R (k root)) ->
  Typed R (do_pt_reset ;; (root ← do_pt_setup_identity_kernel e; k root)).
Proof using He.
  intros Hk w Hw. unfold mbind, M_bind, do_pt_reset, modify, do_pt_setup_identity_kernel.
  cbn [fst]. apply Hk.
  - change (word (e_page_table_start e + 0)). rewrite Z.add_0_r. exact (ok_table e He).
  - destruct Hw. by split.
Qed.

Lemma typed_alloc : Keeps (do_pt_alloc_page e).
Proof using. intros w []. split; [done|]. split; try done. apply cint_s32. Qed.

Lemma pool_map start st root va pa perm valid :
  cint (pt_pool_next_page st) -> cint (pt_pool_next_page (pt_map_page start st root va pa perm valid)).
Proof using.
  intros H. unfold pt_map_page, pt_alloc_page. cbv zeta.
  repeat case_match; simplify_eq; cbn; first [apply cint_s32 | done].
Qed.

Lemma typed_map root va pa perm valid : Keeps (do_pt_map_page e root va pa perm valid).
Proof using. intros w []. split; [done|]. split; try done. by apply pool_map. Qed.
#[local] Hint Resolve typed_reset typed_alloc typed_map : typed.

(** ** The programs *)

Lemma typed_check_loop n : forall i errors,
  0 <= i -> i + Z.of_nat n <= 1024 -> Keeps (p0_check_loop e n i errors).
Proof using He.
  induction n as [|n IH]; intros i errors Hi Hn; cbn [p0_check_loop]; [by apply typed_ret|].
  assert (word (e_heap_start e + 8 * i)) as Hw by (destruct (ok_heap e He); unfold word; lia).
  apply typed_bind with (Q := fun _ => True); [typed|]. intros errors' _. apply IH; lia.
Qed.

Lemma typed_p0_4 : Keeps (p0_4 e).
Proof using He.
  unfold p0_4. typed_step; [typed|]. cbv zeta. set (n := if 1024 <? _ then 1024 else _).
  assert (0 <= n <= 1024) as Hn.
  { subst n. pose proof (wrap64_range (e_heap_end e - e_heap_start e)).
    destruct (Z.ltb_spec 1024 (wrap64 (e_heap_end e - e_heap_start e) / 8)); [lia|].
    split; [apply Z.div_pos; lia|done]. }
  typed_step.
  - apply typed_for. intros i Hi. apply typed_store. destruct (ok_heap e He). unfold word. lia.
  - apply typed_bind with (Q := fun _ => True); [apply typed_check_loop; lia|]. intros errors _. typed.
Qed.
#[local] Hint Resolve typed_p0_4 : typed.

Lemma typed_p0 : Keeps (p0_test_main e).
Proof using He. unfold p0_test_main. typed. Qed.

End Handlers.

#[export] Hint Resolve typed_fail typed_m_trap typed_s_trap typed_ecall typed_window typed_wfi typed_spin
  typed_access typed_load typed_store typed_store32 typed_call typed_reset typed_alloc typed_map
  typed_p0 : typed.

(** Addresses are constants, or computed from a loop's index. *)
Ltac address :=
  first [ word
        | unfold word, NUM_FAULTS, THRASH_COUNT, SRAM_BASE in *; rewrite PGSIZE_val; lia ].

Ltac typed_program :=
  repeat first
    [ lazymatch goal with
      | |- Typed _ (mbind _ do_pt_reset) => apply typed_setup; [assumption|intros ? ?]
      | |- Typed _ (load64 _ _) => apply typed_load; [assumption|address]
      | |- Typed _ (store64 _ _ _) => apply typed_store; [assumption|address]
      end
    | typed_step ].

Section Programs.
Context (e : env) (He : env_ok e).

Lemma typed_p1a : Keeps (p1a_test_main e).
Proof using He. unfold p1a_test_main, p1a_1. typed_program. Qed.

Lemma typed_p1b : Keeps (p1b_test_main e).
Proof using He. unfold p1b_test_main. typed_program. Qed.

Lemma typed_p1c : Keeps (p1c_test_main e).
Proof using He. unfold p1c_test_main. typed_program. Qed.

Lemma typed_p1d : Keeps (p1d_test_main e).
Proof using He. unfold p1d_test_main, p1d_test_with. typed_program. Qed.

Lemma typed_p2 : Keeps (p2_test_main e).
Proof using He. unfold p2_test_main, p2_4. typed_program. Qed.

Lemma typed_sc pa v : Keeps (sc_at e pa v).
Proof using. intros w []. unfold sc_at. by destruct (_ && _). Qed.
#[local] Hint Resolve typed_sc : typed.

Lemma typed_cas n : forall addr expected desired, word addr -> Keeps (cas_d e n addr expected desired).
Proof using He. induction n as [|n IH]; intros; cbn [cas_d]; typed; by apply IH. Qed.
#[local] Hint Resolve typed_cas : typed.

Lemma typed_p3 : Keeps (p3_test_main e g_p3_addr).
Proof using He. unfold p3_test_main. typed_program. Qed.

Lemma typed_entry m : Keeps m -> Keeps (s_mode_entry e m).
Proof using He.
  intros Hm. unfold s_mode_entry. typed_step; [typed|]. typed_step; [typed|].
  apply typed_bind with (Q := fun _ => True); [exact Hm|]. intros result _. typed.
Qed.
End Programs.

Lemma boot_world_ok m : world_ok (boot_world m).
Proof.
  split; cbn; [| |split; cbn; word|word|done|].
  - split; cbn; word.
  - apply map_Forall_insert_2; [word|]. apply map_Forall_empty.
  - split; [done|done|]. intros _. reflexivity.
Qed.


(** ** At a concrete input: P2 on the machine of [SuiteRuns] *)

