(* ===== verification/Boot.v ===== *)
(** * The assembly of the suite ([common/boot.S])

    A machine for the instructions [boot.S] uses, the code of [_start] and of the
    two trap vectors in it, and what they promise the C code: the state S-mode
    starts in, and trap vectors that give back every register. *)

From S2P Require Import Prelude Platform Memory Sv39 PtTree PageMap PageTable Tlb TlbRel Console Machine MTrap STrap Hart SuiteMmu SuiteFault SuiteIrq AllHarts SuiteRuns Typed.

(** ** The machine *)

Inductive reg :=
| zero | ra | sp | gp | tp | t0 | t1 | t2 | s0 | s1
| a0 | a1 | a2 | a3 | a4 | a5 | a6 | a7
| s2 | s3 | s4 | s5 | s6 | s7 | s8 | s9 | s10 | s11
| t3 | t4 | t5 | t6.
#[global] Instance reg_eq_dec : EqDecision reg.
Proof. solve_decision. Defined.

(** The CSRs of [boot.S], M-mode's and S-mode's. *)
Inductive csr_name :=
| c_mhartid | c_mtvec | c_pmpaddr0 | c_pmpcfg0 | c_medeleg | c_mideleg | c_mie | c_mstatus
| c_mepc | c_mcause | c_mtval | c_sepc | c_scause | c_stval.
#[global] Instance csr_name_eq_dec : EqDecision csr_name.
Proof. solve_decision. Defined.

(** [cpu_priv] is the privilege level: 3 for M-mode, 1 for S-mode. *)
Record cpu := mk_cpu {
  cpu_reg : reg -> Z;
  cpu_mem : mem;
  cpu_csr : csr_name -> Z;
  cpu_priv : Z
}.

Definition get (s : cpu) (r : reg) : Z := if bool_decide (r = zero) then 0 else cpu_reg s r.
Definition set (r : reg) (v : Z) (s : cpu) : cpu :=
  mk_cpu (fun r' => if bool_decide (r' = r) then wrap64 v else cpu_reg s r') (cpu_mem s) (cpu_csr s) (cpu_priv s).
Definition set_mem (m : mem) (s : cpu) : cpu := mk_cpu (cpu_reg s) m (cpu_csr s) (cpu_priv s).
Definition put_csr (c : csr_name) (v : Z) (s : cpu) : cpu :=
  mk_cpu (cpu_reg s) (cpu_mem s) (fun c' => if bool_decide (c' = c) then v else cpu_csr s c') (cpu_priv s).
Definition set_priv (p : Z) (s : cpu) : cpu := mk_cpu (cpu_reg s) (cpu_mem s) (cpu_csr s) p.

(** [la] and [li] load a constant; [mv] is [addi] with 0; a label is where [j] and
    the branches go; [call] is to the C function of the vector. *)
Inductive instr :=
| Label (l : string)
| Li (rd : reg) (v : Z)
| Addi (rd rs : reg) (imm : Z)
| Not (rd rs : reg)
| And (rd rs1 rs2 : reg)
| Or (rd rs1 rs2 : reg)
| Sd (rs : reg) (imm : Z) (base : reg)
| Ld (rd : reg) (imm : Z) (base : reg)
| Csrr (rd : reg) (c : csr_name)
| Csrw (c : csr_name) (rs : reg)
| Csrs (c : csr_name) (rs : reg)
| J (l : string)
| Bnez (rs : reg) (l : string)
| Bge (rs1 rs2 : reg) (l : string)
| Call
| Mret
| Sret.

(** What is behind a label. *)
Fixpoint code_at (l : string) (code : list instr) : option (list instr) :=
  match code with
  | [] => None
  | Label l' :: rest => if String.eqb l l' then Some rest else code_at l rest
  | _ :: rest => code_at l rest
  end.

(** [mret] and [sret] go to the level that was saved. *)
Definition mpp (ms : Z) : Z := (ms .>> 11) .& 3.
Definition spp (ms : Z) : Z := (ms .>> 8) .& 1.

Section Machine.
(** The C function that is called. *)
Context (callee : cpu -> option cpu).

(** Runs [rest], a tail of [code], to the [mret] or [sret]: where that goes, and the
    state.  A misaligned store or load would trap, which this code never does. *)
Fixpoint exec (fuel : nat) (code rest : list instr) (s : cpu) : option (Z * cpu) :=
  match fuel, rest with
  | S fuel, i :: rest =>
      let jump l := match code_at l code with
                    | Some rest => exec fuel code rest s
                    | None => None
                    end in
      match i with
      | Label _ => exec fuel code rest s
      | Li rd v => exec fuel code rest (set rd v s)
      | Addi rd rs imm => exec fuel code rest (set rd (get s rs + imm) s)
      | Not rd rs => exec fuel code rest (set rd (not64 (get s rs)) s)
      | And rd rs1 rs2 => exec fuel code rest (set rd (get s rs1 .& get s rs2) s)
      | Or rd rs1 rs2 => exec fuel code rest (set rd (get s rs1 .| get s rs2) s)
      | Sd rs imm base =>
          let a := wrap64 (get s base + imm) in
          if a mod 8 =? 0 then exec fuel code rest (set_mem (wr64 (cpu_mem s) a (get s rs)) s) else None
      | Ld rd imm base =>
          let a := wrap64 (get s base + imm) in
          if a mod 8 =? 0 then exec fuel code rest (set rd (rd64 (cpu_mem s) a) s) else None
      | Csrr rd c => exec fuel code rest (set rd (cpu_csr s c) s)
      | Csrw c rs => exec fuel code rest (put_csr c (get s rs) s)
      | Csrs c rs => exec fuel code rest (put_csr c (set_bits (cpu_csr s c) (get s rs)) s)
      | J l => jump l
      | Bnez rs l => if get s rs =? 0 then exec fuel code rest s else jump l
      | Bge rs1 rs2 l => if s64 (get s rs2) <=? s64 (get s rs1) then jump l else exec fuel code rest s
      | Call => match callee s with
                | Some s => exec fuel code rest s
                | None => None
                end
      | Mret =>
          let ms := cpu_csr s c_mstatus in
          Some (cpu_csr s c_mepc, set_priv (mpp ms) (put_csr c_mstatus (mret_status ms) s))
      | Sret =>
          let ms := cpu_csr s c_mstatus in
          Some (cpu_csr s c_sepc, set_priv (spp ms) (put_csr c_mstatus (sret_status ms) s))
      end
  | _, _ => None
  end.
End Machine.

(** ** [_start] *)

Section Start.
(** The linker's symbols. *)
Context (_stack0_top _stack1_top _bss_start _bss_end _m_trap_vector s_mode_entry_addr core1_smode_park_loop_addr : Z).

Definition bss_loop : list instr :=
  [ Bge t1 t2 ".Lbss_done"; Sd zero 0 t1; Addi t1 t1 8; J ".Lbss_loop";
    Label ".Lbss_done" ].

Definition start_csrs : list instr :=
  [ (** M-mode trap vector *)
    Li t0 _m_trap_vector; Csrw c_mtvec t0;
    (** PMP: full RWX access *)
    Li t0 (-1); Csrw c_pmpaddr0 t0;
    Li t0 (PMP_R .| PMP_W .| PMP_X .| PMP_NAPOT); Csrw c_pmpcfg0 t0;
    (** Delegate exceptions and interrupts to S-mode *)
    Li t0 asm_MEDELEG_DEFAULT; Csrw c_medeleg t0;
    Li t0 asm_MIDELEG_DEFAULT; Csrw c_mideleg t0;
    (** Enable M-mode software and timer interrupts *)
    Li t0 (MIP_MSIP .| MIP_MTIP); Csrs c_mie t0;
    (** Set MPP=S-mode for mret *)
    Csrr t0 c_mstatus; Li t1 MSTATUS_MPP_MASK; Not t1 t1; And t0 t0 t1;
    Li t1 MSTATUS_MPP_S; Or t0 t0 t1; Csrw c_mstatus t0;
    (** Hart 0 to S-mode; hart 1 to park *)
    Csrr t0 c_mhartid; Bnez t0 ".Lhart1_smode";
    Li t0 s_mode_entry_addr; Csrw c_mepc t0; Mret;
    Label ".Lhart1_smode";
    Li t0 core1_smode_park_loop_addr; Csrw c_mepc t0; Mret ].

Definition _start : list instr :=
  [ Csrr t0 c_mhartid;
    Li sp _stack0_top; Bnez t0 ".Lhart1_stack"; J ".Lstack_done";
    Label ".Lhart1_stack"; Li sp _stack1_top;
    Label ".Lstack_done";
    (** Hart 0: clear BSS *)
    Bnez t0 ".Lskip_bss"; Li t1 _bss_start; Li t2 _bss_end;
    Label ".Lbss_loop" ] ++ bss_loop ++ [ Label ".Lskip_bss" ] ++ start_csrs.
End Start.

(** ** The trap vectors *)

(** The registers in the frame, with their offsets. *)
Definition m_frame : list (reg * Z) :=
  [ (ra, 0); (t0, 8); (t1, 16); (t2, 24); (a0, 32); (a1, 40); (a2, 48); (a3, 56); (a4, 64);
    (a5, 72); (a6, 80); (a7, 88); (t3, 96); (t4, 104); (t5, 112); (t6, 120) ].
Definition s_frame : list (reg * Z) :=
  [ (ra, 0); (gp, 8); (tp, 16); (t0, 24); (t1, 32); (t2, 40); (s0, 48); (s1, 56); (a0, 64);
    (a1, 72); (a2, 80); (a3, 88); (a4, 96); (a5, 104); (a6, 112); (a7, 120); (s2, 128);
    (s3, 136); (s4, 144); (s5, 152); (s6, 160); (s7, 168); (s8, 176); (s9, 184); (s10, 192);
    (s11, 200); (t3, 208); (t4, 216); (t5, 224); (t6, 232) ].

Definition save : reg * Z -> instr := fun '(r, off) => Sd r off sp.
Definition restore : reg * Z -> instr := fun '(r, off) => Ld r off sp.

Definition m_trap_vector : list instr :=
  [ Addi sp sp (-128) ] ++ (save <$> m_frame) ++
  [ Csrr a0 c_mcause; Csrr a1 c_mepc; Csrr a2 c_mtval; Addi a3 sp 0; Call; Csrw c_mepc a0 ] ++
  (restore <$> m_frame) ++ [ Addi sp sp 128; Mret ].

Definition s_trap_vector : list instr :=
  [ Addi sp sp (-256) ] ++ (save <$> s_frame) ++
  [ Csrr t0 c_sepc; Sd t0 240 sp;
    Csrr a0 c_scause; Csrr a1 c_stval; Csrr a2 c_sepc; Addi a3 sp 0; Call;
    Ld t0 240 sp; Csrw c_sepc t0 ] ++
  (restore <$> s_frame) ++ [ Addi sp sp 256; Sret ].

(** ** Single steps *)

Section Steps.
Context (callee : cpu -> option cpu) (n : nat) (code rest : list instr) (s : cpu).

Lemma exec_label l : exec callee (S n) code (Label l :: rest) s = exec callee n code rest s.
Proof using. done. Qed.
Lemma exec_li rd v : exec callee (S n) code (Li rd v :: rest) s = exec callee n code rest (set rd v s).
Proof using. done. Qed.
Lemma exec_addi rd rs imm :
  exec callee (S n) code (Addi rd rs imm :: rest) s = exec callee n code rest (set rd (get s rs + imm) s).
Proof using. done. Qed.
Lemma exec_csrr rd c :
  exec callee (S n) code (Csrr rd c :: rest) s = exec callee n code rest (set rd (cpu_csr s c) s).
Proof using. done. Qed.
Lemma exec_csrw c rs :
  exec callee (S n) code (Csrw c rs :: rest) s = exec callee n code rest (put_csr c (get s rs) s).
Proof using. done. Qed.
Lemma exec_csrs c rs :
  exec callee (S n) code (Csrs c rs :: rest) s
  = exec callee n code rest (put_csr c (set_bits (cpu_csr s c) (get s rs)) s).
Proof using. done. Qed.
Lemma exec_not rd rs :
  exec callee (S n) code (Not rd rs :: rest) s = exec callee n code rest (set rd (not64 (get s rs)) s).
Proof using. done. Qed.
Lemma exec_and rd rs1 rs2 :
  exec callee (S n) code (And rd rs1 rs2 :: rest) s
  = exec callee n code rest (set rd (get s rs1 .& get s rs2) s).
Proof using. done. Qed.
Lemma exec_or rd rs1 rs2 :
  exec callee (S n) code (Or rd rs1 rs2 :: rest) s
  = exec callee n code rest (set rd (get s rs1 .| get s rs2) s).
Proof using. done. Qed.
Lemma exec_sd rs imm b a :
  wrap64 (get s b + imm) = a -> (a mod 8 =? 0) = true ->
  exec callee (S n) code (Sd rs imm b :: rest) s
  = exec callee n code rest (set_mem (wr64 (cpu_mem s) a (get s rs)) s).
Proof using. intros <- Ha. cbn [exec]. by rewrite Ha. Qed.
Lemma exec_ld rd imm b a :
  wrap64 (get s b + imm) = a -> (a mod 8 =? 0) = true ->
  exec callee (S n) code (Ld rd imm b :: rest) s = exec callee n code rest (set rd (rd64 (cpu_mem s) a) s).
Proof using. intros <- Ha. cbn [exec]. by rewrite Ha. Qed.
Lemma exec_call :
  exec callee (S n) code (Call :: rest) s =
  match callee s with
  | Some s' => exec callee n code rest s'
  | None => None
  end.
Proof using. done. Qed.
Lemma exec_mret :
  exec callee (S n) code (Mret :: rest) s
  = Some (cpu_csr s c_mepc, set_priv (mpp (cpu_csr s c_mstatus))
      (put_csr c_mstatus (mret_status (cpu_csr s c_mstatus)) s)).
Proof using. done. Qed.
Lemma exec_sret :
  exec callee (S n) code (Sret :: rest) s
  = Some (cpu_csr s c_sepc, set_priv (spp (cpu_csr s c_mstatus))
      (put_csr c_mstatus (sret_status (cpu_csr s c_mstatus)) s)).
Proof using. done. Qed.
End Steps.

(** ** Saving and restoring *)

(** The memory after the stores of a frame at [b]. *)
Definition save_mem (b : Z) (s : cpu) : list (reg * Z) -> mem :=
  foldl (fun m x => wr64 m (b + x.2) (get s x.1)) (cpu_mem s).

(** The frame lies in memory below 2^64, at an aligned address. *)
Definition frame_fits (b size : Z) : Prop := 0 <= b /\ b + size <= 2 ^ 64 /\ b mod 8 = 0.
Definition slots_in (size : Z) (l : list (reg * Z)) : Prop :=
  Forall (fun x => 0 <= x.2 < size /\ x.2 mod 8 = 0) l.

Lemma slot_addr b size off :
  frame_fits b size -> 0 <= off < size -> off mod 8 = 0 ->
  wrap64 (b + off) = b + off /\ ((b + off) mod 8 =? 0) = true.
Proof.
  intros (Hb & He & Ha) Ho Hm. split; [apply wrap64_small; lia|].
  apply Z.eqb_eq. rewrite Z.add_mod, Ha, Hm by lia. done.
Qed.

Lemma exec_saves callee b size l : forall n code rest s,
  get s sp = b -> frame_fits b size -> slots_in size l ->
  exec callee (length l + n) code ((save <$> l) ++ rest) s
  = exec callee n code rest (set_mem (save_mem b s l) s).
Proof.
  induction l as [|[r off] l IH]; intros n code rest s Hb Hf Hl; [by destruct s|].
  apply Forall_cons in Hl as [[Ho Hm] Hl]. cbn [fst snd] in Ho, Hm.
  destruct (slot_addr b size off Hf Ho Hm) as [Ew Ea].
  cbn [length Nat.add fmap list_fmap app save].
  rewrite (exec_sd _ _ _ _ _ _ _ _ (b + off)) by congruence. by rewrite IH.
Qed.

Lemma save_mem_other b s l a :
  (forall x, x ∈ l -> (b + x.2) mod 8 = 0) -> a mod 8 = 0 -> (forall x, x ∈ l -> a <> b + x.2) ->
  rd64 (save_mem b s l) a = rd64 (cpu_mem s) a.
Proof.
  unfold save_mem. generalize (cpu_mem s). induction l as [|[r off] l IH]; intros m Hal Ha Hne; [done|].
  cbn [foldl fst snd]. rewrite IH; [|set_solver..].
  apply rd64_wr64_other; [|done|].
  - apply (Hal (r, off)). left.
  - intros E. apply (Hne (r, off)); [left|done].
Qed.

Lemma save_mem_in b size s l r off :
  frame_fits b size -> slots_in size l -> NoDup l.*2 -> (r, off) ∈ l -> 0 <= get s r < 2 ^ 64 ->
  rd64 (save_mem b s l) (b + off) = get s r.
Proof.
  intros Hf Hl Hd Hin Hr. unfold save_mem. generalize (cpu_mem s).
  induction l as [|[r1 off1] l IH]; intros m; [by apply not_elem_of_nil in Hin|].
  apply Forall_cons in Hl as [[Ho Hm] Hl]. cbn [fst snd] in *. apply NoDup_cons in Hd as [Hni Hd].
  cbn [foldl fst snd]. apply elem_of_cons in Hin as [[= -> ->]|Hin]; [|by apply IH].
  pose proof (save_mem_other b (set_mem (wr64 m (b + off1) (get s r1)) s) l (b + off1)) as Hsame.
  unfold save_mem in Hsame. cbn [cpu_mem set_mem] in Hsame.
  change (get (set_mem _ s)) with (get s) in Hsame. rewrite Hsame.
  - by apply rd64_wr64_eq.
  - intros [r2 off2] H2. unfold slots_in in Hl. rewrite Forall_forall in Hl.
    destruct (Hl _ H2). cbn [snd] in *. by eapply Z.eqb_eq, slot_addr.
  - by eapply Z.eqb_eq, slot_addr.
  - intros [r2 off2] H2 E. cbn [snd] in E. apply Hni, list_elem_of_fmap.
    exists (r2, off2). split; [cbn; lia|done].
Qed.

(** The registers after the loads of a frame at [b]. *)
Lemma exec_restores callee b size l : forall n code rest s,
  get s sp = b -> frame_fits b size -> slots_in size l -> NoDup l.*1 -> sp ∉ l.*1 ->
  exists s',
    exec callee (length l + n) code ((restore <$> l) ++ rest) s = exec callee n code rest s' /\
    cpu_mem s' = cpu_mem s /\ cpu_csr s' = cpu_csr s /\ cpu_priv s' = cpu_priv s /\
    (forall r off, (r, off) ∈ l -> cpu_reg s' r = rd64 (cpu_mem s) (b + off)) /\
    (forall r, r ∉ l.*1 -> cpu_reg s' r = cpu_reg s r).
Proof.
  induction l as [|[r off] l IH]; intros n code rest s Hb Hf Hl Hd Hsp.
  { exists s. split_and!; try done. intros r off Hin. by apply not_elem_of_nil in Hin. }
  apply Forall_cons in Hl as [[Ho Hm] Hl]. cbn [fst snd fmap list_fmap] in *.
  apply NoDup_cons in Hd as [Hni Hd]. apply not_elem_of_cons in Hsp as [Hne Hsp].
  destruct (slot_addr b size off Hf Ho Hm) as [Ew Ea].
  cbn [length Nat.add app restore]. rewrite (exec_ld _ _ _ _ _ _ _ _ (b + off)) by congruence.
  set (s1 := set r (rd64 (cpu_mem s) (b + off)) s).
  assert (forall r', r' <> r -> cpu_reg s1 r' = cpu_reg s r') as Hother.
  { intros r' Hr. cbn. by rewrite bool_decide_eq_false_2. }
  destruct (IH n code rest s1) as (s' & He & Hmem & Hcsr & Hp & Hin & Hout); try done.
  { unfold get in *. rewrite Hother; done. }
  exists s'. split_and!; [done..| |].
  - intros r' off' [[= -> ->]|H]%elem_of_cons; [|by apply Hin].
    rewrite (Hout r) by done. cbn. rewrite bool_decide_eq_true_2 by done.
    apply wrap64_small, rd64_range.
  - intros r' [Hr Hr']%not_elem_of_cons. rewrite Hout by done. by apply Hother.
Qed.

(** ** What the vectors promise the C code *)

(** The machine and the C code's view of it: the memory outside the stacks, and the
    CSRs. *)
Record sim (stack : Z -> Prop) (s : cpu) (w : world) : Prop := {
  sim_mem a : a mod 8 = 0 -> ~ stack a -> rd64 (cpu_mem s) a = rd64 (w_mem w) a;
  sim_hart : cpu_csr s c_mhartid = mhartid (w_csrs w);
  sim_status : cpu_csr s c_mstatus = mstatus (w_csrs w);
  sim_mie : cpu_csr s c_mie = mie (w_csrs w);
  sim_sepc : cpu_csr s c_sepc = sepc (w_csrs w);
  sim_scause : cpu_csr s c_scause = scause (w_csrs w);
  sim_stval : cpu_csr s c_stval = stval (w_csrs w)
}.

(** The calling convention: what a C function gives back, given the slots of the
    caller's frame it does not write. *)
Definition callee_saved : list reg := [sp; gp; tp; s0; s1; s2; s3; s4; s5; s6; s7; s8; s9; s10; s11].
Record abi (b : Z) (slots : list (reg * Z)) (s s' : cpu) : Prop := {
  abi_saved r : r ∈ callee_saved -> cpu_reg s' r = cpu_reg s r;
  abi_slots x : x ∈ slots -> rd64 (cpu_mem s') (b + x.2) = rd64 (cpu_mem s) (b + x.2)
}.

Definition regs_ok (s : cpu) : Prop := forall r, word (cpu_reg s r).

Lemma frames_ok :
  slots_in 256 s_frame /\ slots_in 128 m_frame /\ NoDup (s_frame.*1) /\ NoDup (s_frame.*2) /\
  NoDup (m_frame.*1) /\ NoDup (m_frame.*2) /\ (sp ∉ s_frame.*1) /\ (sp ∉ m_frame.*1).
Proof.
  split_and!.
  1-2: unfold s_frame, m_frame; repeat (apply Forall_cons_2; [split; [cbn; lia|done]|]); apply Forall_nil_2.
  all: apply (bool_decide_unpack _); vm_compute; exact I.
Qed.

Lemma get_sp s : get s sp = cpu_reg s sp.
Proof. done. Qed.

Lemma get_set r v s r' :
  get (set r v s) r' = if bool_decide (r' = zero) then 0 else
                       if bool_decide (r' = r) then wrap64 v else get s r'.
Proof. unfold get. cbn. by repeat case_bool_decide. Qed.

(** Reads of named registers and CSRs. *)
Ltac named :=
  repeat match goal with
  | |- context [bool_decide (?x = ?y)] =>
      is_constructor x; is_constructor y;
      let b := eval vm_compute in (bool_decide (x = y)) in
      change (bool_decide (x = y)) with b; cbv iota
  end.
Ltac reads := rewrite ?get_set; named.

(** [sp - size] and back. *)
Lemma frame_sp v size :
  word v -> 0 <= size -> frame_fits (v - size) size ->
  wrap64 (v + - size) = v - size /\ wrap64 (v - size + size) = v.
Proof.
  intros Hv Hs (Hb & _). unfold word in Hv. rewrite Z.add_opp_r, Z.sub_add.
  split; apply wrap64_small; lia.
Qed.

(** Every register is in the frame, or kept by the callee, or [zero]. *)
Lemma every_reg l r :
  l = s_frame \/ l = m_frame ->
  r = zero \/ (exists off, (r, off) ∈ l) \/ (r ∉ l.*1) /\ r ∈ callee_saved.
Proof.
  intros [-> | ->]; unfold s_frame, m_frame, callee_saved; destruct r; 
    first [by left | right; right; split; apply (bool_decide_unpack _); vm_compute; exact I
          | right; left; eexists; repeat (apply list_elem_of_here || apply list_elem_of_further) ].
Qed.

(** After the call: the frame's registers come back from its slots, the others from
    the callee, and [sp] goes back up. *)
Lemma restored callee code l size n s s2 b rest :
  l = s_frame \/ l = m_frame ->
  slots_in size l -> NoDup (l.*1) -> NoDup (l.*2) -> sp ∉ l.*1 -> frame_fits b size ->
  regs_ok s -> get s2 sp = b ->
  (forall r, r ∈ callee_saved -> r <> sp -> cpu_reg s2 r = cpu_reg s r) ->
  (forall x, x ∈ l -> rd64 (cpu_mem s2) (b + x.2) = get s x.1) ->
  cpu_reg s sp = wrap64 (b + size) ->
  exists s3,
    exec callee (length l + S n) code ((restore <$> l) ++ Addi sp sp size :: rest) s2
    = exec callee n code rest s3 /\
    cpu_mem s3 = cpu_mem s2 /\ cpu_csr s3 = cpu_csr s2 /\ cpu_priv s3 = cpu_priv s2 /\
    forall r, get s3 r = get s r.
Proof.
  intros Hl Hslots Hd1 Hd2 Hsp Hf Hok Hb Hsaved Hvals Hup.
  destruct (exec_restores callee b size l (S n) code (Addi sp sp size :: rest) s2 Hb Hf Hslots Hd1 Hsp)
    as (s' & -> & Hm & Hc & Hp & Hin & Hout).
  assert (get s' sp = b) as Hb' by (rewrite get_sp, Hout by done; done).
  rewrite exec_addi, Hb'. eexists. split; [reflexivity|]. split_and!; [done..|].
  intros r. unfold get at 1. cbn [cpu_reg set].
  destruct (every_reg l r Hl) as [->|[[off Hr]|[Hr Hk]]]; [done| |].
  - assert (r <> sp) as Hne.
    { intros ->. apply Hsp, list_elem_of_fmap. by exists (sp, off). }
    rewrite (bool_decide_eq_false_2 (r = sp)) by done.
    rewrite (Hin r off Hr). pose proof (Hvals _ Hr) as Hv. cbn [fst snd] in Hv. rewrite Hv.
    unfold get. by case_bool_decide.
  - unfold get. case_bool_decide; [done|]. case_bool_decide as Hc'; [by subst|].
    rewrite Hout by done. by apply Hsaved.
Qed.

(** A C function that runs as the model's handler [h] does, from [w] to [v] and [w'],
    with the arguments [args] in [a0] to [a3] and the words [frame] of the frame it
    gets; where it leaves [v] is [out]. *)
Definition compiled (callee : cpu -> option cpu) (stack : Z -> Prop) (slots : list (reg * Z))
    (args : list (reg * Z)) (frame : list (Z * Z)) (out : cpu -> Z) (b : Z) (w w' : world) (v : Z) : Prop :=
  forall s, sim stack s w -> (forall x, x ∈ (sp, b) :: args -> get s x.1 = x.2) ->
    (forall x, x ∈ frame -> rd64 (cpu_mem s) (b + x.1) = x.2) ->
    exists s', callee s = Some s' /\ abi b slots s s' /\ sim stack s' w' /\ out s' = v.

Section Vectors.
Context (callee : cpu -> option cpu) (stack : Z -> Prop) (e : env).

(** The state a vector calls its C function in. *)
Lemma sim_saved s w b size l :
  sim stack s w -> frame_fits b size -> slots_in size l -> (forall a, b <= a < b + size -> stack a) ->
  sim stack (set_mem (save_mem b s l) s) w.
Proof using.
  intros [Hm ? ? ? ? ? ?] (Hb & He & Ha) Hl Hst. split; try done. intros a Ha8 Hns. cbn [cpu_mem set_mem].
  unfold slots_in in Hl. rewrite Forall_forall in Hl.
  rewrite save_mem_other; [by apply Hm| |done|].
  - intros x Hx. destruct (Hl x Hx) as [? Hx8]. by rewrite Z.add_mod, Ha, Hx8 by lia.
  - intros x Hx ->. destruct (Hl x Hx). apply Hns, Hst. lia.
Qed.

Lemma sim_set r v s w : sim stack s w -> sim stack (set r v s) w.
Proof using. by intros []. Qed.

(** At the call: the frame is saved, and the rest is as it was. *)
Record entered (b : Z) (l : list (reg * Z)) (s : cpu) (w : world) (s' : cpu) : Prop := {
  en_sim : sim stack s' w;
  en_sp : get s' sp = b;
  en_saved r : r ∈ callee_saved -> r <> sp -> cpu_reg s' r = cpu_reg s r;
  en_slots x : x ∈ l -> rd64 (cpu_mem s') (b + x.2) = get s x.1
}.

(** Saving the frame [l] of [size] bytes, then code that only touches [a0] to [a3],
    [t0] and memory of the stack outside of the frame's slots. *)
Lemma enter b size l s w s' :
  sim stack s w -> regs_ok s -> cpu_reg s sp - size = b -> 0 <= size ->
  slots_in size l -> NoDup (l.*2) -> (sp ∉ l.*1) -> frame_fits b size ->
  (forall a, b <= a < b + size -> stack a) ->
  let s1 := set sp (cpu_reg s sp + - size) s in
  cpu_csr s' = cpu_csr s ->
  (forall r, r ∈ callee_saved -> cpu_reg s' r = cpu_reg s1 r) ->
  (forall a, a mod 8 = 0 -> ~ stack a \/ (exists x, x ∈ l /\ a = b + x.2) ->
     rd64 (cpu_mem s') a = rd64 (save_mem b s1 l) a) ->
  entered b l s w s'.
Proof using.
  intros Hsim Hok Eb Hsz Hsl Hd Hsp Hf Hstk s1 Hc Hr Hm.
  destruct (frame_sp (cpu_reg s sp) size (Hok sp) Hsz) as [E1 _]; [by rewrite Eb|].
  assert (cpu_reg s1 sp = b) as Hb by (subst s1; cbn; named; congruence).
  split.
  - destruct (sim_saved s1 w b size l (sim_set _ _ _ _ Hsim) Hf Hsl Hstk) as [Hms ? ? ? ? ? ?].
    split; rewrite ?Hc; try done. intros a Ha Hns. rewrite Hm by (by auto). by apply Hms.
  - rewrite get_sp, Hr; [done|left].
  - intros r Hin Hne. rewrite Hr by done. subst s1. cbn. by rewrite bool_decide_eq_false_2.
  - intros [r off] Hx. cbn [fst snd].
    assert (r <> sp) as Hne by (intros ->; apply Hsp, list_elem_of_fmap; by exists (sp, off)).
    unfold slots_in in Hsl. pose proof Hsl as Hsl'. rewrite Forall_forall in Hsl'.
    destruct (Hsl' _ Hx) as [Ho Ho8].
    rewrite Hm; [|eapply Z.eqb_eq, slot_addr; done|right; by exists (r, off)].
    assert (get s1 r = get s r) as Hg.
    { subst s1. rewrite get_set. unfold get. case_bool_decide; [done|]. by rewrite bool_decide_eq_false_2. }
    rewrite <- Hg. apply (save_mem_in b size s1 l r off Hf Hsl Hd Hx).
    rewrite Hg. unfold get. case_bool_decide; [lia|apply Hok].
Qed.

(** The call, and the registers back. *)
Lemma leave b size l code n rest s w s1 s2 :
  l = s_frame \/ l = m_frame ->
  entered b l s w s1 -> abi b l s1 s2 -> regs_ok s -> cpu_reg s sp - size = b -> 0 <= size ->
  slots_in size l -> NoDup (l.*1) -> NoDup (l.*2) -> (sp ∉ l.*1) -> frame_fits b size ->
  forall s2', cpu_mem s2' = cpu_mem s2 -> (forall r, r ∈ callee_saved -> cpu_reg s2' r = cpu_reg s2 r) ->
  exists s3,
    exec callee (length l + S n) code ((restore <$> l) ++ Addi sp sp size :: rest) s2'
    = exec callee n code rest s3 /\
    cpu_mem s3 = cpu_mem s2 /\ cpu_csr s3 = cpu_csr s2' /\ cpu_priv s3 = cpu_priv s2' /\
    forall r, get s3 r = get s r.
Proof using.
  intros Hl [Hsim Hb Hs Hslots] [Hab Hasl] Hok Eb Hsz Hsl Hd1 Hd2 Hsp Hf s2' Hm2 Hr2.
  rewrite get_sp in Hb.
  destruct (frame_sp (cpu_reg s sp) size (Hok sp) Hsz) as [_ E2]; [by rewrite Eb|].
  destruct (restored callee code l size n s s2' b rest Hl Hsl Hd1 Hd2 Hsp Hf Hok)
    as (s3 & He & Hm & Hc & Hp & Hr).
  - rewrite get_sp, Hr2, Hab by left. done.
  - intros r Hin Hne. rewrite Hr2, Hab by done. by apply Hs.
  - intros x Hx. rewrite Hm2, Hasl by done. by apply Hslots.
  - rewrite <- Eb. symmetry. exact E2.
  - exists s3. rewrite Hm. by split_and!.
Qed.

(** The call of [s_trap_vector]. *)
Lemma s_vector_enters code s w :
  let c := w_csrs w in
  let b := cpu_reg s sp - 256 in
  regs_ok s -> word (scause c) -> word (stval c) -> word (sepc c) ->
  frame_fits b 256 -> (forall a, b <= a < b + 256 -> stack a) -> sim stack s w ->
  exists k1,
    entered b s_frame s w k1 /\
    (forall x, x ∈ [(sp, b); (a0, scause c); (a1, stval c); (a2, sepc c); (a3, b)] -> get k1 x.1 = x.2) /\
    rd64 (cpu_mem k1) (b + 240) = sepc c /\
    exec callee 80 code s_trap_vector s =
    match callee k1 with
    | Some k2 => exec callee (length s_frame + 12) code
        ([Ld t0 240 sp; Csrw c_sepc t0] ++ (restore <$> s_frame) ++ [Addi sp sp 256; Sret]) k2
    | None => None
    end.
Proof using.
  intros c b Hok Hsc Hst Hse Hf Hstk Hsim.
  destruct frames_ok as (Hs1 & _ & _ & Hd2 & _ & _ & Hsp & _).
  destruct (frame_sp (cpu_reg s sp) 256 (Hok sp) ltac:(lia) Hf) as [E1 _].
  change 80%nat with (S (length s_frame + (7 + (length s_frame + 12))))%nat.
  unfold s_trap_vector. cbn [app]. rewrite exec_addi.
  set (k1 := set sp (get s sp + -256) s).
  assert (get k1 sp = b) as Hb by (unfold k1; reads; exact E1).
  rewrite (exec_saves callee b 256) by done.
  set (k2 := set_mem (save_mem b k1 s_frame) k1). cbn [Nat.add].
  destruct (slot_addr b 256 240 Hf ltac:(lia) eq_refl) as [Ew Ea].
  assert (forall x, get (set t0 x k2) sp = b) as Hb2 by (intros x; reads; exact Hb).
  rewrite exec_csrr, (exec_sd _ _ _ _ _ _ _ _ (b + 240)), !exec_csrr, exec_addi, exec_call
    by (rewrite ?Hb2; done).
  match goal with |- context [callee ?x] => set (k3 := x) end.
  assert (cpu_mem k3 = wr64 (save_mem b k1 s_frame) (b + 240) (wrap64 (cpu_csr s c_sepc))) as Hm3
    by reflexivity.
  exists k3. split_and!; [|..|reflexivity].
  - apply (enter b 256); try done; [|].
    + intros r Hr. unfold callee_saved in Hr. repeat (apply elem_of_cons in Hr as [->|Hr]; [reflexivity|]).
      by apply not_elem_of_nil in Hr.
    + intros a Ha Hor. rewrite Hm3, rd64_wr64_other; [done|by apply Z.eqb_eq|done|].
      intros <-. destruct Hor as [Hns|([r off] & Hx & E)]; [apply Hns, Hstk; lia|]. cbn [snd] in E.
      assert (Forall (fun x => x.2 <> 240) s_frame) as Hno
        by (apply (bool_decide_unpack _); vm_compute; exact I).
      rewrite Forall_forall in Hno. apply (Hno _ Hx). cbn. lia.
  - destruct Hsim as [_ _ _ _ Ese Esc Est]. unfold word in *.
    intros x Hx. repeat (apply elem_of_cons in Hx as [->|Hx]); last by apply not_elem_of_nil in Hx.
    + exact Hb.
    + transitivity (wrap64 (cpu_csr s c_scause)); [reflexivity|]. rewrite Esc. by apply wrap64_small.
    + transitivity (wrap64 (cpu_csr s c_stval)); [reflexivity|]. rewrite Est. by apply wrap64_small.
    + transitivity (wrap64 (cpu_csr s c_sepc)); [reflexivity|]. rewrite Ese. by apply wrap64_small.
    + transitivity (wrap64 (get k1 sp + 0)); [reflexivity|]. rewrite Hb, Z.add_0_r.
      cbn [snd]. apply wrap64_small. destruct Hf as (? & ? & _). lia.
  - rewrite Hm3, rd64_wr64_same, (sim_sepc _ _ _ Hsim), wrap64_idem by done. by apply wrap64_small.
Qed.

Lemma scratch_t0 x y v k r :
  r ∈ callee_saved -> cpu_reg (put_csr x y (set t0 v k)) r = cpu_reg k r.
Proof using.
  unfold callee_saved. intros Hr. repeat (apply elem_of_cons in Hr as [->|Hr]; [reflexivity|]).
  by apply not_elem_of_nil in Hr.
Qed.

Lemma word_rd64 m a : word (rd64 m a).
Proof using. apply rd64_range. Qed.

(** C12: [_s_trap_vector] around the compiled handler does what [s_vector] does, goes on
    where the handler left the program counter, and gives back every register. *)
Theorem s_vector_refines s w v w' :
  let c := w_csrs w in
  let b := cpu_reg s sp - 256 in
  regs_ok s -> word (scause c) -> word (stval c) -> word (sepc c) ->
  frame_fits b 256 -> (forall a, b <= a < b + 256 -> stack a) -> sim stack s w ->
  s_trap_handler e (scause c) (stval c) (sepc c) (sepc c) w = Ret v w' ->
  compiled callee stack s_frame [(a0, scause c); (a1, stval c); (a2, sepc c); (a3, b)]
    [(240, sepc c)] (fun s' => rd64 (cpu_mem s') (b + 240)) b w w' v ->
  exists s' w'',
    exec callee 80 s_trap_vector s_trap_vector s = Some (v, s') /\
    s_vector e w = Ret v w'' /\ sim stack s' w'' /\ cpu_priv s' = spp (mstatus (w_csrs w')) /\
    forall r, get s' r = get s r.
Proof using.
  intros c b Hok Hsc Hst Hse Hf Hstk Hsim Hh Hcall.
  destruct frames_ok as (Hs1 & _ & Hd1 & Hd2 & _ & _ & Hsp & _).
  destruct (s_vector_enters s_trap_vector s w Hok Hsc Hst Hse Hf Hstk Hsim) as (k1 & Hen & Hargs & Hslot & ->).
  destruct (Hcall k1 (en_sim _ _ _ _ _ Hen) Hargs) as (k2 & -> & Habi & Hsim2 & Hv);
    [by intros x ->%list_elem_of_singleton|].
  assert (get k2 sp = b) as Hb2.
  { rewrite get_sp, (abi_saved _ _ _ _ Habi) by left. exact (en_sp _ _ _ _ _ Hen). }
  destruct (slot_addr b 256 240 Hf ltac:(lia) eq_refl) as [Ew Ea].
  change (length s_frame + 12)%nat with (S (S (length s_frame + 10))). cbn [app].
  rewrite (exec_ld _ _ _ _ _ _ _ _ (b + 240)), exec_csrw, Hv by (rewrite ?Hb2; done).
  assert (get (set t0 v k2) t0 = v) as ->.
  { reads. rewrite <- Hv. apply wrap64_small, word_rd64. }
  set (k3 := put_csr c_sepc v (set t0 v k2)).
  destruct (leave b 256 s_frame s_trap_vector 9 [Sret] s w k1 k2 ltac:(by left) Hen Habi Hok eq_refl
    ltac:(lia) Hs1 Hd1 Hd2 Hsp Hf k3 eq_refl (scratch_t0 c_sepc v v k2))
    as (k4 & E4 & Hm4 & Hc4 & Hp4 & Hr4).
  change (length s_frame + 10)%nat with (length s_frame + S 9)%nat. rewrite E4, exec_sret, Hc4.
  destruct Hsim2 as [Hms Hhart Hmst Hmie Hse2 Hsc2 Hst2].
  eexists _, (set_w_csrs (set_mstatus (sret_status (mstatus (w_csrs w'))) (set_sepc v (w_csrs w'))) w').
  split_and!; [reflexivity| | | |exact Hr4].
  - unfold s_vector. run. fold c. by rewrite Hh.
  - split; cbn; named; rewrite ?Hc4; try done; try (cbn; named; by rewrite ?Hmst).
    intros a Ha Hns. rewrite Hm4. by apply Hms.
  - cbn. by rewrite Hmst.
Qed.

(** The call of [m_trap_vector]. *)
Lemma m_vector_enters code s w :
  let b := cpu_reg s sp - 128 in
  regs_ok s -> word (cpu_csr s c_mcause) -> word (cpu_csr s c_mepc) -> word (cpu_csr s c_mtval) ->
  frame_fits b 128 -> (forall a, b <= a < b + 128 -> stack a) -> sim stack s w ->
  exists k1,
    entered b m_frame s w k1 /\
    (forall x, x ∈ [(sp, b); (a0, cpu_csr s c_mcause); (a1, cpu_csr s c_mepc); (a2, cpu_csr s c_mtval);
                    (a3, b)] -> get k1 x.1 = x.2) /\
    exec callee 60 code m_trap_vector s =
    match callee k1 with
    | Some k2 => exec callee (length m_frame + 22) code
        ([Csrw c_mepc a0] ++ (restore <$> m_frame) ++ [Addi sp sp 128; Mret]) k2
    | None => None
    end.
Proof using.
  intros b Hok Hca Hep Htv Hf Hstk Hsim.
  destruct frames_ok as (_ & Hs1 & _ & _ & _ & Hd2 & _ & Hsp).
  destruct (frame_sp (cpu_reg s sp) 128 (Hok sp) ltac:(lia) Hf) as [E1 _].
  change 60%nat with (S (length m_frame + (5 + (length m_frame + 22))))%nat.
  unfold m_trap_vector. cbn [app]. rewrite exec_addi.
  set (k1 := set sp (get s sp + -128) s).
  assert (get k1 sp = b) as Hb by (unfold k1; reads; exact E1).
  rewrite (exec_saves callee b 128) by done.
  set (k2 := set_mem (save_mem b k1 m_frame) k1). cbn [Nat.add].
  rewrite !exec_csrr, exec_addi, exec_call.
  match goal with |- context [callee ?x] => set (k3 := x) end.
  exists k3. split_and!; [|..|reflexivity].
  - apply (enter b 128); try done.
    intros r Hr. unfold callee_saved in Hr. repeat (apply elem_of_cons in Hr as [->|Hr]; [reflexivity|]).
    by apply not_elem_of_nil in Hr.
  - unfold word in *.
    intros x Hx. repeat (apply elem_of_cons in Hx as [->|Hx]); last by apply not_elem_of_nil in Hx.
    + exact Hb.
    + exact (wrap64_small _ Hca).
    + exact (wrap64_small _ Hep).
    + exact (wrap64_small _ Htv).
    + transitivity (wrap64 (get k1 sp + 0)); [reflexivity|]. rewrite Hb, Z.add_0_r.
      cbn [snd]. apply wrap64_small. destruct Hf as (? & ? & _). lia.
Qed.

(** [_m_trap_vector] around the compiled handler does what [m_trap] does after the
    trap's entry: the handler finds the trap's [a0] and [a7] in the frame, the program
    goes on where it says, and every register is given back. *)
Theorem m_vector_refines s w0 v w' :
  let w := set_w_csrs (set_mstatus (m_entry_status (mstatus (w_csrs w0))) (w_csrs w0)) w0 in
  let mcause := cpu_csr s c_mcause in
  let mepc := cpu_csr s c_mepc in
  let mtval := cpu_csr s c_mtval in
  let b := cpu_reg s sp - 128 in
  regs_ok s -> word mcause -> word mepc -> word mtval ->
  frame_fits b 128 -> (forall a, b <= a < b + 128 -> stack a) -> sim stack s w ->
  m_trap_handler e mcause mepc mtval (regs_frame (get s a0) (get s a7)) w = Ret v w' ->
  compiled callee stack m_frame [(a0, mcause); (a1, mepc); (a2, mtval); (a3, b)]
    [(8 * 4, get s a0); (8 * 11, get s a7)] (fun s' => get s' a0) b w w' v ->
  exists s' w'',
    exec callee 60 m_trap_vector m_trap_vector s = Some (v, s') /\
    m_trap e mcause mtval mepc (get s a0) (get s a7) w0 = Ret v w'' /\ sim stack s' w'' /\
    cpu_priv s' = mpp (mstatus (w_csrs w')) /\ forall r, get s' r = get s r.
Proof using.
  intros w mcause mepc mtval b Hok Hca Hep Htv Hf Hstk Hsim Hh Hcall.
  destruct frames_ok as (_ & Hs1 & _ & _ & Hd1 & Hd2 & _ & Hsp).
  destruct (m_vector_enters m_trap_vector s w Hok Hca Hep Htv Hf Hstk Hsim) as (k1 & Hen & Hargs & ->).
  destruct (Hcall k1 (en_sim _ _ _ _ _ Hen) Hargs) as (k2 & -> & Habi & Hsim2 & Hv).
  { intros x [->|[->|Hx]%elem_of_cons]%elem_of_cons; [| |by apply not_elem_of_nil in Hx].
    - apply (en_slots _ _ _ _ _ Hen (a0, 32)). unfold m_frame. set_solver.
    - apply (en_slots _ _ _ _ _ Hen (a7, 88)). unfold m_frame. set_solver. }
  change (length m_frame + 22)%nat with (S (length m_frame + 21)). cbn [app].
  rewrite exec_csrw, Hv. set (k3 := put_csr c_mepc v k2).
  destruct (leave b 128 m_frame m_trap_vector 20 [Mret] s w k1 k2 ltac:(by right) Hen Habi Hok eq_refl
    ltac:(lia) Hs1 Hd1 Hd2 Hsp Hf k3 eq_refl (fun r _ => eq_refl)) as (k4 & E4 & Hm4 & Hc4 & Hp4 & Hr4).
  change (length m_frame + 21)%nat with (length m_frame + S 20)%nat. rewrite E4, exec_mret, Hc4.
  destruct Hsim2 as [Hms Hhart Hmst Hmie Hse2 Hsc2 Hst2].
  eexists _, (set_w_csrs (set_mstatus (mret_status (mstatus (w_csrs w'))) (w_csrs w')) w').
  split_and!; [reflexivity| | | |exact Hr4].
  - unfold m_trap, m_entry, do_mret. run. fold w. by rewrite Hh.
  - split; cbn; named; rewrite ?Hc4; try done; try (cbn; named; by rewrite ?Hmst).
    intros a Ha Hns. rewrite Hm4. by apply Hms.
  - cbn. by rewrite Hmst.
Qed.
End Vectors.

(** ** The boot code *)

Section StartSteps.
Context (callee : cpu -> option cpu) (n : nat) (code rest : list instr) (s : cpu).

Lemma exec_write c v :
  exec callee (S (S n)) code (Li t0 v :: Csrw c t0 :: rest) s
  = exec callee n code rest (put_csr c (wrap64 v) (set t0 v s)).
Proof using. rewrite exec_li, exec_csrw. by reads. Qed.

Lemma exec_jump l rest' :
  code_at l code = Some rest' -> exec callee (S n) code (J l :: rest) s = exec callee n code rest' s.
Proof using. intros H. cbn [exec]. by rewrite H. Qed.

Lemma exec_bnez r l rest' :
  code_at l code = Some rest' ->
  exec callee (S n) code (Bnez r l :: rest) s
  = exec callee n code (if get s r =? 0 then rest else rest') s.
Proof using. intros H. cbn [exec]. rewrite H. by destruct (_ =? _). Qed.

Lemma exec_bge x y l rest' :
  code_at l code = Some rest' ->
  exec callee (S n) code (Bge x y l :: rest) s
  = exec callee n code (if s64 (get s y) <=? s64 (get s x) then rest' else rest) s.
Proof using. intros H. cbn [exec]. rewrite H. by destruct (_ <=? _). Qed.
End StartSteps.

(** The loop clears its words and ends, whatever their number. *)
Lemma bss_loop_clears callee code rest k : forall n a s,
  code_at ".Lbss_loop" code = Some (bss_loop ++ rest) -> code_at ".Lbss_done" code = Some rest ->
  get s t1 = a -> get s t2 = a + 8 * Z.of_nat n -> 0 <= a -> a mod 8 = 0 -> a + 8 * Z.of_nat n < 2 ^ 63 ->
  exists s',
    exec callee (4 * n + S k) code (bss_loop ++ rest) s = exec callee k code rest s' /\
    cpu_mem s' = zero_words (cpu_mem s) a n /\ cpu_csr s' = cpu_csr s /\ cpu_priv s' = cpu_priv s /\
    forall r, r <> t1 -> cpu_reg s' r = cpu_reg s r.
Proof.
  induction n as [|n IH]; intros a s Hl Hd H1 H2 Ha Ha8 He.
  - exists s. split_and!; try done. cbn [Nat.mul Nat.add bss_loop app].
    rewrite (exec_bge _ _ _ _ _ _ _ _ _ Hd), H1, H2, Z.add_0_r, Z.leb_refl. done.
  - replace (4 * S n + S k)%nat with (S (S (S (S (4 * n + S k)))))%nat by lia.
    unfold bss_loop. cbn [app]. rewrite (exec_bge _ _ _ _ _ _ _ _ _ Hd), H1, H2, !s64_small by lia.
    destruct (Z.leb_spec (a + 8 * Z.of_nat (S n)) a); [lia|].
    rewrite (exec_sd _ _ _ _ _ _ _ _ a), exec_addi, (exec_jump _ _ _ _ _ _ _ Hl);
      [|rewrite H1, Z.add_0_r; apply wrap64_small; lia|by apply Z.eqb_eq].
    set (k1 := set_mem _ s). set (k2 := set t1 _ k1).
    assert (get k2 t1 = a + 8) as Hk1.
    { subst k2. reads. change (get k1 t1) with (get s t1). rewrite H1. apply wrap64_small. lia. }
    destruct (IH (a + 8) k2) as (s' & He' & Hm & Hc & Hp & Hr); try done; try lia.
    { subst k2. reads. change (get k1 t2) with (get s t2). lia. }
    { rewrite Z.add_mod, Ha8 by lia. done. }
    exists s'. split_and!; try done. intros r Hne. rewrite Hr by done. subst k2. cbn.
    by rewrite bool_decide_eq_false_2.
Qed.

Section StartRuns.
Context (callee : cpu -> option cpu).
Context (_stack0_top _stack1_top _bss_start _bss_end _m_trap_vector s_mode_entry_addr core1_smode_park_loop_addr : Z).
Context (Hsyms : Forall word [_stack0_top; _stack1_top; _bss_start; _bss_end; _m_trap_vector;
                              s_mode_entry_addr; core1_smode_park_loop_addr]).

Abbreviation start := (_start _stack0_top _stack1_top _bss_start _bss_end _m_trap_vector
                         s_mode_entry_addr core1_smode_park_loop_addr).

(** The CSRs S-mode starts with. *)
Definition boot_csr (entry : Z) (s : cpu) (c : csr_name) : Z :=
  match c with
  | c_mtvec => _m_trap_vector
  | c_pmpaddr0 => 2 ^ 64 - 1
  | c_pmpcfg0 => PMP_R .| PMP_W .| PMP_X .| PMP_NAPOT
  | c_medeleg => asm_MEDELEG_DEFAULT
  | c_mideleg => asm_MIDELEG_DEFAULT
  | c_mie => set_bits (cpu_csr s c_mie) (MIP_MSIP .| MIP_MTIP)
  | c_mstatus => mret_status ((cpu_csr s c_mstatus .& not64 MSTATUS_MPP_MASK) .| MSTATUS_MPP_S)
  | c_mepc => entry
  | c => cpu_csr s c
  end.

Lemma mpp_S ms : mpp ((ms .& not64 MSTATUS_MPP_MASK) .| MSTATUS_MPP_S) = 1.
Proof using.
  unfold mpp. bitwise. destruct (decide (i = 0)) as [->|]; [by rewrite andb_false_r|].
  destruct (decide (i = 1)) as [->|]; [by rewrite andb_false_r|].
  rewrite (Z.bits_above_log2 3), (Z.bits_above_log2 1) by (cbn; lia). by rewrite andb_false_r.
Qed.

Lemma word_mpp ms : word ms -> word ((ms .& not64 MSTATUS_MPP_MASK) .| MSTATUS_MPP_S).
Proof using.
  intros H. apply (lor_range 64); [lia| |by split]. by apply land_range.
Qed.

(** Setting MPP keeps the rest of [mstatus]. *)
Lemma set_mpp_run k code rest s :
  word (cpu_csr s c_mstatus) ->
  exists s',
    exec callee (7 + k) code
      (Csrr t0 c_mstatus :: Li t1 MSTATUS_MPP_MASK :: Not t1 t1 :: And t0 t0 t1 ::
       Li t1 MSTATUS_MPP_S :: Or t0 t0 t1 :: Csrw c_mstatus t0 :: rest) s
    = exec callee k code rest s' /\
    cpu_mem s' = cpu_mem s /\ get s' sp = get s sp /\
    forall c, cpu_csr s' c = if bool_decide (c = c_mstatus)
                        then (cpu_csr s c_mstatus .& not64 MSTATUS_MPP_MASK) .| MSTATUS_MPP_S
                        else cpu_csr s c.
Proof using.
  intros Hms. cbn [Nat.add].
  rewrite exec_csrr, exec_li, exec_not, exec_and, exec_li, exec_or, exec_csrw.
  eexists. split; [reflexivity|]. split; [done|]. split; [done|]. intros c. cbn.
  case_bool_decide; [|done]. reads.
  rewrite (wrap64_small (cpu_csr s c_mstatus)) by done.
  change (wrap64 (not64 (wrap64 MSTATUS_MPP_MASK))) with (not64 MSTATUS_MPP_MASK).
  change (wrap64 MSTATUS_MPP_S) with MSTATUS_MPP_S.
  rewrite (wrap64_small (_ .& _)) by (by apply land_range).
  apply wrap64_small, word_mpp, Hms.
Qed.

(** What S-mode finds, on the hart's stack and at its entry. *)
Record booted (entry top : Z) (s s' : cpu) : Prop := {
  bo_csr c : cpu_csr s' c = boot_csr entry s c;
  bo_priv : cpu_priv s' = 1;
  bo_sp : get s' sp = top
}.

Definition entry_of (hart : Z) : Z := if hart =? 0 then s_mode_entry_addr else core1_smode_park_loop_addr.
Abbreviation csrs_code := (start_csrs _m_trap_vector s_mode_entry_addr core1_smode_park_loop_addr).

Lemma start_csrs_run k s :
  let hart := cpu_csr s c_mhartid in
  word hart -> word (cpu_csr s c_mstatus) ->
  exists s',
    exec callee (40 + k) start csrs_code s = Some (entry_of hart, s') /\
    cpu_mem s' = cpu_mem s /\ booted (entry_of hart) (get s sp) s s'.
Proof using Hsyms.
  intros hart Hh Hms. repeat apply Forall_cons in Hsyms as [? Hsyms].
  cbn [Nat.add]. unfold start_csrs. rewrite !exec_write, exec_li, exec_csrs.
  set (k1 := put_csr c_mie _ _).
  destruct (set_mpp_run (21 + k) start
    (drop 19 (start_csrs _m_trap_vector s_mode_entry_addr core1_smode_park_loop_addr)) k1 Hms)
    as (k2 & E2 & Hm2 & Hsp2 & Hc2).
  cbn [Nat.add drop start_csrs] in E2. rewrite E2. clear E2.
  set (k3 := set t0 (cpu_csr k2 c_mhartid) k2).
  rewrite exec_csrr, (exec_bnez _ _ start _ _ t0 ".Lhart1_smode" _ eq_refl). fold k3.
  assert (get k3 t0 = hart) as ->.
  { subst k3. reads. rewrite Hc2. named. by apply wrap64_small. }
  assert (forall n rest entry, word entry -> exists s',
    exec callee (S (S (S n))) start (Li t0 entry :: Csrw c_mepc t0 :: Mret :: rest) k3
    = Some (entry, s') /\ cpu_mem s' = cpu_mem s /\ booted entry (get s sp) s s') as Hend.
  { intros n rest entry Hw. rewrite exec_write, exec_mret. eexists. split; [|split].
    - cbn. named. rewrite wrap64_small by done. reflexivity.
    - cbn. by rewrite Hm2.
    - split; [| |exact Hsp2].
      + intros c. destruct c; cbn [cpu_csr set_priv put_csr]; named; try reflexivity;
          change (cpu_csr (set t0 entry k3)) with (cpu_csr k2); rewrite ?Hc2; named; try reflexivity.
        exact (wrap64_small _ H3).
      + cbn. rewrite Hc2. named. apply mpp_S. }
  unfold entry_of. destruct (hart =? 0); by apply Hend.
Qed.
(** Up to the stack and the test for hart 0. *)
Lemma start_stack k s :
  let hart := cpu_csr s c_mhartid in
  word hart ->
  exists s',
    exec callee (8 + k) start start s =
    exec callee (if hart =? 0 then 3 + k else 2 + k) start
      (if hart =? 0
       then Li t1 _bss_start :: Li t2 _bss_end :: Label ".Lbss_loop" ::
            bss_loop ++ Label ".Lskip_bss" :: csrs_code
       else csrs_code) s' /\
    cpu_mem s' = cpu_mem s /\ cpu_csr s' = cpu_csr s /\
    get s' sp = if hart =? 0 then _stack0_top else _stack1_top.
Proof using Hsyms.
  intros hart Hh. repeat apply Forall_cons in Hsyms as [? Hsyms].
  unfold _start at 2. cbn [Nat.add app]. set (k1 := set t0 hart s).
  rewrite exec_csrr, exec_li, (exec_bnez _ _ start _ _ t0 ".Lhart1_stack" _ eq_refl).
  set (k2 := set sp _stack0_top _).
  assert (get k2 t0 = hart) as -> by (subst k2; reads; by apply wrap64_small).
  destruct (hart =? 0) eqn:Eh.
  - rewrite (exec_jump _ _ start _ _ ".Lstack_done" _ eq_refl),
      (exec_bnez _ _ start _ _ t0 ".Lskip_bss" _ eq_refl).
    assert ((get k2 t0 =? 0) = true) as ->.
    { subst k2. reads. by rewrite wrap64_small. }
    exists k2. split_and!; [reflexivity..|]. subst k2. reads. by apply wrap64_small.
  - rewrite exec_li, exec_label, (exec_bnez _ _ start _ _ t0 ".Lskip_bss" _ eq_refl).
    set (k3 := set sp _stack1_top k2).
    assert ((get k3 t0 =? 0) = false) as ->.
    { subst k3 k2. reads. by rewrite wrap64_small. }
    exists k3. split_and!; [reflexivity..|]. subst k3. reads. by apply wrap64_small.
Qed.

Lemma booted_csr entry top s k s' : cpu_csr k = cpu_csr s -> booted entry top k s' -> booted entry top s s'.
Proof using. intros E [Hc Hp Hs]. split; [|done..]. intros c. rewrite Hc. unfold boot_csr. by rewrite E. Qed.

(** C13: [_start] ends, whatever the size of [.bss]: hart 0 clears [.bss] and goes on in
    [s_mode_entry], hart 1 in [core1_smode_park_loop] with memory as it was, both in
    S-mode on their own stack, with the traps delegated and the M-level interrupts
    enabled; from a reset [mstatus] and [mie] of 0 these are those of [boot_csrs]. *)
Theorem start_boots n s :
  let hart := cpu_csr s c_mhartid in
  word hart -> word (cpu_csr s c_mstatus) ->
  _bss_start mod 8 = 0 -> _bss_end = _bss_start + 8 * Z.of_nat n -> _bss_end < 2 ^ 63 ->
  exists s',
    exec callee (60 + 4 * n) start start s = Some (entry_of hart, s') /\
    cpu_mem s' = (if hart =? 0 then zero_words (cpu_mem s) _bss_start n else cpu_mem s) /\
    booted (entry_of hart) (if hart =? 0 then _stack0_top else _stack1_top) s s' /\
    (cpu_csr s c_mstatus = 0 -> cpu_csr s c_mie = 0 ->
     cpu_csr s' c_mstatus = mstatus (boot_csrs hart) /\ cpu_csr s' c_mie = mie (boot_csrs hart)).
Proof using Hsyms.
  intros hart Hh Hms Ha8 Hbe Hlt.
  assert (forall s', booted (entry_of hart) (if hart =? 0 then _stack0_top else _stack1_top) s s' ->
    cpu_csr s c_mstatus = 0 -> cpu_csr s c_mie = 0 ->
    cpu_csr s' c_mstatus = mstatus (boot_csrs hart) /\ cpu_csr s' c_mie = mie (boot_csrs hart)) as Hreset.
  { intros s' [Hc _ _] E1 E2. rewrite !Hc. cbn [boot_csr]. by rewrite E1, E2. }
  change (60 + 4 * n)%nat with (8 + (52 + 4 * n))%nat.
  destruct (start_stack (52 + 4 * n) s Hh) as (k1 & -> & Hm1 & Hc1 & Hsp1).
  fold hart in Hsp1 |- *. destruct (hart =? 0) eqn:Eh; cycle 1.
  { replace (2 + (52 + 4 * n))%nat with (40 + (14 + 4 * n))%nat by lia.
    destruct (start_csrs_run (14 + 4 * n) k1) as (s' & E & Hm & Hb); rewrite ?Hc1; try done.
    rewrite Hc1 in E, Hb. fold hart in E, Hb. rewrite Hsp1 in Hb.
    exists s'. rewrite E, Hm, Hm1. apply (booted_csr _ _ s k1) in Hb; [|done].
    split_and!; try done. by apply Hreset. }
  pose proof Hsyms as Hws. repeat apply Forall_cons in Hws as [? Hws].
  replace (3 + (52 + 4 * n))%nat with (S (S (S (4 * n + S (40 + 11))))) by lia.
  rewrite exec_li, exec_li, exec_label. set (k2 := set t2 _ _).
  destruct (bss_loop_clears callee start (Label ".Lskip_bss" :: csrs_code) (40 + 11) n _bss_start k2
    eq_refl eq_refl) as (k3 & -> & Hm3 & Hc3 & _ & Hr3); try done.
  { subst k2. reads. by apply wrap64_small. }
  { subst k2. reads. rewrite wrap64_small; done. }
  { by apply (proj1 H1). }
  { lia. }
  change (40 + 11)%nat with (S (40 + 10)). rewrite exec_label.
  assert (cpu_csr k3 = cpu_csr s) as Hc by (by rewrite Hc3).
  destruct (start_csrs_run 10 k3) as (s' & E & Hm & Hb); rewrite ?Hc; try done.
  rewrite Hc in E, Hb. fold hart in E, Hb.
  assert (get k3 sp = _stack0_top) as Hsp by (rewrite get_sp, Hr3 by done; exact Hsp1).
  rewrite Hsp in Hb. apply (booted_csr _ _ s k3) in Hb; [|done].
  exists s'. rewrite E, Hm, Hm3. split_and!; [done| |done|by apply Hreset].
  change (cpu_mem k2) with (cpu_mem k1). by rewrite Hm1.
Qed.
End StartRuns.

(** ** At concrete inputs: an image with two words of [.bss]; an S-mode trap for an
    [ecall] the handler skips; an M-mode timer interrupt the handler forwards *)

Definition reset_cpu : cpu :=
  mk_cpu (fun _ => 7) (wr64 (wr64 ∅ 0x80010000 0xAA) 0x80010010 0xBB) (fun _ => 0) 3.

Lemma start_boots_witness :
  exists s',
    exec (fun _ => None) 68
      (_start 0x80020000 0x8001C000 0x80010000 0x80010010 0x80000100 0x80000200 0x80000300)
      (_start 0x80020000 0x8001C000 0x80010000 0x80010010 0x80000100 0x80000200 0x80000300) reset_cpu
    = Some (0x80000200, s') /\
    rd64 (cpu_mem s') 0x80010000 = 0 /\ rd64 (cpu_mem s') 0x80010010 = 0xBB /\
    get s' sp = 0x80020000 /\ cpu_priv s' = 1 /\ cpu_csr s' c_mie = 0x88.
Proof.
  destruct (start_boots (fun _ => None) 0x80020000 0x8001C000 0x80010000 0x80010010 0x80000100 0x80000200
    0x80000300 ltac:(repeat (apply Forall_cons_2; [by split|]); apply Forall_nil_2) 2 reset_cpu
    ltac:(by split) ltac:(by split) eq_refl eq_refl ltac:(done)) as (s' & He & Hm & [Hc Hp Hs] & Hr).
  exists s'. split; [exact He|]. rewrite Hm. split; [reflexivity|]. split; [reflexivity|].
  split; [exact Hs|]. split; [exact Hp|]. exact (proj2 (Hr eq_refl eq_refl)).
Defined.

Definition demo_env : env := suite_env false true (fun _ => false).
Definition demo_sp : Z := 0x8001F000.
Definition demo_stack (a : Z) : Prop := demo_sp - 256 <= a < demo_sp.

Definition ecall_world : world :=
  set_w_csrs (mk_csrs 0 0x120 0x88 0 0 0x80001000 0x80002000 CAUSE_ECALL_SMODE 0) (boot_world boot_mem).
Definition ecall_after : world :=
  end_of (s_trap_handler demo_env CAUSE_ECALL_SMODE 0 0x80002000 0x80002000 ecall_world).
Definition ecall_cpu : cpu :=
  mk_cpu (fun r => if bool_decide (r = sp) then demo_sp else 0x1111) boot_mem
    (fun c => match c with
              | c_mstatus => 0x120 | c_mie => 0x88 | c_sepc => 0x80002000 | c_scause => CAUSE_ECALL_SMODE
              | _ => 0
              end) 1.
(** Writes the program counter into the frame and clobbers a register. *)
Definition ecall_callee (k : cpu) : option cpu :=
  Some (set a0 0xDEAD (set_mem (wr64 (cpu_mem k) (demo_sp - 256 + 240) 0x80002004) k)).

Lemma demo_regs (k : cpu) : (forall r, cpu_reg k r = if bool_decide (r = sp) then demo_sp else 0x1111) -> regs_ok k.
Proof. intros H r. rewrite H. by case_bool_decide. Qed.

Lemma s_vector_refines_witness :
  exists s' w'',
    exec ecall_callee 80 s_trap_vector s_trap_vector ecall_cpu = Some (0x80002004, s') /\
    s_vector demo_env ecall_world = Ret 0x80002004 w'' /\ get s' a0 = 0x1111.
Proof.
  destruct (s_vector_refines ecall_callee demo_stack demo_env ecall_cpu ecall_world 0x80002004 ecall_after)
    as (s' & w'' & He & Hv & _ & _ & Hr).
  - by apply demo_regs.
  - by split.
  - by split.
  - by split.
  - by repeat split.
  - intros a Ha. exact Ha.
  - by split.
  - vm_compute. reflexivity.
  - intros k Hk _ _. eexists. split; [reflexivity|]. split; [|split].
    + split; [intros r Hr; unfold callee_saved in Hr|].
      * repeat (apply elem_of_cons in Hr as [->|Hr]; [reflexivity|]). by apply not_elem_of_nil in Hr.
      * intros x Hx. assert (Forall (fun x => (demo_sp - 256 + x.2) mod 8 = 0 /\ x.2 <> 240) s_frame) as Hall
          by (apply (bool_decide_unpack _); vm_compute; exact I).
        rewrite Forall_forall in Hall. destruct (Hall x Hx).
        change (cpu_reg ecall_cpu sp) with demo_sp.
        apply rd64_wr64_other; [reflexivity|done|lia].
    + destruct Hk as [Hm ? ? ? ? ? ?]. split; try done. intros a Ha Hns.
      transitivity (rd64 (cpu_mem k) a); [|by rewrite Hm].
      apply rd64_wr64_other; [reflexivity|done|]. intros <-. by apply Hns.
    + by apply rd64_wr64_eq.
  - exists s', w''. split; [exact He|]. split; [exact Hv|]. exact (Hr a0).
Defined.

(** The timer fires while the program runs with its own [a0] and [a7]. *)
Definition tick_world : world :=
  set_w_csrs (mk_csrs 0 0x20 0x88 0 0 0x80001000 0 0 0) (boot_world boot_mem).
Definition tick_cause : Z := interrupt_bit + IRQ_M_TIMER.
Definition tick_after : world :=
  let w := set_w_csrs (set_mstatus (m_entry_status (mstatus (w_csrs tick_world))) (w_csrs tick_world)) tick_world in
  end_of (m_trap_handler demo_env tick_cause 0x80002000 0 (regs_frame 0x1111 0x1111) w).
Definition tick_cpu : cpu :=
  mk_cpu (fun r => if bool_decide (r = sp) then demo_sp else 0x1111) boot_mem
    (fun c => match c with
              | c_mstatus => m_entry_status 0x20 | c_mie => 0x88 | c_mepc => 0x80002000
              | c_mcause => tick_cause | _ => 0
              end) 3.
(** Clears MTIE and returns the program counter. *)
Definition tick_callee (k : cpu) : option cpu :=
  Some (put_csr c_mie 8 (set a0 0x80002000 (set t3 0 k))).

Lemma m_vector_refines_witness :
  exists s' w'',
    exec tick_callee 60 m_trap_vector m_trap_vector tick_cpu = Some (0x80002000, s') /\
    m_trap demo_env tick_cause 0 0x80002000 0x1111 0x1111 tick_world = Ret 0x80002000 w'' /\
    mip (w_csrs tick_after) = MIP_STIP /\ get s' t3 = 0x1111.
Proof.
  destruct (m_vector_refines tick_callee demo_stack demo_env tick_cpu tick_world 0x80002000 tick_after)
    as (s' & w'' & He & Hv & _ & _ & Hr).
  - by apply demo_regs.
  - by split.
  - by split.
  - by split.
  - by repeat split.
  - intros a Ha. unfold demo_stack. change (cpu_reg tick_cpu sp) with demo_sp in Ha. lia.
  - by split.
  - vm_compute. reflexivity.
  - intros k Hk _ _. eexists. split; [reflexivity|]. split; [|split; [|reflexivity]].
    + split; [intros r Hr; unfold callee_saved in Hr|done].
      repeat (apply elem_of_cons in Hr as [->|Hr]; [reflexivity|]). by apply not_elem_of_nil in Hr.
    + by destruct Hk as [Hm ? ? ? ? ? ?].
  - exists s', w''. split; [exact He|]. split; [exact Hv|]. split; [reflexivity|]. exact (Hr t3).
Defined.
