(* ===== verification/ZAtomics.v ===== *)
(** * Atomics in the Zephyr suite ([zephyr-suite/p3_atomics])

    The tests call Zephyr's atomic API and [irq_lock], which are the kernel's: they
    are an interface here ([KernelApi]) with the behaviour Zephyr documents for it
    ([KernelLaws]), and the tests are proved against the interface.  The kernel
    preempts: with [sstatus.SIE] set it may take an interrupt before any statement
    ([window]), which may take the hart's reservation away.  [amo_kernel] is an
    implementation by the single instructions the suite's comment names, whose
    interrupts always do.  The raw [lr]/[sc] and 32-bit AMOs are those of [Atomics]. *)

From S2P Require Import Prelude Platform Memory Sv39 Tlb Console Machine STrap Hart Interrupts Atomics.

(** ** Triples: from any state of [P], [m] returns [a] in a state of [Q] *)

Definition triple {A} (P : world -> Prop) (m : M A) (a : A) (Q : world -> Prop) : Prop :=
  forall w, P w -> exists w', m w = Ret a w' /\ Q w'.

Lemma triple_ret {A} (P : world -> Prop) (a : A) : triple P (mret a) a P.
Proof. intros w Hw. by exists w. Qed.

Lemma triple_bind {A B} (P Q R : world -> Prop) (m : M A) a (k : A -> M B) b :
  triple P m a Q -> triple Q (k a) b R -> triple P (mbind k m) b R.
Proof.
  intros Hm Hk w Hw. destruct (Hm w Hw) as (w1 & E1 & H1). destruct (Hk w1 H1) as (w2 & E2 & H2).
  exists w2. unfold mbind, M_bind. by rewrite E1.
Qed.

Lemma triple_weaken {A} (P Q P' Q' : world -> Prop) (m : M A) a :
  (forall w, P' w -> P w) -> (forall w, Q w -> Q' w) -> triple P m a Q -> triple P' m a Q'.
Proof. intros HP HQ Hm w Hw. destruct (Hm w (HP w Hw)) as (w' & E & H). eauto. Qed.

(** The same for a value that does not matter. *)
Definition returns {A} (P : world -> Prop) (m : M A) (Q : world -> Prop) : Prop :=
  forall w, P w -> exists a w', m w = Ret a w' /\ Q w'.

Lemma returns_bind {A B} (P Q R : world -> Prop) (m : M A) (k : A -> M B) b :
  returns P m Q -> (forall a, triple Q (k a) b R) -> triple P (mbind k m) b R.
Proof.
  intros Hm Hk w Hw. destruct (Hm w Hw) as (a & w1 & E1 & H1). destruct (Hk a w1 H1) as (w2 & E2 & H2).
  exists w2. unfold mbind, M_bind. by rewrite E1.
Qed.

(** The doubleword (the word) at [v] holds [x]; paging is off. *)
Definition cell (v x : Z) (w : world) : Prop := paging w = false /\ rd64 (w_mem w) v = x.
Definition cell32 (v x : Z) (w : world) : Prop := paging w = false /\ rd32 (w_mem w) v = x.
(** Interrupts are masked, too. *)
Definition masked (v x : Z) (w : world) : Prop := cell v x w /\ tst (mstatus (w_csrs w)) MSTATUS_SIE = false.
(** And the hart holds a reservation on it. *)
Definition reserved (v x : Z) (w : world) : Prop := masked v x w /\ w_resv w = Some v.
Abbreviation bare := (fun w => paging w = false).

(** ** The kernel's functions *)

Class KernelApi := {
  atomic_get : Z -> M Z;
  atomic_set : Z -> Z -> M Z;
  atomic_swap : Z -> Z -> M Z;
  atomic_cas : Z -> Z -> Z -> M bool;
  atomic_add : Z -> Z -> M Z;
  atomic_sub : Z -> Z -> M Z;
  atomic_inc : Z -> M Z;
  atomic_dec : Z -> M Z;
  atomic_or : Z -> Z -> M Z;
  atomic_and : Z -> Z -> M Z;
  atomic_xor : Z -> Z -> M Z;
  atomic_max : Z -> Z -> M Z;
  atomic_min : Z -> Z -> M Z;
  atomic_maxu : Z -> Z -> M Z;
  atomic_minu : Z -> Z -> M Z;
  irq_lock : M Z;
  irq_unlock : Z -> M unit;
  (** what an interrupt does, if one is taken; the addresses of the tests' variables *)
  isr : M unit;
  test_var : Z -> Prop
}.

(** Each returns the old value and stores the new one; values are 64-bit patterns,
    which [atomic_max] and [atomic_min] compare as [long]. *)
Class KernelLaws (api : KernelApi) : Prop := {
  law_get v x : triple (cell v x) (atomic_get v) x (cell v x);
  law_set v x y : 0 <= y < 2 ^ 64 -> triple (cell v x) (atomic_set v y) x (cell v y);
  law_swap v x y : 0 <= y < 2 ^ 64 -> triple (cell v x) (atomic_swap v y) x (cell v y);
  law_cas v x old new : 0 <= new < 2 ^ 64 ->
    triple (cell v x) (atomic_cas v old new) (x =? old) (cell v (if x =? old then new else x));
  law_add v x y : triple (cell v x) (atomic_add v y) x (cell v (wrap64 (x + y)));
  law_sub v x y : triple (cell v x) (atomic_sub v y) x (cell v (wrap64 (x - y)));
  law_inc v x : triple (cell v x) (atomic_inc v) x (cell v (wrap64 (x + 1)));
  law_dec v x : triple (cell v x) (atomic_dec v) x (cell v (wrap64 (x - 1)));
  law_or v x y : 0 <= y < 2 ^ 64 -> triple (cell v x) (atomic_or v y) x (cell v (x .| y));
  law_and v x y : 0 <= y < 2 ^ 64 -> triple (cell v x) (atomic_and v y) x (cell v (x .& y));
  law_xor v x y : 0 <= y < 2 ^ 64 -> triple (cell v x) (atomic_xor v y) x (cell v (x .^ y));
  law_max v x y : 0 <= y < 2 ^ 64 ->
    triple (cell v x) (atomic_max v y) x (cell v (if s64 y <=? s64 x then x else y));
  law_min v x y : 0 <= y < 2 ^ 64 ->
    triple (cell v x) (atomic_min v y) x (cell v (if s64 x <=? s64 y then x else y));
  law_maxu v x y : 0 <= y < 2 ^ 64 ->
    triple (cell v x) (atomic_maxu v y) x (cell v (if y <=? x then x else y));
  law_minu v x y : 0 <= y < 2 ^ 64 ->
    triple (cell v x) (atomic_minu v y) x (cell v (if x <=? y then x else y));
  (** [irq_lock] clears [sstatus.SIE] *)
  law_irq_lock v x : returns (cell v x) irq_lock (masked v x);
  law_irq_unlock key v x : triple (masked v x) (irq_unlock key) tt (cell v x);
  (** an interrupt leaves the thread's variables, and returns with paging as it was *)
  law_isr w : paging w = false -> exists w', isr w = Ret tt w' /\ paging w' = false /\
    forall v, test_var v -> rd64 (w_mem w') v = rd64 (w_mem w) v
}.

(** Before a statement, an interrupt may be taken unless [sstatus.SIE] is clear. *)
Definition window `{KernelApi} : M unit :=
  csr (fun c => tst (mstatus c) MSTATUS_SIE) ≫= fun sie : bool => if sie then isr else mret tt.
Definition stmt `{KernelApi} {A} (m : M A) : M A := window ;; m.

(** [zassert_equal] and its kin: a failed one ends the test. *)
Definition z_assert (b : bool) : M unit := if b then mret tt else fun w => Halt w.

Lemma z_assert_true (P : world -> Prop) (b : bool) : b = true -> triple P (z_assert b) tt P.
Proof. intros ->. apply triple_ret. Qed.

(** ** The tests *)

Section Tests.
Context (e : env) `{KernelApi}.

Definition z_lr_d (p : Z) : M Z := stmt (lr_d e p).
Definition z_lr_d_aq (p : Z) : M Z := stmt (lr_d_aq e p).
Definition z_sc_d (p v : Z) : M Z := stmt (sc_d e p v).
Definition z_sc_d_rl (p v : Z) : M Z := stmt (sc_d_rl e p v).
(** [DEF_AMO_W(name, instr)] *)
Definition z_amo_w (op : amo_op) (p v : Z) : M Z := stmt (amo_w e op p v).

(** Accesses to a variable. *)
Definition z_load64 (v : Z) : M Z := stmt (load64 e v).
Definition z_store64 (v x : Z) : M unit := stmt (store64 e v x).
Definition z_load32 (v : Z) : M Z := stmt (load32 e v).
Definition z_store32 (v x : Z) : M unit := stmt (store32 e v x).

(** [zassert_equal(m, expected)] *)
Definition z_equal (m : M Z) (expected : Z) : M unit := x ← m; z_assert (x =? expected).

(** [v] is the address of the test's [atomic_t]. *)
Definition test_cas (v : Z) : M unit :=
  z_store64 v 42 ;;
  b ← stmt (atomic_cas v 41 99); z_assert (negb b) ;;
  z_equal (stmt (atomic_get v)) 42 ;;
  b ← stmt (atomic_cas v 42 99); z_assert b ;;
  z_equal (stmt (atomic_get v)) 99.

Definition test_swap_set (v : Z) : M unit :=
  z_store64 v 21 ;;
  z_equal (stmt (atomic_swap v 7)) 21 ;;
  z_equal (stmt (atomic_get v)) 7 ;;
  z_equal (stmt (atomic_set v (minus64 5))) 7 ;;
  z_equal (stmt (atomic_get v)) (minus64 5).

Definition test_add_sub (v : Z) : M unit :=
  z_store64 v 100 ;;
  z_equal (stmt (atomic_add v 23)) 100 ;;
  z_equal (stmt (atomic_get v)) 123 ;;
  z_equal (stmt (atomic_sub v 24)) 123 ;;
  z_equal (stmt (atomic_get v)) 99 ;;
  z_equal (stmt (atomic_inc v)) 99 ;;
  z_equal (stmt (atomic_dec v)) 100 ;;
  z_equal (stmt (atomic_get v)) 99 ;;
  stmt (atomic_set v 0x100000000) ;;
  stmt (atomic_add v 1) ;;
  z_equal (stmt (atomic_get v)) 0x100000001.

Definition test_bitwise (v : Z) : M unit :=
  z_store64 v 0xF0F0 ;;
  z_equal (stmt (atomic_or v 0x0F0F)) 0xF0F0 ;;
  z_equal (stmt (atomic_get v)) 0xFFFF ;;
  z_equal (stmt (atomic_and v 0xFF00)) 0xFFFF ;;
  z_equal (stmt (atomic_get v)) 0xFF00 ;;
  z_equal (stmt (atomic_xor v 0xFFFF)) 0xFF00 ;;
  z_equal (stmt (atomic_get v)) 0x00FF.

Definition test_min_max_signed (v : Z) : M unit :=
  z_store64 v 5 ;;
  z_equal (stmt (atomic_max v (minus64 8))) 5 ;;
  z_equal (stmt (atomic_get v)) 5 ;;
  z_equal (stmt (atomic_min v (minus64 8))) 5 ;;
  z_equal (stmt (atomic_get v)) (minus64 8).

Definition test_min_max_unsigned (u : Z) : M unit :=
  z_store64 u 5 ;;
  z_equal (stmt (atomic_maxu u 0xFFFFFFFF00000000)) 5 ;;
  z_equal (z_load64 u) 0xFFFFFFFF00000000 ;;
  z_store64 u 5 ;;
  z_equal (stmt (atomic_minu u 0xFFFFFFFF00000000)) 5 ;;
  z_equal (z_load64 u) 5.

(** [atom] is a static variable. *)
Definition test_p3_1_lr_sc (atom : Z) : M unit :=
  key ← stmt irq_lock;
  old ← z_lr_d atom;
  sc ← z_sc_d atom 0xAABBCCDDEEFF0011;
  stmt (irq_unlock key) ;;
  z_assert (old =? 0x1122334455667788) ;;
  z_assert (sc =? 0) ;;
  z_equal (z_load64 atom) 0xAABBCCDDEEFF0011 ;;
  key ← stmt irq_lock;
  old ← z_lr_d_aq atom;
  sc ← z_sc_d_rl atom 0x0102030405060708;
  stmt (irq_unlock key) ;;
  z_assert (old =? 0xAABBCCDDEEFF0011) ;;
  z_assert (sc =? 0) ;;
  z_equal (z_load64 atom) 0x0102030405060708.

Definition test_p3_3_amo_w (a : Z) : M unit :=
  z_store32 a 0x10 ;;
  z_equal (z_amo_w Swap a 0x77) 0x10 ;;
  z_equal (z_load32 a) 0x77 ;;
  z_equal (z_amo_w Add a 0x09) 0x77 ;;
  z_equal (z_load32 a) 0x80 ;;
  z_equal (z_amo_w And a 0x0F) 0x80 ;;
  z_equal (z_load32 a) 0x00 ;;
  z_equal (z_amo_w Or a 0x33) 0x00 ;;
  z_equal (z_load32 a) 0x33 ;;
  z_equal (z_amo_w Xor a 0x55) 0x33 ;;
  z_equal (z_load32 a) 0x66 ;;
  z_store32 a 5 ;;
  z_equal (z_amo_w Min a (minus32 2)) 5 ;;
  x ← z_load32 a; z_assert (s32 x =? -2) ;;
  x ← z_amo_w Max a 7; z_assert (s32 x =? -2) ;;
  x ← z_load32 a; z_assert (s32 x =? 7) ;;
  z_store32 a 5 ;;
  z_equal (z_amo_w Maxu a (minus32 3)) 5 ;;
  z_equal (z_load32 a) (minus32 3) ;;
  z_store32 a (minus32 3) ;;
  z_equal (z_amo_w Minu a 5) (minus32 3) ;;
  z_equal (z_load32 a) 5.
End Tests.

(** A store-conditional with a good reservation succeeds. *)
Definition no_spurious_failure (e : env) : Prop := forall n, e_sc e n = true.

(** ** The instructions, as triples *)

Section Instructions.
Context (e : env).

Lemma load64_cell v x : triple (cell v x) (load64 e v) x (cell v x).
Proof using.
  intros w [Hp Hx]. exists w. unfold load64, mbind, M_bind. rewrite do_access_bare by done.
  unfold gets. by rewrite Hx.
Qed.

Lemma store64_cell v y : 0 <= y < 2 ^ 64 -> triple (fun w => paging w = false) (store64 e v y) tt (cell v y).
Proof using.
  intros Hy w Hp. eexists. unfold store64, mbind, M_bind. rewrite do_access_bare by done.
  split; [reflexivity|]. split; [by destruct w|]. by apply rd64_wr64_eq.
Qed.

Lemma load32_cell v x : triple (cell32 v x) (load32 e v) x (cell32 v x).
Proof using.
  intros w [Hp Hx]. exists w. unfold load32, mbind, M_bind. rewrite do_access_bare by done.
  unfold gets. by rewrite Hx.
Qed.

Lemma store32_cell v y :
  v mod 4 = 0 -> 0 <= y < 2 ^ 32 -> triple (fun w => paging w = false) (store32 e v y) tt (cell32 v y).
Proof using.
  intros Hv Hy w Hp. eexists. unfold store32, mbind, M_bind. rewrite do_access_bare by done.
  split; [reflexivity|]. split; [by destruct w|]. cbn [w_mem set_w_mem].
  rewrite rd32_wr32_same by done. by apply wrap32_small.
Qed.

Lemma amo_d_cell op v x y :
  triple (cell v x) (amo_d e op v y) x (cell v (wrap64 (amo_new s64 op x (wrap64 y)))).
Proof using.
  intros w [Hp Hx]. eexists. unfold amo_d, mbind, M_bind. rewrite do_access_bare by done.
  unfold gets, modify. rewrite Hx. split; [reflexivity|]. split; [by destruct w|].
  cbn [w_mem set_w_mem]. rewrite rd64_wr64_same by done. apply wrap64_idem.
Qed.

Lemma amo_w_cell op v x y :
  v mod 4 = 0 -> triple (cell32 v x) (amo_w e op v y) x (cell32 v (wrap32 (amo_new s32 op x (wrap32 y)))).
Proof using.
  intros Hv w [Hp Hx]. eexists. unfold amo_w, mbind, M_bind. rewrite do_access_bare by done.
  unfold gets, modify. rewrite Hx. split; [reflexivity|]. split; [by destruct w|].
  cbn [w_mem set_w_mem]. by rewrite rd32_wr32_same.
Qed.

(** The reservation, and what the masked section adds to it. *)
Lemma lr_resv v x w : cell v x w ->
  exists w', lr_d e v w = Ret x w' /\ cell v x w' /\ w_resv w' = Some v /\ w_csrs w' = w_csrs w.
Proof using.
  intros [Hp Hx]. eexists. unfold lr_d, mbind, M_bind. rewrite do_access_bare by done.
  unfold gets, modify. split; [f_equal; by destruct w|]. by destruct w.
Qed.

Lemma sc_resv v x y w : no_spurious_failure e -> 0 <= y < 2 ^ 64 -> cell v x w -> w_resv w = Some v ->
  exists w', sc_d e v y w = Ret 0 w' /\ cell v y w' /\ w_csrs w' = w_csrs w.
Proof using.
  intros Hsc Hy [Hp Hx] Hr. eexists. unfold sc_d, mbind, M_bind. rewrite do_access_bare by done.
  unfold sc_at. rewrite Hsc, bool_decide_eq_true_2 by done. split; [reflexivity|].
  split; [|by destruct w]. split; [by destruct w|]. cbn [w_mem set_w_mem set_w_steps set_w_resv].
  rewrite rd64_wr64_same, wrap64_idem by done. by apply wrap64_small.
Qed.

Lemma lr_masked v x : triple (masked v x) (lr_d e v) x (reserved v x).
Proof using.
  intros w [Hc Hm]. destruct (lr_resv v x w Hc) as (w' & E & Hc' & Hr & Hs). exists w'.
  split; [done|]. split; [|done]. split; [done|]. by rewrite Hs.
Qed.

Lemma sc_masked v x y :
  no_spurious_failure e -> 0 <= y < 2 ^ 64 -> triple (reserved v x) (sc_d e v y) 0 (masked v y).
Proof using.
  intros Hsc Hy w [[Hc Hm] Hr]. destruct (sc_resv v x y w Hsc Hy Hc Hr) as (w' & E & Hc' & Hs). exists w'.
  split; [done|]. split; [done|]. by rewrite Hs.
Qed.
End Instructions.

(** ** The tests pass *)

(** A test passes when it returns. *)
Definition passes_from (P : world -> Prop) (t : M unit) : Prop :=
  forall w, P w -> exists w', t w = Ret tt w'.

Lemma triple_passes P t Q : triple P t tt Q -> passes_from P t.
Proof. intros Ht w Hw. destruct (Ht w Hw) as (w' & E & _). eauto. Qed.

Lemma z_equal_triple P m a Q expected :
  triple P m a Q -> a = expected -> triple P (z_equal m expected) tt Q.
Proof.
  intros Hm ->. eapply triple_bind; [exact Hm|]. apply z_assert_true, Z.eqb_refl.
Qed.

Lemma cell_bare v x : forall w, cell v x w -> paging w = false.
Proof. by intros w [? _]. Qed.
Lemma cell32_bare v x : forall w, cell32 v x w -> paging w = false.
Proof. by intros w [? _]. Qed.

(** *** Interrupts between the statements *)

Section Windows.
Context `{KernelLaws}.

(** An interrupt leaves what [P] says. *)
Definition survives (P : world -> Prop) : Prop := triple P window tt P.

Lemma survives_isr (P : world -> Prop) :
  (forall w, P w -> paging w = false) ->
  (forall w w', P w -> paging w' = false -> (forall v, test_var v -> rd64 (w_mem w') v = rd64 (w_mem w) v) -> P w') ->
  survives P.
Proof using All.
  intros Hb Hk w Hw. unfold window, csr, gets, mbind, M_bind.
  destruct (tst _ _); [|by exists w].
  destruct (law_isr w (Hb w Hw)) as (w' & E & Hp & Hm). exists w'. split; [done|]. by apply (Hk w).
Qed.

Lemma survives_bare : survives bare.
Proof using All. apply survives_isr; auto. Qed.
Lemma survives_cell v x : test_var v -> survives (cell v x).
Proof using All.
  intros Hv. apply survives_isr; [apply cell_bare|]. intros w w' [_ Hx] Hp Hm. split; [done|]. by rewrite Hm.
Qed.
Lemma survives_cell32 v x : test_var v -> survives (cell32 v x).
Proof using All.
  intros Hv. apply survives_isr; [apply cell32_bare|]. intros w w' [_ Hx] Hp Hm. split; [done|].
  unfold rd32 in *. by rewrite Hm.
Qed.

(** With [sstatus.SIE] clear none is taken. *)
Lemma window_off w : tst (mstatus (w_csrs w)) MSTATUS_SIE = false -> window w = Ret tt w.
Proof using. intros Hs. unfold window, csr, gets, mbind, M_bind. by rewrite Hs. Qed.
Lemma survives_masked v x : survives (masked v x).
Proof using. intros w Hw. exists w. split; [|done]. apply window_off, Hw. Qed.
Lemma survives_reserved v x : survives (reserved v x).
Proof using. intros w Hw. exists w. split; [|done]. apply window_off, Hw. Qed.

Lemma stmt_triple {A} P (m : M A) a Q : survives P -> triple P m a Q -> triple P (stmt m) a Q.
Proof using. intros HP Hm. by eapply triple_bind. Qed.
Lemma stmt_returns {A} P (m : M A) Q : survives P -> returns P m Q -> returns P (stmt m) Q.
Proof using.
  intros HP Hm w Hw. destruct (HP w Hw) as (w1 & E1 & H1). destruct (Hm w1 H1) as (a & w2 & E2 & H2).
  exists a, w2. split; [|done]. unfold stmt, mbind, M_bind. by rewrite E1.
Qed.

Lemma store64_over e v x y : 0 <= y < 2 ^ 64 -> triple (cell v x) (store64 e v y) tt (cell v y).
Proof using.
  intros Hy. eapply triple_weaken; [apply cell_bare|intros w Hw; exact Hw|by apply store64_cell].
Qed.
Lemma store32_over e v x y : v mod 4 = 0 -> 0 <= y < 2 ^ 32 -> triple (cell32 v x) (store32 e v y) tt (cell32 v y).
Proof using.
  intros Hv Hy. eapply triple_weaken; [apply cell32_bare|intros w Hw; exact Hw|by apply store32_cell].
Qed.
End Windows.

Ltac range := split; [discriminate|reflexivity].

Ltac survive :=
  first [ by apply survives_cell | by apply survives_cell32 | apply survives_masked | apply survives_reserved
        | apply survives_bare ].

(** The triple of the statement at hand. *)
Ltac z_call :=
  lazymatch goal with
  | |- triple _ (z_equal _ _) _ _ => eapply z_equal_triple; [z_call|reflexivity]
  | |- triple _ (z_assert _) _ _ => apply z_assert_true; reflexivity
  | |- triple _ ?m _ _ =>
      apply stmt_triple; [survive|];
      lazymatch m with
      | z_store64 _ _ _ => first [apply store64_cell; range | apply store64_over; range]
      | z_store32 _ _ _ => first [apply store32_cell; [assumption|range] | apply store32_over; [assumption|range]]
      | z_load64 _ _ => apply load64_cell
      | z_load32 _ _ => apply load32_cell
      | z_amo_w _ _ _ _ => apply amo_w_cell; assumption
      | z_lr_d _ _ => apply lr_masked
      | z_lr_d_aq _ _ => apply lr_masked
      | z_sc_d _ _ _ => eapply sc_masked; [assumption|range]
      | z_sc_d_rl _ _ _ => eapply sc_masked; [assumption|range]
      | stmt (irq_unlock _) => apply law_irq_unlock
      | _ => first [apply law_get | apply law_add | apply law_sub | apply law_inc | apply law_dec
          | apply law_set; range | apply law_swap; range | apply law_cas; range | apply law_or; range
          | apply law_and; range | apply law_xor; range | apply law_max; range | apply law_min; range
          | apply law_maxu; range | apply law_minu; range]
      end
  end.
Ltac z_calls :=
  eapply triple_passes;
  repeat first
    [ eapply returns_bind; [apply stmt_returns; [survive|apply law_irq_lock]|intros ?]
    | eapply triple_bind; [z_call|]; cbv beta ];
  z_call.

Section Passing.
Context (e : env) `{KernelLaws}.

(** C40: The suite's P3 with an interrupt at any point where [sstatus.SIE] allows one, on
    any implementation of the atomic API and of [irq_lock] with the documented
    behaviour, from any state with the variable in plain memory: the raw [lr]/[sc]
    pairs succeed under [irq_lock], on a hart whose store-conditionals do not fail
    spuriously, and every test of the API and of the 32-bit AMOs passes on any hart. *)
Theorem zephyr_p3_passes v :
  v mod 4 = 0 -> test_var v ->
  (no_spurious_failure e -> passes_from (cell v 0x1122334455667788) (test_p3_1_lr_sc e v)) /\
  Forall (passes_from bare)
    [test_cas e v; test_swap_set e v; test_add_sub e v; test_bitwise e v; test_min_max_signed e v;
     test_min_max_unsigned e v; test_p3_3_amo_w e v].
Proof using All.
  intros Hv Htv. split; [intros Hsc|repeat apply Forall_cons_2; [..|apply Forall_nil_2]].
  all: z_calls.
Qed.
End Passing.

(** ** An implementation by single instructions *)

Section AmoKernel.
Context (e : env) (Hsc : no_spurious_failure e).

#[local] Instance amo_kernel : KernelApi := {|
  atomic_get := load64 e;
  atomic_set := amo_d e Swap;
  atomic_swap := amo_d e Swap;
  atomic_cas v old new := r ← cas_d e 0 v old new; mret (negb (r =? 0));
  atomic_add := amo_d e Add;
  atomic_sub v y := amo_d e Add v (- y);
  atomic_inc v := amo_d e Add v 1;
  atomic_dec v := amo_d e Add v (-1);
  atomic_or := amo_d e Or;
  atomic_and := amo_d e And;
  atomic_xor := amo_d e Xor;
  atomic_max := amo_d e Max;
  atomic_min := amo_d e Min;
  atomic_maxu := amo_d e Maxu;
  atomic_minu := amo_d e Minu;
  irq_lock := s ← read_sstatus; disable_s_interrupts ;; mret (s .& MSTATUS_SIE);
  irq_unlock key := set_csr (fun c => set_mstatus (set_bits (mstatus c) key) c);
  isr := modify (set_w_resv None);
  test_var _ := True
|}.

(** A triple from its value and final cell, up to equality. *)
Lemma triple_cell {A} v x y y' (m : M A) a :
  triple (cell v x) m a (cell v y) -> (0 <= x < 2 ^ 64 -> y = y') -> triple (cell v x) m a (cell v y').
Proof using.
  intros Hm E w Hw. destruct (Hm w Hw) as (w' & Hr & Hc). exists w'.
  rewrite <- E; [done|]. destruct Hw as [_ <-]. apply rd64_range.
Qed.

Lemma cas_cell v x old new :
  0 <= new < 2 ^ 64 ->
  triple (cell v x) (atomic_cas v old new) (x =? old) (cell v (if x =? old then new else x)).
Proof using Hsc.
  intros Hn. cbn [atomic_cas amo_kernel].
  apply (triple_bind _ (cell v (if x =? old then new else x)) _ _ (if x =? old then 1 else 0)).
  - intros w Hw. cbn [cas_d]. destruct (lr_resv e v x w Hw) as (w1 & E1 & H1 & Hr & _).
    unfold mbind, M_bind, lr_d_aq. rewrite E1. destruct (x =? old); cbn [negb]; [|by exists w1].
    destruct (sc_resv e v x new w1 Hsc Hn H1 Hr) as (w2 & E2 & H2 & _). unfold sc_d_rl. rewrite E2. by exists w2.
  - destruct (x =? old); apply triple_ret.
Qed.

(** An AMO's triple, with the stored value as the interface states it. *)
Lemma amo_law op v x y z :
  (0 <= x < 2 ^ 64 -> wrap64 (amo_new s64 op x (wrap64 y)) = z) ->
  triple (cell v x) (amo_d e op v y) x (cell v z).
Proof using. intros Hz. by eapply triple_cell; [apply amo_d_cell|]. Qed.

#[local] Instance amo_kernel_laws : KernelLaws amo_kernel.
Proof using Hsc.
  split; cbn [amo_kernel atomic_get atomic_set atomic_swap atomic_add atomic_sub atomic_inc atomic_dec
    atomic_or atomic_and atomic_xor atomic_max atomic_min atomic_maxu atomic_minu irq_lock irq_unlock];
    intros;
    try lazymatch goal with
        | |- triple _ (amo_d _ _ _ _) _ _ => apply amo_law; intros Hx; cbn [amo_new]
        end;
    try (rewrite (wrap64_small y) by assumption).
  - apply load64_cell.
  - by apply wrap64_small.
  - by apply wrap64_small.
  - by apply cas_cell.
  - apply Zplus_mod_idemp_r.
  - unfold wrap64. by rewrite Zplus_mod_idemp_r.
  - done.
  - unfold wrap64. by rewrite Zplus_mod_idemp_r.
  - apply (bits_range Z.lor 64); [lia..|]. intros. right; left. by rewrite Z.lor_spec.
  - apply (bits_range Z.land 64); [lia..|]. intros. left. by rewrite Z.land_spec.
  - apply (bits_range Z.lxor 64); [lia..|]. intros. right; right. by rewrite Z.lxor_spec.
  - case_match; by apply wrap64_small.
  - case_match; by apply wrap64_small.
  - case_match; by apply wrap64_small.
  - case_match; by apply wrap64_small.
  - intros w Hw. eexists _, _. split; [reflexivity|]. split; [by destruct w, Hw|].
    exact (tst_clear_bits _ 1 1 ltac:(lia) ltac:(lia)).
  - intros w [Hw _]. eexists. split; [reflexivity|]. by destruct w, Hw.
  - eexists. split; [reflexivity|]. by destruct w.
Qed.
End AmoKernel.

(** At a concrete hart, whose memory is zero but for the static variable. *)
Definition z_env : env :=
  {| e_qemu := true; e_svadu := true; e_hit := fun _ => false; e_dt := fun _ => 1; e_sc := fun _ => true;
     e_page_table_start := 0x80010000; e_s_trap_vector := 0x80001000; e_pc := 0x80002000;
     e_heap_start := 0x80020000; e_heap_end := 0x80030000 |}.
Definition z_hart : world :=
  mk_world (wr64 ∅ 0x80040000 0x1122334455667788) 0 (mk_csrs 0 MSTATUS_SIE 0 0 0 0 0 0 0) ∅ ∅
    (mk_trap_state 0 0 0 0 0 0 0 0 0 0 0) [] 0 [] None None false.

(** Interrupts are enabled to begin with. *)
Lemma zephyr_p3_passes_witness :
  tst (mstatus (w_csrs z_hart)) MSTATUS_SIE = true /\
  exists w, test_p3_1_lr_sc z_env (H := amo_kernel z_env) 0x80040000 z_hart = Ret tt w.
Proof.
  split; [reflexivity|].
  destruct (zephyr_p3_passes z_env (H := amo_kernel_laws z_env (fun _ => eq_refl)) 0x80040000
    eq_refl I) as [Ht _].
  exact (Ht (fun _ => eq_refl) z_hart (conj eq_refl eq_refl)).
Defined.

(** Without [irq_lock] the interrupt between the two takes the reservation. *)
Lemma lr_sc_needs_irq_lock :
  (old ← z_lr_d z_env (H := amo_kernel z_env) 0x80040000;
   sc ← z_sc_d z_env (H := amo_kernel z_env) 0x80040000 0xAABBCCDDEEFF0011;
   gets (fun w => (old, sc, rd64 (w_mem w) 0x80040000))) z_hart
  = Ret (0x1122334455667788, 1, 0x1122334455667788) (set_w_steps 1 z_hart).
Proof. vm_compute. reflexivity. Qed.
