(* ===== verification/Weak.v ===== *)
(** * Two harts over a weakly ordered shared memory

    An operational memory model for the dual-core test: RISC-V harts may observe
    each other's plain accesses out of order, and the test's [fence]s restore the
    orders it needs.  Every location has a history of messages; a hart has views,
    the least message of each location it may still read.  The model allows every
    reordering of plain accesses but that of a load with a later store of the same
    hart; with [sc] set, loads read the newest message, and it is the plain
    interleaving of the harts ([sc_refines_plain]).  Programs are control points with one action each, so their steps are
    an executable successor function, and [explore] decides what holds in every
    reachable state of a finite program. *)

From S2P Require Import Prelude.

(** ** Views: a timestamp per location, 0 when absent *)

Abbreviation view := (list nat).

Definition vget (v : view) (l : nat) : nat := nth l v 0%nat.
Fixpoint vjoin (v w : view) : view :=
  match v, w with
  | [], _ => w
  | _, [] => v
  | x :: v', y :: w' => Nat.max x y :: vjoin v' w'
  end.
Definition vat (l t : nat) : view := replicate l 0%nat ++ [t].

Lemma vget_nil l : vget [] l = 0%nat.
Proof. by destruct l. Qed.

Lemma vget_vjoin v w l : vget (vjoin v w) l = Nat.max (vget v l) (vget w l).
Proof.
  revert w l. induction v as [|x v IH]; intros [|y w] l; cbn [vjoin].
  - by rewrite vget_nil.
  - by rewrite vget_nil.
  - rewrite vget_nil. lia.
  - destruct l as [|l]; [done|]. exact (IH w l).
Qed.

Lemma vget_vat l t l' : vget (vat l t) l' = if decide (l' = l) then t else 0%nat.
Proof.
  unfold vat, vget. revert l'. induction l as [|l IH]; intros [|k]; cbn [replicate app nth]; try done.
  - by destruct k.
  - rewrite IH. destruct (decide (k = l)), (decide (S k = S l)); congruence || done.
Qed.

(** ** Memory and harts *)

Record msg := mk_msg { m_loc : nat; m_val : Z; m_view : view }.
#[export] Instance msg_eq_dec : EqDecision msg.
Proof. solve_decision. Defined.

(** Timestamp [t > 0] is the [t]-th message; 0 is the initial value, 0. *)
Abbreviation history := (list msg).
Definition msg_at (mem : history) (t : nat) : option msg :=
  match t with
  | O => None
  | S i => mem !! i
  end.
Definition val_at (mem : history) (t : nat) : Z := from_option m_val 0 (msg_at mem t).
Definition view_at (mem : history) (t : nat) : view := from_option m_view [] (msg_at mem t).

(** The newest message of a location. *)
Fixpoint newest_in (mem : history) (l i : nat) (best : nat) : nat :=
  match mem with
  | [] => best
  | m :: mem' => newest_in mem' l (S i) (if decide (m_loc m = l) then S i else best)
  end.
Definition newest (mem : history) (l : nat) : nat := newest_in mem l 0 0.

(** What a hart must see ([cur]), what [fence r,*] makes it see ([acq]), its own
    stores ([own]), and what its next stores carry ([rel]). *)
Record hart := mk_hart { h_cur : view; h_acq : view; h_own : view; h_rel : view }.
#[export] Instance hart_eq_dec : EqDecision hart.
Proof. solve_decision. Defined.
Definition hart0 : hart := mk_hart [] [] [] [].

(** ** Actions *)

Inductive act (P : Type) :=
| ARead (l : nat) (k : Z -> P)
| AWrite (l : nat) (v : Z) (p : P)
| AAmo (l : nat) (f : Z -> Z) (k : Z -> P)
| AFenceR (p : P)
| AFenceW (p : P)
| AFenceRel (p : P)
| AStop.
Arguments ARead {P}. Arguments AWrite {P}. Arguments AAmo {P}. Arguments AFenceR {P}.
Arguments AFenceW {P}. Arguments AFenceRel {P}. Arguments AStop {P}.

Definition readable (sc : bool) (mem : history) (h : hart) (l t : nat) : bool :=
  (vget (h_cur h) l <=? t)%nat && (if sc then (t =? newest mem l)%nat else true) &&
  match t with
  | O => true
  | _ => match msg_at mem t with Some m => bool_decide (m_loc m = l) | None => false end
  end.

(** A load of message [t]. *)
Definition after_read (mem : history) (h : hart) (l t : nat) : hart :=
  mk_hart (vjoin (h_cur h) (vat l t)) (vjoin (h_acq h) (vjoin (view_at mem t) (vat l t)))
    (h_own h) (h_rel h).

(** A store: the newest message of its location. *)
Definition stored (mem : history) (h : hart) (l : nat) (v : Z) (extra : view) : history * hart :=
  let t := S (length mem) in
  (mem ++ [mk_msg l v (vjoin (vjoin (h_rel h) extra) (vat l t))],
   mk_hart (vjoin (h_cur h) (vat l t)) (vjoin (h_acq h) (vat l t)) (vjoin (h_own h) (vat l t)) (h_rel h)).

Section Exec.
Context {P : Type} (sc : bool).

Definition exec (mem : history) (h : hart) (a : act P) : list (history * hart * P) :=
  match a with
  | ARead l k =>
      (fun t => (mem, after_read mem h l t, k (val_at mem t)))
        <$> filter (fun t => readable sc mem h l t = true) (seq 0 (S (length mem)))
  | AWrite l v p =>
      let '(mem, h) := stored mem h l v [] in [(mem, h, p)]
  | AAmo l f k =>
      (** reads the newest message, and its store carries that message's view *)
      let t := newest mem l in
      let old := val_at mem t in
      let h := after_read mem h l t in
      let '(mem', h) := stored mem h l (f old) (view_at mem t) in [(mem', h, k old)]
  | AFenceR p => [(mem, mk_hart (vjoin (h_cur h) (h_acq h)) (h_acq h) (h_own h) (h_rel h), p)]
  | AFenceW p => [(mem, mk_hart (h_cur h) (h_acq h) (h_own h) (vjoin (h_rel h) (h_own h)), p)]
  | AFenceRel p =>
      [(mem, mk_hart (h_cur h) (h_acq h) (h_own h)
               (vjoin (h_rel h) (vjoin (h_own h) (vjoin (h_cur h) (h_acq h)))), p)]
  | AStop => []
  end.
End Exec.

(** ** Two programs *)

Section System.
Context {P0 P1 : Type} (sc : bool) (code0 : P0 -> act P0) (code1 : P1 -> act P1).

Record system := mk_system { s_mem : history; s_h0 : hart; s_p0 : P0; s_h1 : hart; s_p1 : P1 }.

Definition succs (s : system) : list system :=
  ((fun '(m, h, p) => mk_system m h p (s_h1 s) (s_p1 s)) <$> exec sc (s_mem s) (s_h0 s) (code0 (s_p0 s)))
  ++ ((fun '(m, h, p) => mk_system m (s_h0 s) (s_p0 s) h p) <$> exec sc (s_mem s) (s_h1 s) (code1 (s_p1 s))).

Definition step (s s' : system) : Prop := s' ∈ succs s.

(** From the state in which the structure is zero and no hart has run. *)
Definition start (p0 : P0) (p1 : P1) : system := mk_system [] hart0 p0 hart0 p1.

(** A run given by the index of each successor taken. *)
Fixpoint replay (s : system) (l : list nat) : option system :=
  match l with
  | [] => Some s
  | i :: l' => s' ← succs s !! i; replay s' l'
  end.

Lemma replay_star s l s' : replay s l = Some s' -> star step s s'.
Proof using.
  revert s. induction l as [|i l IH]; intros s; cbn [replay]; [by intros [= ->]|].
  destruct (succs s !! i) as [s1|] eqn:E; [|done]. intros H.
  apply (star_step _ _ s1); [|by apply IH]. unfold step. by eapply list_elem_of_lookup_2.
Qed.
End System.

(** ** Deciding what holds in every reachable state *)

Section Explore.
Context {S : Type} `{EqDecision S} (next : S -> list S).

Definition seen_in (V : list S) (s : S) : bool := existsb (fun s' => bool_decide (s = s')) V.

Lemma seen_in_spec V s : seen_in V s = true <-> s ∈ V.
Proof using.
  unfold seen_in. rewrite existsb_exists. setoid_rewrite <- list_elem_of_In. split.
  - intros (s' & Hs & ->%bool_decide_eq_true). done.
  - intros Hs. exists s. split; [done|]. by apply bool_decide_eq_true.
Qed.

(** Breadth-first, at most [fuel] layers: the states seen. *)
Definition visit (s : S) (acc : list S * list S) : list S * list S :=
  foldr (fun s' '(seen, new) => if seen_in seen s' then (seen, new) else (s' :: seen, s' :: new))
    acc (next s).
Fixpoint explore (fuel : nat) (seen frontier : list S) : list S :=
  match fuel with
  | O => seen
  | Datatypes.S fuel' =>
      match frontier with
      | [] => seen
      | _ => let '(seen, new) := foldr visit (seen, []) frontier in explore fuel' seen new
      end
  end.

Abbreviation steps := (star (fun s s' => s' ∈ next s)).

(** What is found is reached. *)
Lemma visit_reaches a s acc :
  (forall x, x ∈ acc.1 \/ x ∈ acc.2 -> steps a x) -> steps a s ->
  forall x, x ∈ (visit s acc).1 \/ x ∈ (visit s acc).2 -> steps a x.
Proof using.
  intros Hacc Hs. unfold visit.
  assert (forall y, y ∈ next s -> steps a y) as Hn
    by (intros y Hy; eapply star_trans; [exact Hs|apply star_one; exact Hy]).
  revert Hn. generalize (next s) as l. induction l as [|y l IH]; intros Hn; cbn [foldr]; [exact Hacc|].
  assert (forall z, z ∈ l -> steps a z) as Hl by (intros z Hz; apply Hn; by right).
  specialize (IH Hl). destruct (foldr _ acc l) as [seen new]. cbn [fst snd] in IH.
  destruct (seen_in seen y); [exact IH|]. cbn [fst snd].
  intros x [[->|Hx]%elem_of_cons|[->|Hx]%elem_of_cons]; try (apply Hn; by left); apply IH; auto.
Qed.

Lemma layer_reaches a fr acc :
  (forall x, x ∈ acc.1 \/ x ∈ acc.2 -> steps a x) -> (forall x, x ∈ fr -> steps a x) ->
  forall x, x ∈ (foldr visit acc fr).1 \/ x ∈ (foldr visit acc fr).2 -> steps a x.
Proof using.
  intros Hacc. induction fr as [|s fr IH]; intros Hfr; cbn [foldr]; [exact Hacc|].
  apply visit_reaches; [|apply Hfr; by left]. apply IH. intros x Hx. apply Hfr. by right.
Qed.

Lemma explore_from a fuel seen fr :
  (forall x, x ∈ seen -> steps a x) -> (forall x, x ∈ fr -> steps a x) ->
  forall x, x ∈ explore fuel seen fr -> steps a x.
Proof using.
  revert seen fr. induction fuel as [|fuel IH]; intros seen fr Hs Hfr; cbn [explore]; [exact Hs|].
  destruct fr as [|s fr]; [exact Hs|]. pose proof (layer_reaches a (s :: fr) (seen, [])) as H1.
  cbn [fst snd] in H1. destruct (foldr visit (seen, []) (s :: fr)) as [seen' new']. cbn [fst snd] in H1.
  assert (forall x, x ∈ seen' \/ x ∈ new' -> steps a x) as H2.
  { apply H1; [|exact Hfr]. intros x [Hx|Hx]; [by apply Hs|by apply not_elem_of_nil in Hx]. }
  apply IH; intros x Hx; apply H2; auto.
Qed.

Lemma explore_reaches fuel a b : b ∈ explore fuel [a] [a] -> steps a b.
Proof using. apply explore_from; intros x ->%list_elem_of_singleton; apply star_refl. Qed.

Definition closed (V : list S) : bool := forallb (fun s => forallb (seen_in V) (next s)) V.

Lemma closed_reachable V a b :
  closed V = true -> a ∈ V -> star (fun s s' => s' ∈ next s) a b -> b ∈ V.
Proof using.
  intros Hc Ha Hs. revert Ha. apply (star_invariant (fun s s' => s' ∈ next s) (fun s => s ∈ V) a b); [|done].
  intros x y Hx Hy. unfold closed in Hc. rewrite forallb_forall in Hc.
  specialize (Hc x). rewrite <- list_elem_of_In in Hc. specialize (Hc Hx).
  rewrite forallb_forall in Hc. specialize (Hc y). rewrite <- list_elem_of_In in Hc.
  by apply seen_in_spec, Hc.
Qed.

(** Every state reachable from [a] satisfies [p]. *)
Definition always (fuel : nat) (a : S) (p : S -> bool) : bool :=
  let V := explore fuel [a] [a] in seen_in V a && closed V && forallb p V.

Lemma always_sound fuel a p b :
  always fuel a p = true -> star (fun s s' => s' ∈ next s) a b -> p b = true.
Proof using.
  unfold always. intros [[Ha Hc]%andb_true_iff Hp]%andb_true_iff Hs.
  apply seen_in_spec in Ha. pose proof (closed_reachable _ a b Hc Ha Hs) as Hb.
  rewrite forallb_forall in Hp. apply Hp. by rewrite <- list_elem_of_In.
Qed.
End Explore.

Abbreviation steps next := (star (fun s s' => s' ∈ next s)).

(** ** The plain interleaving *)

(** The newest value of each location. *)
Definition value (mem : history) (l : nat) : Z := val_at mem (newest mem l).

Lemma newest_in_app mem m l i best :
  newest_in (mem ++ [m]) l i best =
    if decide (m_loc m = l) then S (i + length mem) else newest_in mem l i best.
Proof.
  revert i best. induction mem as [|m' mem IH]; intros i best; cbn [app newest_in length].
  - rewrite Nat.add_0_r. by destruct (decide (m_loc m = l)).
  - rewrite IH. by replace (S i + length mem)%nat with (i + S (length mem))%nat by lia.
Qed.

Lemma newest_in_bound mem l i best :
  (best <= i)%nat -> (newest_in mem l i best <= i + length mem)%nat.
Proof.
  revert i best. induction mem as [|m mem IH]; intros i best Hb; cbn [newest_in length]; [lia|].
  etrans; [apply IH|lia]. destruct (decide _); lia.
Qed.

Lemma val_at_app mem m t : (t <= length mem)%nat -> val_at (mem ++ [m]) t = val_at mem t.
Proof.
  intros Ht. unfold val_at, msg_at. destruct t as [|t]; [done|]. by rewrite lookup_app_l by lia.
Qed.

Lemma value_app mem m l :
  value (mem ++ [m]) l = if decide (m_loc m = l) then m_val m else value mem l.
Proof.
  unfold value, newest. rewrite newest_in_app. destruct (decide (m_loc m = l)).
  - unfold val_at, msg_at. by rewrite Nat.add_0_l, list_lookup_middle.
  - apply val_at_app. apply (newest_in_bound mem l 0 0). lia.
Qed.

Section Plain.
Context {P0 P1 : Type} (code0 : P0 -> act P0) (code1 : P1 -> act P1).

(** The state of the interleaving: the values and the two control points. *)
Record plain := mk_plain { v_mem : nat -> Z; v_p0 : P0; v_p1 : P1 }.

Definition store_at (l : nat) (v : Z) (σ : nat -> Z) (l' : nat) : Z := if decide (l = l') then v else σ l'.

Lemma store_at_eq l v σ : store_at l v σ l = v.
Proof using. unfold store_at. by destruct (decide (l = l)). Qed.
Lemma store_at_ne l l' v σ : l <> l' -> store_at l v σ l' = σ l'.
Proof using. intros. unfold store_at. by destruct (decide (l = l')). Qed.

(** One action on the values. *)
Definition act_plain {P} (a : act P) (σ : nat -> Z) : option ((nat -> Z) * P) :=
  match a with
  | ARead l k => Some (σ, k (σ l))
  | AWrite l v p => Some (store_at l v σ, p)
  | AAmo l f k => Some (store_at l (f (σ l)) σ, k (σ l))
  | AFenceR p | AFenceW p | AFenceRel p => Some (σ, p)
  | AStop => None
  end.

Inductive plain_step : plain -> plain -> Prop :=
| step_core0 σ σ' p0 p0' p1 :
    act_plain (code0 p0) σ = Some (σ', p0') -> plain_step (mk_plain σ p0 p1) (mk_plain σ' p0' p1)
| step_core1 σ σ' p0 p1 p1' :
    act_plain (code1 p1) σ = Some (σ', p1') -> plain_step (mk_plain σ p0 p1) (mk_plain σ' p0 p1').

(** The values of a system, location by location. *)
Record abstracts (s : @system P0 P1) (a : plain) : Prop := {
  ab_mem l : v_mem a l = value (s_mem s) l;
  ab_p0 : v_p0 a = s_p0 s;
  ab_p1 : v_p1 a = s_p1 s
}.

Lemma exec_plain {P} (a : act P) mem h mem' h' p' σ :
  (mem', h', p') ∈ exec true mem h a -> (forall l, σ l = value mem l) ->
  exists σ', act_plain a σ = Some (σ', p') /\ forall l, σ' l = value mem' l.
Proof using.
  intros He Hσ. destruct a; cbn [exec act_plain] in *.
  - apply list_elem_of_fmap in He as (t & [= -> -> ->] & [Ht _]%list_elem_of_filter).
    exists σ. split; [|done]. unfold readable in Ht.
    apply andb_true_iff in Ht as [[_ Ht]%andb_true_iff _]. apply Nat.eqb_eq in Ht as ->.
    by rewrite (Hσ l).
  - apply list_elem_of_singleton in He as [= -> -> ->]. eexists; split; [done|].
    intros l'. rewrite value_app. unfold store_at. cbn [m_loc m_val]. by rewrite Hσ.
  - apply list_elem_of_singleton in He as [= -> -> ->]. rewrite (Hσ l). eexists; split; [done|].
    intros l'. rewrite value_app. unfold store_at. cbn [m_loc m_val]. by rewrite Hσ.
  - apply list_elem_of_singleton in He as [= -> -> ->]. by exists σ.
  - apply list_elem_of_singleton in He as [= -> -> ->]. by exists σ.
  - apply list_elem_of_singleton in He as [= -> -> ->]. by exists σ.
  - by apply not_elem_of_nil in He.
Qed.

(** Every step of the sequentially consistent machine is a step of the
    interleaving. *)
Lemma sc_step_plain s s' a :
  step true code0 code1 s s' -> abstracts s a -> exists a', plain_step a a' /\ abstracts s' a'.
Proof using.
  intros Hs [Hm H0 H1]. destruct a as [σ p0 p1]. cbn [v_mem v_p0 v_p1] in *. subst.
  unfold step, succs in Hs. apply elem_of_app in Hs as [Hs|Hs];
    apply list_elem_of_fmap in Hs as ([[mem' h'] p'] & -> & He);
    destruct (exec_plain _ _ _ _ _ _ σ He Hm) as (σ' & Ha & Hσ').
  - exists (mk_plain σ' p' (s_p1 s)). split; [by constructor|by split].
  - exists (mk_plain σ' (s_p0 s) p'). split; [by constructor|by split].
Qed.

Lemma sc_refines s s' a :
  star (step true code0 code1) s s' -> abstracts s a ->
  exists a', star plain_step a a' /\ abstracts s' a'.
Proof using.
  intros Hs. revert a. induction Hs as [s|s1 s2 s3 Hs _ IH]; intros a Ha; [eauto|].
  destruct (sc_step_plain _ _ _ Hs Ha) as (a2 & H2 & Ha2). destruct (IH a2 Ha2) as (a3 & H3 & Ha3).
  exists a3. eauto using star.
Qed.

(** With loads that read the newest message, the memory model is the plain
    interleaving of the two harts: every run is one of the interleaving, with the
    same values and control points. *)
Theorem sc_refines_plain s s' a :
  star (step true code0 code1) s s' -> abstracts s a ->
  exists a', star plain_step a a' /\ abstracts s' a'.
Proof using. apply sc_refines. Qed.

(** An invariant of the interleaving holds in every reachable state of the
    sequentially consistent machine. *)
Lemma sc_invariant (I : plain -> Prop) p0 p1 s :
  (forall a a', I a -> plain_step a a' -> I a') -> I (mk_plain (fun _ => 0) p0 p1) ->
  star (step true code0 code1) (start p0 p1) s ->
  exists a, I a /\ abstracts s a.
Proof using.
  intros Hstep H0 Hs. destruct (sc_refines _ _ (mk_plain (fun _ => 0) p0 p1) Hs) as (a & Ha & Hab).
  { by split. }
  exists a. split; [|done]. by apply (star_invariant plain_step I _ _ Hstep Ha).
Qed.
End Plain.

(** ** Progress: the interleaving's runs are runs of the machine *)

(** A view asks for no message that does not exist. *)
Definition vle (v : view) (mem : history) : Prop := forall l, (vget v l <= newest mem l)%nat.

Record hart_ok (mem : history) (h : hart) : Prop := {
  ho_cur : vle (h_cur h) mem;
  ho_acq : vle (h_acq h) mem;
  ho_own : vle (h_own h) mem;
  ho_rel : vle (h_rel h) mem
}.
Definition mem_ok (mem : history) : Prop := forall t, vle (view_at mem t) mem.

Lemma vle_nil mem : vle [] mem.
Proof. intros l. rewrite vget_nil. lia. Qed.

Lemma vle_vjoin v w mem : vle v mem -> vle w mem -> vle (vjoin v w) mem.
Proof. intros Hv Hw l. rewrite vget_vjoin. specialize (Hv l). specialize (Hw l). lia. Qed.

Lemma vle_vat l t mem : (t <= newest mem l)%nat -> vle (vat l t) mem.
Proof. intros Ht l'. rewrite vget_vat. destruct (decide (l' = l)) as [->|]; lia. Qed.

#[export] Hint Resolve vle_nil vle_vjoin vle_vat : core.

Lemma newest_app mem m l :
  newest (mem ++ [m]) l = if decide (m_loc m = l) then S (length mem) else newest mem l.
Proof. unfold newest. rewrite newest_in_app. by rewrite Nat.add_0_l. Qed.

Lemma newest_le mem l : (newest mem l <= length mem)%nat.
Proof. apply (newest_in_bound mem l 0 0). lia. Qed.

Lemma newest_mono mem m l : (newest mem l <= newest (mem ++ [m]) l)%nat.
Proof. rewrite newest_app. pose proof (newest_le mem l). destruct (decide _); lia. Qed.

Lemma vle_app v mem m : vle v mem -> vle v (mem ++ [m]).
Proof. intros Hv l. pose proof (newest_mono mem m l). specialize (Hv l). lia. Qed.

Lemma hart_ok_app mem m h : hart_ok mem h -> hart_ok (mem ++ [m]) h.
Proof. intros []. split; by apply vle_app. Qed.

#[export] Hint Resolve vle_app hart_ok_app : core.

(** The newest message of a location is a message of that location. *)
Lemma newest_msg mem l :
  match newest mem l with
  | O => True
  | S i => exists m, mem !! i = Some m /\ m_loc m = l
  end.
Proof.
  induction mem as [|m mem IH] using rev_ind; [done|].
  rewrite newest_app. destruct (decide (m_loc m = l)) as [E|].
  - exists m. by rewrite list_lookup_middle by done.
  - destruct (newest mem l) as [|i] eqn:En; [done|]. destruct IH as (m' & Hm & El).
    exists m'. split; [|done]. apply lookup_app_l_Some. exact Hm.
Qed.

Lemma newest_readable mem h l : vle (h_cur h) mem -> readable true mem h l (newest mem l) = true.
Proof.
  intros Hv. unfold readable. rewrite Nat.eqb_refl, (proj2 (Nat.leb_le _ _) (Hv l)).
  pose proof (newest_msg mem l) as Hm. destruct (newest mem l) as [|i]; [done|].
  destruct Hm as (m & Hm & El). cbn [msg_at]. rewrite Hm. by rewrite bool_decide_eq_true_2.
Qed.

Lemma mem_ok_app mem m : mem_ok mem -> vle (m_view m) (mem ++ [m]) -> mem_ok (mem ++ [m]).
Proof.
  intros Hm Hv t. unfold view_at, msg_at. destruct t as [|t]; [apply vle_nil|].
  destruct (Nat.lt_trichotomy t (length mem)) as [Ht|[->|Ht]].
  - rewrite lookup_app_l by done. apply vle_app, (Hm (S t)).
  - rewrite list_lookup_middle by done. exact Hv.
  - rewrite lookup_ge_None_2; [apply vle_nil|]. rewrite length_app. cbn [length]. lia.
Qed.

Lemma after_read_ok mem h l t :
  hart_ok mem h -> mem_ok mem -> (t <= newest mem l)%nat -> hart_ok mem (after_read mem h l t).
Proof. intros [] Hm Ht. split; cbn [h_cur h_acq h_own h_rel after_read]; auto. Qed.

Lemma stored_ok mem h l v extra :
  hart_ok mem h -> mem_ok mem -> vle extra mem ->
  let '(mem', h') := stored mem h l v extra in hart_ok mem' h' /\ mem_ok mem'.
Proof.
  intros [Hc Ha Ho Hr] Hm He. cbn [stored].
  match goal with |- hart_ok (mem ++ [?x]) _ /\ _ => set (m := x) end.
  assert (vle (vat l (S (length mem))) (mem ++ [m])) as Hl.
  { apply vle_vat. rewrite newest_app. by rewrite decide_True by done. }
  split; [|apply mem_ok_app; [done|]; cbn [m m_view]; auto].
  split; cbn [h_cur h_acq h_own h_rel]; auto.
Qed.

Lemma exec_ok {P} (a : act P) mem h mem' h' p' :
  (mem', h', p') ∈ exec true mem h a -> hart_ok mem h -> mem_ok mem ->
  hart_ok mem' h' /\ mem_ok mem' /\ (mem' = mem \/ exists m, mem' = mem ++ [m]).
Proof.
  intros He Hh Hm. pose proof Hh as [Hc Ha Ho Hr]. destruct a; cbn [exec] in He.
  - apply list_elem_of_fmap in He as (t & [= -> -> ->] & [Ht _]%list_elem_of_filter).
    unfold readable in Ht. apply andb_true_iff in Ht as [[_ Ht]%andb_true_iff _].
    apply Nat.eqb_eq in Ht as ->. split_and!; auto using after_read_ok.
  - apply list_elem_of_singleton in He.
    pose proof (stored_ok mem h l v [] Hh Hm (vle_nil _)) as Hs. cbn [stored] in *.
    injection He as -> -> ->. destruct Hs. split_and!; eauto.
  - apply list_elem_of_singleton in He.
    pose proof (stored_ok mem (after_read mem h l (newest mem l)) l (f (val_at mem (newest mem l)))
      (view_at mem (newest mem l)) ltac:(by apply after_read_ok) Hm (Hm _)) as Hs.
    cbn [stored] in *. injection He as -> -> ->. destruct Hs. split_and!; eauto.
  - apply list_elem_of_singleton in He as [= -> -> ->]. split_and!; auto. split; cbn; auto.
  - apply list_elem_of_singleton in He as [= -> -> ->]. split_and!; auto. split; cbn; auto.
  - apply list_elem_of_singleton in He as [= -> -> ->]. split_and!; auto. split; cbn; auto 6.
  - by apply not_elem_of_nil in He.
Qed.

(** An action the interleaving can do, the machine can do. *)
Lemma exec_progress {P} (a : act P) mem h σ σ' p' :
  vle (h_cur h) mem -> (forall l, σ l = value mem l) -> act_plain a σ = Some (σ', p') ->
  exists mem' h', (mem', h', p') ∈ exec true mem h a /\ forall l, σ' l = value mem' l.
Proof.
  intros Hv Hσ Ha.
  assert (exists x, x ∈ exec true mem h a) as ([[mem' h'] q] & Hx).
  { destruct a; cbn [exec act_plain] in *; try done; try (eexists; apply list_elem_of_singleton; reflexivity).
    eexists. apply list_elem_of_fmap. exists (newest mem l). split; [done|].
    apply list_elem_of_filter. split; [by apply newest_readable|]. apply elem_of_seq.
    pose proof (newest_le mem l). lia. }
  destruct (exec_plain a mem h mem' h' q σ Hx Hσ) as (σ2 & Ha2 & Hσ2).
  rewrite Ha in Ha2. injection Ha2 as <- <-. eauto.
Qed.

Section Progress.
Context {P0 P1 : Type} (code0 : P0 -> act P0) (code1 : P1 -> act P1).

Record system_ok (s : @system P0 P1) : Prop := {
  so_mem : mem_ok (s_mem s);
  so_h0 : hart_ok (s_mem s) (s_h0 s);
  so_h1 : hart_ok (s_mem s) (s_h1 s)
}.

Lemma system_ok_start p0 p1 : system_ok (start p0 p1).
Proof using. split; [intros [|]; apply vle_nil|split; apply vle_nil..]. Qed.

Lemma system_ok_step s s' : system_ok s -> step true code0 code1 s s' -> system_ok s'.
Proof using.
  intros [Hm H0 H1] Hs. unfold step, succs in Hs.
  apply elem_of_app in Hs as [Hs|Hs];
    apply list_elem_of_fmap in Hs as ([[mem' h'] p'] & -> & He);
    destruct (exec_ok _ _ _ _ _ _ He ltac:(assumption) Hm) as (? & ? & [->|[m ->]]);
    split; cbn [s_mem s_h0 s_h1]; auto.
Qed.

Lemma sc_step_progress s a a' :
  system_ok s -> abstracts s a -> plain_step code0 code1 a a' ->
  exists s', step true code0 code1 s s' /\ abstracts s' a'.
Proof using.
  intros [Hm H0 H1] [Hσ E0 E1] Hs. destruct Hs as [σ σ' p0 p0' p1 Ha|σ σ' p0 p1 p1' Ha];
    cbn [v_mem v_p0 v_p1] in *; subst.
  - destruct (exec_progress _ _ _ _ _ _ (ho_cur _ _ H0) Hσ Ha) as (mem' & h' & He & Hσ').
    exists (mk_system mem' h' p0' (s_h1 s) (s_p1 s)). split; [|by split].
    unfold step, succs. apply elem_of_app. left. apply list_elem_of_fmap. by exists (mem', h', p0').
  - destruct (exec_progress _ _ _ _ _ _ (ho_cur _ _ H1) Hσ Ha) as (mem' & h' & He & Hσ').
    exists (mk_system mem' (s_h0 s) (s_p0 s) h' p1'). split; [|by split].
    unfold step, succs. apply elem_of_app. right. apply list_elem_of_fmap. by exists (mem', h', p1').
Qed.

(** From every reachable state a goal of the interleaving is reachable, when from
    every state of the invariant some step decreases a measure. *)
Lemma sc_live (I goal : @plain P0 P1 -> Prop) (measure : @plain P0 P1 -> nat) p0 p1 s :
  (forall a a', I a -> plain_step code0 code1 a a' -> I a') -> I (mk_plain (fun _ => 0) p0 p1) ->
  (forall a, I a -> goal a \/ exists a', plain_step code0 code1 a a' /\ (measure a' < measure a)%nat) ->
  star (step true code0 code1) (start p0 p1) s ->
  exists s' a', star (step true code0 code1) s s' /\ abstracts s' a' /\ I a' /\ goal a'.
Proof using.
  intros Hstep H0 Hlive Hs.
  destruct (sc_invariant code0 code1 I p0 p1 s Hstep H0 Hs) as (a & Ha & Hab).
  assert (system_ok s) as Hok.
  { apply (star_invariant _ system_ok _ _ system_ok_step Hs), system_ok_start. }
  clear Hs H0. remember (measure a) as k eqn:Ek. revert s a Ek Ha Hab Hok.
  induction k as [k IH] using lt_wf_ind. intros s a -> Ha Hab Hok.
  destruct (Hlive a Ha) as [Hg|(a' & Hst & Hlt)]; [exists s, a; auto|].
  destruct (sc_step_progress s a a' Hok Hab Hst) as (s1 & H1 & Hab1).
  destruct (IH _ Hlt s1 a' eq_refl (Hstep _ _ Ha Hst) Hab1 (system_ok_step _ _ Hok H1))
    as (s' & b & Hs' & ?).
  exists s', b. split; [|done]. by eapply star_step.
Qed.
End Progress.

(** The same in the interleaving itself. *)
Lemma plain_live {P0 P1} (code0 : P0 -> act P0) (code1 : P1 -> act P1)
    (I goal : @plain P0 P1 -> Prop) (measure : @plain P0 P1 -> nat) a :
  (forall a a', I a -> plain_step code0 code1 a a' -> I a') ->
  (forall a, I a -> goal a \/ exists a', plain_step code0 code1 a a' /\ (measure a' < measure a)%nat) ->
  I a -> exists a', star (plain_step code0 code1) a a' /\ I a' /\ goal a'.
Proof.
  intros Hstep Hlive. apply (star_live _ I goal measure). intros x Hx.
  destruct (Hlive x Hx) as [|(y & Hxy & Hlt)]; eauto 6.
Qed.

(** ** Tactics for programs over shared values *)

(** Case analysis on a step of the interleaving: the action taken, and the
    branches of the code at that point. *)
Ltac split_ifs :=
  repeat first
    [ progress simplify_eq/=
    | match goal with
      | |- context [decide ?P] => destruct (decide P)
      | H : context [decide ?P] |- _ => destruct (decide P)
      | |- context [if ?x =? ?y then _ else _] => destruct (Z.eqb_spec x y)
      | H : context [if ?x =? ?y then _ else _] |- _ => destruct (Z.eqb_spec x y)
      end ].
Ltac plain_inv H :=
  inversion H as [?σ ?σ' ?p0 ?p0' ?p1 ?Hact|?σ ?σ' ?p0 ?p1 ?p1' ?Hact]; subst; clear H;
  match goal with Hact : act_plain (_ ?p) _ = Some _ |- _ => destruct p end;
  cbn in *; split_ifs; rewrite ?store_at_eq, ?store_at_ne by discriminate.

(** One hart's move, by the branch the values decide, brings the end closer. *)
Ltac hart_moves core :=
  right; eexists; split;
    [apply core; cbn; repeat (case_decide; try (exfalso; lia)); reflexivity
    |cbn; repeat match goal with H : _ = _ |- _ => rewrite H end; cbn; lia].
Ltac core0_moves := hart_moves step_core0.
Ltac core1_moves := hart_moves step_core1.

(** ** At a concrete run: one hart adds, the other reads *)

Lemma sc_refines_plain_witness :
  let code0 := fun p : bool => if p then AAmo 0 (fun v => v + 1) (fun _ => false) else AStop in
  let code1 := fun p : Z => if p =? 0 then ARead 0 (fun v => v) else AStop in
  exists s a, star (step true code0 code1) (start true 0) s /\
    star (plain_step code0 code1) (mk_plain (fun _ => 0) true 0) a /\
    s_p1 s = 1 /\ v_p1 a = 1.
Proof.
  intros code0 code1.
  destruct (replay true code0 code1 (start true 0) [0; 0]%nat) as [s|] eqn:E.
  2: { vm_compute in E. discriminate E. }
  assert (s_p1 s = 1) as H1 by (vm_compute in E; injection E as <-; reflexivity).
  apply replay_star in E.
  destruct (sc_refines_plain code0 code1 (start true 0) s (mk_plain (fun _ => 0) true 0) E)
    as (a & Ha & Hab); [by split|].
  exists s, a. split; [exact E|]. split; [exact Ha|]. split; [exact H1|].
  rewrite (ab_p1 _ _ Hab). exact H1.
Defined.
