(* ===== verification/ZDual.v ===== *)
(** * The Zephyr suite's dual-core tests ([zephyr-suite/p4_dualcore])

    The threads of each test, pinned to the two CPUs, as two programs whose steps
    interleave over shared values ([Weak.plain_step]).  The kernel's atomic
    operations, spin lock and semaphores are an interface ([SmpApi]) with what
    Zephyr documents of them ([SmpLaws]): each is one indivisible action on its
    object.  A wait of [K_SECONDS(5)] is a number of looks at the semaphore.  The
    theorems are for any number of rounds, and from any memory the test's resets
    leave.  The tests that create, start and join these threads are in [ZThreads]. *)

From S2P Require Import Prelude Weak.

(** ** The kernel's functions, as actions *)

Class SmpApi := {
  atomic_inc {P} : nat -> P -> act P;
  atomic_set {P} : nat -> Z -> P -> act P;
  atomic_get {P} : nat -> (Z -> P) -> act P;
  (** one attempt at the lock, and one look at the semaphore: whether it was taken *)
  k_spin_lock {P} : nat -> (bool -> P) -> act P;
  k_spin_unlock {P} : nat -> P -> act P;
  k_sem_give {P} : nat -> P -> act P;
  k_sem_take {P} : nat -> (bool -> P) -> act P
}.

(** A lock is 1 when held; a semaphore of limit 1 is 0 or 1. *)
Class SmpLaws (api : SmpApi) : Prop := {
  law_atomic_inc {P} l (p : P) σ :
    act_plain (atomic_inc l p) σ = Some (store_at l (wrap64 (σ l + 1)) σ, p);
  law_atomic_set {P} l v (p : P) σ : act_plain (atomic_set l v p) σ = Some (store_at l v σ, p);
  law_atomic_get {P} l (k : Z -> P) σ : act_plain (atomic_get l k) σ = Some (σ, k (σ l));
  law_spin_lock {P} l (k : bool -> P) σ :
    act_plain (k_spin_lock l k) σ = Some (store_at l 1 σ, if σ l =? 0 then k true else k false);
  law_spin_unlock {P} l (p : P) σ : act_plain (k_spin_unlock l p) σ = Some (store_at l 0 σ, p);
  law_sem_give {P} l (p : P) σ : act_plain (k_sem_give l p) σ = Some (store_at l 1 σ, p);
  law_sem_take {P} l (k : bool -> P) σ :
    act_plain (k_sem_take l k) σ = Some (store_at l 0 σ, if σ l =? 0 then k false else k true)
}.

(** The actions of a step, one by one: by the laws for the kernel's, by
    computation for loads and stores. *)
Ltac smp_laws H :=
  first [ rewrite law_atomic_inc in H | rewrite law_atomic_set in H | rewrite law_atomic_get in H
        | rewrite law_spin_lock in H | rewrite law_spin_unlock in H
        | rewrite law_sem_give in H | rewrite law_sem_take in H | idtac ]; cbn in H.
Ltac smp_apply :=
  first [ apply law_atomic_inc | apply law_atomic_set | apply law_atomic_get | apply law_spin_lock
        | apply law_spin_unlock | apply law_sem_give | apply law_sem_take | reflexivity ].

Ltac stores := rewrite ?store_at_eq, ?store_at_ne by (discriminate || done).
Ltac smp_inv H :=
  inversion H as [?σ ?σ' ?p0 ?p0' ?p1 ?Hact|?σ ?σ' ?p0 ?p1 ?p1' ?Hact]; subst; clear H;
  match goal with Hact : act_plain (_ ?p) _ = Some _ |- _ => destruct p end; cbn in *;
  repeat match goal with Hact : act_plain (if decide ?c then _ else _) _ = Some _ |- _ => destruct (decide c) end;
  try done;
  try match goal with Hact : act_plain _ _ = Some _ |- _ => smp_laws Hact end; split_ifs.

(** A thread moves, and the threads are nearer to their ends. *)
Ltac thread_moves core :=
  right; eexists; split;
    [apply core; cbn; rewrite ?decide_True, ?decide_False by lia; smp_apply
    |cbn; repeat match goal with H : ?σ _ = _ |- _ => rewrite H end; cbn; lia].

(** ** [test_atomic_increment_stress] *)

Definition INC_PER_CPU : nat := 100.
Definition stress_counter : nat := 0.
Definition stress_reset (σ : nat -> Z) : nat -> Z := store_at stress_counter 0 σ.

Section Inc.
Context `{SmpLaws} (n : nat).

(** Either CPU's thread: the increments done. *)
Definition inc_entry (i : nat) : act nat :=
  if decide (i < n)%nat then atomic_inc stress_counter (S i) else AStop.

Record inc_inv (a : @plain nat nat) : Prop := {
  ni_total : v_mem a stress_counter = wrap64 (Z.of_nat (v_p0 a + v_p1 a));
  ni_bounds : (v_p0 a <= n)%nat /\ (v_p1 a <= n)%nat
}.

Lemma wrap64_S k : wrap64 (wrap64 (Z.of_nat k) + 1) = wrap64 (Z.of_nat (S k)).
Proof using. unfold wrap64. rewrite Zplus_mod_idemp_l. f_equal. lia. Qed.

Lemma inc_inv_step a a' : inc_inv a -> plain_step inc_entry inc_entry a a' -> inc_inv a'.
Proof using All.
  intros [Ht [H0 H1]] Hs.
  inversion Hs as [σ σ' p p' q Hact|σ σ' p q q' Hact]; subst; clear Hs; cbn in *;
    unfold inc_entry in Hact; case_decide; try done; rewrite law_atomic_inc in Hact; simplify_eq/=;
    (split; cbn; [|lia]); stores; rewrite Ht, wrap64_S; f_equal; lia.
Qed.

Lemma inc_live a :
  inc_inv a -> (v_p0 a = n /\ v_p1 a = n) \/
  exists a', plain_step inc_entry inc_entry a a' /\
    ((n - v_p0 a') + (n - v_p1 a') < (n - v_p0 a) + (n - v_p1 a))%nat.
Proof using All.
  destruct a as [σ p0 p1]. intros [_ [H0 H1]]. cbn in *.
  destruct (decide (p0 < n)%nat); [|destruct (decide (p1 < n)%nat); [|left; lia]].
  - right. eexists. split; [apply step_core0; unfold inc_entry; rewrite decide_True by done; smp_apply|cbn; lia].
  - right. eexists. split; [apply step_core1; unfold inc_entry; rewrite decide_True by done; smp_apply|cbn; lia].
Qed.

(** P4.3: however the two CPUs' increments interleave, none is lost: the counter is
    the number of increments done, so [2 n] when both threads have ended, and
    from every state that end can be reached. *)
Theorem zephyr_no_lost_increment σ a :
  star (plain_step inc_entry inc_entry) (mk_plain (stress_reset σ) 0%nat 0%nat) a ->
  v_mem a stress_counter = wrap64 (Z.of_nat (v_p0 a + v_p1 a)) /\
  exists a', star (plain_step inc_entry inc_entry) a a' /\ v_p0 a' = n /\ v_p1 a' = n /\
    v_mem a' stress_counter = wrap64 (2 * Z.of_nat n).
Proof using All.
  intros Hs. assert (inc_inv a) as Ha.
  { apply (star_invariant _ inc_inv _ _ inc_inv_step Hs). by split; cbn; [|lia]. }
  split; [apply (ni_total _ Ha)|].
  destruct (plain_live inc_entry inc_entry inc_inv _ (fun a => (n - v_p0 a) + (n - v_p1 a))%nat a
    inc_inv_step inc_live Ha) as (a' & Hs' & Ha' & E0 & E1).
  exists a'. split_and!; try done. rewrite (ni_total _ Ha'), E0, E1. f_equal. lia.
Qed.
End Inc.

(** ** [test_spinlock_mutual_exclusion] *)

Definition LOCKED_INC_PER_CPU : nat := 50.
Definition counter_lock : nat := 0.
Definition locked_counter : nat := 1.
Definition locked_reset (σ : nat -> Z) : nat -> Z := store_at locked_counter 0 σ.

Section Locked.
Context `{SmpLaws} (n : nat).

(** Where a thread is in its round. *)
Inductive locker := L_lock (i : nat) | L_load (i : nat) | L_store (i : nat) (v : Z) | L_unlock (i : nat).

Definition spinlock_inc_entry (p : locker) : act locker :=
  match p with
  | L_lock i =>
      if decide (i < n)%nat then k_spin_lock counter_lock (fun got => if got then L_load i else L_lock i)
      else AStop
  | L_load i => ARead locked_counter (fun v => L_store i v)
  | L_store i v => AWrite locked_counter (s32 (v + 1)) (L_unlock i)
  | L_unlock i => k_spin_unlock counter_lock (L_lock (S i))
  end.

Definition holds (p : locker) : bool := match p with L_lock _ => false | _ => true end.
Definition done_incs (p : locker) : nat :=
  match p with L_lock i | L_load i | L_store i _ => i | L_unlock i => S i end.
Definition locker_ok (v : Z) (p : locker) : Prop :=
  match p with
  | L_lock i => (i <= n)%nat
  | L_load i | L_unlock i => (i < n)%nat
  | L_store i w => (i < n)%nat /\ w = v
  end.

Record locked_inv (a : @plain locker locker) : Prop := {
  li_lock : v_mem a counter_lock = if holds (v_p0 a) || holds (v_p1 a) then 1 else 0;
  li_excl : holds (v_p0 a) && holds (v_p1 a) = false;
  li_total : v_mem a locked_counter = s32 (Z.of_nat (done_incs (v_p0 a) + done_incs (v_p1 a)));
  li_ok0 : locker_ok (v_mem a locked_counter) (v_p0 a);
  li_ok1 : locker_ok (v_mem a locked_counter) (v_p1 a)
}.

Lemma locked_inv_step a a' :
  locked_inv a -> plain_step spinlock_inc_entry spinlock_inc_entry a a' -> locked_inv a'.
Proof using All.
  intros [Hl He Ht H0 H1] Hs.
  smp_inv Hs; constructor; cbn in *; split_ifs; stores; try done; try lia;
    try (destruct H0 as [_ ->]); try (destruct H1 as [_ ->]); rewrite ?Ht, ?s32_add_l; try (f_equal; lia);
    try (destruct p1; cbn in *; done || congruence || lia);
    try (destruct p0; cbn in *; done || congruence || lia).
Qed.

Definition locker_left (p : locker) : nat :=
  match p with
  | L_lock i => 4 * (n - i) | L_load i => 4 * (n - i) - 1
  | L_store i _ => 4 * (n - i) - 2 | L_unlock i => 4 * (n - i) - 3
  end.

Lemma locked_live a :
  locked_inv a -> (v_p0 a = L_lock n /\ v_p1 a = L_lock n) \/
  exists a', plain_step spinlock_inc_entry spinlock_inc_entry a a' /\
    (locker_left (v_p0 a') + locker_left (v_p1 a') < locker_left (v_p0 a) + locker_left (v_p1 a))%nat.
Proof using All.
  destruct a as [σ p0 p1]. intros [Hl He _ H0 H1]. cbn in *.
  destruct p1 as [j| | |]; cbn in *; destr_all; try thread_moves (@step_core1 locker locker).
  destruct p0 as [i| | |]; cbn in *; destr_all; try thread_moves (@step_core0 locker locker).
  destruct (decide (i < n)%nat); [thread_moves (@step_core0 locker locker)|].
  destruct (decide (j < n)%nat); [thread_moves (@step_core1 locker locker)|].
  left. split; f_equal; lia.
Qed.

(** C33: P4.4: the two threads are never both between [k_spin_lock] and
    [k_spin_unlock], the plain counter is the number of increments done, as an [int],
    and from every state both threads can end, with exactly [2 n]; while that is an
    [int] the counter stays within it. *)
Theorem zephyr_spinlock_excludes σ a :
  σ counter_lock = 0 ->
  star (plain_step spinlock_inc_entry spinlock_inc_entry)
    (mk_plain (locked_reset σ) (L_lock 0) (L_lock 0)) a ->
  holds (v_p0 a) && holds (v_p1 a) = false /\
  v_mem a locked_counter = s32 (Z.of_nat (done_incs (v_p0 a) + done_incs (v_p1 a))) /\
  (2 * Z.of_nat n < 2 ^ 31 -> 0 <= v_mem a locked_counter <= 2 * Z.of_nat n) /\
  exists a', star (plain_step spinlock_inc_entry spinlock_inc_entry) a a' /\
    v_p0 a' = L_lock n /\ v_p1 a' = L_lock n /\ v_mem a' locked_counter = s32 (2 * Z.of_nat n).
Proof using All.
  intros Hfree Hs. assert (locked_inv a) as Ha.
  { apply (star_invariant _ locked_inv _ _ locked_inv_step Hs).
    split; cbn; unfold locked_reset; stores; try done; lia. }
  destruct Ha as [Hl He Ht H0 H1] eqn:E. clear E. split; [done|]. split; [done|]. split.
  - intros Hn. rewrite Ht. destruct (v_p0 a), (v_p1 a); cbn in *; rewrite s32_small; lia.
  - destruct (plain_live _ _ locked_inv _ (fun a => locker_left (v_p0 a) + locker_left (v_p1 a))%nat a
      locked_inv_step locked_live ltac:(by split)) as (a' & Hs' & Ha' & E0 & E1).
    exists a'. split_and!; try done. rewrite (li_total _ Ha'), E0, E1. cbn. f_equal. lia.
Qed.
End Locked.

(** ** [test_fence_producer_consumer] and its reverse *)

Definition BUF_WORDS : nat := 64.
Definition SPIN_LIMIT : nat := 10 * 1000 * 1000.
Definition publish_flag : nat := 0.
Definition consumer_bad_words : nat := 1.
Definition shared_buf (i : nat) : nat := S (S i).
Definition pattern (i : nat) : Z := Z.lor 0xC0DE0000 (Z.of_nat i) mod 2 ^ 32.

(** The test's own stores, before it starts the threads. *)
Definition fence_reset (n : nat) (σ : nat -> Z) : nat -> Z :=
  foldr (fun i => store_at (shared_buf i) 0) (store_at consumer_bad_words 0 (store_at publish_flag 0 σ)) (seq 0 n).

Section Messages.
Context `{SmpLaws} (n limit : nat).

Inductive producer := P_fill (i : nat) | P_end.
Inductive consumer :=
| C_spin (spins : nat) | C_give_up | C_gave_up | C_check (i : nat) | C_bad (i : nat) | C_count (i : nat) (bad : Z).

Definition producer_entry (p : producer) : act producer :=
  match p with
  | P_fill i =>
      if decide (i < n)%nat then AWrite (shared_buf i) (pattern i) (P_fill (S i))
      else atomic_set publish_flag 1 P_end
  | P_end => AStop
  end.
Definition consumer_entry (c : consumer) : act consumer :=
  match c with
  | C_spin spins =>
      atomic_get publish_flag (fun v =>
        if v =? 0 then if decide (limit < S spins)%nat then C_give_up else C_spin (S spins) else C_check 0)
  | C_give_up => AWrite consumer_bad_words (-1) C_gave_up
  | C_gave_up => AStop
  | C_check i =>
      if decide (i < n)%nat
      then ARead (shared_buf i) (fun v => if v =? pattern i then C_check (S i) else C_bad i)
      else AStop
  | C_bad i => ARead consumer_bad_words (fun bad => C_count i bad)
  | C_count i bad => AWrite consumer_bad_words (s32 (bad + 1)) (C_check (S i))
  end.

Definition filled (p : producer) : nat := match p with P_fill i => i | P_end => n end.

Record msg_inv (σ : nat -> Z) (p : producer) (c : consumer) : Prop := {
  mi_flag : σ publish_flag = match p with P_end => 1 | _ => 0 end;
  mi_filled : (filled p <= n)%nat;
  mi_buf j : (j < filled p)%nat -> σ (shared_buf j) = pattern j;
  mi_bad : σ consumer_bad_words = match c with C_gave_up => -1 | _ => 0 end;
  mi_seen : match c with C_check i => p = P_end /\ (i <= n)%nat | C_bad _ | C_count _ _ => False | _ => True end
}.

Lemma producer_inv σ σ' p p' c :
  msg_inv σ p c -> act_plain (producer_entry p) σ = Some (σ', p') -> msg_inv σ' p' c.
Proof using All.
  intros [Hf Hn Hb Hd Hs] Ha. destruct p as [i|]; [|done]. cbn in Ha. destruct (decide (i < n)%nat) as [Hi|Hi].
  - cbn in Ha. injection Ha as <- <-. cbn in *. split; cbn; stores; try done; [|by destruct c; destr_all].
    intros j Hj. unfold store_at. destruct (decide _) as [E|E]; [by injection E as ->|].
    apply Hb. unfold shared_buf in E. lia.
  - smp_laws Ha. injection Ha as <- <-. cbn in *. split; cbn; stores; try done; [|by destruct c; destr_all].
    intros j Hj. stores. apply Hb. lia.
Qed.

Lemma consumer_inv σ σ' p c c' :
  msg_inv σ p c -> act_plain (consumer_entry c) σ = Some (σ', c') -> msg_inv σ' p c'.
Proof using All.
  intros [Hf Hn Hb Hd Hs] Ha.
  destruct c as [spins| | |i|i|i bad]; cbn in Ha; try done.
  - smp_laws Ha. injection Ha as <- <-. rewrite Hf. destruct p; cbn; split_ifs; split; cbn; try done; split; [done|lia].
  - injection Ha as <- <-. split; cbn; stores; done.
  - destruct (decide (i < n)%nat) as [Hi|Hi]; [|done]. cbn in Ha. destruct Hs as [-> _].
    rewrite (Hb i Hi), Z.eqb_refl in Ha. injection Ha as <- <-. by split.
Qed.

(** Steps left while the consumer has not given up. *)
Definition msg_left (p : producer) (c : consumer) : nat :=
  match p with P_fill i => S (n - i) | P_end => 0 end +
  match c with C_spin _ => S n | C_check i => n - i | _ => 0 end.

Lemma msg_moves σ p c :
  msg_inv σ p c -> c <> C_give_up -> c <> C_gave_up ->
  (p = P_end /\ c = C_check n) \/
  (exists σ' p', act_plain (producer_entry p) σ = Some (σ', p') /\ (msg_left p' c < msg_left p c)%nat) \/
  (exists σ' c', act_plain (consumer_entry c) σ = Some (σ', c') /\ (msg_left p c' < msg_left p c)%nat /\
     c' <> C_give_up /\ c' <> C_gave_up).
Proof using All.
  intros [Hf Hn Hb Hd Hs] H1 H2. destruct p as [i|].
  - right. left. cbn in *. destruct (decide (i < n)%nat).
    + do 2 eexists. split; [reflexivity|]. cbn. lia.
    + do 2 eexists. split; [smp_apply|]. cbn. lia.
  - destruct c as [spins| | |i|i|i bad]; try done.
    + right. right. do 2 eexists. split; [smp_apply|]. rewrite Hf. cbn. split_and!; [lia|done|done].
    + cbn in *. destruct (decide (i < n)%nat) as [Hi|Hi]; [|left; split; [done|f_equal; lia]].
      right. right. do 2 eexists. split; [reflexivity|].
      rewrite (Hb i Hi), Z.eqb_refl. cbn. split_and!; [lia|done|done].
Qed.

Lemma fence_reset_ok σ : msg_inv (fence_reset n σ) (P_fill 0) (C_spin 0).
Proof using.
  unfold fence_reset. generalize (seq 0 n) as l. intros l.
  split; cbn; try done; try lia; induction l as [|i l IH]; cbn [foldr]; stores; done.
Qed.

(** What either direction of the test asserts: [consumer_bad_words] is 0 unless the
    consumer gave up, and a consumer that checks does so after every store of the
    producer. *)
Definition msg_result (σ : nat -> Z) (p : producer) (c : consumer) : Prop :=
  σ consumer_bad_words = match c with C_gave_up => -1 | _ => 0 end /\
  match c with
  | C_check _ => p = P_end /\ forall j, (j < n)%nat -> σ (shared_buf j) = pattern j
  | C_bad _ | C_count _ _ => False
  | _ => True
  end.

Lemma msg_inv_result σ p c : msg_inv σ p c -> msg_result σ p c.
Proof using.
  intros [Hf Hn Hb Hd Hs]. split; [done|]. destruct c; try done. destruct Hs as [-> _]. by split.
Qed.

Lemma fwd_step a a' :
  msg_inv (v_mem a) (v_p0 a) (v_p1 a) -> plain_step producer_entry consumer_entry a a' ->
  msg_inv (v_mem a') (v_p0 a') (v_p1 a').
Proof using All. intros Ha Hs. destruct Hs; cbn in *; [eapply producer_inv|eapply consumer_inv]; eassumption. Qed.
Lemma rev_step a a' :
  msg_inv (v_mem a) (v_p1 a) (v_p0 a) -> plain_step consumer_entry producer_entry a a' ->
  msg_inv (v_mem a') (v_p1 a') (v_p0 a').
Proof using All. intros Ha Hs. destruct Hs; cbn in *; [eapply consumer_inv|eapply producer_inv]; eassumption. Qed.

Lemma fwd_ends a :
  msg_inv (v_mem a) (v_p0 a) (v_p1 a) -> v_p1 a <> C_give_up -> v_p1 a <> C_gave_up ->
  exists a', star (plain_step producer_entry consumer_entry) a a' /\ v_p0 a' = P_end /\ v_p1 a' = C_check n.
Proof using All.
  intros Ha H1 H2.
  destruct (star_live (plain_step producer_entry consumer_entry)
    (fun a => msg_inv (v_mem a) (v_p0 a) (v_p1 a) /\ v_p1 a <> C_give_up /\ v_p1 a <> C_gave_up)
    (fun a => v_p0 a = P_end /\ v_p1 a = C_check n) (fun a => msg_left (v_p0 a) (v_p1 a)) a)
    as (b & Hs & _ & ?); [clear a Ha H1 H2|by split_and!|by exists b].
  intros [σ p c] (Ha & H1 & H2). cbn in *.
  destruct (msg_moves σ p c Ha H1 H2) as [|[(σ' & p' & Hact & Hlt)|(σ' & c' & Hact & Hlt & ? & ?)]]; [by left| |];
    right; eexists; (split; [by constructor|]); cbn; eauto 6 using producer_inv, consumer_inv.
Qed.

(** P4.2: with the producer on CPU 0 and the consumer on CPU 1, a consumer that
    saw the flag sees every word the producer stored: it never finds a bad word,
    and [consumer_bad_words] is 0 at its end; unless it has given up, that end
    can be reached. *)
Theorem zephyr_messages_seen σ a :
  star (plain_step producer_entry consumer_entry) (mk_plain (fence_reset n σ) (P_fill 0) (C_spin 0)) a ->
  msg_result (v_mem a) (v_p0 a) (v_p1 a) /\
  (v_p1 a <> C_give_up -> v_p1 a <> C_gave_up ->
   exists a', star (plain_step producer_entry consumer_entry) a a' /\ v_p0 a' = P_end /\ v_p1 a' = C_check n).
Proof using All.
  intros Hs. assert (msg_inv (v_mem a) (v_p0 a) (v_p1 a)) as Ha
    by apply (star_invariant _ (fun a => msg_inv (v_mem a) (v_p0 a) (v_p1 a)) _ _ fwd_step Hs), fence_reset_ok.
  split; [by apply msg_inv_result|by apply fwd_ends].
Qed.

(** P4.1B: the same with the producer on CPU 1 and the consumer on CPU 0. *)
Theorem zephyr_messages_seen_rev σ a :
  star (plain_step consumer_entry producer_entry) (mk_plain (fence_reset n σ) (C_spin 0) (P_fill 0)) a ->
  msg_result (v_mem a) (v_p1 a) (v_p0 a).
Proof using All.
  intros Hs. apply msg_inv_result.
  apply (star_invariant _ (fun a => msg_inv (v_mem a) (v_p1 a) (v_p0 a)) _ _ rev_step Hs), fence_reset_ok.
Qed.
End Messages.

(** ** [test_ping_pong] *)

Definition PINGPONG_ROUNDS : nat := 20.
Definition ping_sem : nat := 0.
Definition pong_sem : nat := 1.
Definition pong_rounds : nat := 2.
Definition pingpong_reset (σ : nat -> Z) : nat -> Z :=
  store_at pong_rounds 0 (store_at pong_sem 0 (store_at ping_sem 0 σ)).

Section PingPong.
Context `{SmpLaws} (n timeout : nat).

(** The test's thread and the ponger, with the looks of the current wait; a wait
    that runs out fails the test, and ends the ponger. *)
Inductive pinger := M_give (i : nat) | M_take (i looks : nat) | M_failed (i : nat).
Inductive ponger := Q_take (i looks : nat) | Q_load (i : nat) | Q_store (i : nat) (v : Z) | Q_give (i : nat) | Q_return (i : nat).

Definition test_ping_pong (p : pinger) : act pinger :=
  match p with
  | M_give i => if decide (i < n)%nat then k_sem_give ping_sem (M_take i 0) else AStop
  | M_take i looks =>
      k_sem_take pong_sem (fun ok : bool =>
        if ok then M_give (S i) else if decide (S looks < timeout)%nat then M_take i (S looks) else M_failed i)
  | M_failed _ => AStop
  end.
Definition ponger_entry (q : ponger) : act ponger :=
  match q with
  | Q_take i looks =>
      if decide (i < n)%nat
      then k_sem_take ping_sem (fun ok : bool =>
        if ok then Q_load i else if decide (S looks < timeout)%nat then Q_take i (S looks) else Q_return i)
      else AStop
  | Q_load i => ARead pong_rounds (fun v => Q_store i v)
  | Q_store i v => AWrite pong_rounds (s32 (v + 1)) (Q_give i)
  | Q_give i => k_sem_give pong_sem (Q_take (S i) 0)
  | Q_return _ => AStop
  end.

(** Pings given and pongs taken by the one, pings taken, rounds counted and pongs
    given by the other. *)
Definition pings (p : pinger) : nat := match p with M_give i => i | M_take i _ | M_failed i => S i end.
Definition pongs_taken (p : pinger) : nat := match p with M_give i | M_take i _ | M_failed i => i end.
Definition pings_taken (q : ponger) : nat :=
  match q with Q_take i _ | Q_return i => i | Q_load i | Q_store i _ | Q_give i => S i end.
Definition rounds_done (q : ponger) : nat :=
  match q with Q_take i _ | Q_return i | Q_load i | Q_store i _ => i | Q_give i => S i end.
Definition pongs (q : ponger) : nat :=
  match q with Q_take i _ | Q_return i | Q_load i | Q_store i _ | Q_give i => i end.
Definition timed_out (p : pinger) (q : ponger) : bool :=
  match p, q with M_failed _, _ | _, Q_return _ => true | _, _ => false end.

Record pong_inv (a : @plain pinger ponger) : Prop := {
  pi_ping : v_mem a ping_sem = Z.of_nat (pings (v_p0 a)) - Z.of_nat (pings_taken (v_p1 a));
  pi_pong : v_mem a pong_sem = Z.of_nat (pongs (v_p1 a)) - Z.of_nat (pongs_taken (v_p0 a));
  pi_order : (pongs_taken (v_p0 a) <= pongs (v_p1 a) <= pings_taken (v_p1 a))%nat /\
             (pings_taken (v_p1 a) <= pings (v_p0 a) <= S (pongs_taken (v_p0 a)))%nat;
  pi_bound : (pings (v_p0 a) <= n)%nat;
  pi_rounds : v_mem a pong_rounds = s32 (Z.of_nat (rounds_done (v_p1 a)));
  pi_read : match v_p1 a with Q_store i v => v = s32 (Z.of_nat i) | Q_return i => (i < n)%nat | _ => True end
}.

Lemma zpong_inv_step a a' : pong_inv a -> plain_step test_ping_pong ponger_entry a a' -> pong_inv a'.
Proof using All.
  intros [Hp Hq [H1 H2] Hb Hr Hv] Hs.
  smp_inv Hs; constructor; cbn in *; split_ifs; stores; try done; try lia.
  rewrite s32_add_l. f_equal. lia.
Qed.

Definition pong_left (a : @plain pinger ponger) : nat :=
  match v_p0 a with M_give i => 2 * (n - i) | M_take i _ => 2 * (n - i) - 1 | M_failed _ => 0 end +
  match v_p1 a with
  | Q_take i _ => 4 * (n - i) | Q_load i => 4 * (n - i) - 1 | Q_store i _ => 4 * (n - i) - 2
  | Q_give i => 4 * (n - i) - 3 | Q_return _ => 0
  end.

(** While neither has timed out, one of the threads can move without doing so. *)
Lemma pong_moves a :
  pong_inv a /\ timed_out (v_p0 a) (v_p1 a) = false ->
  (v_p0 a = M_give n /\ exists looks, v_p1 a = Q_take n looks) \/
  exists a', plain_step test_ping_pong ponger_entry a a' /\
    (pong_inv a' /\ timed_out (v_p0 a') (v_p1 a') = false) /\ (pong_left a' < pong_left a)%nat.
Proof using All.
  intros [Ha Ht].
  assert ((v_p0 a = M_give n /\ exists looks, v_p1 a = Q_take n looks) \/
    exists a', plain_step test_ping_pong ponger_entry a a' /\
      (timed_out (v_p0 a') (v_p1 a') = false /\ (pong_left a' < pong_left a)%nat))
    as [Hg|(a' & Hs & Ht' & Hlt)]; [|by left|right; eauto 7 using zpong_inv_step].
  destruct a as [σ p q]. destruct Ha as [Hp Hq [H1 H2] Hb _ _]. cbn [v_mem v_p0 v_p1] in *.
  destruct q as [i looks|i|i v|i|i]; cbn in Hp, Hq, H1, H2.
  - destruct (decide (i < pings p)%nat) as [Hi|Hi].
    + assert (σ ping_sem = 1) as E by lia. right. eexists. split.
      * apply step_core1. cbn. rewrite decide_True by lia. smp_apply.
      * rewrite E. destruct p; cbn in *; try done; split; (done || lia).
    + destruct p as [j|j w|j]; cbn in Hp, Hq, H1, H2, Hi, Hb, Ht; [| |done].
      * destruct (decide (j < n)%nat); [|left; split; [f_equal; lia|exists looks; f_equal; lia]].
        right. eexists. split; [apply step_core0; cbn; rewrite decide_True by lia; smp_apply|].
        cbn. split; [done|lia].
      * assert (σ pong_sem = 1) as E by lia. right. eexists. split; [apply step_core0; smp_apply|].
        rewrite E. cbn. split; [done|lia].
  - right. eexists. split; [by apply step_core1|]. destruct p; cbn in *; try done; split; (done || lia).
  - right. eexists. split; [by apply step_core1|]. destruct p; cbn in *; try done; split; (done || lia).
  - right. eexists. split; [apply step_core1; smp_apply|]. destruct p; cbn in *; try done; split; (done || lia).
  - by destruct p.
Qed.

Lemma pingpong_reset_ok σ : pong_inv (mk_plain (pingpong_reset σ) (M_give 0) (Q_take 0 0)).
Proof using. split; cbn; unfold pingpong_reset; stores; done || lia. Qed.

(** P4.5: the threads alternate strictly: [pong_rounds] is, as an [int], the number of
    rounds the test has had an answer in, or one more; when the test's loop ends every round
    was counted and the ponger has ended; and unless a wait has run out that end
    can be reached. *)
Theorem zephyr_ping_pong σ a :
  star (plain_step test_ping_pong ponger_entry) (mk_plain (pingpong_reset σ) (M_give 0) (Q_take 0 0)) a ->
  (exists k, v_mem a pong_rounds = s32 (Z.of_nat k) /\ (pongs_taken (v_p0 a) <= k <= pings (v_p0 a))%nat) /\
  (v_p0 a = M_give n -> v_mem a pong_rounds = s32 (Z.of_nat n) /\ exists looks, v_p1 a = Q_take n looks) /\
  (timed_out (v_p0 a) (v_p1 a) = false ->
   exists a', star (plain_step test_ping_pong ponger_entry) a a' /\ v_p0 a' = M_give n).
Proof using All.
  intros Hs. assert (pong_inv a) as Ha
    by apply (star_invariant _ pong_inv _ _ zpong_inv_step Hs), pingpong_reset_ok.
  pose proof Ha as [Hp Hq [H1 H2] Hb Hr Hv]. split; [|split].
  - exists (rounds_done (v_p1 a)). split; [done|]. destruct (v_p1 a); cbn in *; lia.
  - rewrite Hr. intros E. rewrite E in *. destruct (v_p1 a) as [i looks| | | |i]; cbn in *; try (exfalso; lia).
    assert (i = n) as -> by lia. eauto.
  - intros Ht. destruct (star_live _ _ _ pong_left a pong_moves (conj Ha Ht)) as (b & Hb' & _ & E & _). eauto.
Qed.
End PingPong.

(** ** On read-modify-write instructions *)

#[export] Instance amo_smp : SmpApi := {
  atomic_inc P l p := AAmo l (fun v => wrap64 (v + 1)) (fun _ => p);
  atomic_set P l v p := AAmo l (fun _ => v) (fun _ => p);
  atomic_get P l k := ARead l k;
  k_spin_lock P l k := AAmo l (fun _ => 1) (fun old => if old =? 0 then k true else k false);
  k_spin_unlock P l p := AAmo l (fun _ => 0) (fun _ => p);
  k_sem_give P l p := AAmo l (fun _ => 1) (fun _ => p);
  k_sem_take P l k := AAmo l (fun _ => 0) (fun old => if old =? 0 then k false else k true)
}.

#[export] Instance amo_smp_laws : SmpLaws amo_smp.
Proof. by split. Qed.

(** A schedule: which thread moves. *)
Fixpoint run_plain {P0 P1} (code0 : P0 -> act P0) (code1 : P1 -> act P1) (l : list bool)
    (a : @plain P0 P1) : option (@plain P0 P1) :=
  match l with
  | [] => Some a
  | false :: l' => '(σ, p) ← act_plain (code0 (v_p0 a)) (v_mem a); run_plain code0 code1 l' (mk_plain σ p (v_p1 a))
  | true :: l' => '(σ, p) ← act_plain (code1 (v_p1 a)) (v_mem a); run_plain code0 code1 l' (mk_plain σ (v_p0 a) p)
  end.

Lemma run_plain_star {P0 P1} (code0 : P0 -> act P0) (code1 : P1 -> act P1) l a b :
  run_plain code0 code1 l a = Some b -> star (plain_step code0 code1) a b.
Proof.
  revert a. induction l as [|[] l IH]; intros [σ p0 p1]; cbn [run_plain v_mem v_p0 v_p1].
  - by intros [= ->].
  - destruct (act_plain _ _) as [[σ' p']|] eqn:E; [|done]. intros H. cbn in H.
    eapply star_step; [by apply step_core1|by apply IH].
  - destruct (act_plain _ _) as [[σ' p']|] eqn:E; [|done]. intros H. cbn in H.
    eapply star_step; [by apply step_core0|by apply IH].
Qed.

Definition zeros (l : nat) : Z := 0.

Lemma zephyr_no_lost_increment_witness :
  exists a, star (plain_step (inc_entry 2) (inc_entry 2)) (mk_plain (stress_reset zeros) 0%nat 0%nat) a /\
    v_p0 a = 2%nat /\ v_p1 a = 2%nat /\ v_mem a stress_counter = 4.
Proof.
  destruct (run_plain (inc_entry 2) (inc_entry 2) [true; false; false; true]
    (mk_plain (stress_reset zeros) 0%nat 0%nat)) as [a|] eqn:E; [|discriminate E].
  assert (v_p0 a = 2%nat /\ v_p1 a = 2%nat) as [E0 E1] by (injection E as <-; split; reflexivity).
  apply run_plain_star in E. destruct (zephyr_no_lost_increment 2 zeros a E) as [Ht _].
  exists a. split; [exact E|]. rewrite Ht, E0, E1. split_and!; reflexivity.
Defined.

Lemma zephyr_spinlock_excludes_witness :
  exists a, star (plain_step (spinlock_inc_entry 1) (spinlock_inc_entry 1))
      (mk_plain (locked_reset zeros) (L_lock 0) (L_lock 0)) a /\
    v_p0 a = L_lock 1 /\ v_p1 a = L_lock 1 /\ v_mem a locked_counter = 2.
Proof.
  destruct (run_plain (spinlock_inc_entry 1) (spinlock_inc_entry 1)
    [true; false; true; false; true; true; false; false; false; false]
    (mk_plain (locked_reset zeros) (L_lock 0) (L_lock 0))) as [a|] eqn:E; [|discriminate E].
  assert (v_p0 a = L_lock 1 /\ v_p1 a = L_lock 1) as [E0 E1] by (injection E as <-; split; reflexivity).
  apply run_plain_star in E.
  destruct (zephyr_spinlock_excludes 1 zeros a eq_refl E) as (_ & Ht & _).
  exists a. split; [exact E|]. rewrite Ht, E0, E1. split_and!; reflexivity.
Defined.

Lemma zephyr_messages_seen_witness :
  exists a, star (plain_step (producer_entry 1) (consumer_entry 1 5))
      (mk_plain (fence_reset 1 zeros) (P_fill 0) (C_spin 0)) a /\
    v_p1 a = C_check 1 /\ v_mem a consumer_bad_words = 0.
Proof.
  destruct (run_plain (producer_entry 1) (consumer_entry 1 5) [true; false; true; false; true; true]
    (mk_plain (fence_reset 1 zeros) (P_fill 0) (C_spin 0))) as [a|] eqn:E; [|discriminate E].
  assert (v_p1 a = C_check 1) as E1 by (vm_compute in E; injection E as <-; reflexivity).
  apply run_plain_star in E. destruct (zephyr_messages_seen 1 5 zeros a E) as [[Hbad _] _].
  exists a. split; [exact E|]. split; [exact E1|]. rewrite Hbad, E1. reflexivity.
Defined.

Lemma zephyr_messages_seen_rev_witness :
  exists a, star (plain_step (consumer_entry 1 5) (producer_entry 1))
      (mk_plain (fence_reset 1 zeros) (C_spin 0) (P_fill 0)) a /\
    v_p0 a = C_check 1 /\ v_mem a consumer_bad_words = 0.
Proof.
  destruct (run_plain (consumer_entry 1 5) (producer_entry 1) [false; true; false; true; false; false]
    (mk_plain (fence_reset 1 zeros) (C_spin 0) (P_fill 0))) as [a|] eqn:E; [|discriminate E].
  assert (v_p0 a = C_check 1) as E1 by (vm_compute in E; injection E as <-; reflexivity).
  apply run_plain_star in E. destruct (zephyr_messages_seen_rev 1 5 zeros a E) as [Hbad _].
  exists a. split; [exact E|]. split; [exact E1|]. rewrite Hbad, E1. reflexivity.
Defined.

Lemma zephyr_ping_pong_witness :
  exists a, star (plain_step (test_ping_pong 1 5) (ponger_entry 1 5))
      (mk_plain (pingpong_reset zeros) (M_give 0) (Q_take 0 0)) a /\
    v_p0 a = M_give 1 /\ v_mem a pong_rounds = 1.
Proof.
  destruct (run_plain (test_ping_pong 1 5) (ponger_entry 1 5) [true; false; false; true; true; true; true; false]
    (mk_plain (pingpong_reset zeros) (M_give 0) (Q_take 0 0))) as [a|] eqn:E; [|discriminate E].
  assert (v_p0 a = M_give 1) as E0 by (vm_compute in E; injection E as <-; reflexivity).
  apply run_plain_star in E. destruct (zephyr_ping_pong 1 5 zeros a E) as (_ & Hr & _).
  exists a. split; [exact E|]. split; [exact E0|]. exact (proj1 (Hr E0)).
Defined.
