(* ===== verification/ZThreads.v ===== *)
(** * The Zephyr suite's dual-core tests as wholes ([zephyr-suite/p4_dualcore])

    A test creates its workers, pins them to CPUs, starts and joins them and asserts
    ([start_worker_on], the [ZTEST] functions), while the workers run the entry
    functions of [ZDual].  The kernel's threads are an interface ([ThreadApi]) with
    what Zephyr documents of them ([ThreadLaws]): a thread runs between its start and
    its return, on a CPU of its mask only.  One test thread and two workers
    interleave; a wait of [K_SECONDS(5)] is a number of looks. *)

From S2P Require Import Prelude Weak ZDual.

(** ** The kernel's threads *)

Inductive tstat := T_none | T_new (pin : option Z) | T_live (pin : option Z) | T_ended.

Definition CPUS : Z := 2.

Class ThreadApi (T : Type) := {
  (** with [K_FOREVER]: created, not started *)
  k_thread_create : nat -> T -> T;
  k_thread_cpu_pin : nat -> Z -> T -> Z * T;
  k_thread_start : nat -> T -> T;
  (** one look: whether the thread has ended *)
  k_thread_join : nat -> T -> bool;
  (** The scheduler may run the thread on the CPU now; its entry function returned. *)
  may_run : T -> nat -> Z -> bool;
  thread_return : nat -> T -> T
}.

Definition set_stat (i : nat) (x : tstat) (st : nat -> tstat) (j : nat) : tstat := if decide (i = j) then x else st j.
Definition not_alive (x : tstat) : Prop := x = T_none \/ x = T_ended.

Class ThreadLaws (T : Type) {api : ThreadApi T} := {
  status : T -> nat -> tstat;
  law_create i s : not_alive (status s i) -> forall j, status (k_thread_create i s) j = set_stat i (T_new None) (status s) j;
  law_pin i c s pin : status s i = T_new pin -> 0 <= c < CPUS ->
    (k_thread_cpu_pin i c s).1 = 0 /\ forall j, status (k_thread_cpu_pin i c s).2 j = set_stat i (T_new (Some c)) (status s) j;
  law_start i s pin : status s i = T_new pin -> forall j, status (k_thread_start i s) j = set_stat i (T_live pin) (status s) j;
  law_return i s pin : status s i = T_live pin -> forall j, status (thread_return i s) j = set_stat i T_ended (status s) j;
  law_join i s : k_thread_join i s = true <-> status s i = T_ended;
  law_runs s i c : may_run s i c = true <->
    0 <= c < CPUS /\ (status s i = T_live None \/ status s i = T_live (Some c))
}.

(** ** A test *)

(** The statements of a test; the last two are its own loop over the workers'
    objects, if it has one, and [zassert_equal] and the like on shared values. *)
Inductive instr :=
| I_store (f : (nat -> Z) -> nat -> Z)
| I_create (i : nat)
| I_pin (i : nat) (cpu : Z)
| I_start (i : nat)
| I_join (i looks : nat)
| I_loop
| I_zassert (b : (nat -> Z) -> bool).

Definition start_worker_on (cpu : Z) (idx : nat) : list instr := [I_create idx; I_pin idx cpu; I_start idx].

(** The statements left; or the end of a failed test. *)
Inductive test_at := At (l : list instr) | Assert_failed | Timed_out.

Section System.
Context {T : Type} `{ThreadLaws T} {PM P0 P1 : Type}.
(** The test's loop, whether it ended without a wait running out, and the workers'
    entry functions on the CPU they run on. *)
Context (loop : PM -> act PM) (loop_ok : PM -> bool) (entry0 : Z -> P0 -> act P0) (entry1 : Z -> P1 -> act P1).

Record sys := mk_sys { s_at : test_at; s_mem : nat -> Z; s_kernel : T; s_pm : PM; s_w0 : P0; s_w1 : P1 }.

(** One statement of the test. *)
Definition exec_test (l : list instr) (σ : nat -> Z) (t : T) (pm : PM) : test_at * (nat -> Z) * T * PM :=
  match l with
  | [] => (At [], σ, t, pm)
  | I_store f :: l => (At l, f σ, t, pm)
  | I_create i :: l => (At l, σ, k_thread_create i t, pm)
  | I_pin i cpu :: l =>
      let '(r, t) := k_thread_cpu_pin i cpu t in (if r =? 0 then At l else Assert_failed, σ, t, pm)
  | I_start i :: l => (At l, σ, k_thread_start i t, pm)
  | I_join i looks :: l =>
      (if k_thread_join i t then At l
       else match looks with O => Timed_out | S looks => At (I_join i looks :: l) end, σ, t, pm)
  | I_loop :: l =>
      match act_plain (loop pm) σ with
      | Some (σ, pm) => (At (I_loop :: l), σ, t, pm)
      | None => (if loop_ok pm then At l else Timed_out, σ, t, pm)
      end
  | I_zassert b :: l => (if b σ then At l else Assert_failed, σ, t, pm)
  end.

Inductive sys_step : sys -> sys -> Prop :=
| step_test l σ t pm m σ' t' pm' p0 p1 :
    l <> [] -> exec_test l σ t pm = (m, σ', t', pm') -> sys_step (mk_sys (At l) σ t pm p0 p1) (mk_sys m σ' t' pm' p0 p1)
| step_run0 m c σ σ' t pm p0 p0' p1 :
    may_run t 0 c = true -> act_plain (entry0 c p0) σ = Some (σ', p0') ->
    sys_step (mk_sys m σ t pm p0 p1) (mk_sys m σ' t pm p0' p1)
| step_run1 m c σ σ' t pm p0 p1 p1' :
    may_run t 1 c = true -> act_plain (entry1 c p1) σ = Some (σ', p1') ->
    sys_step (mk_sys m σ t pm p0 p1) (mk_sys m σ' t pm p0 p1')
| step_end0 m c σ t pm p0 p1 :
    may_run t 0 c = true -> entry0 c p0 = AStop ->
    sys_step (mk_sys m σ t pm p0 p1) (mk_sys m σ (thread_return 0 t) pm p0 p1)
| step_end1 m c σ t pm p0 p1 :
    may_run t 1 c = true -> entry1 c p1 = AStop ->
    sys_step (mk_sys m σ t pm p0 p1) (mk_sys m σ (thread_return 1 t) pm p0 p1).

(** ** What a test's statements must respect *)

(** Where the test has got to with a worker. *)
Inductive worker_at := W_idle | W_new | W_pinned | W_started | W_joined.
Definition set_worker (i : nat) (x : worker_at) (ph : nat -> worker_at) (j : nat) : worker_at :=
  if decide (i = j) then x else ph j.

(** The test's placement; its invariant on the shared values and the programs; when
    the workers have run out of a wait. *)
Context (place : nat -> option Z) (Inv : (nat -> Z) -> PM -> P0 -> P1 -> Prop) (lost : PM -> P0 -> P1 -> bool).

Definition stopped0 (p0 : P0) : Prop := exists c, place 0 = Some c /\ entry0 c p0 = AStop.
Definition stopped1 (p1 : P1) : Prop := exists c, place 1 = Some c /\ entry1 c p1 = AStop.
Definition looped (pm : PM) : Prop := loop pm = AStop /\ loop_ok pm = true.

Definition all_started (ph : nat -> worker_at) : Prop :=
  forall i, (i < 2)%nat -> place i <> None -> ph i = W_started \/ ph i = W_joined.

(** The statements [l] are in order: each worker is created, pinned where [place] says,
    started, and joined after the loop; an assertion follows from the invariant, the
    loop's end and the end of the joined workers. *)
Fixpoint in_order (l : list instr) (ph : nat -> worker_at) (after_loop : bool) : Prop :=
  match l with
  | [] => True
  | I_store _ :: _ => False
  | I_create i :: l => (i < 2)%nat /\ ph i = W_idle /\ in_order l (set_worker i W_new ph) after_loop
  | I_pin i c :: l =>
      (i < 2)%nat /\ ph i = W_new /\ place i = Some c /\ 0 <= c < CPUS /\
      in_order l (set_worker i W_pinned ph) after_loop
  | I_start i :: l => (i < 2)%nat /\ ph i = W_pinned /\ in_order l (set_worker i W_started ph) after_loop
  | I_loop :: l => after_loop = false /\ all_started ph /\ in_order l ph true
  | I_join i _ :: l =>
      (i < 2)%nat /\ ph i = W_started /\ after_loop = true /\ all_started ph /\
      in_order l (set_worker i W_joined ph) after_loop
  | I_zassert b :: l =>
      (forall σ pm p0 p1, Inv σ pm p0 p1 -> lost pm p0 p1 = false -> (after_loop = true -> looped pm) ->
         (ph 0%nat = W_joined -> stopped0 p0) -> (ph 1%nat = W_joined -> stopped1 p1) -> b σ = true) /\
      in_order l ph after_loop
  end.

(** What the kernel knows of a worker. *)
Definition agrees (x : tstat) (w : worker_at) (pin : option Z) (stopped : Prop) : Prop :=
  match w with
  | W_idle => not_alive x
  | W_new => x = T_new None
  | W_pinned => x = T_new pin /\ pin <> None
  | W_started => pin <> None /\ (x = T_live pin \/ (x = T_ended /\ stopped))
  | W_joined => x = T_ended /\ stopped
  end.

(** The programs keep their invariant, and a wait that has run out stays so. *)
Record keeps : Prop := {
  kp_loop σ pm p0 p1 σ' pm' : Inv σ pm p0 p1 -> act_plain (loop pm) σ = Some (σ', pm') ->
    Inv σ' pm' p0 p1 /\ (lost pm p0 p1 = true -> lost pm' p0 p1 = true);
  kp_run0 c σ pm p0 p1 σ' p0' : place 0 = Some c -> Inv σ pm p0 p1 -> act_plain (entry0 c p0) σ = Some (σ', p0') ->
    Inv σ' pm p0' p1 /\ (lost pm p0 p1 = true -> lost pm p0' p1 = true);
  kp_run1 c σ pm p0 p1 σ' p1' : place 1 = Some c -> Inv σ pm p0 p1 -> act_plain (entry1 c p1) σ = Some (σ', p1') ->
    Inv σ' pm p0 p1' /\ (lost pm p0 p1 = true -> lost pm p0 p1' = true);
  kp_failed σ pm p0 p1 : Inv σ pm p0 p1 -> loop pm = AStop -> loop_ok pm = false -> lost pm p0 p1 = true
}.
Context (Hkeeps : keeps).

(** A state of the test: the statements left are in order, and an assertion fails only
    if a wait has run out. *)
Record test_inv_at (a : sys) (ph : nat -> worker_at) (after_loop : bool) : Prop := {
  ti_inv : Inv (s_mem a) (s_pm a) (s_w0 a) (s_w1 a);
  ti_worker0 : agrees (status (s_kernel a) 0) (ph 0%nat) (place 0) (stopped0 (s_w0 a));
  ti_worker1 : agrees (status (s_kernel a) 1) (ph 1%nat) (place 1) (stopped1 (s_w1 a));
  ti_at : match s_at a with
          | At l => in_order l ph after_loop /\ (after_loop = true -> looped (s_pm a))
          | Assert_failed => lost (s_pm a) (s_w0 a) (s_w1 a) = true
          | Timed_out => True
          end
}.
Definition test_inv (a : sys) : Prop := exists ph after_loop, test_inv_at a ph after_loop.

Lemma agrees_weaken x w pin (P Q : Prop) : agrees x w pin P -> (P -> Q) -> agrees x w pin Q.
Proof using. destruct w; cbn; tauto. Qed.

(** A worker that may run has been started where the test placed it, and is not ended. *)
Lemma running x w pin P c : agrees x w pin P ->
  0 <= c < CPUS /\ (x = T_live None \/ x = T_live (Some c)) -> w = W_started /\ pin = Some c /\ x = T_live (Some c).
Proof using.
  intros Ha [_ Hx]. destruct w; cbn in Ha.
  - destruct Ha as [-> | ->], Hx; done.
  - subst. destruct Hx; done.
  - destruct Ha as [-> _], Hx; done.
  - destruct Ha as [Hp [-> |[-> _]]]; [|destruct Hx; done].
    destruct pin; [|done]. destruct Hx as [|Hx]; [done|]. by injection Hx as ->.
  - destruct Ha as [-> _], Hx; done.
Qed.

Lemma runs_placed a ph al i c : test_inv_at a ph al -> (i < 2)%nat -> may_run (s_kernel a) i c = true ->
  ph i = W_started /\ place i = Some c /\ status (s_kernel a) i = T_live (Some c).
Proof using.
  intros [_ H0 H1 _] Hi Hr. apply law_runs in Hr.
  destruct i as [|[|i]]; [exact (running _ _ _ _ _ H0 Hr)|exact (running _ _ _ _ _ H1 Hr)|lia].
Qed.

Lemma set_stat_ne i j x st : i <> j -> set_stat i x st j = st j.
Proof using. intros. unfold set_stat. by rewrite decide_False. Qed.
Lemma set_stat_eq i x st : set_stat i x st i = x.
Proof using. unfold set_stat. by rewrite decide_True. Qed.
Lemma set_worker_ne i j x ph : i <> j -> set_worker i x ph j = ph j.
Proof using. intros. unfold set_worker. by rewrite decide_False. Qed.
Lemma set_worker_eq i x ph : set_worker i x ph i = x.
Proof using. unfold set_worker. by rewrite decide_True. Qed.

Lemma run0_inv ph al m c σ σ' t pm p0 p0' p1 :
  test_inv_at (mk_sys m σ t pm p0 p1) ph al -> may_run t 0 c = true ->
  act_plain (entry0 c p0) σ = Some (σ', p0') -> test_inv_at (mk_sys m σ' t pm p0' p1) ph al.
Proof using Hkeeps.
  intros Hi Hr Ha. destruct (runs_placed _ _ _ 0 c Hi ltac:(lia) Hr) as (Ew & Ep & Es). cbn in Es.
  destruct Hi as [HI H0 H1 Hat]. cbn in *.
  destruct (kp_run0 Hkeeps c σ pm p0 p1 σ' p0' Ep HI Ha) as [HI' Hl].
  split; cbn; [exact HI'| |exact H1|destruct m; auto].
  rewrite Ew, Ep, Es. split; [done|by left].
Qed.

Lemma run1_inv ph al m c σ σ' t pm p0 p1 p1' :
  test_inv_at (mk_sys m σ t pm p0 p1) ph al -> may_run t 1 c = true ->
  act_plain (entry1 c p1) σ = Some (σ', p1') -> test_inv_at (mk_sys m σ' t pm p0 p1') ph al.
Proof using Hkeeps.
  intros Hi Hr Ha. destruct (runs_placed _ _ _ 1 c Hi ltac:(lia) Hr) as (Ew & Ep & Es). cbn in Es.
  destruct Hi as [HI H0 H1 Hat]. cbn in *.
  destruct (kp_run1 Hkeeps c σ pm p0 p1 σ' p1' Ep HI Ha) as [HI' Hl].
  split; cbn; [exact HI'|exact H0| |destruct m; auto].
  rewrite Ew, Ep, Es. split; [done|by left].
Qed.

Lemma end0_inv ph al m c σ t pm p0 p1 :
  test_inv_at (mk_sys m σ t pm p0 p1) ph al -> may_run t 0 c = true -> entry0 c p0 = AStop ->
  test_inv_at (mk_sys m σ (thread_return 0 t) pm p0 p1) ph al.
Proof using.
  intros Hi Hr Ha. destruct (runs_placed _ _ _ 0 c Hi ltac:(lia) Hr) as (Ew & Ep & Es). cbn in Es.
  destruct Hi as [HI H0 H1 Hat]. cbn in *.
  split; cbn; [exact HI| | |exact Hat]; rewrite (law_return _ _ _ Es).
  - rewrite Ew, set_stat_eq, Ep. split; [done|]. right. split; [done|by exists c].
  - by rewrite set_stat_ne.
Qed.

Lemma end1_inv ph al m c σ t pm p0 p1 :
  test_inv_at (mk_sys m σ t pm p0 p1) ph al -> may_run t 1 c = true -> entry1 c p1 = AStop ->
  test_inv_at (mk_sys m σ (thread_return 1 t) pm p0 p1) ph al.
Proof using.
  intros Hi Hr Ha. destruct (runs_placed _ _ _ 1 c Hi ltac:(lia) Hr) as (Ew & Ep & Es). cbn in Es.
  destruct Hi as [HI H0 H1 Hat]. cbn in *.
  split; cbn; [exact HI| | |exact Hat]; rewrite (law_return _ _ _ Es).
  - by rewrite set_stat_ne.
  - rewrite Ew, set_stat_eq, Ep. split; [done|]. right. split; [done|by exists c].
Qed.

(** A kernel call on worker [i]. *)
Lemma call_inv l l' σ t t' pm p0 p1 ph al i x w :
  test_inv_at (mk_sys (At l) σ t pm p0 p1) ph al -> (i < 2)%nat ->
  (forall j, status t' j = set_stat i x (status t) j) ->
  (forall P : Prop, agrees x w (place i) P) -> in_order l' (set_worker i w ph) al ->
  test_inv_at (mk_sys (At l') σ t' pm p0 p1) (set_worker i w ph) al.
Proof using.
  intros [HI H0 H1 [_ Hl]] Hi Hst Hag Ho. cbn in *. split; cbn; [exact HI| | |by split]; rewrite Hst.
  - destruct (decide (i = 0%nat)) as [->|Hne]; [by rewrite set_stat_eq, set_worker_eq|].
    by rewrite set_stat_ne, set_worker_ne by done.
  - destruct (decide (i = 1%nat)) as [->|Hne]; [by rewrite set_stat_eq, set_worker_eq|].
    by rewrite set_stat_ne, set_worker_ne by done.
Qed.

Lemma worker_agrees a ph al i : test_inv_at a ph al -> (i < 2)%nat -> exists P : Prop,
  agrees (status (s_kernel a) i) (ph i) (place i) P.
Proof using. intros [_ H0 H1 _] Hi. destruct i as [|[|i]]; [by eexists..|lia]. Qed.

Lemma join_inv l' l σ t pm p0 p1 ph al i :
  test_inv_at (mk_sys (At l) σ t pm p0 p1) ph al -> (i < 2)%nat -> ph i = W_started -> status t i = T_ended ->
  in_order l' (set_worker i W_joined ph) al ->
  test_inv_at (mk_sys (At l') σ t pm p0 p1) (set_worker i W_joined ph) al.
Proof using.
  intros [HI H0 H1 [_ Hl]] Hi Hph Hst Ho. cbn in *. split; cbn; [exact HI| | |by split].
  - destruct (decide (i = 0%nat)) as [->|Hne]; [|by rewrite set_worker_ne].
    rewrite Hph, Hst in H0. rewrite set_worker_eq, Hst. destruct H0 as [_ [Hx|Hx]]; [done|exact Hx].
  - destruct (decide (i = 1%nat)) as [->|Hne]; [|by rewrite set_worker_ne].
    rewrite Hph, Hst in H1. rewrite set_worker_eq, Hst. destruct H1 as [_ [Hx|Hx]]; [done|exact Hx].
Qed.

(** One statement of the test. *)
Lemma statement_inv l σ t pm p0 p1 ph al m σ' t' pm' :
  test_inv_at (mk_sys (At l) σ t pm p0 p1) ph al -> exec_test l σ t pm = (m, σ', t', pm') ->
  test_inv (mk_sys m σ' t' pm' p0 p1).
Proof using Hkeeps.
  intros Hi He. pose proof Hi as [HI H0 H1 [Ho Hl]]. cbn in HI, H0, H1, Ho, Hl.
  destruct l as [|[f|i|i c|i|i looks| |b] l]; cbn in He, Ho.
  - injection He as <- <- <- <-. by exists ph, al.
  - done.
  - injection He as <- <- <- <-. destruct Ho as (Hi2 & Hph & Ho).
    destruct (worker_agrees _ _ _ i Hi Hi2) as [P Hag]. cbn in Hag. rewrite Hph in Hag.
    exists (set_worker i W_new ph), al. apply (call_inv _ _ _ _ _ _ _ _ _ _ _ _ _ Hi Hi2 (law_create i t Hag)); done.
  - destruct Ho as (Hi2 & Hph & Hpl & Hc & Ho).
    destruct (worker_agrees _ _ _ i Hi Hi2) as [P Hag]. cbn in Hag. rewrite Hph in Hag.
    destruct (law_pin i c t None Hag Hc) as [Er Hst]. destruct (k_thread_cpu_pin i c t) as [r t2]. cbn in Er, Hst. subst r.
    cbn in He. injection He as <- <- <- <-. exists (set_worker i W_pinned ph), al.
    apply (call_inv _ _ _ _ _ _ _ _ _ _ _ _ _ Hi Hi2 Hst); [|exact Ho]. intros Q. by rewrite Hpl.
  - injection He as <- <- <- <-. destruct Ho as (Hi2 & Hph & Ho).
    destruct (worker_agrees _ _ _ i Hi Hi2) as [P Hag]. cbn in Hag. rewrite Hph in Hag. destruct Hag as [Hag Hpin].
    exists (set_worker i W_started ph), al.
    apply (call_inv _ _ _ _ _ _ _ _ _ _ _ _ _ Hi Hi2 (law_start i t _ Hag)); [|exact Ho]. intros Q. split; [done|by left].
  - destruct Ho as (Hi2 & Hph & Hal & Hst & Ho). injection He as <- <- <- <-.
    destruct (k_thread_join i t) eqn:Ej.
    + exists (set_worker i W_joined ph), al. apply (join_inv _ _ _ _ _ _ _ _ _ i Hi Hi2 Hph); [by apply law_join|exact Ho].
    + exists ph, al. destruct looks as [|looks]; [by split|]. split; [done..|]. cbn. by split_and!.
  - destruct Ho as (-> & Hst & Ho). destruct (act_plain (loop pm) σ) as [[σ2 pm2]|] eqn:Ea.
    + injection He as <- <- <- <-. exists ph, false.
      split; cbn; [by apply (kp_loop Hkeeps σ pm p0 p1 σ2 pm2)|exact H0|exact H1|]. by split_and!.
    + injection He as <- <- <- <-. destruct (loop_ok pm) eqn:Eok; [|by exists ph, false].
      exists ph, true. split; cbn; [done..|]. split; [exact Ho|]. intros _. split; [|exact Eok]. by destruct (loop pm).
  - injection He as <- <- <- <-. destruct Ho as [Hb Ho]. exists ph, al. destruct (b σ) eqn:Eb; [by split|].
    split; cbn; [done..|]. destruct (lost pm p0 p1) eqn:El; [done|].
    rewrite (Hb σ pm p0 p1 HI El Hl) in Eb; [done| |].
    + intros E. rewrite E in H0. apply H0.
    + intros E. rewrite E in H1. apply H1.
Qed.

Lemma sys_inv_step a a' : test_inv a -> sys_step a a' -> test_inv a'.
Proof using Hkeeps.
  intros (ph & al & Hi) Hs. destruct Hs.
  - eapply statement_inv; eassumption.
  - exists ph, al. eapply run0_inv; eassumption.
  - exists ph, al. eapply run1_inv; eassumption.
  - exists ph, al. eapply end0_inv; eassumption.
  - exists ph, al. eapply end1_inv; eassumption.
Qed.

(** ** A test can pass *)

Context (Hplace : forall i c, place i = Some c -> 0 <= c < CPUS) (left_to_do : PM -> P0 -> P1 -> nat).

(** While no wait has run out, a program that has not ended can move on. *)
Definition moves_on : Prop := forall σ pm p0 p1, Inv σ pm p0 p1 -> lost pm p0 p1 = false ->
  (loop pm = AStop /\ (forall c, place 0 = Some c -> entry0 c p0 = AStop) /\ (forall c, place 1 = Some c -> entry1 c p1 = AStop)) \/
  (exists σ' pm', act_plain (loop pm) σ = Some (σ', pm') /\ lost pm' p0 p1 = false /\
     (left_to_do pm' p0 p1 < left_to_do pm p0 p1)%nat) \/
  (exists c σ' p0', place 0 = Some c /\ act_plain (entry0 c p0) σ = Some (σ', p0') /\ lost pm p0' p1 = false /\
     (left_to_do pm p0' p1 < left_to_do pm p0 p1)%nat) \/
  (exists c σ' p1', place 1 = Some c /\ act_plain (entry1 c p1) σ = Some (σ', p1') /\ lost pm p0 p1' = false /\
     (left_to_do pm p0 p1' < left_to_do pm p0 p1)%nat).
Context (Hmoves : moves_on).

Definition alive (x : tstat) : nat := match x with T_ended => 0%nat | _ => 1%nat end.
Definition at_left (m : test_at) : nat := match m with At l => length l | _ => 0%nat end.
Definition sys_left (a : sys) : nat :=
  (left_to_do (s_pm a) (s_w0 a) (s_w1 a) + alive (status (s_kernel a) 0) + alive (status (s_kernel a) 1) +
   3 * at_left (s_at a))%nat.

Definition in_time (a : sys) : Prop :=
  lost (s_pm a) (s_w0 a) (s_w1 a) = false /\ exists l, s_at a = At l.
Definition nearer (a : sys) : Prop := exists a', sys_step a a' /\ in_time a' /\ (sys_left a' < sys_left a)%nat.

Lemma alive_bound x : (alive x <= 1)%nat.
Proof using. destruct x; cbn; lia. Qed.

(** A statement that takes no time. *)
Lemma test_nearer l l' σ t t' pm p0 p1 :
  l <> [] -> exec_test l σ t pm = (At l', σ, t', pm) -> lost pm p0 p1 = false -> (length l' < length l)%nat ->
  (alive (status t' 0) + alive (status t' 1) <= alive (status t 0) + alive (status t 1) + 2)%nat ->
  nearer (mk_sys (At l) σ t pm p0 p1).
Proof using.
  intros Hl He Hlost Hlen Hal. exists (mk_sys (At l') σ t' pm p0 p1). split; [by apply step_test|].
  split; [split; [exact Hlost|by exists l']|]. unfold sys_left. cbn [s_at s_kernel s_pm s_w0 s_w1 at_left]. lia.
Qed.

Lemma call_nearer l l' σ t t' pm p0 p1 :
  l <> [] -> exec_test l σ t pm = (At l', σ, t', pm) -> lost pm p0 p1 = false -> (length l' < length l)%nat ->
  nearer (mk_sys (At l) σ t pm p0 p1).
Proof using.
  intros Hl He Hlost Hlen. apply (test_nearer l l' σ t t'); try done.
  pose proof (alive_bound (status t' 0)). pose proof (alive_bound (status t' 1)). lia.
Qed.

Lemma started_runs x pin c P : agrees x W_started pin P -> ~ P -> pin = Some c -> x = T_live (Some c).
Proof using. intros [_ [Hx|[_ HP]]] Hn ->; [exact Hx|done]. Qed.

Lemma live_runs t i c : status t i = T_live (Some c) -> place i = Some c -> may_run t i c = true.
Proof using Hplace. intros Hs Hp. apply law_runs. split; [by apply (Hplace i)|by right]. Qed.

(** A worker's own step, when all have been started. *)
Lemma run0_nearer ph al l σ t pm p0 p1 c σ' p0' :
  test_inv_at (mk_sys (At l) σ t pm p0 p1) ph al -> all_started ph -> place 0 = Some c ->
  act_plain (entry0 c p0) σ = Some (σ', p0') -> lost pm p0' p1 = false ->
  (left_to_do pm p0' p1 < left_to_do pm p0 p1)%nat -> nearer (mk_sys (At l) σ t pm p0 p1).
Proof using Hplace.
  intros [_ H0 _ _] Hst Hp Ha Hl Hlt. cbn in H0.
  assert (~ stopped0 p0) as Hns.
  { intros (c' & Hc' & Hs). assert (c' = c) as -> by congruence. by rewrite Hs in Ha. }
  assert (status t 0 = T_live (Some c)) as Es.
  { destruct (Hst 0%nat ltac:(lia)) as [E|E]; [by rewrite Hp|rewrite E in H0..]; [by eapply started_runs|].
    by destruct H0. }
  eexists. split; [apply (step_run0 _ c); [by apply live_runs|exact Ha]|].
  split; [split; [exact Hl|by exists l]|]. unfold sys_left. cbn [s_at s_kernel s_pm s_w0 s_w1]. lia.
Qed.

Lemma run1_nearer ph al l σ t pm p0 p1 c σ' p1' :
  test_inv_at (mk_sys (At l) σ t pm p0 p1) ph al -> all_started ph -> place 1 = Some c ->
  act_plain (entry1 c p1) σ = Some (σ', p1') -> lost pm p0 p1' = false ->
  (left_to_do pm p0 p1' < left_to_do pm p0 p1)%nat -> nearer (mk_sys (At l) σ t pm p0 p1).
Proof using Hplace.
  intros [_ _ H1 _] Hst Hp Ha Hl Hlt. cbn in H1.
  assert (~ stopped1 p1) as Hns.
  { intros (c' & Hc' & Hs). assert (c' = c) as -> by congruence. by rewrite Hs in Ha. }
  assert (status t 1 = T_live (Some c)) as Es.
  { destruct (Hst 1%nat ltac:(lia)) as [E|E]; [by rewrite Hp|rewrite E in H1..]; [by eapply started_runs|].
    by destruct H1. }
  eexists. split; [apply (step_run1 _ c); [by apply live_runs|exact Ha]|].
  split; [split; [exact Hl|by exists l]|]. unfold sys_left. cbn [s_at s_kernel s_pm s_w0 s_w1]. lia.
Qed.

(** The worker that is joined can end, or has. *)
Lemma join_nearer ph al i looks l σ t pm p0 p1 :
  test_inv_at (mk_sys (At (I_join i looks :: l)) σ t pm p0 p1) ph al -> lost pm p0 p1 = false ->
  (i < 2)%nat -> ph i = W_started ->
  (forall c, place 0 = Some c -> entry0 c p0 = AStop) -> (forall c, place 1 = Some c -> entry1 c p1 = AStop) ->
  nearer (mk_sys (At (I_join i looks :: l)) σ t pm p0 p1).
Proof using Hplace.
  intros Hi Hl Hi2 Hph Hs0 Hs1. destruct (worker_agrees _ _ _ i Hi Hi2) as [P Hag].
  cbn in Hag. rewrite Hph in Hag. destruct Hag as [Hp [Hx|[Hx _]]].
  - destruct (place i) as [c|] eqn:Ep; [|done]. pose proof (live_runs t i c Hx Ep) as Hr.
    destruct i as [|[|i]]; [| |lia].
    + eexists. split; [apply (step_end0 _ c); [exact Hr|by apply Hs0]|].
      split; [split; [exact Hl|by eexists]|]. unfold sys_left. cbn [s_at s_kernel s_pm s_w0 s_w1].
      rewrite !(law_return _ _ _ Hx), set_stat_eq, set_stat_ne, Hx by done. cbn [alive]. lia.
    + eexists. split; [apply (step_end1 _ c); [exact Hr|by apply Hs1]|].
      split; [split; [exact Hl|by eexists]|]. unfold sys_left. cbn [s_at s_kernel s_pm s_w0 s_w1].
      rewrite !(law_return _ _ _ Hx), set_stat_eq, set_stat_ne, Hx by done. cbn [alive]. lia.
  - apply law_join in Hx. apply (call_nearer _ l _ _ t); [done| |exact Hl|cbn; lia]. cbn. by rewrite Hx.
Qed.

(** At the loop or a join, something can move. *)
Lemma wait_nearer ph al x l σ t pm p0 p1 :
  test_inv_at (mk_sys (At (x :: l)) σ t pm p0 p1) ph al -> lost pm p0 p1 = false -> all_started ph ->
  (x = I_loop /\ al = false \/ exists i looks, x = I_join i looks /\ (i < 2)%nat /\ ph i = W_started /\ al = true) ->
  nearer (mk_sys (At (x :: l)) σ t pm p0 p1).
Proof using Hkeeps Hplace Hmoves.
  intros Hi Hl Hst Hx. pose proof Hi as [HI _ _ [Ho Hal]]. cbn in HI, Ho, Hal.
  destruct (Hmoves σ pm p0 p1 HI Hl) as [(Hs & Hs0 & Hs1)|[(σ' & pm' & Ha & Hl' & Hlt)|[(c & σ' & p0' & Hp & Ha & Hl' & Hlt)|(c & σ' & p1' & Hp & Ha & Hl' & Hlt)]]].
  - destruct Hx as [[-> ->]|(i & looks & -> & Hi2 & Hph & _)]; [|by eapply join_nearer].
    apply (call_nearer _ l _ _ t); [done| |exact Hl|cbn; lia]. cbn. rewrite Hs. cbn.
    destruct (loop_ok pm) eqn:E; [done|]. by rewrite (kp_failed Hkeeps σ pm p0 p1 HI Hs E) in Hl.
  - destruct Hx as [[-> _]|(i & looks & -> & _ & _ & ->)].
    + eexists. split; [apply step_test; [done|]; cbn; by rewrite Ha|].
      split; [split; [exact Hl'|by eexists]|]. unfold sys_left. cbn [s_at s_kernel s_pm s_w0 s_w1 at_left]. lia.
    + destruct (Hal eq_refl) as [Hs _]. by rewrite Hs in Ha.
  - by eapply run0_nearer.
  - by eapply run1_nearer.
Qed.

Lemma test_moves a : test_inv a -> in_time a -> s_at a = At [] \/ nearer a.
Proof using Hkeeps Hplace Hmoves.
  destruct a as [m σ t pm p0 p1]. intros (ph & al & Hi) [Hl [l El]]. cbn in El, Hl. subst m.
  destruct l as [|x l]; [by left|right]. pose proof Hi as [HI _ _ [Ho Hal]]. cbn in HI, Ho, Hal.
  destruct x as [f|i|i c|i|i looks| |b]; cbn in Ho.
  - done.
  - apply (call_nearer _ l _ _ (k_thread_create i t)); [done|done|exact Hl|cbn; lia].
  - destruct Ho as (Hi2 & Hph & _ & Hc & _). destruct (worker_agrees _ _ _ i Hi Hi2) as [P Hag].
    cbn in Hag. rewrite Hph in Hag. destruct (law_pin i c t None Hag Hc) as [Er _].
    apply (call_nearer _ l _ _ (k_thread_cpu_pin i c t).2); [done| |exact Hl|cbn; lia]. cbn.
    destruct (k_thread_cpu_pin i c t) as [r t2]. cbn in Er. by subst r.
  - apply (call_nearer _ l _ _ (k_thread_start i t)); [done|done|exact Hl|cbn; lia].
  - destruct Ho as (Hi2 & Hph & -> & Hst & _). apply (wait_nearer ph true); [exact Hi|exact Hl|exact Hst|right; by exists i, looks].
  - destruct Ho as (-> & Hst & _). apply (wait_nearer ph false); [exact Hi|exact Hl|exact Hst|by left].
  - destruct Hi as [_ H0 H1 _]. cbn in H0, H1. apply (call_nearer _ l _ _ t); [done| |exact Hl|cbn; lia].
    destruct Ho as [Hb _]. cbn. rewrite (Hb σ pm p0 p1 HI Hl Hal); [done| |].
    + intros E. rewrite E in H0. apply H0.
    + intros E. rewrite E in H1. apply H1.
Qed.

(** What a test guarantees, from values it may be started with: an assertion fails only after a wait ran out, and unless
    one has, the test can pass. *)
Definition test_holds (before : (nat -> Z) -> Prop) (test : list instr) (pm : PM) (p0 : P0) (p1 : P1) : Prop :=
  forall σ t a, before σ -> not_alive (status t 0) -> not_alive (status t 1) ->
  star sys_step (mk_sys (At test) σ t pm p0 p1) a ->
  (s_at a = Assert_failed -> lost (s_pm a) (s_w0 a) (s_w1 a) = true) /\
  (in_time a -> exists b, star sys_step a b /\ s_at b = At []).

Lemma not_alive_idle t i c : not_alive (status t i) -> may_run t i c = true -> False.
Proof using. intros [E|E] Hr; apply law_runs in Hr as [_ [Hr|Hr]]; congruence. Qed.

(** Before its first statement a test's workers do not exist. *)
Lemma reset_first reset l σ t pm p0 p1 a :
  not_alive (status t 0) -> not_alive (status t 1) ->
  star sys_step (mk_sys (At (I_store reset :: l)) σ t pm p0 p1) a ->
  a = mk_sys (At (I_store reset :: l)) σ t pm p0 p1 \/ star sys_step (mk_sys (At l) (reset σ) t pm p0 p1) a.
Proof using.
  intros H0 H1 Hs. inversion Hs as [|x b y Hb Hrest]; subst; [by left|right].
  inversion Hb; subst; try (exfalso; eapply not_alive_idle; [|eassumption]; eassumption).
  match goal with E : exec_test _ _ _ _ = _ |- _ => cbn in E; injection E as <- <- <- <- end. exact Hrest.
Qed.

Lemma in_order_holds (before : (nat -> Z) -> Prop) reset l pm p0 p1 al :
  (forall σ, before σ -> Inv (reset σ) pm p0 p1) -> lost pm p0 p1 = false -> (al = true -> looped pm) ->
  in_order l (fun _ => W_idle) al -> test_holds before (I_store reset :: l) pm p0 p1.
Proof using Hkeeps Hplace Hmoves.
  intros Hreset Hlost Hal Ho σ t a Hb0 H0 H1 Hs.
  assert (test_inv (mk_sys (At l) (reset σ) t pm p0 p1)) as Hi
    by (exists (fun _ => W_idle), al; split; cbn; auto).
  assert (forall a, test_inv a -> in_time a -> exists b, star sys_step a b /\ s_at b = At []) as Hlive.
  { intros x Hx Hin. destruct (star_live sys_step (fun a => test_inv a /\ in_time a) (fun a => s_at a = At []) sys_left x)
      as (b & Hb & _ & E); [|by split|by exists b].
    intros y [Hy1 Hy2]. destruct (test_moves y Hy1 Hy2) as [|(z & Hz & Hz2 & Hlt)]; [by left|right].
    exists z. split_and!; try done. by eapply sys_inv_step. }
  destruct (reset_first _ _ _ _ _ _ _ _ H0 H1 Hs) as [->|Hs'].
  - split; [done|]. intros _. destruct (Hlive _ Hi) as (b & Hb & E); [split; [exact Hlost|by exists l]|].
    exists b. split; [|exact E]. eapply star_step; [|exact Hb]. by apply step_test.
  - assert (test_inv a) as Ha by (exact (star_invariant _ test_inv _ _ sys_inv_step Hs' Hi)).
    split; [|by apply Hlive]. intros E. destruct Ha as (ph & al' & [_ _ _ Hat]). by rewrite E in Hat.
Qed.
End System.

(** ** The tests *)

(** A test without a loop of its own, and a worker that a test does not use. *)
Definition no_loop (_ : unit) : act unit := AStop.
Definition no_entry (_ : Z) (_ : unit) : act unit := AStop.

(** Interrupts off on the CPU of the thread: nothing the other thread sees. *)
Class IrqApi := { arch_irq_lock {P} : P -> act P; arch_irq_unlock {P} : P -> act P }.
Class IrqLaws (irq : IrqApi) : Prop := {
  law_irq_lock {P} (p : P) σ : act_plain (arch_irq_lock p) σ = Some (σ, p);
  law_irq_unlock {P} (p : P) σ : act_plain (arch_irq_unlock p) σ = Some (σ, p)
}.

Section Tests.
Context `{SmpLaws} `{IrqLaws} (five_seconds : nat).

(** *** P4.1 *)

Definition observed_cpu : nat := 0.

Inductive recorder := R_lock | R_read | R_unlock | R_return.
(** [arch_curr_cpu()->id] is the CPU the step runs on. *)
Definition record_cpu_entry (cpu : Z) (p : recorder) : act recorder :=
  match p with
  | R_lock => arch_irq_lock R_read
  | R_read => AWrite observed_cpu cpu R_unlock
  | R_unlock => arch_irq_unlock R_return
  | R_return => AStop
  end.

Definition test_thread_runs_on_second_cpu : list instr :=
  [I_store (store_at observed_cpu (-1))] ++
  start_worker_on 1 0 ++
  [I_join 0 five_seconds; I_zassert (fun σ => σ observed_cpu =? 1)].

(** *** P4.2 and P4.1B: the consumer is worker 0, the producer worker 1 *)

Definition fence_test (consumer_cpu producer_cpu : Z) : list instr :=
  [I_store (fence_reset BUF_WORDS)] ++
  start_worker_on consumer_cpu 0 ++
  start_worker_on producer_cpu 1 ++
  [I_join 1 five_seconds; I_join 0 five_seconds;
   I_zassert (fun σ => negb (σ consumer_bad_words =? -1)); I_zassert (fun σ => σ consumer_bad_words =? 0)].
Definition test_fence_producer_consumer : list instr := fence_test 1 0.
Definition test_fence_producer_consumer_rev : list instr := fence_test 0 1.

(** *** P4.3, P4.4 *)

Definition test_atomic_increment_stress : list instr :=
  [I_store stress_reset] ++
  start_worker_on 0 0 ++
  start_worker_on 1 1 ++
  [I_join 0 five_seconds; I_join 1 five_seconds;
   I_zassert (fun σ => σ stress_counter =? 2 * Z.of_nat INC_PER_CPU)].

Definition test_spinlock_mutual_exclusion : list instr :=
  [I_store locked_reset] ++
  start_worker_on 0 0 ++
  start_worker_on 1 1 ++
  [I_join 0 five_seconds; I_join 1 five_seconds;
   I_zassert (fun σ => σ locked_counter =? 2 * Z.of_nat LOCKED_INC_PER_CPU)].

(** *** P4.5: the loop is [ZDual.test_ping_pong] *)

Definition ping_pong : list instr :=
  [I_store pingpong_reset] ++
  start_worker_on 1 0 ++
  [I_loop; I_join 0 five_seconds; I_zassert (fun σ => σ pong_rounds =? Z.of_nat PINGPONG_ROUNDS)].
Definition ping_pong_ok (p : pinger) : bool := match p with M_failed _ => false | _ => true end.

(** ** Each of them holds *)

Definition at_cpus (c0 c1 : option Z) (i : nat) : option Z :=
  match i with 0%nat => c0 | 1%nat => c1 | _ => None end.
Definition on_cpu (c : option Z) : Prop := match c with Some c => 0 <= c < CPUS | None => True end.

Lemma at_cpus_ok c0 c1 i c : on_cpu c0 -> on_cpu c1 -> at_cpus c0 c1 i = Some c -> 0 <= c < CPUS.
Proof using. intros H0' H1' E. destruct i as [|[|i]]; cbn in E; [by subst c0|by subst c1|done]. Qed.

Lemma plain_step_inv {P0 P1} (code0 : P0 -> act P0) (code1 : P1 -> act P1) σ p0 p1 a' :
  plain_step code0 code1 (mk_plain σ p0 p1) a' ->
  (exists σ' p0', act_plain (code0 p0) σ = Some (σ', p0') /\ a' = mk_plain σ' p0' p1) \/
  (exists σ' p1', act_plain (code1 p1) σ = Some (σ', p1') /\ a' = mk_plain σ' p0 p1').
Proof using. intros Hs. inversion Hs; subst; eauto 6. Qed.

(** Two workers without waits, from an invariant of the interleaving. *)
Section TwoWorkers.
Context {P0 P1 : Type} (code0 : P0 -> act P0) (code1 : P1 -> act P1) (I : @plain P0 P1 -> Prop) (left : P0 -> P1 -> nat).
Context (Hstep : forall a a', I a -> plain_step code0 code1 a a' -> I a').
Context (Hlive : forall a, I a -> (code0 (v_p0 a) = AStop /\ code1 (v_p1 a) = AStop) \/
  exists a', plain_step code0 code1 a a' /\ (left (v_p0 a') (v_p1 a') < left (v_p0 a) (v_p1 a))%nat).

Lemma two_workers_keep place : keeps no_loop (fun _ => true) (fun _ => code0) (fun _ => code1) place
  (fun σ _ p0 p1 => I (mk_plain σ p0 p1)) (fun _ _ _ => false).
Proof using Hstep.
  split; try done; intros c σ pm p0 p1 σ' p' _ HI Ha; (split; [|done]); eapply Hstep; try exact HI;
    [by apply step_core0|by apply step_core1].
Qed.

Lemma two_workers_move c0 c1 : moves_on no_loop (fun _ => code0) (fun _ => code1) (at_cpus (Some c0) (Some c1))
  (fun σ _ p0 p1 => I (mk_plain σ p0 p1)) (fun _ _ _ => false) (fun _ => left).
Proof using Hlive.
  intros σ pm p0 p1 HI _. destruct (Hlive _ HI) as [[Es0 Es1]|(a' & Hs & Hlt)]; [by left|right; right].
  destruct (plain_step_inv _ _ _ _ _ _ Hs) as [(σ' & p' & Ha & ->)|(σ' & p' & Ha & ->)]; cbn in Hlt.
  - left. by exists c0, σ', p'.
  - right. by exists c1, σ', p'.
Qed.
End TwoWorkers.

Context {T : Type} `{ThreadLaws T}.

Ltac placed := intros; eapply at_cpus_ok; [| |eassumption]; cbn; done.
(** The statements of a test, one by one, up to its assertions. *)
Ltac ordered :=
  cbn; split_and!; try done; try lia;
  try (intros [|[|]] ? Hp; [first [by left|by right|by destruct Hp]|first [by left|by right|by destruct Hp]|lia]).

Definition recorder_inv (σ : nat -> Z) (_ : unit) (p : recorder) (_ : unit) : Prop :=
  σ observed_cpu = match p with R_lock | R_read => -1 | _ => 1 end.
Definition recorder_left (p : recorder) : nat :=
  match p with R_lock => 3 | R_read => 2 | R_unlock => 1 | R_return => 0 end.

(** P4.1: the worker ran on the CPU it was pinned to. *)
Lemma second_cpu_holds :
  test_holds no_loop (fun _ => true) record_cpu_entry no_entry (fun _ _ _ => false) (fun _ => True)
    test_thread_runs_on_second_cpu tt R_lock tt.
Proof using All.
  apply (in_order_holds _ _ _ _ (at_cpus (Some 1) None) recorder_inv) with (left_to_do := fun _ p _ => recorder_left p) (al := true);
    [|placed| |done|done|done|].
  - split; try done. intros c σ pm p0 p1 σ' p0' Hc HI Ha. cbn in Hc. injection Hc as <-. split; [|done].
    destruct p0; cbn in Ha; rewrite ?law_irq_lock, ?law_irq_unlock in Ha; try done; by injection Ha as <- <-.
  - intros σ pm p0 p1 HI _. destruct p0; [right; right; left|right; right; left|right; right; left|by left].
    + exists 1, σ, R_read. split_and!; [done|apply law_irq_lock|done|cbn; lia].
    + exists 1, (store_at observed_cpu 1 σ), R_unlock. split_and!; [done..|cbn; lia].
    + exists 1, σ, R_return. split_and!; [done|apply law_irq_unlock|done|cbn; lia].
  - ordered.
    intros σ pm p0 p1 HI _ _ Hs _. destruct (Hs eq_refl) as (c & Hc & Ha). cbn in Hc. injection Hc as <-.
    unfold recorder_inv in HI. rewrite HI. destruct p0; try done; cbn in Ha.
    pose proof (law_irq_lock R_read σ) as E. by rewrite Ha in E.
Qed.

(** P4.3: no increment is lost. *)
Lemma stress_holds :
  test_holds no_loop (fun _ => true) (fun _ => inc_entry INC_PER_CPU) (fun _ => inc_entry INC_PER_CPU)
    (fun _ _ _ => false) (fun _ => True) test_atomic_increment_stress tt 0%nat 0%nat.
Proof using All.
  apply (in_order_holds _ _ _ _ (at_cpus (Some 0) (Some 1)) (fun σ _ p0 p1 => inc_inv INC_PER_CPU (mk_plain σ p0 p1)))
    with (left_to_do := fun _ p0 p1 => ((INC_PER_CPU - p0) + (INC_PER_CPU - p1))%nat) (al := true);
    [|placed| | |done|done|].
  - apply two_workers_keep, inc_inv_step.
  - apply (two_workers_move _ _ (inc_inv INC_PER_CPU) (fun p0 p1 => (INC_PER_CPU - p0) + (INC_PER_CPU - p1))%nat).
    intros a Ha. destruct (inc_live INC_PER_CPU a Ha) as [[-> ->]|Hm]; [left|by right]. unfold inc_entry. by rewrite decide_False by lia.
  - intros σ _. by split; cbn; [|lia].
  - ordered. intros σ pm p0 p1 [Ht [B0 B1]] _ _ Hs0 Hs1.
    destruct (Hs0 eq_refl) as (c0 & _ & E0), (Hs1 eq_refl) as (c1 & _ & E1). cbn in *.
    assert (forall p, (p <= INC_PER_CPU)%nat -> inc_entry INC_PER_CPU p = AStop -> p = INC_PER_CPU) as Hend.
    { intros p Hp E. unfold inc_entry in E. case_decide; [|lia]. pose proof (law_atomic_inc stress_counter (S p) σ) as Ha.
      by rewrite E in Ha. }
    rewrite (Hend _ B0 E0), (Hend _ B1 E1) in Ht. by rewrite Ht.
Qed.

(** P4.4: the threads exclude each other. *)
Lemma spinlock_holds :
  test_holds no_loop (fun _ => true) (fun _ => spinlock_inc_entry LOCKED_INC_PER_CPU)
    (fun _ => spinlock_inc_entry LOCKED_INC_PER_CPU) (fun _ _ _ => false) (fun σ => σ counter_lock = 0)
    test_spinlock_mutual_exclusion tt (L_lock 0) (L_lock 0).
Proof using All.
  set (n := LOCKED_INC_PER_CPU).
  apply (in_order_holds _ _ _ _ (at_cpus (Some 0) (Some 1)) (fun σ _ p0 p1 => locked_inv n (mk_plain σ p0 p1)))
    with (left_to_do := fun _ p0 p1 => (locker_left n p0 + locker_left n p1)%nat) (al := true);
    [|placed| | |done|done|].
  - apply two_workers_keep, locked_inv_step.
  - apply (two_workers_move _ _ (locked_inv n) (fun p0 p1 => locker_left n p0 + locker_left n p1)%nat).
    intros a Ha. destruct (locked_live n a Ha) as [[-> ->]|Hm]; [left|by right]. cbn [spinlock_inc_entry].
    by rewrite decide_False by lia.
  - intros σ Hfree. split; cbn; unfold locked_reset; stores; done || lia.
  - ordered. intros σ pm p0 p1 [_ _ Ht O0 O1] _ _ Hs0 Hs1.
    destruct (Hs0 eq_refl) as (c0 & _ & E0), (Hs1 eq_refl) as (c1 & _ & E1). cbn in Ht, O0, O1.
    assert (forall p v, locker_ok n v p -> spinlock_inc_entry n p = AStop -> p = L_lock n) as Hend.
    { intros [i|i|i v|i] w Hok E; cbn in E, Hok; try done.
      - destruct (decide (i < n)%nat); [|f_equal; lia].
        pose proof (law_spin_lock counter_lock (fun got : bool => if got then L_load i else L_lock i) σ) as Ha.
        by rewrite E in Ha.
      - pose proof (law_spin_unlock counter_lock (L_lock (S i)) σ) as Ha. by rewrite E in Ha. }
    rewrite (Hend _ _ O0 E0), (Hend _ _ O1 E1) in Ht. by rewrite Ht.
Qed.

(** P4.2 and P4.1B: a consumer that saw the flag sees every word. *)
Definition gave_up (c : consumer) : bool := match c with C_give_up | C_gave_up => true | _ => false end.

Lemma messages_hold consumer_cpu producer_cpu : 0 <= consumer_cpu < CPUS -> 0 <= producer_cpu < CPUS ->
  test_holds no_loop (fun _ => true) (fun _ => consumer_entry BUF_WORDS SPIN_LIMIT) (fun _ => producer_entry BUF_WORDS)
    (fun _ c _ => gave_up c) (fun _ => True) (fence_test consumer_cpu producer_cpu) tt (C_spin 0) (P_fill 0).
Proof using All.
  intros [Hc0 Hc1] [Hp0 Hp1]. generalize SPIN_LIMIT as limit. intros limit. unfold fence_test. generalize BUF_WORDS as n. intros n.
  apply (in_order_holds _ _ _ _ (at_cpus (Some consumer_cpu) (Some producer_cpu)) (fun σ _ c p => msg_inv n σ p c))
    with (left_to_do := fun _ c p => msg_left n p c) (al := true);
    [|placed| | |done|done|].
  - split; [done| | |done].
    + intros c σ pm p0 p1 σ' p0' _ HI Ha. split; [by eapply consumer_inv|]. destruct p0; try done. by injection Ha as <- <-.
    + intros c σ pm p0 p1 σ' p1' _ HI Ha. split; [by eapply producer_inv|done].
  - intros σ pm c p HI Hl. assert (c <> C_give_up /\ c <> C_gave_up) as [Hg1 Hg2] by (by destruct c).
    destruct (msg_moves n limit σ p c HI Hg1 Hg2) as [[-> ->]|[(σ' & p' & Ha & Hlt)|(σ' & c' & Ha & Hlt & Hg1' & Hg2')]].
    + left. split_and!; [done| |done]. intros _ _. cbn. by rewrite decide_False by lia.
    + right; right; right. by exists producer_cpu, σ', p'.
    + right; right; left. exists consumer_cpu, σ', c'. split_and!; [done|done|by destruct c'|done].
  - intros σ _. apply fence_reset_ok.
  - ordered; intros σ pm c p HI Hg _ _ _; pose proof (mi_bad _ _ _ _ HI) as Hbad; rewrite Hbad; by destruct c.
Qed.

(** P4.5: every round is counted. *)
Lemma ping_pong_holds :
  test_holds (ZDual.test_ping_pong PINGPONG_ROUNDS five_seconds) ping_pong_ok
    (fun _ => ponger_entry PINGPONG_ROUNDS five_seconds) no_entry (fun p q _ => timed_out p q) (fun _ => True)
    ping_pong (M_give 0) (Q_take 0 0) tt.
Proof using All.
  unfold ping_pong. assert (Z.of_nat PINGPONG_ROUNDS < 2 ^ 31) as Hsmall by done. revert Hsmall.
  generalize PINGPONG_ROUNDS as n. intros n Hsmall.
  apply (in_order_holds _ _ _ _ (at_cpus (Some 1) None) (fun σ p q _ => pong_inv n (mk_plain σ p q)))
    with (left_to_do := fun p q _ => pong_left n (mk_plain (fun _ => 0) p q)) (al := false);
    [|placed| | |done|done|].
  - split; [| |done|].
    + intros σ p q p1 σ' p' HI Ha. split; [eapply zpong_inv_step; [exact HI|by apply step_core0]|].
      intros Hl. destruct p; [| |done]; destruct q; try done; by destruct p'.
    + intros c σ p q p1 σ' q' _ HI Ha. split; [eapply zpong_inv_step; [exact HI|by apply step_core1]|].
      intros Hl. destruct p; [| |done]; by destruct q.
    + intros σ p q p1 _ _ Hok. by destruct p.
  - intros σ p q p1 HI Hl. destruct (pong_moves n five_seconds _ (conj HI Hl)) as [(Ep & looks & Eq)|(a' & Hs & [_ Ht] & Hlt)].
    + cbn in Ep, Eq. subst p q. left. cbn. rewrite !decide_False by lia. done.
    + right. destruct (plain_step_inv _ _ _ _ _ _ Hs) as [(σ' & p' & Ha & ->)|(σ' & q' & Ha & ->)]; cbn in Ht, Hlt.
      * left. by exists σ', p'.
      * right; left. by exists 1, σ', q'.
  - intros σ _. apply pingpong_reset_ok.
  - ordered. intros σ p q p1 HI Hl Hlp Hs0 _. destruct (Hlp eq_refl) as [Ep Eok]. destruct (Hs0 eq_refl) as (c & _ & Eq).
    destruct HI as [_ _ [O1 O2] Hb Hr _]. cbn in O1, O2, Hb, Hr.
    assert (p = M_give n) as ->.
    { destruct p as [i|i looks|i]; [| |done]; cbn in Ep.
      - destruct (decide (i < n)%nat); [|cbn in Hb; f_equal; lia].
        pose proof (law_sem_give ping_sem (M_take i 0) σ) as Ha. by rewrite Ep in Ha.
      - match type of Ep with k_sem_take _ ?k = _ => pose proof (law_sem_take pong_sem k σ) as Ha end. by rewrite Ep in Ha. }
    rewrite Hr. destruct q as [i looks|i|i v|i|i]; cbn in *; try done; [|].
    + apply Z.eqb_eq. destruct (decide (i < n)%nat); [lia|]. rewrite s32_small; lia.
    + pose proof (law_sem_give pong_sem (Q_take (S i) 0) σ) as Ha. by rewrite Eq in Ha.
Qed.

(** C18: P4: on any kernel whose threads, atomics, spin lock, semaphores and interrupt lock do
    what is documented, and in every interleaving of the test with its two workers:
    pinning succeeds, the worker pinned to CPU 1 runs there, the consumers see every
    word in both directions, no increment is lost, with the lock or by atomics, and
    every round of the ping-pong is counted; an assertion fails only after a wait has
    run out, and until one has, every test can end with all its assertions passed. *)
Theorem zephyr_p4_tests_pass :
  test_holds no_loop (fun _ => true) record_cpu_entry no_entry (fun _ _ _ => false) (fun _ => True)
    test_thread_runs_on_second_cpu tt R_lock tt /\
  test_holds no_loop (fun _ => true) (fun _ => consumer_entry BUF_WORDS SPIN_LIMIT) (fun _ => producer_entry BUF_WORDS)
    (fun _ c _ => gave_up c) (fun _ => True) test_fence_producer_consumer tt (C_spin 0) (P_fill 0) /\
  test_holds no_loop (fun _ => true) (fun _ => consumer_entry BUF_WORDS SPIN_LIMIT) (fun _ => producer_entry BUF_WORDS)
    (fun _ c _ => gave_up c) (fun _ => True) test_fence_producer_consumer_rev tt (C_spin 0) (P_fill 0) /\
  test_holds no_loop (fun _ => true) (fun _ => inc_entry INC_PER_CPU) (fun _ => inc_entry INC_PER_CPU)
    (fun _ _ _ => false) (fun _ => True) test_atomic_increment_stress tt 0%nat 0%nat /\
  test_holds no_loop (fun _ => true) (fun _ => spinlock_inc_entry LOCKED_INC_PER_CPU)
    (fun _ => spinlock_inc_entry LOCKED_INC_PER_CPU) (fun _ _ _ => false) (fun σ => σ counter_lock = 0)
    test_spinlock_mutual_exclusion tt (L_lock 0) (L_lock 0) /\
  test_holds (ZDual.test_ping_pong PINGPONG_ROUNDS five_seconds) ping_pong_ok
    (fun _ => ponger_entry PINGPONG_ROUNDS five_seconds) no_entry (fun p q _ => timed_out p q) (fun _ => True)
    ping_pong (M_give 0) (Q_take 0 0) tt.
Proof using All.
  split; [exact second_cpu_holds|].
  split; [by apply messages_hold|]. split; [by apply messages_hold|].
  split; [exact stress_holds|]. split; [exact spinlock_holds|exact ping_pong_holds].
Qed.
End Tests.

(** ** A kernel with a table of threads *)

Definition cpu_ok (c : Z) : bool := (0 <=? c) && (c <? CPUS).

#[export] Instance table_threads : ThreadApi (nat -> tstat) := {
  k_thread_create i s := set_stat i (T_new None) s;
  k_thread_cpu_pin i c s :=
    match s i with
    | T_new _ => if cpu_ok c then (0, set_stat i (T_new (Some c)) s) else (-22, s)
    | _ => (-22, s)
    end;
  k_thread_start i s := match s i with T_new pin => set_stat i (T_live pin) s | _ => s end;
  k_thread_join i s := match s i with T_ended => true | _ => false end;
  may_run s i c :=
    cpu_ok c && match s i with T_live None => true | T_live (Some c') => c =? c' | _ => false end;
  thread_return i s := set_stat i T_ended s
}.

#[export] Instance table_threads_laws : ThreadLaws (nat -> tstat).
Proof.
  refine (Build_ThreadLaws _ table_threads (fun s => s) _ _ _ _ _ _); cbn.
  - done.
  - intros i c s pin E [H0 H1]. rewrite E. unfold cpu_ok.
    by rewrite (proj2 (Z.leb_le _ _) H0), (proj2 (Z.ltb_lt _ _) H1).
  - intros i s pin E. by rewrite E.
  - done.
  - intros i s. by destruct (s i).
  - intros s i c. unfold cpu_ok. rewrite !andb_true_iff, Z.leb_le, Z.ltb_lt.
    destruct (s i) as [| |[c'|]|].
    1, 2, 5: split; [intros [_ ?]; done|intros [_ [?|?]]; done].
    + rewrite Z.eqb_eq. split; [intros [? ->]; split; [done|by right]|intros [? [?|Hc]]; [done|]].
      injection Hc as ->. done.
    + split; [intros [? _]; split; [done|by left]|by intros [? _]].
Defined.

#[export] Instance fence_irq : IrqApi := { arch_irq_lock P p := AFenceR p; arch_irq_unlock P p := AFenceR p }.
#[export] Instance fence_irq_laws : IrqLaws fence_irq.
Proof. by split. Qed.

(** P4.1 and P4.4 can end with their assertions passed on that kernel. *)
Lemma zephyr_p4_tests_pass_witness :
  (exists b, star (sys_step no_loop (fun _ => true) record_cpu_entry no_entry)
     (mk_sys (At (test_thread_runs_on_second_cpu 5)) zeros (fun _ : nat => T_none) tt R_lock tt) b /\ s_at b = At []) /\
  (exists b, star (sys_step no_loop (fun _ => true) (fun _ => spinlock_inc_entry LOCKED_INC_PER_CPU)
       (fun _ => spinlock_inc_entry LOCKED_INC_PER_CPU))
     (mk_sys (At (test_spinlock_mutual_exclusion 5)) zeros (fun _ : nat => T_ended) tt (L_lock 0) (L_lock 0)) b /\
     s_at b = At []).
Proof.
  destruct (zephyr_p4_tests_pass 5 (T := nat -> tstat)) as (H1 & _ & _ & _ & H4 & _). split.
  - destruct (H1 zeros (fun _ => T_none) _ I (or_introl eq_refl) (or_introl eq_refl) (star_refl _ _)) as [_ Hp].
    apply Hp. split; [reflexivity|by eexists].
  - destruct (H4 zeros (fun _ => T_ended) _ eq_refl (or_intror eq_refl) (or_intror eq_refl) (star_refl _ _)) as [_ Hp].
    apply Hp. split; [reflexivity|by eexists].
Defined.
