(* ===== verification/DualCore.v ===== *)
(** * The dual-core test ([tests/p4_dualcore.c]): messages between the harts

    P4.0 and P4.1 over the memory model of [Weak]: one control point per shared
    access or fence of the C code, each subtest from the zeroed structure.  Hart
    1 runs its function once it has read the pointer that [wake_core1_smode]
    publishes. *)

From S2P Require Import Prelude Weak.

Definition CORE1_MAGIC_NUMBER : Z := 0xDEADBEEF.

(** The fields of [p4_state_t] these subtests use, and [g_smode_target]. *)
Definition g_smode_target : nat := 0.
Definition core1_payload : nat := 1.
Definition core1_wrote_payload : nat := 2.
Definition fence_payload : nat := 1.
Definition fence_expected : nat := 2.
Definition fence_flag : nat := 3.
Definition fence_done : nat := 4.
Definition fence_ok : nat := 5.

(** A control point: the place in the function and the value last loaded. *)
Abbreviation point := (nat * Z)%type.
Definition at_ (n : nat) : point := (n, 0).

(** [while (load(l) != expected);], from point [n] to point [n'] *)
Definition spin_wait (l : nat) (expected : Z) (n n' : nat) : act point :=
  ARead l (fun v => at_ (if v =? expected then n' else n)).

(** ** P4.0: smoke test *)

(** [core1_magic_writer], once woken *)
Definition core1_magic_writer (p : point) : act point :=
  match p.1 with
  | 0%nat => ARead g_smode_target (fun v => at_ (if v =? 0 then 0 else 1))
  | 1%nat => AWrite core1_payload CORE1_MAGIC_NUMBER (at_ 2)
  | 2%nat => AFenceW (at_ 3)
  | 3%nat => AWrite core1_wrote_payload 1 (at_ 4)
  | _ => AStop
  end.

(** Hart 0: wake, wait, load the payload; at point 4 it asserts the loaded value. *)
Definition p4_0_core0 (p : point) : act point :=
  match p.1 with
  | 0%nat => AWrite g_smode_target 1 (at_ 1)
  | 1%nat => AFenceW (at_ 2)
  | 2%nat => spin_wait core1_wrote_payload 1 2 3
  | 3%nat => ARead core1_payload (fun v => (4%nat, v))
  | _ => AStop
  end.

(** ** P4.1A: hart 0 produces, hart 1 consumes *)

Definition core1_fence_consumer (p : point) : act point :=
  match p.1 with
  | 0%nat => ARead g_smode_target (fun v => at_ (if v =? 0 then 0 else 1))
  | 1%nat => ARead fence_flag (fun v => at_ (if v =? 0 then 1 else 2))
  | 2%nat => AFenceR (at_ 3)
  | 3%nat => ARead fence_payload (fun v => (4%nat, v))
  | 4%nat => ARead fence_expected (fun v => (5%nat, if p.2 =? v then 1 else 0))
  | 5%nat => AWrite fence_ok p.2 (at_ 6)
  | 6%nat => AFenceW (at_ 7)
  | 7%nat => AWrite fence_done 1 (at_ 8)
  | _ => AStop
  end.

(** Hart 0; at point 10 it asserts that the loaded [fence_ok] is 1. *)
Definition p4_1a_core0 (p : point) : act point :=
  match p.1 with
  | 0%nat => AWrite fence_expected CORE1_MAGIC_NUMBER (at_ 1)
  | 1%nat => AWrite g_smode_target 1 (at_ 2)
  | 2%nat => AFenceW (at_ 3)
  | 3%nat => ARead fence_expected (fun v => (4%nat, v))
  | 4%nat => AWrite fence_payload p.2 (at_ 5)
  | 5%nat => AFenceW (at_ 6)
  | 6%nat => AWrite fence_flag 1 (at_ 7)
  | 7%nat => spin_wait fence_done 1 7 8
  | 8%nat => AFenceR (at_ 9)
  | 9%nat => ARead fence_ok (fun v => (10%nat, v))
  | _ => AStop
  end.

(** ** P4.1B: hart 1 produces, hart 0 consumes *)

Definition core1_fence_producer (p : point) : act point :=
  match p.1 with
  | 0%nat => ARead g_smode_target (fun v => at_ (if v =? 0 then 0 else 1))
  | 1%nat => ARead fence_expected (fun v => (2%nat, v))
  | 2%nat => AWrite fence_payload p.2 (at_ 3)
  | 3%nat => AFenceW (at_ 4)
  | 4%nat => AWrite fence_flag 1 (at_ 5)
  | 5%nat => spin_wait fence_done 1 5 6
  | _ => AStop
  end.

(** Hart 0; at point 9 it asserts the value just stored in [fence_ok], then clears
    the structure for P4.2. *)
Definition p4_1b_core0 (p : point) : act point :=
  match p.1 with
  | 0%nat => AWrite fence_expected CORE1_MAGIC_NUMBER (at_ 1)
  | 1%nat => AWrite g_smode_target 1 (at_ 2)
  | 2%nat => AFenceW (at_ 3)
  | 3%nat => ARead fence_flag (fun v => at_ (if v =? 0 then 3 else 4))
  | 4%nat => AFenceR (at_ 5)
  | 5%nat => ARead fence_payload (fun v => (6%nat, v))
  | 6%nat => ARead fence_expected (fun v => (7%nat, if p.2 =? v then 1 else 0))
  | 7%nat => AWrite fence_ok p.2 (8%nat, p.2)
  | 8%nat => AFenceW (9%nat, p.2)
  | 9%nat => AWrite fence_done 1 (10%nat, p.2)
  | 10%nat => AWrite fence_done 0 (11%nat, p.2)
  | _ => AStop
  end.

Abbreviation state := (@system point point).
#[export] Instance state_eq_dec : EqDecision state.
Proof. solve_decision. Defined.

(** ** What the harts can observe *)

Definition begin : state := start (at_ 0) (at_ 0).

(** Hart 0 asserts nothing but [v] at point [n]. *)
Definition asserts (n : nat) (v : Z) (s : state) : bool :=
  if Nat.eqb (s_p0 s).1 n then Z.eqb (s_p0 s).2 v else true.

(** From [s], some run takes hart 0 to point [n] and hart 1 to point [k]. *)
Definition can_finish (next : state -> list state) (n k : nat) (s : state) : bool :=
  existsb (fun s' => Nat.eqb (s_p0 s').1 n && Nat.eqb (s_p1 s').1 k) (explore next 60 [s] [s]).

Lemma can_finish_sound next n k s :
  can_finish next n k s = true ->
  exists s', steps next s s' /\ (s_p0 s').1 = n /\ (s_p1 s').1 = k.
Proof.
  unfold can_finish. rewrite existsb_exists. intros (s' & Hin & [H0 H1]%andb_true_iff).
  exists s'. split; [|split; by apply Nat.eqb_eq]. apply (explore_reaches next 60). by apply list_elem_of_In.
Qed.

Abbreviation p4_1a sc := (succs sc p4_1a_core0 core1_fence_consumer).
Abbreviation p4_1b sc := (succs sc p4_1b_core0 core1_fence_producer).
Abbreviation p4_0 sc := (succs sc p4_0_core0 core1_magic_writer).

(** P4.1A on weakly ordered harts: whatever order the harts' accesses take
    effect in, hart 0 never asserts anything but 1, and from every state that can
    be reached the assertion is still reachable with hart 1 done. *)
Theorem p4_1a_ordered s :
  steps (p4_1a false) begin s ->
  ((s_p0 s).1 = 10%nat -> (s_p0 s).2 = 1) /\
  exists s', steps (p4_1a false) s s' /\ (s_p0 s').1 = 10%nat /\ (s_p1 s').1 = 8%nat.
Proof.
  intros Hs.
  assert (always (p4_1a false) 60 begin (fun s => asserts 10 1 s && can_finish (p4_1a false) 10 8 s) = true)
    as Ha by (vm_compute; reflexivity).
  apply (always_sound _ _ _ _ s Ha) in Hs as [H1 H2]%andb_true_iff. split.
  - intros E. unfold asserts in H1. rewrite E in H1. by apply Z.eqb_eq.
  - by apply can_finish_sound.
Qed.

(** On sequentially consistent harts P4.0 and both directions of P4.1 assert what
    they expect. *)
Theorem p4_messages_sc s :
  (steps (p4_0 true) begin s -> (s_p0 s).1 = 4%nat -> (s_p0 s).2 = CORE1_MAGIC_NUMBER) /\
  (steps (p4_1a true) begin s -> (s_p0 s).1 = 10%nat -> (s_p0 s).2 = 1) /\
  (steps (p4_1b true) begin s -> (s_p0 s).1 = 9%nat -> (s_p0 s).2 = 1).
Proof.
  split_and!; intros Hs E;
    [assert (asserts 4 CORE1_MAGIC_NUMBER s = true) as H by
       (apply (always_sound (p4_0 true) 60 begin); [vm_compute; reflexivity|exact Hs])
    |assert (asserts 10 1 s = true) as H by
       (apply (always_sound (p4_1a true) 60 begin); [vm_compute; reflexivity|exact Hs])
    |assert (asserts 9 1 s = true) as H by
       (apply (always_sound (p4_1b true) 60 begin); [vm_compute; reflexivity|exact Hs])];
    unfold asserts in H; rewrite E in H; by apply Z.eqb_eq.
Qed.

(** On weakly ordered harts P4.0 may read a stale payload (hart 0 has no fence
    between the flag and the payload), and P4.1B may fail as well: nothing orders
    [fence_expected] before the pointer that starts hart 1. *)
Theorem p4_messages_weak :
  (exists s, steps (p4_0 false) begin s /\ s_p0 s = (4%nat, 0)) /\
  (exists s, steps (p4_1b false) begin s /\ s_p0 s = (9%nat, 0)).
Proof.
  split; [destruct (replay false p4_0_core0 core1_magic_writer begin [0; 2; 1; 1; 1; 0; 1; 0]%nat) as [s|] eqn:E
         |destruct (replay false p4_1b_core0 core1_fence_producer begin
                      [0; 0; 2; 1; 1; 1; 1; 0; 1; 0; 0; 0; 0; 0]%nat) as [s|] eqn:E];
    try (vm_compute in E; discriminate E); exists s; (split; [by eapply replay_star|]);
    vm_compute in E; injection E as <-; reflexivity.
Qed.

(** P4.1B may never let hart 1 go, on any memory: hart 0 clears the structure
    right after it has set [fence_done], and if hart 1 has not looked in between
    it waits for ever. *)
Theorem p4_1b_hart1_stuck :
  exists s, steps (p4_1b true) begin s /\ s_p0 s = (11%nat, 1) /\
    forall s', steps (p4_1b true) s s' -> (s_p1 s').1 = 5%nat.
Proof.
  destruct (find (fun s => Nat.eqb (s_p0 s).1 11 && Nat.eqb (s_p1 s).1 5) (explore (p4_1b true) 60 [begin] [begin]))
    as [s|] eqn:E.
  2: { vm_compute in E. discriminate E. }
  apply find_some in E as E'. destruct E' as [Hin _]. exists s. split_and!.
  - apply (explore_reaches _ 60). by apply list_elem_of_In.
  - vm_compute in E. injection E as <-. reflexivity.
  - intros s' Hs'. apply Nat.eqb_eq.
    apply (always_sound (p4_1b true) 60 s (fun s => Nat.eqb (s_p1 s).1 5)); [|exact Hs'].
    vm_compute in E. injection E as <-. vm_compute. reflexivity.
Qed.

(** ** On concrete runs *)

Lemma p4_1a_ordered_witness :
  exists s', steps (p4_1a false) begin s' /\ (s_p0 s').1 = 10%nat /\ (s_p1 s').1 = 8%nat.
Proof. exact (proj2 (p4_1a_ordered begin (star_refl _ begin))). Defined.

(** P4.0 with hart 1 running between hart 0's fence and its wait. *)
Lemma p4_messages_sc_witness :
  exists s, steps (p4_0 true) begin s /\ (s_p0 s).1 = 4%nat /\ (s_p0 s).2 = CORE1_MAGIC_NUMBER.
Proof.
  destruct (replay true p4_0_core0 core1_magic_writer begin [0; 0; 1; 1; 1; 1; 0; 0]%nat) as [s|] eqn:E.
  2: { vm_compute in E. discriminate E. }
  assert ((s_p0 s).1 = 4%nat) as H4 by (vm_compute in E; injection E as <-; reflexivity).
  apply replay_star in E. exists s. split; [exact E|]. split; [exact H4|].
  exact (proj1 (p4_messages_sc s) E H4).
Defined.
