(* ===== verification/DualLoops.v ===== *)
(** * The dual-core test ([tests/p4_dualcore.c]): counters, lock and ping-pong

    P4.2, P4.3 and P4.4 over the memory model of [Weak], for any number of
    rounds.  The totals are invariants of the interleaving, which the
    sequentially consistent machine refines; what the missing fences allow on
    weakly ordered harts is shown by runs. *)

From S2P Require Import Prelude Weak.

Definition ATOMIC_LOOP_COUNT : nat := 100.
Definition SPINLOCK_LOOP_COUNT : nat := 50.
Definition PING_PONG_COUNT : nat := 100.

(** [g_smode_target] and the fields of [p4_state_t]. *)
Definition g_smode_target : nat := 0.
Definition shared_counter : nat := 1.
Definition core1_atomic_done : nat := 2.
Definition lock : nat := 1.
Definition shared_var : nat := 2.
Definition core1_lock_done : nat := 3.
Definition count : nat := 1.
Definition turn : nat := 2.

Definition incr (v : Z) : Z := wrap64 (v + 1).

(** [n] increments from 0, as a [uint64_t]. *)
Definition total (n : nat) : Z := wrap64 (Z.of_nat n).

Lemma total_S n : incr (total n) = total (S n).
Proof.
  unfold incr, total, wrap64. rewrite Zplus_mod_idemp_l. f_equal. lia.
Qed.

(** An interleaving that can always be brought to an end of hart 0 in which its
    assertion gets [r]. *)
Lemma loop_ends {P0 P1} (code0 : P0 -> act P0) (code1 : P1 -> act P1) (I : @plain P0 P1 -> Prop)
    (left : @plain P0 P1 -> nat) p0 p1 (assert : Z -> P0) (end1 : P1) (r : Z) s :
  (forall a a', I a -> plain_step code0 code1 a a' -> I a') -> I (mk_plain (fun _ => 0) p0 p1) ->
  (forall a, I a -> (exists v, v_p0 a = assert v) /\ v_p1 a = end1 \/
     exists a', plain_step code0 code1 a a' /\ (left a' < left a)%nat) ->
  (forall a v, I a -> v_p0 a = assert v -> v = r) ->
  star (step true code0 code1) (start p0 p1) s ->
  exists s', star (step true code0 code1) s s' /\ s_p0 s' = assert r /\ s_p1 s' = end1.
Proof.
  intros Hstep H0 Hlive Hr Hs.
  destruct (sc_live code0 code1 I _ left p0 p1 s Hstep H0 Hlive Hs)
    as (s' & a & Hs' & [_ E0 E1] & Ha & [v Hv] & Hend).
  exists s'. rewrite <- E0, <- E1, <- (Hr a v Ha Hv). auto.
Qed.

(** ** P4.2: atomic increments *)

Section Atomic.
Context (n : nat).

Inductive atomic0 := A0_wake | A0_fence | A0_add (i : nat) | A0_spin | A0_load | A0_assert (v : Z).
Inductive atomic1 := A1_parked | A1_add (i : nat) | A1_stop.

Definition core1_atomic_incrementer (p : atomic1) : act atomic1 :=
  match p with
  | A1_parked => ARead g_smode_target (fun v => if v =? 0 then A1_parked else A1_add 0)
  | A1_add i =>
      if decide (i < n)%nat then AAmo shared_counter incr (fun _ => A1_add (S i))
      else AWrite core1_atomic_done 1 A1_stop
  | A1_stop => AStop
  end.
Definition p4_2_core0 (p : atomic0) : act atomic0 :=
  match p with
  | A0_wake => AWrite g_smode_target 1 A0_fence
  | A0_fence => AFenceW (A0_add 0)
  | A0_add i =>
      if decide (i < n)%nat then AAmo shared_counter incr (fun _ => A0_add (S i))
      else ARead core1_atomic_done (fun v => if v =? 1 then A0_load else A0_spin)
  | A0_spin => ARead core1_atomic_done (fun v => if v =? 1 then A0_load else A0_spin)
  | A0_load => ARead shared_counter (fun v => A0_assert v)
  | A0_assert v => AStop
  end.

(** Increments done. *)
Definition adds0 (p : atomic0) : nat :=
  match p with A0_wake | A0_fence => 0 | A0_add i => i | _ => n end.
Definition adds1 (p : atomic1) : nat :=
  match p with A1_parked => 0 | A1_add i => i | A1_stop => n end.

Record atomic_inv (a : @plain atomic0 atomic1) : Prop := {
  ai_target : v_mem a g_smode_target = match v_p0 a with A0_wake => 0 | _ => 1 end;
  ai_total : v_mem a shared_counter = total (adds0 (v_p0 a) + adds1 (v_p1 a));
  ai_bound0 : (adds0 (v_p0 a) <= n)%nat;
  ai_bound1 : (adds1 (v_p1 a) <= n)%nat;
  ai_done : v_mem a core1_atomic_done = match v_p1 a with A1_stop => 1 | _ => 0 end;
  ai_load : match v_p0 a with A0_load | A0_assert _ => v_p1 a = A1_stop | _ => True end;
  ai_assert : match v_p0 a with A0_assert v => v = total (n + n) | _ => True end
}.

Lemma atomic_inv_step a a' :
  atomic_inv a -> plain_step p4_2_core0 core1_atomic_incrementer a a' -> atomic_inv a'.
Proof using.
  intros [Hg Ht H0 H1 Hd Hl Ha] Hs.
  plain_inv Hs; constructor; cbn in *; split_ifs; rewrite ?store_at_eq, ?store_at_ne by discriminate;
    try done; try lia.
  all: try (replace n with i by lia; done); try (destruct p1; congruence); try (destruct p0; done || congruence).
  - rewrite Ht. apply total_S.
  - rewrite Ht, total_S. f_equal. lia.
Qed.

Lemma atomic_inv_start : atomic_inv (mk_plain (fun _ => 0) A0_wake A1_parked).
Proof using. by constructor; cbn; try lia. Qed.

(** The steps the harts are away from their ends. *)
Definition atomic_left (a : @plain atomic0 atomic1) : nat :=
  match v_p0 a with
  | A0_wake => n + 5 | A0_fence => n + 4 | A0_add i => n - i + 3
  | A0_spin => 2 | A0_load => 1 | A0_assert _ => 0
  end + match v_p1 a with A1_parked => n + 2 | A1_add i => S (n - i) | A1_stop => 0 end.

Lemma atomic_live a :
  atomic_inv a ->
  (exists v, v_p0 a = A0_assert v) /\ v_p1 a = A1_stop \/
  exists a', plain_step p4_2_core0 core1_atomic_incrementer a a' /\ (atomic_left a' < atomic_left a)%nat.
Proof using.
  destruct a as [σ p0 p1]. intros [Hg Ht H0 H1 Hd Hl _]. cbn [v_mem v_p0 v_p1] in *.
  assert (p0 = A0_wake \/ σ g_smode_target = 1) as [->|Hg1] by (destruct p0; auto); [core0_moves|].
  destruct p1 as [|i|]; cbn in *.
  - core1_moves.
  - destruct (decide (i < n)%nat); core1_moves.
  - destruct p0 as [| |i| | |v]; [congruence|core0_moves| |core0_moves|core0_moves|left; eauto].
    destruct (decide (i < n)%nat); core0_moves.
Qed.

(** P4.2: in any interleaving of the two harts' atomic increments, hart 0 reads
    exactly [2 n] after it has seen hart 1's flag, and the counter never passes
    the number of increments done; from every state that end can be reached. *)
Theorem p4_2_total s :
  star (step true p4_2_core0 core1_atomic_incrementer) (start A0_wake A1_parked) s ->
  value (s_mem s) shared_counter = total (adds0 (s_p0 s) + adds1 (s_p1 s)) /\
  (forall v, s_p0 s = A0_assert v -> v = total (n + n)) /\
  exists s', star (step true p4_2_core0 core1_atomic_incrementer) s s' /\
    s_p0 s' = A0_assert (total (n + n)) /\ s_p1 s' = A1_stop.
Proof using.
  intros Hs. destruct (sc_invariant _ _ atomic_inv _ _ _ atomic_inv_step atomic_inv_start Hs)
    as (a & Ha & [Hm H0 H1]).
  rewrite <- Hm, <- H0, <- H1. split_and!; [apply (ai_total _ Ha)| |].
  - intros v E. pose proof (ai_assert _ Ha) as Hv. by rewrite E in Hv.
  - apply (loop_ends _ _ atomic_inv atomic_left _ _ A0_assert _ _ s atomic_inv_step atomic_inv_start).
    + exact atomic_live.
    + intros b v Hb E. pose proof (ai_assert _ Hb) as Hv. by rewrite E in Hv.
    + exact Hs.
Qed.
End Atomic.

(** ** P4.3: the spinlock *)

Section Spinlock.
Context (n : nat).

(** One hart's loop: [spinlock_acquire] (the swap, retried, and its fence), the
    critical section, [spinlock_release] (its fence and the swap). *)
Inductive worker :=
| W_acquire (i : nat) | W_fence (i : nat)
| W_load (i : nat) | W_store (i : nat) (temp : Z)
| W_rel_fence (i : nat) | W_release (i : nat).

Definition spinlock_acquire {P} (i : nat) (inj : worker -> P) : act P :=
  AAmo lock (fun _ => 1) (fun old => inj (if old =? 0 then W_fence i else W_acquire i)).
Definition spinlock_release {P} (i : nat) (inj : worker -> P) : act P :=
  AAmo lock (fun _ => 0) (fun _ => inj (W_acquire (S i))).

Definition worker_act {P} (p : worker) (inj : worker -> P) (after : act P) : act P :=
  match p with
  | W_acquire i => if decide (i < n)%nat then spinlock_acquire i inj else after
  | W_fence i => AFenceR (inj (W_load i))
  | W_load i => ARead shared_var (fun temp => inj (W_store i temp))
  | W_store i temp => AWrite shared_var (incr temp) (inj (W_rel_fence i))
  | W_rel_fence i => AFenceRel (inj (W_release i))
  | W_release i => spinlock_release i inj
  end.

Inductive spin0 := S0_wake | S0_fence | S0_work (p : worker) | S0_spin | S0_load | S0_assert (v : Z).
Inductive spin1 := S1_parked | S1_work (p : worker) | S1_done | S1_stop.

Definition core1_spinlock_worker (p : spin1) : act spin1 :=
  match p with
  | S1_parked => ARead g_smode_target (fun v => if v =? 0 then S1_parked else S1_work (W_acquire 0))
  | S1_work p => worker_act p S1_work (AFenceW S1_done)
  | S1_done => AWrite core1_lock_done 1 S1_stop
  | S1_stop => AStop
  end.
Definition p4_3_core0 (p : spin0) : act spin0 :=
  match p with
  | S0_wake => AWrite g_smode_target 1 S0_fence
  | S0_fence => AFenceW (S0_work (W_acquire 0))
  | S0_work p => worker_act p S0_work (ARead core1_lock_done (fun v => if v =? 1 then S0_load else S0_spin))
  | S0_spin => ARead core1_lock_done (fun v => if v =? 1 then S0_load else S0_spin)
  | S0_load => ARead shared_var (fun v => S0_assert v)
  | S0_assert _ => AStop
  end.

(** In the critical section; sections completed, counting from the store. *)
Definition inside (p : worker) : bool := match p with W_acquire _ => false | _ => true end.
Definition rounds (p : worker) : nat :=
  match p with
  | W_acquire i | W_fence i | W_load i | W_store i _ => i
  | W_rel_fence i | W_release i => S i
  end.
Definition worker_ok (v : Z) (p : worker) : Prop :=
  (rounds p <= n)%nat /\
  match p with
  | W_store i temp => temp = v /\ (i < n)%nat
  | W_fence i | W_load i => (i < n)%nat
  | _ => True
  end.

Definition inside0 (p : spin0) : bool := match p with S0_work p => inside p | _ => false end.
Definition inside1 (p : spin1) : bool := match p with S1_work p => inside p | _ => false end.
Definition rounds0 (p : spin0) : nat :=
  match p with S0_wake | S0_fence => 0 | S0_work p => rounds p | _ => n end.
Definition rounds1 (p : spin1) : nat :=
  match p with S1_parked => 0 | S1_work p => rounds p | _ => n end.

Record spin_inv (a : @plain spin0 spin1) : Prop := {
  si_target : v_mem a g_smode_target = match v_p0 a with S0_wake => 0 | _ => 1 end;
  si_lock : v_mem a lock = if inside0 (v_p0 a) || inside1 (v_p1 a) then 1 else 0;
  si_excl : inside0 (v_p0 a) && inside1 (v_p1 a) = false;
  si_total : v_mem a shared_var = total (rounds0 (v_p0 a) + rounds1 (v_p1 a));
  si_ok0 : match v_p0 a with S0_work p => worker_ok (v_mem a shared_var) p | _ => True end;
  si_ok1 : match v_p1 a with S1_work p => worker_ok (v_mem a shared_var) p | _ => True end;
  si_done : v_mem a core1_lock_done = match v_p1 a with S1_stop => 1 | _ => 0 end;
  si_load : match v_p0 a with S0_load | S0_assert _ => v_p1 a = S1_stop | _ => True end;
  si_assert : match v_p0 a with S0_assert v => v = total (n + n) | _ => True end
}.

Lemma spin_inv_step a a' :
  spin_inv a -> plain_step p4_3_core0 core1_spinlock_worker a a' -> spin_inv a'.
Proof using.
  intros [Hg Hl He Ht H0 H1 Hd Hw Ha] Hs.
  plain_inv Hs; try match goal with p : worker |- _ => destruct p end; cbn in *; split_ifs;
    constructor; cbn in *; split_ifs; rewrite ?store_at_eq, ?store_at_ne by discriminate;
    unfold worker_ok in *; cbn in *; try done; try lia; destr_all; subst; try tauto.
  all: try (replace n with i by lia; done).
  all: try (destruct p1 as [|[]| |]; cbn in *; split_ifs; done || congruence || lia).
  all: try (destruct p0 as [| |[]| | |]; cbn in *; split_ifs; done || congruence || lia).
  - rewrite Ht. apply total_S.
  - rewrite Ht, total_S. f_equal. lia.
Qed.

Lemma spin_inv_start : spin_inv (mk_plain (fun _ => 0) S0_wake S1_parked).
Proof using. by constructor. Qed.

(** The steps the harts are away from their ends, when the lock lets them go on. *)
Definition worker_left (p : worker) : nat :=
  match p with
  | W_acquire i => 6 * (n - i) + 1 | W_fence i => 6 * (n - i) | W_load i => 6 * (n - i) - 1
  | W_store i _ => 6 * (n - i) - 2 | W_rel_fence i => 6 * (n - i) - 3 | W_release i => 6 * (n - i) - 4
  end.
Definition spin_left (a : @plain spin0 spin1) : nat :=
  match v_p0 a with
  | S0_wake => 6 * n + 5 | S0_fence => 6 * n + 4 | S0_work p => worker_left p + 2
  | S0_spin => 2 | S0_load => 1 | S0_assert _ => 0
  end + match v_p1 a with
        | S1_parked => 6 * n + 4 | S1_work p => worker_left p + 2 | S1_done => 1 | S1_stop => 0
        end.

Lemma spin_live a :
  spin_inv a ->
  (exists v, v_p0 a = S0_assert v) /\ v_p1 a = S1_stop \/
  exists a', plain_step p4_3_core0 core1_spinlock_worker a a' /\ (spin_left a' < spin_left a)%nat.
Proof using.
  destruct a as [σ p0 p1]. intros [Hg Hl He Ht H0 H1 Hd Hw _]. cbn [v_mem v_p0 v_p1] in *.
  assert (p0 = S0_wake \/ σ g_smode_target = 1) as [->|Hg1] by (destruct p0; auto); [core0_moves|].
  destruct (inside1 p1) eqn:E1.
  { destruct p1 as [|[]| |]; try done; destruct H1; cbn in *; destr_all; core1_moves. }
  destruct (inside0 p0) eqn:E0.
  { destruct p0 as [| |[]| | |]; try done; destruct H0; cbn in *; destr_all; core0_moves. }
  cbn in Hl. destruct p1 as [|[i| | | | |]| |]; try done.
  - core1_moves.
  - destruct (decide (i < n)%nat); core1_moves.
  - core1_moves.
  - destruct p0 as [| |[i| | | | |]| | |v]; try done; cbn in Hg, Hd;
      [congruence|core0_moves| |core0_moves|core0_moves|left; eauto].
    destruct (decide (i < n)%nat); core0_moves.
Qed.

(** C7: P4.3: the two harts are never both inside the critical section, [shared_var]
    is the number of completed sections, and hart 0 reads exactly [2 n]; the lock
    never keeps that end from being reached. *)
Theorem p4_3_exclusion s :
  star (step true p4_3_core0 core1_spinlock_worker) (start S0_wake S1_parked) s ->
  inside0 (s_p0 s) && inside1 (s_p1 s) = false /\
  value (s_mem s) shared_var = total (rounds0 (s_p0 s) + rounds1 (s_p1 s)) /\
  (forall v, s_p0 s = S0_assert v -> v = total (n + n)) /\
  exists s', star (step true p4_3_core0 core1_spinlock_worker) s s' /\
    s_p0 s' = S0_assert (total (n + n)) /\ s_p1 s' = S1_stop.
Proof using.
  intros Hs. destruct (sc_invariant _ _ spin_inv _ _ _ spin_inv_step spin_inv_start Hs)
    as (a & Ha & [Hm H0 H1]).
  rewrite <- Hm, <- H0, <- H1. split_and!; [apply (si_excl _ Ha)|apply (si_total _ Ha)| |].
  - intros v E. pose proof (si_assert _ Ha) as Hv. by rewrite E in Hv.
  - apply (loop_ends _ _ spin_inv spin_left _ _ S0_assert _ _ s spin_inv_step spin_inv_start).
    + exact spin_live.
    + intros b v Hb E. pose proof (si_assert _ Hb) as Hv. by rewrite E in Hv.
    + exact Hs.
Qed.
End Spinlock.

(** ** P4.4: ping-pong *)

Section PingPong.
Context (n : nat).

(** One hart's loop: wait for its turn, fence, [count += 1], fence, pass the turn. *)
Inductive player :=
| T_wait (i : nat) | T_fence (i : nat) | T_load (i : nat) | T_store (i : nat) (c : Z)
| T_rel (i : nat) | T_pass (i : nat).

Definition player_act {P} (me other : Z) (p : player) (inj : player -> P) (after : act P) : act P :=
  match p with
  | T_wait i =>
      if decide (i < n)%nat
      then ARead turn (fun v => inj (if v =? me then T_fence i else T_wait i))
      else after
  | T_fence i => AFenceR (inj (T_load i))
  | T_load i => ARead count (fun c => inj (T_store i c))
  | T_store i c => AWrite count (incr c) (inj (T_rel i))
  | T_rel i => AFenceRel (inj (T_pass i))
  | T_pass i => AWrite turn other (inj (T_wait (S i)))
  end.

Inductive pong0 := G0_wake | G0_fence | G0_play (p : player) | G0_last_fence | G0_read | G0_assert (v : Z).
Inductive pong1 := G1_parked | G1_play (p : player).

Definition ping (p : pong1) : act pong1 :=
  match p with
  | G1_parked => ARead g_smode_target (fun v => if v =? 0 then G1_parked else G1_play (T_wait 0))
  | G1_play p => player_act 1 0 p G1_play AStop
  end.
Definition p4_4_core0 (p : pong0) : act pong0 :=
  match p with
  | G0_wake => AWrite g_smode_target 1 G0_fence
  | G0_fence => AFenceW (G0_play (T_wait 0))
  | G0_play p =>
      player_act 0 1 p G0_play
        (ARead turn (fun v => if v =? 0 then G0_last_fence else G0_play p))
  | G0_last_fence => AFenceR G0_read
  | G0_read => ARead count (fun v => G0_assert v)
  | G0_assert _ => AStop
  end.

(** Turns passed, increments done, and whether the hart acts on its turn. *)
Definition passed (p : player) : nat :=
  match p with T_wait i | T_fence i | T_load i | T_store i _ | T_rel i | T_pass i => i end.
Definition counted (p : player) : nat :=
  match p with T_rel i | T_pass i => S i | _ => passed p end.
Definition acting (p : player) : bool := match p with T_wait _ => false | _ => true end.
Definition passed0 (p : pong0) : nat :=
  match p with G0_wake | G0_fence => 0 | G0_play p => passed p | _ => n end.
Definition counted0 (p : pong0) : nat :=
  match p with G0_wake | G0_fence => 0 | G0_play p => counted p | _ => n end.
Definition passed1 (p : pong1) : nat := match p with G1_parked => 0 | G1_play p => passed p end.
Definition counted1 (p : pong1) : nat := match p with G1_parked => 0 | G1_play p => counted p end.

Definition player_ok (v : Z) (p : player) : Prop :=
  (passed p <= n)%nat /\ (acting p = true -> (passed p < n)%nat) /\
  match p with T_store _ c => c = v | _ => True end.

Record pong_inv (a : @plain pong0 pong1) : Prop := {
  pi_target : v_mem a g_smode_target = match v_p0 a with G0_wake => 0 | _ => 1 end;
  pi_turn : v_mem a turn = if decide (passed0 (v_p0 a) = passed1 (v_p1 a)) then 0 else 1;
  pi_alternate : passed0 (v_p0 a) = passed1 (v_p1 a) \/ passed0 (v_p0 a) = S (passed1 (v_p1 a));
  pi_act0 : match v_p0 a with
            | G0_play p => acting p = true -> passed p = passed1 (v_p1 a)
            | G0_last_fence | G0_read | G0_assert _ => passed1 (v_p1 a) = n
            | _ => True
            end;
  pi_act1 : match v_p1 a with
            | G1_play p => acting p = true -> passed0 (v_p0 a) = S (passed p)
            | _ => True
            end;
  pi_count : v_mem a count = total (counted0 (v_p0 a) + counted1 (v_p1 a));
  pi_ok0 : match v_p0 a with G0_play p => player_ok (v_mem a count) p | _ => True end;
  pi_ok1 : match v_p1 a with G1_play p => player_ok (v_mem a count) p | _ => True end;
  pi_assert : match v_p0 a with G0_assert v => v = total (n + n) | _ => True end
}.

Lemma pong_inv_step a a' : pong_inv a -> plain_step p4_4_core0 ping a a' -> pong_inv a'.
Proof using.
  intros [Hg Ht Hal H0 H1 Hc Ho0 Ho1 Ha] Hs.
  plain_inv Hs; try match goal with p : player |- _ => destruct p end; cbn in *; split_ifs;
    constructor; cbn in *; split_ifs; rewrite ?store_at_eq, ?store_at_ne by discriminate;
    unfold player_ok in *; cbn in *; try done; try lia; destr_all; subst; try tauto.
  all: try (destruct p1 as [|[]]; cbn in *; intuition (congruence || lia || (f_equal; lia))).
  all: try (destruct p0 as [| |[]| | |]; cbn in *; intuition (congruence || lia || (f_equal; lia))).
  - rewrite Hc. f_equal. lia.
  - rewrite Hc. apply total_S.
  - rewrite Hc, total_S. f_equal. lia.
Qed.

Lemma pong_inv_start : pong_inv (mk_plain (fun _ => 0) G0_wake G1_parked).
Proof using. by constructor; cbn; auto; lia. Qed.

(** The steps the harts are away from their ends, each moving on its turn. *)
Definition player_left (p : player) : nat :=
  match p with
  | T_wait i => 6 * (n - i) + 1 | T_fence i => 6 * (n - i) | T_load i => 6 * (n - i) - 1
  | T_store i _ => 6 * (n - i) - 2 | T_rel i => 6 * (n - i) - 3 | T_pass i => 6 * (n - i) - 4
  end.
Definition pong_left (a : @plain pong0 pong1) : nat :=
  match v_p0 a with
  | G0_wake => 6 * n + 7 | G0_fence => 6 * n + 6 | G0_play p => player_left p + 3
  | G0_last_fence => 2 | G0_read => 1 | G0_assert _ => 0
  end + match v_p1 a with G1_parked => 6 * n + 2 | G1_play p => player_left p end.

Lemma pong_live a :
  pong_inv a ->
  (exists v, v_p0 a = G0_assert v) /\ v_p1 a = G1_play (T_wait n) \/
  exists a', plain_step p4_4_core0 ping a a' /\ (pong_left a' < pong_left a)%nat.
Proof using.
  destruct a as [σ p0 p1]. intros [Hg Ht Hal H0 H1 _ Ho0 Ho1 _]. cbn [v_mem v_p0 v_p1] in *.
  assert (p0 = G0_wake \/ σ g_smode_target = 1) as [->|Hg1] by (destruct p0; auto); [core0_moves|].
  destruct p1 as [|p1]; [core1_moves|].
  destruct (acting p1) eqn:E1.
  { destruct Ho1 as (_ & Hlt & _). specialize (Hlt E1). destruct p1; try done; cbn in Hlt; core1_moves. }
  destruct p1 as [j| | | | |]; try done. cbn in Ht, Hal. clear H1 E1.
  destruct p0 as [| |p0| | |v]; [congruence|core0_moves| |core0_moves|core0_moves|].
  2: { left. cbn in H0. subst j. eauto. }
  destruct (acting p0) eqn:E0.
  { destruct Ho0 as (_ & Hlt & _). specialize (Hlt E0). destruct p0; try done; cbn in Hlt; core0_moves. }
  destruct p0 as [i| | | | |]; try done. destruct Ho0 as (Hi & _). destruct Ho1 as (Hj & _).
  cbn in Hi, Hj, Hal, Ht. destruct (decide (i = j)) as [->|Hne].
  - destruct (decide (j < n)%nat); core0_moves.
  - core1_moves.
Qed.

(** C31: P4.4: the harts strictly alternate, [count] is the number of increments
    done, and hart 0 reads exactly [2 n] at the end, which can be reached from
    every state. *)
Theorem p4_4_alternates s :
  star (step true p4_4_core0 ping) (start G0_wake G1_parked) s ->
  (passed0 (s_p0 s) = passed1 (s_p1 s) \/ passed0 (s_p0 s) = S (passed1 (s_p1 s))) /\
  value (s_mem s) count = total (counted0 (s_p0 s) + counted1 (s_p1 s)) /\
  (forall v, s_p0 s = G0_assert v -> v = total (n + n)) /\
  exists s', star (step true p4_4_core0 ping) s s' /\
    s_p0 s' = G0_assert (total (n + n)) /\ s_p1 s' = G1_play (T_wait n).
Proof using.
  intros Hs. destruct (sc_invariant _ _ pong_inv _ _ _ pong_inv_step pong_inv_start Hs)
    as (a & Ha & [Hm H0 H1]).
  rewrite <- Hm, <- H0, <- H1. split_and!; [apply (pi_alternate _ Ha)|apply (pi_count _ Ha)| |].
  - intros v E. pose proof (pi_assert _ Ha) as Hv. by rewrite E in Hv.
  - apply (loop_ends _ _ pong_inv pong_left _ _ G0_assert _ _ s pong_inv_step pong_inv_start).
    + exact pong_live.
    + intros b v Hb E. pose proof (pi_assert _ Hb) as Hv. by rewrite E in Hv.
    + exact Hs.
Qed.
End PingPong.

(** ** Weakly ordered harts *)

(** Hart 0's loop, then hart 1's, then hart 0 sees the flag but not the loop. *)
Definition p4_2_schedule : list nat :=
  ([0; 0] ++ replicate 100 0 ++ [2] ++ replicate 100 1 ++ [1; 1; 0])%nat.
Definition p4_3_schedule : list nat :=
  ([0; 0] ++ replicate 300 0 ++ [2] ++ replicate 300 1 ++ [1; 1; 1; 0])%nat.

Lemma replay_reaches {P0 P1} (code0 : P0 -> act P0) (code1 : P1 -> act P1) p0 p1 l (q : P0) :
  (s_p0 <$> replay false code0 code1 (start p0 p1) l) = Some q ->
  exists s, star (step false code0 code1) (start p0 p1) s /\ s_p0 s = q.
Proof.
  destruct (replay false code0 code1 (start p0 p1) l) as [s|] eqn:E; [|done].
  intros [= <-]. exists s. split; [by eapply replay_star|done].
Qed.

(** Neither P4.2 nor P4.3 orders hart 0's final load after the flag it waited for:
    on weakly ordered harts the totals may be read before hart 1's part, and the
    assertions fail although every increment was done. *)
Theorem p4_totals_weak :
  (exists s, star (step false (p4_2_core0 ATOMIC_LOOP_COUNT) (core1_atomic_incrementer ATOMIC_LOOP_COUNT))
      (start A0_wake A1_parked) s /\ s_p0 s = A0_assert 100) /\
  (exists s, star (step false (p4_3_core0 SPINLOCK_LOOP_COUNT) (core1_spinlock_worker SPINLOCK_LOOP_COUNT))
      (start S0_wake S1_parked) s /\ s_p0 s = S0_assert 50).
Proof.
  split; [apply (replay_reaches _ _ _ _ p4_2_schedule)|apply (replay_reaches _ _ _ _ p4_3_schedule)];
    vm_compute; reflexivity.
Qed.

(** ** One round of each on a concrete schedule *)

Lemma replay_sc {P0 P1} (code0 : P0 -> act P0) (code1 : P1 -> act P1) p0 p1 l (q : P0) :
  (s_p0 <$> replay true code0 code1 (start p0 p1) l) = Some q ->
  exists s, star (step true code0 code1) (start p0 p1) s /\ s_p0 s = q.
Proof.
  destruct (replay true code0 code1 (start p0 p1) l) as [s|] eqn:E; [|done].
  intros [= <-]. exists s. split; [by eapply replay_star|done].
Qed.

Lemma p4_2_total_witness :
  exists s v, star (step true (p4_2_core0 1) (core1_atomic_incrementer 1)) (start A0_wake A1_parked) s /\
    s_p0 s = A0_assert v /\ v = 2.
Proof.
  destruct (replay_sc (p4_2_core0 1) (core1_atomic_incrementer 1) A0_wake A1_parked
    [0; 0; 0; 1; 1; 1; 0; 0]%nat (A0_assert 2) eq_refl) as (s & Hs & E).
  destruct (p4_2_total 1 s Hs) as (_ & Hv & _).
  exists s, 2. split; [exact Hs|]. split; [exact E|]. rewrite (Hv 2 E). reflexivity.
Defined.

Lemma p4_3_exclusion_witness :
  exists s v, star (step true (p4_3_core0 1) (core1_spinlock_worker 1)) (start S0_wake S1_parked) s /\
    s_p0 s = S0_assert v /\ v = 2 /\ inside0 (s_p0 s) && inside1 (s_p1 s) = false.
Proof.
  destruct (replay_sc (p4_3_core0 1) (core1_spinlock_worker 1) S0_wake S1_parked
    (replicate 8 0 ++ replicate 9 1 ++ [0; 0])%nat (S0_assert 2) eq_refl) as (s & Hs & E).
  destruct (p4_3_exclusion 1 s Hs) as (Hx & _ & Hv & _).
  exists s, 2. split; [exact Hs|]. split; [exact E|]. split; [rewrite (Hv 2 E); reflexivity|exact Hx].
Defined.

Lemma p4_4_alternates_witness :
  exists s v, star (step true (p4_4_core0 1) (ping 1)) (start G0_wake G1_parked) s /\
    s_p0 s = G0_assert v /\ v = 2.
Proof.
  destruct (replay_sc (p4_4_core0 1) (ping 1) G0_wake G1_parked
    (replicate 8 0 ++ replicate 7 1 ++ [0; 0; 0])%nat (G0_assert 2) eq_refl) as (s & Hs & E).
  destruct (p4_4_alternates 1 s Hs) as (_ & _ & Hv & _).
  exists s, 2. split; [exact Hs|]. split; [exact E|]. rewrite (Hv 2 E). reflexivity.
Defined.
