(* ===== verification/WeakLoops.v ===== *)
(** * The spinlock and the ping-pong on weakly ordered harts

    P4.3 and P4.4 of [tests/p4_dualcore.c] in every run of the memory model of
    [Weak], loads being free to read any message a hart's view admits.  The
    invariants say which views cover the newest message of the shared counter: that
    of the lock's last release, of a hart's pending acquisitions, of a hart inside
    its critical section. *)

From S2P Require Import Prelude Weak DualLoops.

(** ** Messages and views *)

Lemma msg_newest mem t m l : msg_at mem t = Some m -> m_loc m = l -> (t <= newest mem l)%nat.
Proof.
  revert t. induction mem as [|m' mem IH] using rev_ind; intros [|t]; cbn [msg_at]; rewrite ?lookup_nil;
    intros Hm Hl; try done.
  - rewrite newest_app. destruct (Nat.lt_trichotomy t (length mem)) as [Ht|[->|Ht]].
    + rewrite lookup_app_l in Hm by done. specialize (IH (S t) Hm Hl). destruct (decide _); lia.
    + rewrite list_lookup_middle in Hm by done. injection Hm as ->. rewrite decide_True by done. lia.
    + rewrite lookup_ge_None_2 in Hm; [done|]. rewrite length_app. cbn. lia.
Qed.

Lemma readable_bounds sc mem h l t :
  readable sc mem h l t = true -> (vget (h_cur h) l <= t <= newest mem l)%nat.
Proof.
  unfold readable. intros [[Hle _]%andb_true_iff Hm]%andb_true_iff. apply Nat.leb_le in Hle.
  split; [done|]. destruct t as [|t]; [lia|]. destruct (msg_at mem (S t)) as [m|] eqn:E; [|done].
  apply bool_decide_eq_true in Hm. by eapply msg_newest.
Qed.

(** A hart whose view covers the newest message reads it. *)
Lemma readable_newest sc mem h l t :
  readable sc mem h l t = true -> (newest mem l <= vget (h_cur h) l)%nat -> t = newest mem l.
Proof. intros Hr%readable_bounds. lia. Qed.

(** The view the newest message of a location carries. *)
Definition newest_view (mem : history) (l : nat) : view := view_at mem (newest mem l).

Lemma newest_view_app mem m l :
  newest_view (mem ++ [m]) l = if decide (m_loc m = l) then m_view m else newest_view mem l.
Proof.
  unfold newest_view. rewrite newest_app. destruct (decide (m_loc m = l)).
  - unfold view_at, msg_at. by rewrite list_lookup_middle.
  - unfold view_at, msg_at. pose proof (newest_le mem l).
    destruct (newest mem l) as [|t]; [done|]. by rewrite lookup_app_l by lia.
Qed.

(** What one action does, as equations and inequalities on views. *)
Lemma exec_inv {P} sc mem h (a : act P) mem' h' p' :
  (mem', h', p') ∈ exec sc mem h a ->
  match a with
  | ARead l k => exists t, readable sc mem h l t = true /\ mem' = mem /\
      h' = after_read mem h l t /\ p' = k (val_at mem t)
  | AWrite l v p => (mem', h') = stored mem h l v [] /\ p' = p
  | AAmo l f k => (mem', h') = stored mem (after_read mem h l (newest mem l)) l (f (value mem l)) (newest_view mem l)
      /\ p' = k (value mem l)
  | AFenceR p => mem' = mem /\ h' = mk_hart (vjoin (h_cur h) (h_acq h)) (h_acq h) (h_own h) (h_rel h) /\ p' = p
  | AFenceW p => mem' = mem /\ h' = mk_hart (h_cur h) (h_acq h) (h_own h) (vjoin (h_rel h) (h_own h)) /\ p' = p
  | AFenceRel p => mem' = mem /\ p' = p /\
      h' = mk_hart (h_cur h) (h_acq h) (h_own h) (vjoin (h_rel h) (vjoin (h_own h) (vjoin (h_cur h) (h_acq h))))
  | AStop => False
  end.
Proof.
  intros He. destruct a; cbn [exec] in He.
  - apply list_elem_of_fmap in He as (t & [= -> -> ->] & [Ht _]%list_elem_of_filter). eauto.
  - apply list_elem_of_singleton in He as [= -> -> ->]. by split.
  - apply list_elem_of_singleton in He as [= -> -> ->]. by split.
  - by apply list_elem_of_singleton in He as [= -> -> ->].
  - by apply list_elem_of_singleton in He as [= -> -> ->].
  - by apply list_elem_of_singleton in He as [= -> -> ->].
  - by apply not_elem_of_nil in He.
Qed.

(** ** P4.3 *)

#[local] Arguments vget : simpl never.
#[local] Arguments vat : simpl never.
#[local] Arguments value : simpl never.
#[local] Arguments newest : simpl never.
#[local] Arguments newest_view : simpl never.

Ltac locs :=
  repeat match goal with
         | H : context [decide (?a = ?b)] |- _ => destruct (decide (a = b)); try discriminate; try congruence
         | |- context [decide (?a = ?b)] => destruct (decide (a = b)); try discriminate; try congruence
         end.
(** What an added message changes. *)
Ltac added := rewrite ?value_app, ?newest_app, ?newest_view_app; cbn [m_loc m_val m_view];
  repeat match goal with |- context [view_at ?m (newest ?m ?l)] => change (view_at m (newest m l)) with (newest_view m l) end;
  rewrite ?vget_vjoin, ?vget_vat, ?vget_nil.

Ltac close :=
  repeat match goal with |- _ /\ _ => split end; intros; destr_all; subst;
  repeat match goal with H : ?x = ?x -> _ |- _ => specialize (H eq_refl) end;
  try done; try lia; try congruence; eauto; try (rewrite ?vget_vjoin; lia);
  try (left; split; (done || lia)); try (right; split; (done || lia)).

Section Spinlock.
Context (n : nat) (sc : bool).

Abbreviation covered mem v := (newest mem shared_var <= vget v shared_var)%nat.

(** What a hart's views cover as it goes through its critical section. *)
Definition covers_counter (mem : history) (h : hart) (p : worker) : Prop :=
  match p with
  | W_acquire _ => True
  | W_fence _ => covered mem (h_acq h)
  | W_load _ | W_store _ _ | W_rel_fence _ => covered mem (h_cur h)
  | W_release _ => covered mem (h_rel h)
  end.
Definition worker_weak_ok (mem : history) (h : hart) (p : worker) : Prop :=
  worker_ok n (value mem shared_var) p /\ covers_counter mem h p.

Record spin_weak (s : @system spin0 spin1) : Prop := {
  sw_lock : value (s_mem s) lock = if inside0 (s_p0 s) || inside1 (s_p1 s) then 1 else 0;
  sw_excl : inside0 (s_p0 s) && inside1 (s_p1 s) = false;
  sw_total : value (s_mem s) shared_var = total (rounds0 n (s_p0 s) + rounds1 n (s_p1 s));
  sw_ok0 : match s_p0 s with S0_work p => worker_weak_ok (s_mem s) (s_h0 s) p | _ => True end;
  sw_ok1 : match s_p1 s with S1_work p => worker_weak_ok (s_mem s) (s_h1 s) p | _ => True end;
  sw_free : inside0 (s_p0 s) || inside1 (s_p1 s) = false -> covered (s_mem s) (newest_view (s_mem s) lock)
}.

(** A step of a hart in its loop, the other hart being inside or not. *)
Definition worker_steps (mem : history) (h : hart) (p : worker) (mem' : history) (h' : hart) (q : worker)
    (other : bool) : Prop :=
  worker_weak_ok mem' h' q /\ (inside p && other = false -> inside q && other = false) /\
  value mem' lock = (if inside q || other then 1 else 0) /\
  (inside q || other = false -> covered mem' (newest_view mem' lock)) /\
  (other = true -> newest mem' shared_var = newest mem shared_var /\ value mem' shared_var = value mem shared_var) /\
  (rounds q = rounds p /\ value mem' shared_var = value mem shared_var \/
   rounds q = S (rounds p) /\ value mem' shared_var = incr (value mem shared_var)).

(** The worker has not ended its loop. *)
Definition in_loop (p : worker) : bool :=
  match p with W_acquire i => bool_decide (i < n)%nat | _ => true end.

Lemma in_loop_end mem h p : worker_weak_ok mem h p -> in_loop p = false -> p = W_acquire n.
Proof using.
  destruct p as [i| | | | |]; try done. intros [[Hi _] _] He%bool_decide_eq_false. cbn in Hi. f_equal. lia.
Qed.

Lemma worker_step_weak {P} (inj : worker -> P) after mem h p mem' h' q other :
  (mem', h', q) ∈ exec sc mem h (worker_act n p inj after) ->
  in_loop p = true ->
  worker_weak_ok mem h p -> inside p && other = false ->
  value mem lock = (if inside p || other then 1 else 0) ->
  (inside p || other = false -> covered mem (newest_view mem lock)) ->
  exists q', q = inj q' /\ worker_steps mem h p mem' h' q' other.
Proof using.
  intros He Hi [Hok Hcov] Hex Hl Hf. unfold worker_steps, worker_weak_ok, worker_ok in *.
  destruct p as [i|i|i|i temp|i|i]; cbn [worker_act inside] in *.
  - apply bool_decide_eq_true in Hi. rewrite decide_True in He by done. apply exec_inv in He as ([= -> ->] & ->). rewrite Hl.
    destruct other; eexists; (split; [reflexivity|]); cbn in *; added; locs; close.
  - apply exec_inv in He as (-> & -> & ->). eexists. split; [reflexivity|].
    cbn in *. rewrite vget_vjoin. close.
  - apply exec_inv in He as (t & Ht & -> & -> & ->).
    rewrite (readable_newest _ _ _ _ _ Ht Hcov). eexists. split; [reflexivity|].
    cbn in *. rewrite vget_vjoin, vget_vat. locs. close.
  - apply exec_inv in He as ([= -> ->] & ->). eexists. split; [reflexivity|].
    cbn in *. added; locs. destruct other; close.
  - apply exec_inv in He as (-> & -> & ->). eexists. split; [reflexivity|].
    cbn in *. rewrite !vget_vjoin. close.
  - apply exec_inv in He as ([= -> ->] & ->). eexists. split; [reflexivity|].
    cbn in *. added; locs. destruct other; close.
Qed.

(** The hart that does not move keeps what it covers. *)
Lemma other_ok mem mem' h p :
  worker_weak_ok mem h p ->
  (inside p = true -> newest mem' shared_var = newest mem shared_var /\
     value mem' shared_var = value mem shared_var) ->
  worker_weak_ok mem' h p.
Proof using.
  intros [Hok Hc] Hsame. unfold worker_weak_ok, worker_ok in *.
  destruct p; cbn in *; try done; destruct (Hsame eq_refl) as [E1 E2]; by rewrite ?E1, ?E2.
Qed.

(** A hart outside its loop's steps: same counter, same lock. *)
Definition quiet (mem mem' : history) : Prop :=
  value mem' lock = value mem lock /\ value mem' shared_var = value mem shared_var /\
  newest mem' shared_var = newest mem shared_var /\ newest_view mem' lock = newest_view mem lock.

Lemma quiet_refl mem : quiet mem mem.
Proof using. done. Qed.
Lemma quiet_app mem l v w : l <> lock -> l <> shared_var -> quiet mem (mem ++ [mk_msg l v w]).
Proof using.
  intros ??. unfold quiet. rewrite !value_app, newest_app, newest_view_app. cbn [m_loc].
  by rewrite !decide_False.
Qed.

Lemma quiet_spin mem mem' h0 h0' p0 p0' h1 h1' p1 p1' :
  spin_weak (mk_system mem h0 p0 h1 p1) -> quiet mem mem' ->
  inside0 p0' = inside0 p0 -> inside1 p1' = inside1 p1 ->
  rounds0 n p0' = rounds0 n p0 -> rounds1 n p1' = rounds1 n p1 ->
  match p0' with
  | S0_work p => worker_weak_ok mem h0' p
  | _ => True
  end ->
  match p1' with
  | S1_work p => worker_weak_ok mem h1' p
  | _ => True
  end ->
  spin_weak (mk_system mem' h0' p0' h1' p1').
Proof using.
  intros [Hl He Ht _ _ Hf] (Ql & Qv & Qn & Qw) E0 E1 R0 R1 H0 H1. cbn [s_mem s_h0 s_p0 s_h1 s_p1] in *.
  split; cbn [s_mem s_h0 s_p0 s_h1 s_p1]; rewrite ?E0, ?E1, ?R0, ?R1, ?Ql, ?Qv, ?Qn, ?Qw; try done.
  - destruct p0'; try done. by eapply other_ok.
  - destruct p1'; try done. by eapply other_ok.
Qed.

Lemma acquire_ok mem h i : (i <= n)%nat -> worker_weak_ok mem h (W_acquire i).
Proof using. by split. Qed.

Lemma hart0_weak mem h0 p0 h1 p1 mem' h' p' :
  spin_weak (mk_system mem h0 p0 h1 p1) -> (mem', h', p') ∈ exec sc mem h0 (p4_3_core0 n p0) ->
  spin_weak (mk_system mem' h' p' h1 p1).
Proof using.
  intros Hinv Hx. pose proof Hinv as [Hl He Ht H0 H1 Hf]. cbn [s_mem s_h0 s_p0 s_h1 s_p1] in *.
  destruct p0 as [| |w| | |v]; cbn [p4_3_core0] in Hx.
  - apply exec_inv in Hx as ([= -> ->] & ->). by eapply quiet_spin; [exact Hinv|apply quiet_app|..].
  - apply exec_inv in Hx as (-> & -> & ->).
    eapply quiet_spin; [exact Hinv|apply quiet_refl|done..|apply acquire_ok; lia|done].
  - destruct (in_loop w) eqn:Hw.
    + cbn [p4_3_core0 inside0] in *.
      destruct (worker_step_weak S0_work _ mem h0 w mem' h' p' (inside1 p1) Hx Hw H0 He Hl Hf)
        as (q & -> & Hok & Hex & Hl' & Hf' & Hsame & Hr).
      split; cbn [s_mem s_h0 s_p0 s_h1 s_p1 inside0 rounds0]; try done; [apply Hex, He| |].
      * cbn in Ht. destruct Hr as [[-> ->]|[-> ->]]; [done|]. by rewrite Ht, total_S.
      * destruct p1; try done. eapply other_ok; [exact H1|exact Hsame].
    + rewrite (in_loop_end _ _ _ H0 Hw) in *.
      cbn [worker_act] in Hx. rewrite decide_False in Hx by lia.
      apply exec_inv in Hx as (t & _ & -> & -> & ->).
      eapply quiet_spin; [exact Hinv|apply quiet_refl|..]; destruct (val_at mem t =? 1); done.
  - apply exec_inv in Hx as (t & _ & -> & -> & ->).
    eapply quiet_spin; [exact Hinv|apply quiet_refl|..]; destruct (val_at mem t =? 1); done.
  - apply exec_inv in Hx as (t & _ & -> & -> & ->). by eapply quiet_spin; [exact Hinv|apply quiet_refl|..].
  - by apply exec_inv in Hx.
Qed.

Lemma hart1_weak mem h0 p0 h1 p1 mem' h' p' :
  spin_weak (mk_system mem h0 p0 h1 p1) -> (mem', h', p') ∈ exec sc mem h1 (core1_spinlock_worker n p1) ->
  spin_weak (mk_system mem' h0 p0 h' p').
Proof using.
  intros Hinv Hx. pose proof Hinv as [Hl He Ht H0 H1 Hf]. cbn [s_mem s_h0 s_p0 s_h1 s_p1] in *.
  destruct p1 as [|w| |]; cbn [core1_spinlock_worker] in Hx.
  - apply exec_inv in Hx as (t & _ & -> & -> & ->).
    eapply quiet_spin; [exact Hinv|apply quiet_refl|..]; destruct (val_at mem t =? 0); try done. apply acquire_ok; lia.
  - destruct (in_loop w) eqn:Hw.
    + cbn [core1_spinlock_worker inside1] in *. rewrite orb_comm in Hl, Hf. rewrite andb_comm in He.
      destruct (worker_step_weak S1_work _ mem h1 w mem' h' p' (inside0 p0) Hx Hw H1 He Hl Hf)
        as (q & -> & Hok & Hex & Hl' & Hf' & Hsame & Hr).
      split; cbn [s_mem s_h0 s_p0 s_h1 s_p1 inside1 rounds1]; rewrite 1?orb_comm, 1?andb_comm; try done;
        [apply Hex, He| |].
      * cbn in Ht. destruct Hr as [[-> ->]|[-> ->]]; [done|]. rewrite Ht, total_S. f_equal. lia.
      * destruct p0; try done. eapply other_ok; [exact H0|exact Hsame].
    + rewrite (in_loop_end _ _ _ H1 Hw) in *.
      cbn [worker_act] in Hx. rewrite decide_False in Hx by lia.
      apply exec_inv in Hx as (-> & -> & ->).
      by eapply quiet_spin; [exact Hinv|apply quiet_refl|..].
  - apply exec_inv in Hx as ([= -> ->] & ->). by eapply quiet_spin; [exact Hinv|apply quiet_app|..].
  - by apply exec_inv in Hx.
Qed.

Lemma spin_weak_step s s' :
  spin_weak s -> step sc (p4_3_core0 n) (core1_spinlock_worker n) s s' -> spin_weak s'.
Proof using.
  intros Hinv Hs. unfold step, succs in Hs. destruct s as [mem h0 p0 h1 p1].
  apply elem_of_app in Hs as [Hs|Hs]; apply list_elem_of_fmap in Hs as ([[mem' h'] p'] & -> & Hx);
    [by eapply hart0_weak|by eapply hart1_weak].
Qed.

Lemma spin_weak_start : spin_weak (start S0_wake S1_parked).
Proof using. by split. Qed.

(** C8: P4.3 on weakly ordered harts: in every run the harts are never both inside the
    critical section, and the newest value of [shared_var] is the number of
    completed sections: the fences of the lock make every increment see the one
    before it. *)
Theorem p4_3_weak_exclusion s :
  star (step sc (p4_3_core0 n) (core1_spinlock_worker n)) (start S0_wake S1_parked) s ->
  inside0 (s_p0 s) && inside1 (s_p1 s) = false /\
  value (s_mem s) shared_var = total (rounds0 n (s_p0 s) + rounds1 n (s_p1 s)) /\
  forall i temp, s_p0 s = S0_work (W_store i temp) \/ s_p1 s = S1_work (W_store i temp) ->
    temp = total (rounds0 n (s_p0 s) + rounds1 n (s_p1 s)).
Proof using.
  intros Hs. assert (spin_weak s) as [Hl He Ht H0 H1 Hf]
    by apply (star_invariant _ spin_weak _ _ spin_weak_step Hs), spin_weak_start.
  split_and!; [done..|]. intros i temp. rewrite <- Ht.
  intros [E|E]; [rewrite E in H0; destruct H0 as [(_ & -> & _) _]|rewrite E in H1; destruct H1 as [(_ & -> & _) _]]; done.
Qed.
End Spinlock.

(** ** P4.4 *)

(** Timestamp [t] is one of location [l]. *)
Definition stamp_of (mem : history) (l t : nat) : Prop :=
  t = 0%nat \/ exists m, msg_at mem t = Some m /\ m_loc m = l.

Lemma readable_stamp sc mem h l t : readable sc mem h l t = true -> stamp_of mem l t.
Proof.
  unfold readable, stamp_of. intros [_ Hm]%andb_true_iff. destruct t as [|t]; [by left|right].
  destruct (msg_at mem (S t)) as [m|]; [|done]. exists m. by apply bool_decide_eq_true in Hm.
Qed.

Lemma stamp_app mem m l t :
  stamp_of (mem ++ [m]) l t ->
  (stamp_of mem l t /\ val_at (mem ++ [m]) t = val_at mem t) \/ (t = S (length mem) /\ m_loc m = l).
Proof.
  intros [->|(m' & Hm & Hl)]; [left; split; [by left|done]|].
  destruct t as [|t]; [done|]. cbn [msg_at] in Hm.
  destruct (Nat.lt_trichotomy t (length mem)) as [Ht|[->|Ht]].
  - left. split; [|by apply val_at_app; lia]. right. exists m'. by rewrite lookup_app_l in Hm.
  - right. rewrite list_lookup_middle in Hm by done. by injection Hm as ->.
  - rewrite lookup_ge_None_2 in Hm; [done|]. rewrite length_app. cbn. lia.
Qed.

(** The hart takes no older message for its turn. *)
Definition wait_ok (mem : history) (h : hart) (me : Z) : Prop :=
  forall t, stamp_of mem turn t -> (vget (h_cur h) turn <= t)%nat -> val_at mem t = me -> t = newest mem turn.

Lemma wait_ok_mono mem h h' me :
  wait_ok mem h me -> (vget (h_cur h) turn <= vget (h_cur h') turn)%nat -> wait_ok mem h' me.
Proof. intros Hw Hle t Ht Hc. apply Hw; [done|lia]. Qed.

Lemma wait_ok_other mem h me l v w :
  wait_ok mem h me -> l <> turn -> wait_ok (mem ++ [mk_msg l v w]) h me.
Proof.
  intros Hw Hl t Ht Hc Hv. rewrite newest_app. cbn [m_loc]. rewrite decide_False by done.
  apply stamp_app in Ht as [[Ht E]|[_ E]]; [|done]. apply Hw; [done..|]. by rewrite <- E.
Qed.

(** The other hart passes the turn: nothing older could be taken for it. *)
Lemma wait_ok_passed mem h me v w :
  wait_ok mem h me -> value mem turn <> me -> wait_ok (mem ++ [mk_msg turn v w]) h me.
Proof.
  intros Hw Hne t Ht Hc Hv. rewrite newest_app. cbn [m_loc]. rewrite decide_True by done.
  apply stamp_app in Ht as [[Ht E]|[-> _]]; [|done]. exfalso. apply Hne. rewrite E in Hv.
  unfold value. by rewrite <- (Hw t Ht Hc Hv).
Qed.

Lemma wait_ok_covered mem h me : (newest mem turn <= vget (h_cur h) turn)%nat -> wait_ok mem h me.
Proof.
  intros Hc t Ht Hle Hv. destruct Ht as [->|(m & Hm & Hl)]; [lia|].
  pose proof (msg_newest _ _ _ _ Hm Hl). lia.
Qed.

(** A hart that reads its turn reads the newest message. *)
Lemma wait_ok_read sc mem h me t :
  wait_ok mem h me -> readable sc mem h turn t = true -> val_at mem t = me ->
  t = newest mem turn /\ value mem turn = me.
Proof.
  intros Hw Hr Hv. assert (t = newest mem turn) as E.
  { apply Hw; [by eapply readable_stamp|by destruct (readable_bounds _ _ _ _ _ Hr)|done]. }
  split; [done|]. unfold value. by rewrite <- E.
Qed.

Ltac wclose :=
  close; try (eapply wait_ok_mono; [eassumption|cbn; rewrite ?vget_vjoin; lia]);
  try (right; split_and!; eauto).

Section PingPong.
Context (n : nat) (sc : bool).

Abbreviation covered mem v := (newest mem count <= vget v count)%nat.

Definition player_covers (mem : history) (h : hart) (p : player) : Prop :=
  match p with
  | T_wait _ => True
  | T_fence _ => covered mem (h_acq h)
  | T_load _ | T_store _ _ | T_rel _ => covered mem (h_cur h)
  | T_pass _ => covered mem (h_rel h)
  end.

(** A step of a hart in its loop: it is still its turn, or it has passed it. *)
Definition player_steps (mem : history) (h : hart) (p : player) (mem' : history) (h' : hart) (q : player)
    (me other : Z) : Prop :=
  player_ok n (value mem' count) q /\ player_covers mem' h' q /\ wait_ok mem' h' me /\
  (acting q = true -> value mem' turn = me) /\ (acting p = false -> mem' = mem) /\
  (acting p = true -> acting q = false -> covered mem' (newest_view mem' turn)) /\
  (counted q = counted p /\ value mem' count = value mem count /\ newest mem' count = newest mem count \/
   acting p = true /\ counted q = S (counted p) /\ value mem' count = incr (value mem count)) /\
  (passed q = passed p /\ value mem' turn = value mem turn /\
     (forall h0 me0, wait_ok mem h0 me0 -> wait_ok mem' h0 me0) \/
   acting p = true /\ acting q = false /\ passed q = S (passed p) /\ value mem' turn = other /\
     (forall h0 me0, wait_ok mem h0 me0 -> me0 <> me -> wait_ok mem' h0 me0)).

Lemma player_step_weak {P} (inj : player -> P) after me other mem h p mem' h' q :
  (mem', h', q) ∈ exec sc mem h (player_act n me other p inj after) ->
  p <> T_wait n -> player_ok n (value mem count) p -> player_covers mem h p -> wait_ok mem h me ->
  (acting p = true -> value mem turn = me) ->
  (acting p = false -> value mem turn = me -> covered mem (newest_view mem turn)) ->
  exists q', q = inj q' /\ player_steps mem h p mem' h' q' me other.
Proof using.
  intros He Hn Hok Hcov Hw Ht Hf. unfold player_steps, player_ok in *.
  destruct p as [i|i|i|i c|i|i]; cbn [player_act] in He.
  - destruct Hok as (Hi & _ & _). cbn in Hi.
    assert (i < n)%nat as Hlt by (destruct (Nat.eq_dec i n); [congruence|lia]).
    rewrite decide_True in He by done. apply exec_inv in He as (t & Hr & -> & -> & ->).
    assert (wait_ok mem (after_read mem h turn t) me) as Hw'
      by (apply (wait_ok_mono mem h); [done|cbn; rewrite vget_vjoin; lia]).
    destruct (Z.eqb_spec (val_at mem t) me) as [E|E].
    + destruct (wait_ok_read _ _ _ _ _ Hw Hr E) as [-> Hv]. eexists. split; [reflexivity|].
      specialize (Hf eq_refl Hv). cbn in *. added. locs. wclose.
    + eexists. split; [reflexivity|]. cbn in *. wclose.
  - apply exec_inv in He as (-> & -> & ->). eexists. split; [reflexivity|]. cbn in *.
    rewrite vget_vjoin. wclose.
  - apply exec_inv in He as (t & Hr & -> & -> & ->).
    assert (wait_ok mem (after_read mem h count t) me) as Hw'
      by (apply (wait_ok_mono mem h); [done|cbn; rewrite vget_vjoin; lia]).
    rewrite (readable_newest _ _ _ _ _ Hr Hcov) in *. eexists. split; [reflexivity|].
    cbn in *. rewrite vget_vjoin. wclose.
  - apply exec_inv in He as ([= -> ->] & ->). eexists. split; [reflexivity|]. cbn in *.
    assert (forall h0 me0, wait_ok mem h0 me0 -> forall w, wait_ok (mem ++ [mk_msg count (incr c) w]) h0 me0) as Hkeep
      by (intros; by apply wait_ok_other).
    assert (wait_ok mem (mk_hart (vjoin (h_cur h) (vat count (S (length mem)))) (vjoin (h_acq h) (vat count (S (length mem))))
      (vjoin (h_own h) (vat count (S (length mem)))) (h_rel h)) me) as Hw'
      by (apply (wait_ok_mono mem h); [done|cbn; rewrite vget_vjoin; lia]).
    added. locs. wclose.
  - apply exec_inv in He as (-> & -> & ->). eexists. split; [reflexivity|]. cbn in *.
    rewrite !vget_vjoin. wclose.
  - apply exec_inv in He as ([= -> ->] & ->). eexists. split; [reflexivity|]. cbn in *.
    match goal with |- context [wait_ok (mem ++ [?x]) ?hh me] =>
      assert (wait_ok (mem ++ [x]) hh me) as Hw'
        by (apply wait_ok_covered; added; cbn [h_cur]; added; locs; lia) end.
    assert (forall h0 me0 w, wait_ok mem h0 me0 -> me0 <> me ->
      wait_ok (mem ++ [mk_msg turn other w]) h0 me0) as Hkeep.
    { intros h0 me0 w Hw0 Hne. apply wait_ok_passed; [done|]. by rewrite (Ht eq_refl). }
    added. locs. wclose.
Qed.

Definition acting0 (p : pong0) : bool := match p with G0_play p => acting p | _ => false end.
Definition acting1 (p : pong1) : bool := match p with G1_play p => acting p | _ => false end.

Definition player_weak_ok (mem : history) (h : hart) (p : player) : Prop :=
  player_ok n (value mem count) p /\ player_covers mem h p.

Record pong_weak (s : @system pong0 pong1) : Prop := {
  pw_turn : value (s_mem s) turn = if decide (passed0 n (s_p0 s) = passed1 (s_p1 s)) then 0 else 1;
  pw_alternate : passed0 n (s_p0 s) = passed1 (s_p1 s) \/ passed0 n (s_p0 s) = S (passed1 (s_p1 s));
  pw_act0 : acting0 (s_p0 s) = true -> passed0 n (s_p0 s) = passed1 (s_p1 s);
  pw_act1 : acting1 (s_p1 s) = true -> passed0 n (s_p0 s) = S (passed1 (s_p1 s));
  pw_count : value (s_mem s) count = total (counted0 n (s_p0 s) + counted1 (s_p1 s));
  pw_wait0 : wait_ok (s_mem s) (s_h0 s) 0;
  pw_wait1 : wait_ok (s_mem s) (s_h1 s) 1;
  pw_ok0 : match s_p0 s with
           | G0_play p => player_weak_ok (s_mem s) (s_h0 s) p
           | G0_last_fence => passed1 (s_p1 s) = n /\ covered (s_mem s) (h_acq (s_h0 s))
           | G0_read => passed1 (s_p1 s) = n /\ covered (s_mem s) (h_cur (s_h0 s))
           | G0_assert v => passed1 (s_p1 s) = n /\ v = total (n + n)
           | _ => True
           end;
  pw_ok1 : match s_p1 s with G1_play p => player_weak_ok (s_mem s) (s_h1 s) p | _ => True end;
  pw_free : acting0 (s_p0 s) || acting1 (s_p1 s) = false -> covered (s_mem s) (newest_view (s_mem s) turn)
}.

(** The player that does not move. *)
Lemma other_player mem mem' h p :
  player_weak_ok mem h p -> (acting p = true -> mem' = mem) -> player_weak_ok mem' h p.
Proof using.
  intros [Hok Hc] Hsame. destruct p; try (by rewrite (Hsame eq_refl)). done.
Qed.

Lemma waiting_end mem h p : player_weak_ok mem h p -> passed p = n -> p = T_wait n.
Proof using.
  intros [(_ & Hlt & _) _] E. destruct p; cbn in *; subst; try done; specialize (Hlt eq_refl); lia.
Qed.

(** A store elsewhere changes neither the turn nor the counter. *)
Lemma elsewhere mem l v w :
  l <> turn -> l <> count -> let mem' := mem ++ [mk_msg l v w] in
  value mem' turn = value mem turn /\ value mem' count = value mem count /\
  newest mem' count = newest mem count /\ newest_view mem' turn = newest_view mem turn.
Proof using.
  intros ??. cbv zeta. rewrite !value_app, newest_app, newest_view_app. cbn [m_loc]. by rewrite !decide_False.
Qed.

Lemma pong0_weak mem h0 p0 h1 p1 mem' h' p' :
  pong_weak (mk_system mem h0 p0 h1 p1) -> (mem', h', p') ∈ exec sc mem h0 (p4_4_core0 n p0) ->
  pong_weak (mk_system mem' h' p' h1 p1).
Proof using.
  intros [Ht Hal Ha0 Ha1 Hc Hw0 Hw1 H0 H1 Hf] Hx. cbn [s_mem s_h0 s_p0 s_h1 s_p1] in *.
  destruct p0 as [| |w| | |v]; cbn [p4_4_core0] in Hx.
  - apply exec_inv in Hx as ([= -> ->] & ->).
    match goal with |- context [mem ++ [mk_msg ?l ?v ?w]] =>
      destruct (elsewhere mem l v w ltac:(done) ltac:(done)) as (Et & Ec & En & Ev) end.
    split; cbn [s_mem s_h0 s_p0 s_h1 s_p1]; rewrite ?Et, ?Ec, ?En, ?Ev; try done.
    + apply wait_ok_other; [|done]. eapply wait_ok_mono; [exact Hw0|cbn; rewrite vget_vjoin; lia].
    + by apply wait_ok_other.
    + destruct p1 as [|w]; [done|]. eapply other_player; [exact H1|]. intros Ea. by specialize (Ha1 Ea).
  - apply exec_inv in Hx as (-> & -> & ->). split; cbn [s_mem s_h0 s_p0 s_h1 s_p1]; try done.
    split; [|done]. split_and!; cbn; try done; lia.
  - destruct (Nat.eq_dec (passed w) n) as [E|E].
    + rewrite (waiting_end _ _ _ H0 E) in *. cbn [player_act] in Hx. rewrite decide_False in Hx by lia.
      apply exec_inv in Hx as (t & Hr & -> & -> & ->).
      assert (wait_ok mem (after_read mem h0 turn t) 0) as Hw'
        by (eapply wait_ok_mono; [exact Hw0|cbn; rewrite vget_vjoin; lia]).
      destruct (Z.eqb_spec (val_at mem t) 0) as [Ez|Ez]; (split; cbn [s_mem s_h0 s_p0 s_h1 s_p1]; try done).
      destruct (wait_ok_read _ _ _ _ _ Hw0 Hr Ez) as [-> Hv]. rewrite Hv in Ht.
      destruct (decide (passed0 n (G0_play (T_wait n)) = passed1 p1)) as [Ep|]; [|done].
      split; [done|]. cbn. added. cbn in Hf, Ha1.
      destruct (acting1 p1) eqn:Ea; [cbn in Ep; specialize (Ha1 eq_refl); lia|]. specialize (Hf eq_refl). lia.
    + assert (w <> T_wait n) as Hne by (intros ->; done).
      destruct H0 as [Hok Hcov].
      destruct (player_step_weak G0_play _ 0 1 mem h0 w mem' h' p' Hx Hne Hok Hcov Hw0)
        as (q & -> & Hok' & Hcov' & Hw' & Hturn & Hsame & Hpass & Hcnt & Hmv).
      { intros Ea. rewrite Ht. by rewrite decide_True by (by apply Ha0). }
      { intros Ea Ev. apply Hf. cbn. rewrite Ea. cbn. destruct (acting1 p1) eqn:Ea1; [|done].
        rewrite Ev in Ht. destruct (decide _) as [Ep|]; [|done]. rewrite (Ha1 eq_refl) in Ep. lia. }
      cbn [passed0 counted0 acting0] in *.
      assert (acting1 p1 = true -> acting w = false) as Hexcl.
      { intros Ea. destruct (acting w) eqn:Ew; [|done]. specialize (Ha0 eq_refl). specialize (Ha1 Ea). lia. }
      assert (acting q = true -> passed q = passed1 p1) as Hq0.
      { intros Eq. specialize (Hturn Eq). destruct Hmv as [(-> & Ev & _)|(_ & Eq' & _)]; [|congruence].
        rewrite Ev in Hturn. rewrite Hturn in Ht. by destruct (decide _). }
      split; cbn [s_mem s_h0 s_p0 s_h1 s_p1 passed0 counted0 acting0]; try done.
      * destruct Hmv as [(-> & -> & _)|(Ew & _ & -> & -> & _)]; [done|].
        specialize (Ha0 Ew). by rewrite decide_False by lia.
      * destruct Hmv as [(-> & _)|(Ew & _ & -> & _)]; [done|]. specialize (Ha0 Ew). lia.
      * intros Ea. destruct Hmv as [(-> & _)|(Ew & _)]; [by apply Ha1|]. rewrite (Hexcl Ea) in Ew. done.
      * destruct Hcnt as [(-> & -> & _)|(_ & -> & ->)]; [done|]. by rewrite Hc, total_S.
      * destruct Hmv as [(_ & _ & Hk)|(_ & _ & _ & _ & Hk)]; by apply Hk.
      * destruct p1 as [|w1]; [done|]. eapply other_player; [exact H1|]. intros Ea. by apply Hsame, Hexcl.
      * intros [Eq Ea1]%orb_false_elim. destruct (acting w) eqn:Ew; [by apply Hpass|].
        rewrite (Hsame eq_refl). by apply Hf.
  - apply exec_inv in Hx as (-> & -> & ->). split; cbn [s_mem s_h0 s_p0 s_h1 s_p1]; try done.
    + eapply wait_ok_mono; [exact Hw0|cbn; rewrite vget_vjoin; lia].
    + cbn. rewrite vget_vjoin. destr_all. split; [done|lia].
  - apply exec_inv in Hx as (t & Hr & -> & -> & ->). destruct H0 as [En Hcov].
    rewrite (readable_newest _ _ _ _ _ Hr Hcov).
    split; cbn [s_mem s_h0 s_p0 s_h1 s_p1]; try done.
    + eapply wait_ok_mono; [exact Hw0|cbn; rewrite vget_vjoin; lia].
    + split; [done|]. fold (value mem count). rewrite Hc. cbn. do 2 f_equal.
      destruct p1 as [|w]; cbn in *; [done|]. by rewrite (waiting_end _ _ _ H1 En).
  - by apply exec_inv in Hx.
Qed.

Lemma pong1_weak mem h0 p0 h1 p1 mem' h' p' :
  pong_weak (mk_system mem h0 p0 h1 p1) -> (mem', h', p') ∈ exec sc mem h1 (ping n p1) ->
  pong_weak (mk_system mem' h0 p0 h' p').
Proof using.
  intros [Ht Hal Ha0 Ha1 Hc Hw0 Hw1 H0 H1 Hf] Hx. cbn [s_mem s_h0 s_p0 s_h1 s_p1] in *.
  destruct p1 as [|w]; cbn [ping] in Hx.
  - apply exec_inv in Hx as (t & Hr & -> & -> & ->).
    assert (wait_ok mem (after_read mem h1 g_smode_target t) 1) as Hw'
      by (eapply wait_ok_mono; [exact Hw1|cbn; rewrite vget_vjoin; lia]).
    destruct (val_at mem t =? 0); (split; cbn [s_mem s_h0 s_p0 s_h1 s_p1]; try done).
    split; [|done]. split_and!; cbn; try done; lia.
  - destruct (Nat.eq_dec (passed w) n) as [E|E].
    + rewrite (waiting_end _ _ _ H1 E) in *. cbn [player_act] in Hx. rewrite decide_False in Hx by lia.
      by apply exec_inv in Hx.
    + assert (w <> T_wait n) as Hne by (intros ->; done).
      destruct H1 as [Hok Hcov].
      destruct (player_step_weak G1_play _ 1 0 mem h1 w mem' h' p' Hx Hne Hok Hcov Hw1)
        as (q & -> & Hok' & Hcov' & Hw' & Hturn & Hsame & Hpass & Hcnt & Hmv).
      { intros Ea. rewrite Ht. specialize (Ha1 Ea). rewrite decide_False; [done|lia]. }
      { intros Ea Ev. apply Hf. cbn. rewrite Ea, orb_false_r. destruct (acting0 p0) eqn:Ea0; [|done].
        rewrite Ev in Ht. by rewrite decide_True in Ht by (by apply Ha0). }
      cbn [passed1 counted1 acting1] in *.
      assert (acting0 p0 = true -> acting w = false) as Hexcl.
      { intros Ea. destruct (acting w) eqn:Ew; [|done]. specialize (Ha1 eq_refl). specialize (Ha0 Ea). lia. }
      assert (acting q = true -> passed0 n p0 = S (passed q)) as Hq0.
      { intros Eq. specialize (Hturn Eq). destruct Hmv as [(-> & Ev & _)|(_ & Eq' & _)]; [|congruence].
        rewrite Ev in Hturn. rewrite Hturn in Ht. destruct (decide _); [done|]. by destruct Hal. }
      split; cbn [s_mem s_h0 s_p0 s_h1 s_p1 passed1 counted1 acting1]; try done.
      * destruct Hmv as [(-> & -> & _)|(Ew & _ & -> & -> & _)]; [done|].
        specialize (Ha1 Ew). by rewrite decide_True by lia.
      * destruct Hmv as [(-> & _)|(Ew & _ & -> & _)]; [done|]. specialize (Ha1 Ew). lia.
      * intros Ea. destruct Hmv as [(-> & _)|(Ew & _)]; [by apply Ha0|]. rewrite (Hexcl Ea) in Ew. done.
      * destruct Hcnt as [(-> & -> & _)|(_ & -> & ->)]; [done|]. rewrite Hc, total_S. f_equal. lia.
      * destruct Hmv as [(_ & _ & Hk)|(_ & _ & _ & _ & Hk)]; by apply Hk.
      * destruct p0 as [| |w0| | |v]; try done.
        -- eapply other_player; [exact H0|]. intros Ea. by apply Hsame, Hexcl.
        -- by destruct H0.
        -- by destruct H0.
        -- by destruct H0.
      * intros [Ea0 Eq]%orb_false_elim. destruct (acting w) eqn:Ew; [by apply Hpass|].
        rewrite (Hsame eq_refl). by apply Hf; rewrite Ea0.
Qed.

Lemma pong_weak_step s s' : pong_weak s -> step sc (p4_4_core0 n) (ping n) s s' -> pong_weak s'.
Proof using.
  intros Hinv Hs. unfold step, succs in Hs. destruct s as [mem h0 p0 h1 p1].
  apply elem_of_app in Hs as [Hs|Hs]; apply list_elem_of_fmap in Hs as ([[mem' h'] p'] & -> & Hx);
    [by eapply pong0_weak|by eapply pong1_weak].
Qed.

Lemma pong_weak_start : pong_weak (start G0_wake G1_parked).
Proof using.
  assert (forall me, wait_ok [] hart0 me) as Hw.
  { intros me t [->|(m & Hm & _)] _ _; [done|]. by destruct t. }
  split; cbn; try done; auto.
Qed.

(** C32: P4.4 on weakly ordered harts: in every run the harts strictly alternate, the
    newest [count] is the number of increments done, no hart ever increments a
    stale count, and hart 0 reads exactly [2 n] at the end: the fences around the
    turn are enough. *)
Theorem p4_4_weak_alternates s :
  star (step sc (p4_4_core0 n) (ping n)) (start G0_wake G1_parked) s ->
  (passed0 n (s_p0 s) = passed1 (s_p1 s) \/ passed0 n (s_p0 s) = S (passed1 (s_p1 s))) /\
  value (s_mem s) count = total (counted0 n (s_p0 s) + counted1 (s_p1 s)) /\
  (forall i c, s_p0 s = G0_play (T_store i c) \/ s_p1 s = G1_play (T_store i c) -> c = value (s_mem s) count) /\
  (forall v, s_p0 s = G0_assert v -> v = total (n + n)).
Proof using.
  intros Hs. assert (pong_weak s) as [Ht Hal Ha0 Ha1 Hc Hw0 Hw1 H0 H1 Hf]
    by apply (star_invariant _ pong_weak _ _ pong_weak_step Hs), pong_weak_start.
  split_and!; [done..| |].
  - intros i c [E|E]; [rewrite E in H0; destruct H0 as [(_ & _ & ->) _]|rewrite E in H1; destruct H1 as [(_ & _ & ->) _]]; done.
  - intros v E. rewrite E in H0. by destruct H0.
Qed.
End PingPong.

(** ** One round of each on weakly ordered harts *)

Lemma p4_3_weak_exclusion_witness :
  exists s, star (step false (p4_3_core0 1) (core1_spinlock_worker 1)) (start S0_wake S1_parked) s /\
    s_p1 s = S1_work (W_rel_fence 0) /\ value (s_mem s) shared_var = 2.
Proof.
  destruct (replay false (p4_3_core0 1) (core1_spinlock_worker 1) (start S0_wake S1_parked)
    (replicate 8 0 ++ [2; 1; 1; 1; 1])%nat) as [s|] eqn:E; [|vm_compute in E; discriminate E].
  assert (s_p0 s = S0_work (W_acquire 1) /\ s_p1 s = S1_work (W_rel_fence 0)) as [E0 E1]
    by (vm_compute in E; injection E as <-; split; reflexivity).
  apply replay_star in E. destruct (p4_3_weak_exclusion 1 false s E) as (_ & Hv & _).
  exists s. split; [exact E|]. split; [exact E1|]. rewrite Hv, E0, E1. reflexivity.
Defined.

Lemma p4_4_weak_alternates_witness :
  exists s v, star (step false (p4_4_core0 1) (ping 1)) (start G0_wake G1_parked) s /\
    s_p0 s = G0_assert v /\ v = 2.
Proof.
  destruct (replay_reaches (p4_4_core0 1) (ping 1) G0_wake G1_parked
    (replicate 8 0 ++ [2; 2; 1; 1; 1; 1; 1; 1; 0; 0])%nat (G0_assert 2)) as (s & Hs & E);
    [vm_compute; reflexivity|].
  destruct (p4_4_weak_alternates 1 false s Hs) as (_ & _ & _ & Hv).
  exists s, 2. split; [exact Hs|]. split; [exact E|]. rewrite (Hv 2 E). reflexivity.
Defined.
