(* ===== verification/WeakMessages.v ===== *)
(** * The Zephyr suite's messages on weakly ordered harts

    P4.2 and P4.1B of [zephyr-suite/p4_dualcore] in every run of the memory model of
    [Weak], loads being free to read any message a hart's view admits: the property
    the tests are there for.  That the kernel's atomics order what surrounds them is
    an interface ([OrderApi]) with its effect on the hart's views as laws; the
    fences of the RISC-V mapping are an instance. *)

From S2P Require Import Prelude Weak DualLoops WeakLoops ZDual.

(** ** What the kernel's atomics order *)

Class OrderApi := {
  (** before [atomic_set]'s exchange, and after [atomic_get]'s load *)
  order_release {P} : P -> act P;
  order_acquire {P} : P -> act P
}.
Class OrderLaws (api : OrderApi) : Prop := {
  (** What the hart has stored is seen with its next store. *)
  law_release {P} sc mem h (p : P) mem' h' p' :
    (mem', h', p') ∈ exec sc mem h (order_release p) ->
    mem' = mem /\ p' = p /\ forall l, (vget (h_own h) l <= vget (h_rel h') l)%nat;
  (** What the messages read carried is seen from here on. *)
  law_acquire {P} sc mem h (p : P) mem' h' p' :
    (mem', h', p') ∈ exec sc mem h (order_acquire p) ->
    mem' = mem /\ p' = p /\ forall l, (vget (h_acq h) l <= vget (h_cur h') l)%nat
}.

Section Messages.
Context `{OrderLaws} (n limit : nat) (sc : bool).

(** The programs of [ZDual], with the ordering points; [atomic_set] is an exchange. *)
Inductive w_producer := WP_fill (i : nat) | WP_set | WP_end.
Inductive w_consumer :=
| WC_get (spins : nat) | WC_got (spins : nat) (flag : Z) | WC_give_up | WC_gave_up
| WC_check (i : nat) | WC_bad (i : nat) | WC_count (i : nat) (bad : Z).

Definition weak_producer_entry (p : w_producer) : act w_producer :=
  match p with
  | WP_fill i =>
      if decide (i < n)%nat then AWrite (shared_buf i) (pattern i) (WP_fill (S i)) else order_release WP_set
  | WP_set => AAmo publish_flag (fun _ => 1) (fun _ => WP_end)
  | WP_end => AStop
  end.
Definition weak_consumer_entry (c : w_consumer) : act w_consumer :=
  match c with
  | WC_get spins => ARead publish_flag (fun flag => WC_got spins flag)
  | WC_got spins flag =>
      order_acquire (if flag =? 0 then if decide (limit < S spins)%nat then WC_give_up else WC_get (S spins)
                     else WC_check 0)
  | WC_give_up => AWrite consumer_bad_words (-1) WC_gave_up
  | WC_gave_up => AStop
  | WC_check i =>
      if decide (i < n)%nat
      then ARead (shared_buf i) (fun v => if v =? pattern i then WC_check (S i) else WC_bad i)
      else AStop
  | WC_bad i => ARead consumer_bad_words (fun bad => WC_count i bad)
  | WC_count i bad => AWrite consumer_bad_words (s32 (bad + 1)) (WC_check (S i))
  end.

(** ** The invariant *)

(** A view that covers the newest message of every word of the buffer. *)
Definition covers_buf (mem : history) (v : view) : Prop :=
  forall j, (j < n)%nat -> (newest mem (shared_buf j) <= vget v (shared_buf j))%nat.

Definition w_filled (p : w_producer) : nat := match p with WP_fill i => i | _ => n end.

Record weak_msgs (mem : history) (hp : hart) (p : w_producer) (hc : hart) (c : w_consumer) : Prop := {
  wm_filled : (w_filled p <= n)%nat;
  wm_buf j : (j < w_filled p)%nat -> value mem (shared_buf j) = pattern j;
  wm_ahead j : (w_filled p <= j)%nat -> newest mem (shared_buf j) = 0%nat;
  (** The flag's messages carry the buffer. *)
  wm_flag t m : msg_at mem t = Some m -> m_loc m = publish_flag ->
    p = WP_end /\ m_val m <> 0 /\ covers_buf mem (m_view m);
  wm_own : match p with
           | WP_fill _ => covers_buf mem (h_own hp)
           | WP_set => covers_buf mem (h_rel hp)
           | WP_end => True
           end;
  wm_seen : match c with
            | WC_got _ flag => flag <> 0 -> p = WP_end /\ covers_buf mem (h_acq hc)
            | WC_check i => p = WP_end /\ (i <= n)%nat /\ covers_buf mem (h_cur hc)
            | WC_bad _ | WC_count _ _ => False
            | _ => True
            end;
  wm_bad : value mem consumer_bad_words = match c with WC_gave_up => -1 | _ => 0 end
}.

#[local] Arguments vget : simpl never.
#[local] Arguments vat : simpl never.
#[local] Arguments value : simpl never.
#[local] Arguments newest : simpl never.

Lemma covers_mono mem v w : covers_buf mem v -> (forall l, (vget v l <= vget w l)%nat) -> covers_buf mem w.
Proof using. intros Hv Hw j Hj. specialize (Hv j Hj). specialize (Hw (shared_buf j)). lia. Qed.

Lemma covers_join_l mem v w : covers_buf mem v -> covers_buf mem (vjoin v w).
Proof using. intros Hv. apply (covers_mono mem v); [exact Hv|]. intros l. rewrite vget_vjoin. lia. Qed.
Lemma covers_join_r mem v w : covers_buf mem w -> covers_buf mem (vjoin v w).
Proof using. intros Hv. apply (covers_mono mem w); [exact Hv|]. intros l. rewrite vget_vjoin. lia. Qed.

(** A message elsewhere changes nothing for the buffer. *)
Lemma covers_app mem m v : (forall j, m_loc m <> shared_buf j) -> covers_buf mem v -> covers_buf (mem ++ [m]) v.
Proof using. intros Hm Hv j Hj. rewrite newest_app, decide_False by done. by apply Hv. Qed.

Lemma msg_at_app mem m t m' : msg_at (mem ++ [m]) t = Some m' ->
  msg_at mem t = Some m' \/ m' = m.
Proof using.
  destruct t as [|t]; [done|]. cbn [msg_at]. intros E.
  destruct (decide (t < length mem)%nat) as [Hl|Hl]; [left; by rewrite lookup_app_l in E|right].
  destruct (decide (t = length mem)) as [->|Hne].
  - rewrite list_lookup_middle in E by done. by injection E.
  - rewrite lookup_ge_None_2 in E; [done|]. rewrite length_app. cbn. lia.
Qed.

(** What the consumer reads of the flag. *)
Lemma flag_read mem hp p hc c t : weak_msgs mem hp p hc c -> readable sc mem hc publish_flag t = true ->
  val_at mem t <> 0 -> p = WP_end /\ covers_buf mem (view_at mem t).
Proof using.
  intros Hi Hr Hv. unfold readable in Hr. apply andb_true_iff in Hr as [_ Hr].
  unfold val_at, view_at in *. destruct t as [|t]; [done|].
  destruct (msg_at mem (S t)) as [m|] eqn:E; [|done]. apply bool_decide_eq_true in Hr. cbn in Hv |- *.
  destruct (wm_flag _ _ _ _ _ Hi (S t) m E Hr) as (Hp & _ & Hc). done.
Qed.

(** ** The producer's steps *)

Lemma fill_weak mem hp hc c i mem' hp' p' : (i < n)%nat -> weak_msgs mem hp (WP_fill i) hc c ->
  (mem', hp') = stored mem hp (shared_buf i) (pattern i) [] /\ p' = WP_fill (S i) -> weak_msgs mem' hp' p' hc c.
Proof using.
  intros Hi [Hf Hb Ha Hfl Ho Hs Hd] [[= -> ->] ->]. cbn [w_filled] in *.
  split; cbn [w_filled h_own].
  - lia.
  - intros j Hj. rewrite value_app. cbn [m_loc m_val]. case_decide as E; [by injection E as ->|].
    apply Hb. destruct (decide (j = i)) as [->|]; [done|lia].
  - intros j Hj. rewrite newest_app. cbn [m_loc]. rewrite decide_False; [apply Ha; lia|]. unfold shared_buf. lia.
  - intros t m Hm Hl. apply msg_at_app in Hm as [Hm| ->]; [|done]. by destruct (Hfl t m Hm Hl).
  - intros j Hj. rewrite newest_app, vget_vjoin, vget_vat. cbn [m_loc]. case_decide as E.
    + rewrite decide_True by done. lia.
    + specialize (Ho j Hj). lia.
  - destruct c; try done; [|by destruct Hs]. intros Hv. by destruct (Hs Hv).
  - rewrite value_app. cbn [m_loc]. by rewrite decide_False.
Qed.

Lemma set_weak mem hp hc c mem' hp' : weak_msgs mem hp WP_set hc c ->
  (mem', hp') = stored mem (after_read mem hp publish_flag (newest mem publish_flag)) publish_flag 1 (newest_view mem publish_flag) ->
  weak_msgs mem' hp' WP_end hc c.
Proof using.
  intros [Hf Hb Ha Hfl Ho Hs Hd] [= -> ->]. cbn [w_filled] in *.
  assert (forall j v, covers_buf mem v -> covers_buf (mem ++ [mk_msg publish_flag 1 j]) v) as Happ
    by (intros; by apply covers_app).
  split; cbn [w_filled]; [done| | | |done| |].
  - intros j Hj. rewrite value_app. cbn [m_loc]. rewrite decide_False by done. by apply Hb.
  - intros j Hj. rewrite newest_app. cbn [m_loc]. rewrite decide_False by done. by apply Ha.
  - intros t m Hm Hl. apply msg_at_app in Hm as [Hm| ->]; [by destruct (Hfl t m Hm Hl)|].
    split_and!; [done..|]. cbn [m_view]. apply Happ, covers_join_l, covers_join_l. exact Ho.
  - destruct c; try done; [|by destruct Hs]. intros Hv. by destruct (Hs Hv).
  - rewrite value_app. cbn [m_loc]. by rewrite decide_False.
Qed.

Lemma producer_weak mem hp p hc c mem' hp' p' : weak_msgs mem hp p hc c ->
  (mem', hp', p') ∈ exec sc mem hp (weak_producer_entry p) -> weak_msgs mem' hp' p' hc c.
Proof using All.
  intros Hi He. destruct p as [i| |]; cbn [weak_producer_entry] in He.
  - destruct (decide (i < n)%nat) as [Hn|Hn]; [apply exec_inv in He; by eapply fill_weak|].
    apply law_release in He as (-> & -> & Hrel). destruct Hi as [Hf Hb Ha Hfl Ho Hs Hd]. cbn [w_filled] in *.
    assert (i = n) as -> by lia. split; cbn [w_filled]; try done.
    + intros t m Hm Hl. by destruct (Hfl t m Hm Hl).
    + by apply (covers_mono _ _ _ Ho).
    + destruct c; try done; [|by destruct Hs]. intros Hv. by destruct (Hs Hv).
  - apply exec_inv in He as [He ->]. by eapply set_weak.
  - by apply exec_inv in He.
Qed.

(** ** The consumer's steps *)

Lemma consumer_weak mem hp p hc c mem' hc' c' : weak_msgs mem hp p hc c ->
  (mem', hc', c') ∈ exec sc mem hc (weak_consumer_entry c) -> weak_msgs mem' hp p hc' c'.
Proof using All.
  intros Hi He. pose proof Hi as [Hf Hb Ha Hfl Ho Hs Hd].
  destruct c as [spins|spins flag| | |i|i|i bad]; cbn [weak_consumer_entry] in He; [| | | | |done|done].
  - apply exec_inv in He as (t & Hr & -> & -> & ->). split; try done.
    intros Hv. destruct (flag_read _ _ _ _ _ _ Hi Hr Hv) as [Hp Hc]. split; [exact Hp|].
    apply covers_join_r, covers_join_l, Hc.
  - apply law_acquire in He as (-> & -> & Hacq). split; try done.
    + destruct (Z.eqb_spec flag 0) as [->|Hv]; [by case_decide|].
      destruct (Hs Hv) as [Hp Hc]. split_and!; [done|lia|]. by apply (covers_mono _ _ _ Hc).
    + destruct (flag =? 0); [by case_decide|done].
  - apply exec_inv in He as [[= -> ->] ->].
    assert (forall j v, covers_buf mem v -> covers_buf (mem ++ [mk_msg consumer_bad_words (-1) j]) v) as Happ
      by (intros; by apply covers_app).
    split; try done.
    + intros j Hj. rewrite value_app. cbn [m_loc]. rewrite decide_False by done. by apply Hb.
    + intros j Hj. rewrite newest_app. cbn [m_loc]. rewrite decide_False by done. by apply Ha.
    + intros t m Hm Hl. apply msg_at_app in Hm as [Hm| ->]; [|done].
      destruct (Hfl t m Hm Hl) as (? & ? & ?). split_and!; [done..|by apply Happ].
    + destruct p; try done; by apply Happ.
    + rewrite value_app. cbn [m_loc m_val]. by rewrite decide_True.
  - by apply exec_inv in He.
  - destruct (decide (i < n)%nat) as [Hn|Hn]; [|by apply exec_inv in He].
    apply exec_inv in He as (t & Hr & -> & -> & ->). destruct Hs as (-> & Hle & Hc).
    rewrite (readable_newest _ _ _ _ _ Hr (Hc i Hn)). change (val_at mem (newest mem (shared_buf i))) with (value mem (shared_buf i)).
    rewrite (Hb i Hn), Z.eqb_refl. split; try done. split_and!; [done|lia|]. by apply covers_join_l.
Qed.

(** What the tests assert, in any state: no word was found bad. *)
Definition weak_result (mem : history) (p : w_producer) (c : w_consumer) : Prop :=
  value mem consumer_bad_words = match c with WC_gave_up => -1 | _ => 0 end /\
  match c with
  | WC_check _ => p = WP_end /\ forall j, (j < n)%nat -> value mem (shared_buf j) = pattern j
  | WC_bad _ | WC_count _ _ => False
  | _ => True
  end.

Lemma weak_msgs_result mem hp p hc c : weak_msgs mem hp p hc c -> weak_result mem p c.
Proof using.
  intros [_ Hb _ _ _ Hs Hd]. split; [exact Hd|]. destruct c; try done. destruct Hs as [-> _]. by split.
Qed.

Lemma weak_msgs_start : weak_msgs [] hart0 (WP_fill 0) hart0 (WC_get 0).
Proof using.
  split; try done; [cbn; lia|cbn; lia|by intros [|t] m|]. intros j Hj. cbn. unfold newest. cbn. lia.
Qed.

(** C19: P4.2 and P4.1B on weakly ordered harts: with atomics that order what surrounds them,
    in every run and in both directions, a consumer that saw the flag reads every
    word the producer stored, and [consumer_bad_words] is 0 unless the consumer gave
    up waiting for the flag. *)
Theorem zephyr_messages_weak :
  (forall s, star (step sc weak_producer_entry weak_consumer_entry) (start (WP_fill 0) (WC_get 0)) s ->
     weak_result (s_mem s) (s_p0 s) (s_p1 s)) /\
  (forall s, star (step sc weak_consumer_entry weak_producer_entry) (start (WC_get 0) (WP_fill 0)) s ->
     weak_result (s_mem s) (s_p1 s) (s_p0 s)).
Proof using All.
  split; intros s Hs.
  - apply (weak_msgs_result _ (s_h0 s) _ (s_h1 s)).
    apply (star_invariant _ (fun s => weak_msgs (s_mem s) (s_h0 s) (s_p0 s) (s_h1 s) (s_p1 s)) _ _) in Hs;
      [exact Hs| |exact weak_msgs_start].
    intros x y Hx [Hy|Hy]%elem_of_app; apply list_elem_of_fmap in Hy as ([[m h] q] & -> & He); cbn.
    + by eapply producer_weak.
    + by eapply consumer_weak.
  - apply (weak_msgs_result _ (s_h1 s) _ (s_h0 s)).
    apply (star_invariant _ (fun s => weak_msgs (s_mem s) (s_h1 s) (s_p1 s) (s_h0 s) (s_p0 s)) _ _) in Hs;
      [exact Hs| |exact weak_msgs_start].
    intros x y Hx [Hy|Hy]%elem_of_app; apply list_elem_of_fmap in Hy as ([[m h] q] & -> & He); cbn.
    + by eapply consumer_weak.
    + by eapply producer_weak.
Qed.
End Messages.

(** ** The fences of the RISC-V mapping *)

#[export] Instance fence_order : OrderApi := { order_release P p := AFenceRel p; order_acquire P p := AFenceR p }.

#[export] Instance fence_order_laws : OrderLaws fence_order.
Proof.
  split; intros P sc mem h p mem' h' p' He; apply exec_inv in He; cbn in He.
  - destruct He as (-> & -> & ->). split_and!; [done..|]. intros l. cbn [h_cur h_acq h_own h_rel]. rewrite !vget_vjoin. lia.
  - destruct He as (-> & -> & ->). split_and!; [done..|]. intros l. cbn [h_cur h_acq h_own h_rel]. rewrite !vget_vjoin. lia.
Qed.

(** A weakly ordered run to the consumer's end. *)
Lemma zephyr_messages_weak_witness :
  exists s, star (step false (weak_producer_entry 1) (weak_consumer_entry 1 5)) (start (WP_fill 0) (WC_get 0)) s /\
    s_p1 s = WC_check 1 /\ value (s_mem s) consumer_bad_words = 0.
Proof.
  destruct (replay false (weak_producer_entry 1) (weak_consumer_entry 1 5) (start (WP_fill 0) (WC_get 0))
    [0; 1; 1; 0; 0; 1; 0; 0]%nat) as [s|] eqn:E; [|vm_compute in E; discriminate E].
  assert (s_p1 s = WC_check 1) as E1 by (vm_compute in E; injection E as <-; reflexivity).
  apply replay_star in E. destruct (proj1 (zephyr_messages_weak 1 5 false) s E) as [Hb _].
  exists s. split; [exact E|]. split; [exact E1|]. by rewrite Hb, E1.
Defined.

(** Atomics that order nothing before the exchange let the consumer read a stale word. *)
Definition relaxed_order : OrderApi := {| order_release P p := AFenceR p; order_acquire P p := AFenceR p |}.

Lemma relaxed_messages_stale : exists s,
  star (step false (weak_producer_entry (api := relaxed_order) 1) (weak_consumer_entry (api := relaxed_order) 1 5))
    (start (WP_fill 0) (WC_get 0)) s /\ s_p1 s = WC_bad 0.
Proof.
  destruct (replay false (weak_producer_entry (api := relaxed_order) 1) (weak_consumer_entry (api := relaxed_order) 1 5)
    (start (WP_fill 0) (WC_get 0)) [0; 0; 0; 1; 0; 0]%nat) as [s|] eqn:E; [|vm_compute in E; discriminate E].
  exists s. split; [by apply replay_star in E|]. vm_compute in E. by injection E as <-.
Qed.
