(* ===== verification/Wake.v ===== *)
(** * Waking hart 1 ([common/smode.c], [core1_smode_park_loop], [wake_core1_smode])

    The protocol that hands functions to hart 1: a published pointer, an IPI
    forwarded by M-mode, and a park loop that sleeps in [wfi].  The harts' steps
    interleave one shared access at a time; interrupts of hart 1 arrive between
    any two of its instructions.  What holds in every reachable state is decided
    by [Weak.explore]. *)

From S2P Require Import Prelude Weak.

(** Hart 1: before it is ready, and in the park loop. *)
Inductive park :=
| P_boot                 (** stvec, interrupts enabled; [g_core1_smode_ready = 1] next *)
| P_clear                (** [clear_sip_ssip()] *)
| P_check                (** [while (g_smode_target == 0)] *)
| P_wfi                  (** about to execute [wfi] *)
| P_sleep                (** in [wfi] *)
| P_call                 (** [g_smode_target()]: loads the pointer again *)
| P_run (f : nat)        (** in the function, before it sets its flag *)
| P_return               (** after the flag, before [g_smode_target = 0] *)
| P_null.                (** jumped to 0 *)

(** Hart 0: [wake_core1_smode(f)], then [spin_wait] on the function's flag. *)
Inductive waker :=
| K_ready (f : nat) | K_publish (f : nat) | K_ipi (f : nat) | K_wait (f : nat) | K_end.

Record wstate := mk_wstate {
  g_core1_smode_ready : bool;
  g_smode_target : nat;       (** 0 or the number of a function *)
  msip1 : bool;               (** hart 1's CLINT register *)
  ssip1 : bool;               (** hart 1's [sip.SSIP] *)
  flags : list nat;           (** functions that have run, last one first *)
  core0 : waker;
  core1 : park
}.
#[export] Instance park_eq_dec : EqDecision park.
Proof. solve_decision. Defined.
#[export] Instance waker_eq_dec : EqDecision waker.
Proof. solve_decision. Defined.
#[export] Instance wstate_eq_dec : EqDecision wstate.
Proof. solve_decision. Defined.

Section Wake.
(** Hart 0 hands over the functions 1 .. [last], one after the other. *)
Context (last : nat).

Definition wake_core1_smode (s : wstate) : list wstate :=
  let 'mk_wstate rdy tgt msip ssip fl c0 c1 := s in
  match c0 with
  | K_ready f => if rdy then [mk_wstate rdy tgt msip ssip fl (K_publish f) c1] else []
  | K_publish f => [mk_wstate rdy f msip ssip fl (K_ipi f) c1]
  | K_ipi f => [mk_wstate rdy tgt true ssip fl (K_wait f) c1]
  | K_wait f =>
      if bool_decide (f ∈ fl)
      then [mk_wstate rdy tgt msip ssip fl (if Nat.eqb f last then K_end else K_ready (S f)) c1]
      else []
  | K_end => []
  end.

Definition core1_smode_park_loop (s : wstate) : list wstate :=
  let 'mk_wstate rdy tgt msip ssip fl c0 c1 := s in
  match c1 with
  | P_boot => [mk_wstate true tgt msip ssip fl c0 P_clear]
  | P_clear => [mk_wstate rdy tgt msip false fl c0 P_check]
  | P_check => [mk_wstate rdy tgt msip ssip fl c0 (if Nat.eqb tgt 0 then P_wfi else P_call)]
  | P_wfi => [mk_wstate rdy tgt msip ssip fl c0 P_sleep]
  | P_sleep => []
  | P_call => [mk_wstate rdy tgt msip ssip fl c0 (if Nat.eqb tgt 0 then P_null else P_run tgt)]
  | P_run f => [mk_wstate rdy tgt msip ssip (f :: fl) c0 P_return]
  | P_return => [mk_wstate rdy 0 msip ssip fl c0 P_clear]
  | P_null => []
  end.

(** [m_trap_handler] on hart 1: MSIP becomes SSIP; [s_trap_handler]: SSIP is
    cleared.  A sleeping hart continues after its [wfi]. *)
Definition interrupt1 (s : wstate) : list wstate :=
  let 'mk_wstate rdy tgt msip ssip fl c0 c1 := s in
  let awake := match c1 with P_sleep => P_check | _ => c1 end in
  if msip then [mk_wstate rdy tgt false true fl c0 awake]
  else if ssip then [mk_wstate rdy tgt msip false fl c0 awake]
  else [].

Definition wnext (s : wstate) : list wstate :=
  wake_core1_smode s ++ core1_smode_park_loop s ++ interrupt1 s.
End Wake.

(** Both harts at their entry; hart 1 asleep in its park loop. *)
Definition wboot : wstate := mk_wstate false 0 false false [] (K_ready 1) P_boot.
Definition wparked : wstate := mk_wstate true 0 false false [] (K_ready 1) P_sleep.

(** Hart 1 never jumps to a null pointer, and runs no function twice, and none
    that was not published. *)
Definition wake_safe (s : wstate) : bool :=
  negb (bool_decide (core1 s = P_null)) && bool_decide (NoDup (flags s)) &&
  match core0 s with
  | K_ready f | K_publish f => forallb (fun g => Nat.ltb g f) (flags s)
  | K_ipi f | K_wait f => forallb (fun g => Nat.leb g f) (flags s)
  | K_end => true
  end.

(** In every interleaving of two hand-overs from boot, hart 1 never calls through
    the cleared pointer, runs each function at most once, and runs none before it
    was published. *)
Theorem wake_runs_published s :
  steps (wnext 2) wboot s ->
  core1 s <> P_null /\ NoDup (flags s) /\
  (forall f, core0 s = K_publish f -> f ∉ flags s).
Proof.
  intros Hs. assert (wake_safe s = true) as H
    by (apply (always_sound (wnext 2) 60 wboot); [vm_compute; reflexivity|exact Hs]).
  unfold wake_safe in H. apply andb_true_iff in H as [[H1 H2]%andb_true_iff H3].
  split_and!.
  - by apply negb_true_iff, bool_decide_eq_false in H1.
  - by apply bool_decide_eq_true in H2.
  - intros f E Hin. rewrite E in H3. rewrite forallb_forall in H3.
    apply list_elem_of_In, H3, Nat.ltb_lt in Hin. lia.
Qed.

(** No step is possible. *)
Definition halted (last : nat) (s : wstate) : bool :=
  match wnext last s with [] => true | _ => false end.

(** Hart 1 asleep again, the function run once, hart 0 done. *)
Definition delivered (s : wstate) : bool :=
  bool_decide (core0 s = K_end) && bool_decide (core1 s = P_sleep) && bool_decide (flags s = [1%nat]).

Lemma delivered_spec s :
  delivered s = true -> core0 s = K_end /\ core1 s = P_sleep /\ flags s = [1%nat].
Proof.
  intros [[H1 H2]%andb_true_iff H3]%andb_true_iff. by apply bool_decide_eq_true in H1, H2, H3.
Qed.

Definition progresses (s : wstate) : bool :=
  (negb (halted 1 s) || delivered s) && existsb delivered (explore (wnext 1) 60 [s] [s]).

(** C34: When hart 1 sleeps in its park loop with the pointer clear, a hand-over always
    works: no interleaving gets stuck before hart 1 has run the function, once,
    and hart 0 has seen it; and that end can be reached from every state. *)
Theorem wake_parked_delivers s :
  steps (wnext 1) wparked s ->
  (wnext 1 s = [] -> core0 s = K_end /\ core1 s = P_sleep /\ flags s = [1%nat]) /\
  exists s', steps (wnext 1) s s' /\ core0 s' = K_end /\ flags s' = [1%nat].
Proof.
  intros Hs. assert (progresses s = true) as [H1 H2]%andb_true_iff
    by (apply (always_sound (wnext 1) 60 wparked); [vm_compute; reflexivity|exact Hs]).
  split.
  - intros E. apply delivered_spec. unfold halted in H1. by rewrite E in H1.
  - rewrite existsb_exists in H2. destruct H2 as (s' & Hin & Hf%delivered_spec). exists s'.
    split; [|by destruct Hf as (? & _ & ?)]. apply (explore_reaches _ 60). by apply list_elem_of_In.
Qed.

Lemma halted_reachable last p a :
  existsb (fun s => halted last s && p s) (explore (wnext last) 60 [a] [a]) = true ->
  exists s, steps (wnext last) a s /\ wnext last s = [] /\ p s = true.
Proof.
  rewrite existsb_exists. intros (s & Hin & [H1 H2]%andb_true_iff). exists s. split_and!; [| |done].
  - apply (explore_reaches _ 60). by apply list_elem_of_In.
  - unfold halted in H1. by destruct (wnext last s).
Qed.

(** C35: Two races lose a wake-up for good.  (1) The IPI arrives between hart 1's test
    of the pointer and its [wfi]: its handler clears the interrupt and the hart
    sleeps with the function published.  (2) Hart 0 publishes the next function
    after the previous one has set its flag and before hart 1 clears the pointer:
    the clear erases it.  In both states neither hart can step again. *)
Theorem wake_lost :
  (exists s, steps (wnext 1) wboot s /\ wnext 1 s = [] /\
     core0 s = K_wait 1 /\ core1 s = P_sleep /\ g_smode_target s = 1%nat) /\
  (exists s, steps (wnext 2) wparked s /\ wnext 2 s = [] /\
     core0 s = K_wait 2 /\ core1 s = P_sleep /\ g_smode_target s = 0%nat).
Proof.
  split.
  - destruct (halted_reachable 1 (fun s => bool_decide (core0 s = K_wait 1) && bool_decide (core1 s = P_sleep)
      && bool_decide (g_smode_target s = 1%nat)) wboot) as (s & H1 & H2 & H3); [vm_compute; reflexivity|].
    exists s. apply andb_true_iff in H3 as [[Ha Hb]%andb_true_iff Hc].
    apply bool_decide_eq_true in Ha, Hb, Hc. done.
  - destruct (halted_reachable 2 (fun s => bool_decide (core0 s = K_wait 2) && bool_decide (core1 s = P_sleep)
      && bool_decide (g_smode_target s = 0%nat)) wparked) as (s & H1 & H2 & H3); [vm_compute; reflexivity|].
    exists s. apply andb_true_iff in H3 as [[Ha Hb]%andb_true_iff Hc].
    apply bool_decide_eq_true in Ha, Hb, Hc. done.
Qed.

Lemma wake_runs_published_witness : core1 wboot <> P_null.
Proof. exact (proj1 (wake_runs_published wboot (star_refl _ wboot))). Defined.

Lemma wake_parked_delivers_witness :
  exists s', steps (wnext 1) wparked s' /\ core0 s' = K_end /\ flags s' = [1%nat].
Proof. exact (proj2 (wake_parked_delivers wparked (star_refl _ wparked))). Defined.
