(* ===== verification/ZTimer.v ===== *)
(** * The Zephyr suite's interrupt tests ([zephyr-suite/p2_interrupts])

    P2.1, P2.2, P2.3 and P2.5 with the timer's expiry function.  The kernel's timer,
    semaphore, [irq_lock], [irq_offload] and waits are an interface ([ClockApi]) with
    what Zephyr documents of them ([ClockLaws]).  While a call runs, time passes and
    the hart may take interrupts ([event]): one of those that are pending and enabled
    in its CSRs ([Hart.s_pending]), entered as the hart does ([STrap.s_entry]); the
    kernel's clock driver serves the supervisor timer interrupt and there announces
    the timeouts that are due, in the order of their deadlines.  That no expiry runs
    while interrupts are locked, and that a one-shot timer expires once and by the
    timer interrupt, is proved of this, not assumed.  P2.4 is in [ZSanity]; durations
    are microseconds, the kernel's time is in ticks. *)

From stdpp Require Import relations.
From S2P Require Import Prelude Platform Memory Sv39 Tlb Console Machine MTrap STrap Hart AllHarts.

(** ** The test's variables *)

Record p2 := mk_p2 {
  timer_count : Z;
  timer_cb_in_isr : bool;
  cb_scause : Z;
  cb_sie : Z;
  offload_ran : bool;
  offload_in_isr : bool
}.

(** What a routine sees of the hart: [k_is_in_isr()], [scause], [sie]. *)
Record ctx := mk_ctx { k_is_in_isr : bool; csr_scause : Z; csr_sie : Z }.

(** The hart's state in the handler of the interrupt [code] that it took in the state [w]. *)
Definition handler_ctx (w : world) (code pc : Z) : ctx :=
  let c := w_csrs (end_of (s_entry (interrupt_bit + code) 0 pc w)) in
  mk_ctx true (scause c) (mie c .& asm_MIDELEG_DEFAULT).
Definition clock_isr (c : ctx) : Prop :=
  exists w pc, s_pending w = Some IRQ_S_TIMER /\ c = handler_ctx w IRQ_S_TIMER pc.

Definition K_MSEC (ms : Z) : Z := ms * 1000.
Definition K_NO_WAIT : Z := 0.

(** ** The kernel *)

Class ClockApi (K : Type) := {
  K_SEM_MAX_LIMIT : Z;
  (** the ticks of a timeout, the ticks since boot *)
  timeout_ticks : Z -> Z;
  now : K -> Z;
  (** the semaphore's count; the timer's deadline and period; [sstatus.SIE] clear *)
  sem : K -> Z;
  armed : K -> option (Z * Z);
  locked : K -> bool;
  key_locked : Z -> bool;
  k_sem_give : K -> K;
  (** the calls of a thread, given the timer's expiry function *)
  k_timer_init : (ctx -> K * p2 -> K * p2) -> K * p2 -> K * p2;
  k_sem_init : (ctx -> K * p2 -> K * p2) -> K * p2 -> K * p2;
  k_timer_start : (ctx -> K * p2 -> K * p2) -> Z -> Z -> K * p2 -> K * p2;
  k_timer_stop : (ctx -> K * p2 -> K * p2) -> K * p2 -> K * p2;
  k_sem_reset : (ctx -> K * p2 -> K * p2) -> K * p2 -> K * p2;
  k_sem_take : (ctx -> K * p2 -> K * p2) -> Z -> K * p2 -> Z * (K * p2);
  k_msleep : (ctx -> K * p2 -> K * p2) -> Z -> K * p2 -> K * p2;
  k_busy_wait : (ctx -> K * p2 -> K * p2) -> Z -> K * p2 -> K * p2;
  irq_lock : (ctx -> K * p2 -> K * p2) -> K * p2 -> Z * (K * p2);
  irq_unlock : (ctx -> K * p2 -> K * p2) -> Z -> K * p2 -> K * p2;
  irq_offload : (ctx -> K * p2 -> K * p2) -> (ctx -> p2 -> p2) -> K * p2 -> K * p2
}.

Section Kernel.
Context `{ClockApi K}.
Context (expiry : ctx -> K * p2 -> K * p2).

(** Time passes, and nothing the tests see changes. *)
Record quiet (k k' : K) : Prop := {
  qu_now : now k <= now k';
  qu_sem : sem k' = sem k;
  qu_armed : armed k' = armed k;
  qu_locked : locked k' = locked k
}.

(** The clock driver's handler: each timer that is due is taken off the queue, put
    back if it has a period, and its expiry function called. *)
Inductive announced (c : ctx) : K * p2 -> K * p2 -> Prop :=
| an_end k k' u : quiet k k' -> announced c (k, u) (k', u)
| an_expiry k k1 u s d p :
    armed k = Some (d, p) -> d <= now k ->
    now k <= now k1 -> sem k1 = sem k -> locked k1 = locked k ->
    armed k1 = (if p =? 0 then None else Some (d + p, p)) ->
    announced c (expiry c (k1, u)) s -> announced c (k, u) s.

(** What the handler of the interrupt [code] does, in the hart's state [c]. *)
Definition handled (code : Z) (c : ctx) (s s' : K * p2) : Prop :=
  if code =? IRQ_S_TIMER then announced c s s' else quiet s.1 s'.1 /\ s'.2 = s.2.

(** What may happen while a thread runs or waits.  [irq_lock] is [sstatus.SIE]: the
    hart's state [w] and the kernel's agree on it. *)
Inductive event : K * p2 -> K * p2 -> Prop :=
| ev_time k k' u : quiet k k' -> event (k, u) (k', u)
| ev_interrupt w code pc s s' :
    s_pending w = Some code -> tst (mstatus (w_csrs w)) MSTATUS_SIE = negb (locked s.1) ->
    handled code (handler_ctx w code pc) s s' -> event s s'.

(** A call has its effect at some point of the time it takes. *)
Definition does (effect : K -> K -> Prop) (s s' : K * p2) : Prop :=
  exists k u k', rtc event s (k, u) /\ now k <= now k' /\ effect k k' /\ rtc event (k', u) s'.

(** The expiry function gives the semaphore. *)
Definition gives : Prop := forall c s, (expiry c s).1 = k_sem_give s.1.
Definition unchanged (k k' : K) : Prop := sem k' = sem k /\ armed k' = armed k /\ locked k' = locked k.
End Kernel.

Class ClockLaws (K : Type) `{ClockApi K} : Prop := {
  law_limit : 2 ^ 31 <= K_SEM_MAX_LIMIT;
  law_ticks a b : 0 <= a <= b -> 0 <= timeout_ticks a <= timeout_ticks b;
  law_sem k : 0 <= sem k;
  law_give k : now (k_sem_give k) = now k /\ armed (k_sem_give k) = armed k /\ locked (k_sem_give k) = locked k /\
    (sem k < K_SEM_MAX_LIMIT -> sem (k_sem_give k) = sem k + 1);
  law_timer_init f s : (k_timer_init f s).2 = s.2 /\ armed (k_timer_init f s).1 = None /\
    locked (k_timer_init f s).1 = locked s.1;
  law_sem_init f s : (k_sem_init f s).2 = s.2 /\ armed (k_sem_init f s).1 = armed s.1 /\
    locked (k_sem_init f s).1 = locked s.1 /\ sem (k_sem_init f s).1 = 0;
  (** a period below one tick becomes one *)
  law_timer_start f d p s : 0 <= d -> 0 <= p -> does f (fun k k' =>
    sem k' = sem k /\ locked k' = locked k /\ exists d' p', armed k' = Some (d', p') /\
      now k <= d' <= now k + timeout_ticks d /\
      (p = 0 /\ p' = 0 \/ 0 < p /\ 0 < p' <= timeout_ticks p)) s (k_timer_start f d p s);
  law_timer_stop f s : does f (fun k k' =>
    sem k' = sem k /\ armed k' = None /\ locked k' = locked k) s (k_timer_stop f s);
  law_sem_reset f s : does f (fun k k' =>
    sem k' = 0 /\ armed k' = armed k /\ locked k' = locked k) s (k_sem_reset f s);
  (** 0 is returned with the semaphore taken, another value when the wait's own timeout
      is announced, which the timers queued before it with no later deadline precede *)
  law_sem_take f timeout s : 0 <= timeout -> locked s.1 = false -> gives f -> does f (fun k k' =>
    armed k' = armed k /\ locked k' = locked k /\
    (if (k_sem_take f timeout s).1 =? 0 then 0 < sem k /\ sem k' = sem k - 1
     else sem k = 0 /\ sem k' = 0 /\
          forall d p, armed k = Some (d, p) -> now s.1 + timeout_ticks timeout < d)) s (k_sem_take f timeout s).2;
  law_msleep f ms s : does f unchanged s (k_msleep f ms s);
  law_busy_wait f us s : does f unchanged s (k_busy_wait f us s);
  law_irq_lock f s : does f (fun k k' =>
    sem k' = sem k /\ armed k' = armed k /\ locked k' = true) s (irq_lock f s).2;
  law_irq_key f s : key_locked (irq_lock f s).1 = locked s.1;
  law_irq_unlock f key s : does f (fun k k' =>
    sem k' = sem k /\ armed k' = armed k /\ locked k' = key_locked key) s (irq_unlock f key s);
  (** the routine runs once, as if by an interrupt *)
  law_irq_offload f routine s : exists k u k' c, rtc (event f) s (k, u) /\ now k <= now k' /\
    k_is_in_isr c = true /\ unchanged k k' /\ rtc (event f) (k', routine c u) (irq_offload f routine s)
}.

(** ** The tests *)

Section Tests.
Context {K : Type} {api : ClockApi K}.

(** [None]: an assertion failed, in the state beside it. *)
Definition TM (A : Type) : Type := K * p2 -> option A * (K * p2).
#[global] Instance TM_ret : MRet TM := fun A a s => (Some a, s).
#[global] Instance TM_bind : MBind TM := fun A B k m s =>
  match m s with
  | (Some a, s) => k a s
  | (None, s) => (None, s)
  end.

Definition call (f : K * p2 -> K * p2) : TM unit := fun s => (Some tt, f s).
Definition asks (f : K * p2 -> Z * (K * p2)) : TM Z := fun s => (Some (f s).1, (f s).2).
Definition var {A} (f : p2 -> A) : TM A := fun s => (Some (f s.2), s).
Definition assign (f : p2 -> p2) : TM unit := fun s => (Some tt, (s.1, f s.2)).
Definition zassert (b : bool) : TM unit := fun s => (if b then Some tt else None, s).

(** The part of [timer_expiry] before [k_sem_give]. *)
Definition expired (c : ctx) (u : p2) : p2 :=
  mk_p2 (s32 (timer_count u + 1)) (k_is_in_isr c) (csr_scause c) (csr_sie c) (offload_ran u) (offload_in_isr u).
Definition timer_expiry (c : ctx) (s : K * p2) : K * p2 := (k_sem_give s.1, expired c s.2).

Definition p2_setup : TM unit :=
  call (k_timer_init timer_expiry) ;;
  call (k_sem_init timer_expiry).

(** The page-fault hook is reset in [ZSanity.p2_before]. *)
Definition p2_before : TM unit :=
  call (k_timer_stop timer_expiry) ;;
  call (k_sem_reset timer_expiry) ;;
  assign (fun u => mk_p2 0 false 0 0 (offload_ran u) (offload_in_isr u)).

Definition test_timer_irq_fires_once : TM unit :=
  call (k_timer_start timer_expiry (K_MSEC 10) K_NO_WAIT) ;;
  rc ← asks (k_sem_take timer_expiry (K_MSEC 100));
  zassert (rc =? 0) ;;
  in_isr ← var timer_cb_in_isr;
  zassert in_isr ;;
  scause ← var cb_scause;
  zassert (scause =? interrupt_bit .| IRQ_S_TIMER) ;;
  sie ← var cb_sie;
  zassert (negb (sie .& (1 .<< IRQ_S_TIMER) =? 0)) ;;
  (** one-shot: give it room to misfire, then check the count is still 1 *)
  call (k_msleep timer_expiry 30) ;;
  count ← var timer_count;
  zassert (count =? 1).

Definition offload_handler (c : ctx) (u : p2) : p2 :=
  mk_p2 (timer_count u) (timer_cb_in_isr u) (cb_scause u) (cb_sie u) true (k_is_in_isr c).

Definition test_soft_irq_via_offload : TM unit :=
  assign (fun u => mk_p2 (timer_count u) (timer_cb_in_isr u) (cb_scause u) (cb_sie u) false false) ;;
  call (irq_offload timer_expiry offload_handler) ;;
  ran ← var offload_ran;
  zassert ran ;;
  in_isr ← var offload_in_isr;
  zassert in_isr.

(** [for (int i = 0; i < want; i++)] *)
Fixpoint take_expiries (n : nat) : TM unit :=
  match n with
  | O => mret tt
  | S n' =>
      rc ← asks (k_sem_take timer_expiry (K_MSEC 100));
      zassert (rc =? 0) ;;
      take_expiries n'
  end.

Definition want : nat := 5.
Definition test_timer_irq_repeats : TM unit :=
  call (k_timer_start timer_expiry (K_MSEC 5) (K_MSEC 5)) ;;
  take_expiries want ;;
  call (k_timer_stop timer_expiry) ;;
  count ← var timer_count;
  zassert (Z.of_nat want <=? count).

Definition test_irq_lock_masks_timer : TM unit :=
  key ← asks (irq_lock timer_expiry);
  call (k_timer_start timer_expiry (K_MSEC 5) K_NO_WAIT) ;;
  (** spin well past the expiry without sleeping (can't sleep locked) *)
  call (k_busy_wait timer_expiry (20 * 1000)) ;;
  count ← var timer_count;
  zassert (count =? 0) ;;
  call (irq_unlock timer_expiry key) ;;
  (** pending IRQ must be delivered now *)
  rc ← asks (k_sem_take timer_expiry (K_MSEC 100));
  zassert (rc =? 0) ;;
  count ← var timer_count;
  zassert (count =? 1).

Context {laws : ClockLaws K}.

(** ** What the expiry function leaves *)

Lemma timer_gives : gives timer_expiry.
Proof using. done. Qed.

Lemma clock_isr_reads c : clock_isr c ->
  k_is_in_isr c = true /\ csr_scause c = interrupt_bit .| IRQ_S_TIMER /\
  negb (csr_sie c .& (1 .<< IRQ_S_TIMER) =? 0) = true.
Proof using.
  intros (w & pc & Hp & ->). split_and!; [done|done|].
  change (tst (mie (w_csrs w) .& asm_MIDELEG_DEFAULT) (2 ^ 5) = true).
  rewrite tst_bit, Z.land_spec, andb_true_r by lia. unfold s_pending in Hp.
  destruct (tst (mstatus _) _), (tst (s_ready w) SIP_SEIP), (tst (s_ready w) SIP_SSIP); try discriminate Hp.
  destruct (tst (s_ready w) SIP_STIP) eqn:Hs; [|discriminate Hp].
  change SIP_STIP with (2 ^ 5) in Hs. unfold s_ready in Hs.
  rewrite tst_bit, !Z.land_spec in Hs by lia. by apply andb_true_iff in Hs as [[_ ?]%andb_true_iff _].
Qed.

Definition expired_all (l : list ctx) (u : p2) : p2 := foldl (fun u c => expired c u) u l.

Lemma expired_all_count l : forall u, s32 (timer_count u) = timer_count u ->
  timer_count (expired_all l u) = s32 (timer_count u + Z.of_nat (length l)).
Proof using.
  induction l as [|c l IH]; intros u Hu; cbn [expired_all foldl length].
  - by rewrite Z.add_0_r.
  - fold (expired_all l (expired c u)). rewrite IH; cbn [expired timer_count]; [|apply s32_idem].
    rewrite s32_add_l. f_equal. lia.
Qed.

(** ** The expiries in an interval

    [l] are the handlers that ran an expiry between [s] and [s']. *)

Definition rearmed (a : option (Z * Z)) (n : Z) : option (Z * Z) :=
  match a with
  | None => None
  | Some (d, p) => if n =? 0 then a else if p =? 0 then None else Some (d + n * p, p)
  end.
Definition due (a : option (Z * Z)) (n t : Z) : Prop :=
  match a with
  | None => n = 0
  | Some (d, p) => n = 0 \/ 0 < n /\ d + (n - 1) * p <= t /\ (p = 0 -> n = 1)
  end.

Record Ran (l : list ctx) (s s' : K * p2) : Prop := {
  ra_isrs : Forall clock_isr l;
  ra_vars : s'.2 = expired_all l s.2;
  ra_locked : locked s'.1 = locked s.1;
  ra_held : locked s.1 = true -> l = [];
  ra_now : now s.1 <= now s'.1;
  ra_sem : sem s.1 + Z.of_nat (length l) <= 2 ^ 31 -> sem s'.1 = sem s.1 + Z.of_nat (length l);
  ra_armed : armed s'.1 = rearmed (armed s.1) (Z.of_nat (length l));
  ra_due : due (armed s.1) (Z.of_nat (length l)) (now s'.1)
}.

Lemma rearmed_zero a : rearmed a 0 = a.
Proof using. by destruct a as [[]|]. Qed.

Lemma ran_quiet k k' u : quiet k k' -> Ran [] (k, u) (k', u).
Proof using.
  intros [Hn Hs Ha Hl]. split; cbn; try done; [lia|by rewrite rearmed_zero|].
  destruct (armed k) as [[]|]; [by left|done].
Qed.

Lemma rearmed_add a n m t : 0 <= n -> 0 <= m -> due a n t -> rearmed (rearmed a n) m = rearmed a (n + m).
Proof using.
  intros Hn Hm Hd. destruct a as [[d p]|]; [|done]. cbn in *.
  destruct (Z.eqb_spec n 0) as [->|]; [done|]. rewrite (proj2 (Z.eqb_neq (n + m) 0)) by lia.
  destruct (Z.eqb_spec p 0); [done|]. cbn. destruct (Z.eqb_spec m 0) as [->|].
  - by rewrite Z.add_0_r.
  - rewrite (proj2 (Z.eqb_neq p 0)) by done. do 2 f_equal. lia.
Qed.

Lemma due_add a n m t t' : 0 <= n -> 0 <= m -> t <= t' ->
  due a n t -> due (rearmed a n) m t' -> due a (n + m) t'.
Proof using.
  intros Hn Hm Ht. destruct a as [[d p]|]; cbn; [|lia].
  destruct (Z.eqb_spec n 0) as [->|].
  - intros _ [->|(? & ? & ?)]; [by left|right; rewrite Z.add_0_l; split_and!; (done || lia)].
  - intros [?|(? & ? & Hp)]; [lia|]. destruct (Z.eqb_spec p 0) as [->|]; cbn.
    + intros ->. right. rewrite Z.add_0_r. split_and!; (done || lia).
    + intros [->|(? & ? & ?)]; right; split_and!; (lia || nia).
Qed.

Lemma ran_trans l l' s1 s2 s3 : Ran l s1 s2 -> Ran l' s2 s3 -> Ran (l ++ l') s1 s3.
Proof using laws.
  intros [I1 V1 L1 H1 N1 S1 A1 D1] [I2 V2 L2 H2 N2 S2 A2 D2].
  split; rewrite ?length_app, ?Nat2Z.inj_add.
  - by apply Forall_app.
  - rewrite V2, V1. unfold expired_all. by rewrite foldl_app.
  - congruence.
  - intros Hl. rewrite H1, H2 by congruence. done.
  - lia.
  - intros Hle. rewrite S2, S1 by (try rewrite S1; lia). lia.
  - rewrite A2, A1. apply (rearmed_add _ _ _ (now s2.1)); (done || lia).
  - rewrite A1 in D2. by apply (due_add _ _ _ (now s2.1)); (done || lia).
Qed.

(** One expiry. *)
Lemma ran_expiry c k k1 u d p :
  clock_isr c -> locked k = false -> armed k = Some (d, p) -> d <= now k ->
  now k <= now k1 -> sem k1 = sem k -> locked k1 = locked k ->
  armed k1 = (if p =? 0 then None else Some (d + p, p)) ->
  Ran [c] (k, u) (timer_expiry c (k1, u)).
Proof using laws.
  intros Hc Hl Ha Hd Hn Hs Hl1 Ha1. destruct (law_give k1) as (Gn & Ga & Gl & Gs). pose proof law_limit.
  split; cbn [fst snd timer_expiry length]; change (Z.of_nat 1) with 1.
  - by repeat constructor.
  - done.
  - congruence.
  - congruence.
  - lia.
  - intros Hle. rewrite Gs by lia. lia.
  - rewrite Ga, Ha1, Ha. cbn. destruct (p =? 0); [done|]. by rewrite Z.mul_1_l.
  - rewrite Ha. right. split_and!; (done || lia).
Qed.

Lemma announced_ran c s s' : clock_isr c -> locked s.1 = false -> announced timer_expiry c s s' ->
  exists l, Ran l s s'.
Proof using laws.
  intros Hc Hl Ha. induction Ha as [k k' u Hq|k k1 u s d p Ha Hd Hn Hs Hk1 Ha1 _ IH]; cbn [fst] in *.
  - exists []. by apply ran_quiet.
  - pose proof (ran_expiry c k k1 u d p Hc Hl Ha Hd Hn Hs Hk1 Ha1) as Hr.
    destruct IH as [l Hr']; [by rewrite (ra_locked _ _ _ Hr)|].
    exists ([c] ++ l). by eapply ran_trans.
Qed.

(** Interrupts are taken with [sstatus.SIE] set, and only the supervisor timer's
    handler runs expiries. *)
Lemma event_ran s s' : event timer_expiry s s' -> exists l, Ran l s s'.
Proof using laws.
  intros [k k' u Hq|w code pc s1 s1' Hp Hsie Hh]; [exists []; by apply ran_quiet|].
  assert (locked s1.1 = false) as Hl.
  { unfold s_pending in Hp. rewrite Hsie in Hp. by destruct (locked s1.1). }
  unfold handled in Hh. destruct (Z.eqb_spec code IRQ_S_TIMER) as [->|_].
  - apply (announced_ran _ _ _ (ex_intro _ w (ex_intro _ pc (conj Hp eq_refl))) Hl Hh).
  - destruct s1 as [k u], s1' as [k' u'], Hh as [Hq Hu]. cbn in Hu. subst u'.
    exists []. by apply ran_quiet.
Qed.

Lemma events_ran s s' : rtc (event timer_expiry) s s' -> exists l, Ran l s s'.
Proof using laws.
  induction 1 as [s|s1 s2 s3 Hs _ [l' IH]].
  - exists []. destruct s as [k u]. by apply ran_quiet.
  - destruct (event_ran _ _ Hs) as [l Hl]. exists (l ++ l'). by eapply ran_trans.
Qed.

(** A call: expiries before its effect, expiries after. *)
Lemma does_ran effect s s' : does timer_expiry effect s s' ->
  exists l k u k' l', Ran l s (k, u) /\ now k <= now k' /\ effect k k' /\ Ran l' (k', u) s'.
Proof using laws.
  intros (k & u & k' & H1 & Hn & He & H2).
  destruct (events_ran _ _ H1) as [l Hl], (events_ran _ _ H2) as [l' Hl']. by exists l, k, u, k', l'.
Qed.

(** Nothing armed: no expiry. *)
Lemma ran_idle l s s' : Ran l s s' -> armed s.1 = None -> sem s.1 <= 2 ^ 31 ->
  l = [] /\ armed s'.1 = None /\ sem s'.1 = sem s.1 /\ s'.2 = s.2.
Proof using.
  intros [_ Hv _ _ _ Hs Ha Hd] Hn H0. rewrite Hn in *. cbn in Ha, Hd.
  destruct l; [|cbn in Hd; lia]. cbn in *. split_and!; (done || lia).
Qed.

(** Interrupts locked: no expiry. *)
Lemma ran_locked l s s' : Ran l s s' -> locked s.1 = true -> sem s.1 <= 2 ^ 31 ->
  locked s'.1 = true /\ armed s'.1 = armed s.1 /\ sem s'.1 = sem s.1 /\ s'.2 = s.2.
Proof using.
  intros [_ Hv Hl Hh _ Hs Ha _] Hk H0. rewrite Hh in * by done. cbn in *. rewrite rearmed_zero in Ha.
  split_and!; (congruence || lia).
Qed.

(** The state the tests start from. *)
Record fresh (s : K * p2) : Prop := {
  fr_sem : sem s.1 = 0;
  fr_armed : armed s.1 = None;
  fr_locked : locked s.1 = false;
  fr_count : timer_count s.2 = 0
}.

Lemma p2_before_fresh s : locked s.1 = false ->
  exists s', p2_before s = (Some tt, s') /\ fresh s' /\ now s.1 <= now s'.1.
Proof using laws.
  intros Hl. eexists. split; [reflexivity|].
  destruct (does_ran _ _ _ (law_timer_stop timer_expiry s)) as (l1 & k1 & u1 & k1' & l1' & R1 & N1 & (_ & A1 & L1) & R1').
  set (s1 := k_timer_stop timer_expiry s) in *.
  destruct (does_ran _ _ _ (law_sem_reset timer_expiry s1)) as (l2 & k2 & u2 & k2' & l2' & R2 & N2 & (S2 & A2 & L2) & R2').
  set (s2 := k_sem_reset timer_expiry s1) in *.
  pose proof (ra_armed _ _ _ R1') as A1'. pose proof (ra_armed _ _ _ R2) as A2'. cbn in *.
  rewrite A1 in A1'. cbn in A1'. rewrite A1' in A2'. cbn in A2'. rewrite A2' in A2.
  destruct (ran_idle _ _ _ R2' A2) as (_ & A3 & S3 & _); [cbn; lia|].
  pose proof (ra_locked _ _ _ R1). pose proof (ra_locked _ _ _ R1'). pose proof (ra_locked _ _ _ R2).
  pose proof (ra_locked _ _ _ R2'). pose proof (ra_now _ _ _ R1). pose proof (ra_now _ _ _ R1').
  pose proof (ra_now _ _ _ R2). pose proof (ra_now _ _ _ R2'). cbn in *.
  split; [|lia]. split; cbn; congruence.
Qed.

(** *** A one-shot timer

    Started with the variables [v] and a deadline no later than [lim], it is still to
    expire, or has expired once. *)
Definition to_come (lim : Z) (v : p2) (s : K * p2) : Prop :=
  sem s.1 = 0 /\ s.2 = v /\ exists d, armed s.1 = Some (d, 0) /\ d <= lim.
Definition gone (v : p2) (s : K * p2) : Prop :=
  sem s.1 = 1 /\ armed s.1 = None /\ exists c, clock_isr c /\ s.2 = expired c v.

Lemma ran_one_shot l lim v s s' : Ran l s s' -> to_come lim v s \/ gone v s ->
  to_come lim v s' /\ l = [] \/ gone v s'.
Proof using.
  intros HR [(H0 & Hv & d & Ha & Hd)|(H1 & Ha & c & Hc & Hv)].
  - destruct HR as [Hi Hu _ _ _ Hs Har Hdue]. rewrite Ha, H0 in *. cbn in Har, Hdue.
    destruct l as [|c [|c' l]]; cbn [length] in *.
    + left. split; [|done]. split_and!; [rewrite Hs; lia|by rewrite Hu|by exists d].
    + right. split_and!; [rewrite Hs; lia|exact Har|]. exists c. split; [by inversion_clear Hi|by rewrite Hu, Hv].
    + exfalso. destruct Hdue as [?|(_ & _ & Hn)]; [lia|]. specialize (Hn eq_refl). lia.
  - right. destruct (ran_idle _ _ _ HR Ha) as (_ & Ha' & Hs' & Hv'); [lia|].
    split_and!; [congruence..|]. exists c. split; congruence.
Qed.

(** Starting it from a fresh state, interrupts locked or not. *)
Lemma start_one_shot s d : 0 <= d -> sem s.1 = 0 -> armed s.1 = None ->
  let s' := k_timer_start timer_expiry d K_NO_WAIT s in
  locked s'.1 = locked s.1 /\ now s.1 <= now s'.1 /\
  let lim := now s'.1 + timeout_ticks d in
  (to_come lim s.2 s' \/ gone s.2 s') /\ (locked s.1 = true -> to_come lim s.2 s').
Proof using laws.
  intros Hd H0 Ha s'.
  destruct (does_ran _ _ _ (law_timer_start timer_expiry d K_NO_WAIT s Hd ltac:(done)))
    as (l & k & u & k' & l' & R1 & N & (S & L & d' & p' & A & D & [[_ ->]|[? _]]) & R2); [|unfold K_NO_WAIT in *; lia].
  fold s' in R2. clearbody s'. destruct (ran_idle _ _ _ R1 Ha) as (-> & A1 & S1 & V1); [lia|].
  pose proof (ra_locked _ _ _ R1). pose proof (ra_locked _ _ _ R2). pose proof (ra_now _ _ _ R1).
  pose proof (ra_now _ _ _ R2). cbn in *. subst u.
  assert (to_come (now s'.1 + timeout_ticks d) s.2 (k', s.2)) as Hc
    by (split_and!; [cbn; lia|done|exists d'; split; [done|lia]]).
  destruct (ran_one_shot _ _ _ _ _ R2 (or_introl Hc)) as [[Hs' _]|Hs'].
  - split_and!; [congruence|lia|by left|done].
  - split_and!; [congruence|lia|by right|]. intros Hk.
    pose proof (ra_held _ _ _ R2) as Hh. cbn in Hh. destruct Hs' as (Hgone & _).
    pose proof (ra_sem _ _ _ R2) as Hs. rewrite Hh in Hs by congruence. cbn in Hs. lia.
Qed.

(** The semaphore is then taken, after exactly one expiry. *)
Lemma take_one_shot lim v s timeout : 0 <= timeout -> locked s.1 = false ->
  lim <= now s.1 + timeout_ticks timeout -> to_come lim v s \/ gone v s ->
  (k_sem_take timer_expiry timeout s).1 = 0 /\
  let s' := (k_sem_take timer_expiry timeout s).2 in
  locked s'.1 = false /\ armed s'.1 = None /\ sem s'.1 = 0 /\ exists c, clock_isr c /\ s'.2 = expired c v.
Proof using laws.
  intros Ht Hl Hlim Hs.
  destruct (does_ran _ _ _ (law_sem_take timer_expiry timeout s Ht Hl timer_gives))
    as (l & k & u & k' & l' & R1 & N & (A & L & Hrc) & R2).
  pose proof (ra_locked _ _ _ R1) as L1. pose proof (ra_locked _ _ _ R2) as L2. cbn in L1, L2.
  destruct (ran_one_shot _ _ _ _ _ R1 Hs) as [[(H0 & _ & d & Ha & Hd) _]|(H1 & Ha & c & Hc & Hv)]; cbn in *.
  - exfalso. destruct (_ =? 0); [lia|]. destruct Hrc as (_ & _ & Hq). specialize (Hq d 0 Ha). lia.
  - destruct (Z.eqb_spec (k_sem_take timer_expiry timeout s).1 0) as [E|_]; [|lia].
    destruct (ran_idle _ _ _ R2) as (_ & A3 & S3 & V3); [cbn; congruence|cbn; lia|]. cbn in *.
    split_and!; [exact E|congruence|exact A3|lia|]. exists c. split; congruence.
Qed.

(** ** The tests pass *)

(** One statement: a call, a variable read, a call with a result. *)
Lemma then_call {B} (m : TM B) f s : (call f ;; m) s = m (f s).
Proof using. done. Qed.
Lemma then_assign {B} (m : TM B) f s : (assign f ;; m) s = m (s.1, f s.2).
Proof using. done. Qed.
Lemma then_var {A B} (k : A -> TM B) f s : (var f ≫= k) s = k (f s.2) s.
Proof using. done. Qed.
Lemma then_asks {B} (k : Z -> TM B) f s : (asks f ≫= k) s = k (f s).1 (f s).2.
Proof using. done. Qed.
Lemma then_assert {B} (m : TM B) b s : b = true -> (zassert b ;; m) s = m s.
Proof using. by intros ->. Qed.
Lemma then_returns {A B} (m : TM A) (k : A -> TM B) s a s' : m s = (Some a, s') -> (m ≫= k) s = k a s'.
Proof using. unfold mbind, TM_bind. by intros ->. Qed.
Lemma then_fails {A B} (m : TM A) (k : A -> TM B) s s' : m s = (None, s') -> (m ≫= k) s = (None, s').
Proof using. unfold mbind, TM_bind. by intros ->. Qed.
Lemma zassert_true b s : b = true -> zassert b s = (Some tt, s).
Proof using. by intros ->. Qed.

Ltac calls := rewrite then_call.
Ltac reads := rewrite then_var; cbv beta.
Ltac takes := rewrite then_asks; cbv beta.

(** It returns, with every assertion passed and interrupts unlocked. *)
Definition ends (r : option unit * (K * p2)) : Prop := r.1 = Some tt /\ locked r.2.1 = false.
Definition passes (test : TM unit) (s : K * p2) : Prop := ends ((p2_before ;; test) s).

Lemma passes_fresh test s : locked s.1 = false -> (forall s, fresh s -> ends (test s)) -> passes test s.
Proof using laws.
  intros Hl Ht. destruct (p2_before_fresh s Hl) as (s1 & E & Hf & _). unfold passes.
  rewrite (then_returns _ _ _ _ _ E). by apply Ht.
Qed.

Lemma ticks_le a b : 0 <= a <= b -> timeout_ticks a <= timeout_ticks b.
Proof using laws. intros H. apply (law_ticks a b H). Qed.

Lemma fires_once s : fresh s -> ends (test_timer_irq_fires_once s).
Proof using laws.
  intros [H0 Ha Hl Hc]. unfold test_timer_irq_fires_once, K_MSEC. calls.
  destruct (start_one_shot s (10 * 1000) ltac:(lia) H0 Ha) as (Hl1 & _ & Hs & _).
  set (s1 := k_timer_start _ _ _ _) in *. pose proof (ticks_le (10 * 1000) (100 * 1000) ltac:(lia)).
  destruct (take_one_shot (now s1.1 + timeout_ticks (10 * 1000)) s.2 s1 (100 * 1000) ltac:(lia)
    ltac:(congruence) ltac:(by apply Zplus_le_compat_l) Hs)
    as (E & Hl2 & Ha2 & H2 & c & Hi & Hv2).
  takes. rewrite E. set (s2 := (k_sem_take _ _ s1).2) in *. rewrite then_assert by done.
  destruct (clock_isr_reads c Hi) as (Hin & Hsc & Hsie).
  reads. rewrite then_assert by (by rewrite Hv2).
  reads. rewrite then_assert by (rewrite Hv2; by apply Z.eqb_eq).
  reads. rewrite then_assert by (by rewrite Hv2). calls.
  destruct (does_ran _ _ _ (law_msleep timer_expiry 30 s2)) as (l & k & u & k' & l' & R1 & _ & (S3 & A3 & L3) & R2).
  destruct (ran_idle _ _ _ R1 Ha2) as (_ & A4 & S4 & V4); [lia|]. cbn in *.
  destruct (ran_idle _ _ _ R2) as (_ & _ & _ & V5); [cbn; congruence|cbn; lia|]. cbn in *.
  pose proof (ra_locked _ _ _ R1). pose proof (ra_locked _ _ _ R2). cbn in *.
  reads. rewrite zassert_true; [split; [done|cbn; congruence]|].
  rewrite V5, V4, Hv2. cbn [expired timer_count]. by rewrite Hc.
Qed.

Lemma soft_irq s : fresh s -> ends (test_soft_irq_via_offload s).
Proof using laws.
  intros [H0 Ha Hl Hc]. unfold test_soft_irq_via_offload.
  set (s1 := (s.1, mk_p2 (timer_count s.2) (timer_cb_in_isr s.2) (cb_scause s.2) (cb_sie s.2) false false)).
  rewrite then_assign. fold s1. calls.
  destruct (law_irq_offload timer_expiry offload_handler s1)
    as (k & u & k' & c & E1 & _ & Hin & (S & A & L) & E2).
  set (s2 := irq_offload _ _ s1) in *. destruct (events_ran _ _ E1) as [l R1], (events_ran _ _ E2) as [l' R2].
  destruct (ran_idle _ _ _ R1 Ha) as (_ & A1 & S1 & V1); [cbn; lia|]. cbn in *.
  destruct (ran_idle _ _ _ R2) as (_ & _ & _ & V2); [cbn; congruence|cbn; lia|]. cbn in *.
  pose proof (ra_locked _ _ _ R1). pose proof (ra_locked _ _ _ R2). cbn in *.
  reads. rewrite then_assert by (by rewrite V2). reads.
  rewrite zassert_true; [split; [done|cbn; congruence]|]. by rewrite V2.
Qed.

(** *** The periodic timer

    Started at the time [t0]; [i] of its [n] expiries were taken, none was lost.  The
    semaphore's count and [timer_count] stay exact for 2^31 ticks. *)
Record ticking (t0 i : Z) (s : K * p2) : Prop := {
  ti_locked : locked s.1 = false;
  ti_now : t0 <= now s.1;
  ti_run : exists n d p, 0 <= n /\ 0 < p <= timeout_ticks (K_MSEC 5) /\ t0 <= d /\
    armed s.1 = Some (d + n * p, p) /\ d + n * p <= now s.1 + timeout_ticks (K_MSEC 5) /\
    (0 < n -> d + (n - 1) * p <= now s.1) /\
    timer_count s.2 = s32 n /\ (n <= 2 ^ 31 -> sem s.1 + i = n)
}.

Lemma ran_ticking l t0 i s s' : Ran l s s' -> 0 <= i -> ticking t0 i s -> ticking t0 i s'.
Proof using laws.
  intros HR Hi [Hl Hn (n & d & p & H0 & Hp & Hd & Ha & Hnext & Hlast & Hc & Hs)].
  pose proof HR as [_ Hv Hl' _ Hnow Hsem Har Hdue]. rewrite Ha in Har, Hdue. cbn in Har, Hdue.
  set (m := Z.of_nat (length l)) in *. assert (0 <= m) as Hm by lia.
  split; [congruence|lia|]. exists (n + m), d, p. pose proof (law_sem s.1).
  split; [lia|]. split; [done|]. split; [done|].
  split; [rewrite Har; destruct (Z.eqb_spec m 0) as [->|]; [by rewrite Z.add_0_r|]|].
  { rewrite (proj2 (Z.eqb_neq p 0)) by lia. do 2 f_equal. lia. }
  split; [destruct Hdue as [->|(? & ? & ?)]; nia|].
  split; [intros ?; destruct Hdue as [->|(? & ? & ?)]; [|nia]; rewrite Z.add_0_r in *; lia|].
  split.
  - rewrite Hv, expired_all_count, Hc by (rewrite Hc; apply s32_idem). fold m. apply s32_add_l.
  - intros Hle. rewrite Hsem by lia. lia.
Qed.

Lemma start_ticking s : fresh s ->
  let s' := k_timer_start timer_expiry (K_MSEC 5) (K_MSEC 5) s in
  exists t0, now s.1 <= t0 /\ ticking t0 0 s'.
Proof using laws.
  intros [H0 Ha Hl Hc] s'.
  destruct (does_ran _ _ _ (law_timer_start timer_expiry (K_MSEC 5) (K_MSEC 5) s ltac:(done) ltac:(done)))
    as (l & k & u & k' & l' & R1 & N & (S & L & d' & p' & A & D & [[? _]|[_ P]]) & R2); [done|].
  destruct (ran_idle _ _ _ R1 Ha) as (_ & _ & S1 & V1); [lia|].
  pose proof (ra_locked _ _ _ R1). pose proof (ra_now _ _ _ R1). cbn in *.
  exists (now k). split; [lia|]. apply (ran_ticking l' _ _ _ _ R2); [done|].
  split; cbn; [congruence|lia|]. exists 0, d', p'. rewrite Z.mul_0_l, Z.add_0_r.
  split_and!; try (done || lia). by rewrite V1, Hc.
Qed.

(** The time of a test is short of 2^30 ticks: the counters do not overflow. *)
Definition short (t0 : Z) (s : K * p2) : Prop := now s.1 < t0 + 2 ^ 30.

Lemma ticking_count t0 i s : ticking t0 i s -> short t0 s -> timer_count s.2 = sem s.1 + i.
Proof using.
  intros [_ _ (n & d & p & H0 & Hp & Hd & _ & _ & Hlast & -> & Hs)] Hshort. unfold short in *.
  assert (n < 2 ^ 31) by (destruct (Z.eq_dec n 0); nia).
  rewrite s32_small by lia. rewrite <- Hs; lia.
Qed.

Lemma take_ticking t0 i s : 0 <= i -> ticking t0 i s ->
  let r := k_sem_take timer_expiry (K_MSEC 100) s in
  (r.1 = 0 -> ticking t0 (i + 1) r.2) /\ (r.1 <> 0 -> ~ short t0 r.2).
Proof using laws.
  intros Hi Ht r. unfold r. clear r.
  destruct (does_ran _ _ _ (law_sem_take timer_expiry (K_MSEC 100) s ltac:(done) (ti_locked _ _ _ Ht) timer_gives))
    as (l & k & u & k' & l' & R1 & N & (A & L & Hrc) & R2).
  set (r := k_sem_take timer_expiry (K_MSEC 100) s) in *.
  pose proof (ran_ticking _ _ _ _ _ R1 Hi Ht) as Ht1. split; intros E.
  - rewrite E in Hrc. cbn in Hrc. apply (ran_ticking l' _ _ _ _ R2); [lia|].
    destruct Ht1 as [Hl Hn (n & d & p & H0 & Hp & Hd & Ha & Hnext & Hlast & Hc & Hs)]. cbn in *.
    split; cbn; [congruence|lia|]. exists n, d, p. split_and!; try (done || lia); congruence.
  - rewrite (proj2 (Z.eqb_neq _ _) E) in Hrc. destruct Hrc as (H0 & _ & Hq). intros Hshort.
    unfold short in Hshort. pose proof (ra_now _ _ _ R2) as Hn2.
    destruct Ht as [_ _ (n & d & p & Hn0 & Hp & Hd & Ha & Hnext & _ & _ & Hs)].
    pose proof (ra_armed _ _ _ R1) as Har. pose proof (ra_due _ _ _ R1) as Hdue.
    pose proof (ra_sem _ _ _ R1) as Hsem. rewrite Ha in *. cbn in *.
    destruct (Z.eqb_spec (Z.of_nat (length l)) 0) as [El|Hl].
    + specialize (Hq _ _ Har). pose proof (ticks_le (K_MSEC 5) (K_MSEC 100) ltac:(by vm_compute)). lia.
    + destruct Hdue as [?|(? & Hdue & _)]; [lia|].
      assert (n + Z.of_nat (length l) <= 2 ^ 30) by nia. pose proof (law_sem s.1). lia.
Qed.

Lemma take_all t0 n : forall i s, 0 <= i -> ticking t0 i s ->
  (exists s', take_expiries n s = (Some tt, s') /\ ticking t0 (i + Z.of_nat n) s') \/
  (exists s', take_expiries n s = (None, s') /\ ~ short t0 s').
Proof using laws.
  induction n as [|n IH]; intros i s Hi Ht; cbn [take_expiries].
  { left. exists s. split; [done|]. by replace (i + Z.of_nat 0) with i by lia. }
  destruct (take_ticking t0 i s Hi Ht) as [Hok Hko]. takes. set (r := k_sem_take _ _ s) in *.
  destruct (Z.eqb_spec r.1 0) as [E|E].
  - rewrite then_assert by done. replace (i + Z.of_nat (S n)) with (i + 1 + Z.of_nat n) by lia.
    apply IH; [lia|auto].
  - right. exists r.2. split; [|auto]. done.
Qed.

Lemma repeats s : fresh s ->
  let r := test_timer_irq_repeats s in short (now s.1) r.2 -> ends r.
Proof using laws.
  intros Hf r. unfold r. clear r. unfold test_timer_irq_repeats. calls.
  destruct (start_ticking s Hf) as (t0 & Ht0 & Ht). set (s1 := k_timer_start _ _ _ s) in *.
  destruct (take_all t0 want 0 s1 ltac:(done) Ht) as [(s2 & E & Ht2)|(s2 & E & Hlong)].
  2: { rewrite (then_fails _ _ _ _ E). unfold short in *. cbn. intros ?. exfalso. lia. }
  rewrite (then_returns _ _ _ _ _ E). calls.
  destruct (does_ran _ _ _ (law_timer_stop timer_expiry s2)) as (l & k & u & k' & l' & R1 & N & (S & A & L) & R2).
  set (s3 := k_timer_stop _ s2) in *. reads. intros Hshort.
  pose proof (ran_ticking _ _ _ _ _ R1 (Zle_0_nat want) Ht2) as Ht3.
  pose proof (ra_locked _ _ _ R2). pose proof (ra_now _ _ _ R2). pose proof (law_sem k). unfold short in Hshort. cbn in *.
  assert (timer_count s3.2 = sem k + 5) as Hcount.
  { rewrite (ra_vars _ _ _ R2). pose proof (ra_due _ _ _ R2) as Hdue. cbn in Hdue. rewrite A in Hdue. cbn in Hdue.
    destruct l'; [|cbn in Hdue; lia]. apply (ticking_count t0 _ _ Ht3). unfold short. cbn. lia. }
  rewrite zassert_true; [split; [done|cbn; rewrite H, L; exact (ti_locked _ _ _ Ht3)]|].
  rewrite Hcount. apply Z.leb_le. unfold want. lia.
Qed.

(** Masked, the expiry waits; released, it runs once. *)
Lemma lock_masks s : fresh s -> ends (test_irq_lock_masks_timer s).
Proof using laws.
  intros [H0 Ha Hl Hc]. unfold test_irq_lock_masks_timer, K_MSEC. takes. calls.
  destruct (does_ran _ _ _ (law_irq_lock timer_expiry s)) as (l & k & u & k' & l' & R1 & _ & (S & A & L) & R2).
  pose proof (law_irq_key timer_expiry s) as Hkey. rewrite Hl in Hkey.
  set (key := (irq_lock _ s).1) in *. set (s1 := (irq_lock _ s).2) in *.
  destruct (ran_idle _ _ _ R1 Ha) as (_ & A1 & S1 & V1); [lia|]. cbn in *.
  destruct (ran_locked _ _ _ R2 L) as (L2 & A2 & S2 & V2); [cbn; lia|]. cbn in *.
  destruct (start_one_shot s1 (5 * 1000)) as (L3 & N3 & _ & Hs3); [lia|congruence..|].
  set (s2 := k_timer_start _ _ _ s1) in *. specialize (Hs3 L2). calls.
  destruct (does_ran _ _ _ (law_busy_wait timer_expiry (20 * 1000) s2))
    as (l3 & k3 & u3 & k3' & l3' & R3 & N4 & (S4 & A4 & L4) & R4).
  set (s3 := k_busy_wait _ _ s2) in *. destruct Hs3 as (Z3 & V3 & d & A3 & D3).
  destruct (ran_locked _ _ _ R3) as (L5 & A5 & S5 & V5); [congruence|lia|]. cbn in *.
  destruct (ran_locked _ _ _ R4) as (L6 & A6 & S6 & V6); [cbn; congruence|cbn; lia|]. cbn in *.
  assert (s3.2 = s.2) as Hv by congruence.
  reads. rewrite then_assert by (by rewrite Hv, Hc). calls.
  destruct (does_ran _ _ _ (law_irq_unlock timer_expiry key s3))
    as (l7 & k7 & u7 & k7' & l7' & R7 & N7 & (S7 & A7 & L7) & R8).
  set (s4 := irq_unlock _ _ s3) in *. takes.
  destruct (ran_locked _ _ _ R7) as (_ & A8 & S8 & V8); [done|lia|]. cbn in *.
  assert (to_come (now s2.1 + timeout_ticks (5 * 1000)) s.2 (k7', u7)) as Hcome
    by (split_and!; [cbn; congruence|cbn; congruence|exists d; split; [cbn; congruence|exact D3]]).
  pose proof (ra_now _ _ _ R3). pose proof (ra_now _ _ _ R4). pose proof (ra_now _ _ _ R7).
  pose proof (ra_now _ _ _ R8). pose proof (ra_locked _ _ _ R8). cbn in *.
  pose proof (ticks_le (5 * 1000) (100 * 1000) ltac:(lia)).
  destruct (take_one_shot (now s2.1 + timeout_ticks (5 * 1000)) s.2 s4 (100 * 1000))
    as (E & Hl5 & _ & _ & c & _ & Hv5); [lia|congruence|lia| |].
  { destruct (ran_one_shot _ _ _ _ _ R8 (or_introl Hcome)) as [[? _]|?]; [by left|by right]. }
  rewrite E, then_assert by done. reads. rewrite zassert_true; [by split|].
  rewrite Hv5. cbn [expired timer_count]. by rewrite Hc.
Qed.

(** C17: P2.1, P2.2, P2.3 and P2.5 of the Zephyr suite pass, from any state with
    interrupts unlocked, on every kernel whose timers, semaphores and interrupt locks
    do what is documented, however late it serves an interrupt: a one-shot timer expires
    exactly once and in the supervisor timer interrupt, no periodic expiry is lost
    ([short]: within 2^30 ticks), and with interrupts locked no expiry runs until they
    are unlocked. *)
Theorem zephyr_p2_passes :
  (forall s, locked s.1 = false -> exists s', p2_setup s = (Some tt, s') /\ locked s'.1 = false) /\
  (forall s, locked s.1 = false -> Forall (fun test => passes test s)
    [test_timer_irq_fires_once; test_soft_irq_via_offload; test_irq_lock_masks_timer]) /\
  (forall s, locked s.1 = false -> short (now s.1) ((p2_before ;; test_timer_irq_repeats) s).2 ->
    passes test_timer_irq_repeats s).
Proof using laws.
  split_and!; intros s Hl.
  - eexists. split; [reflexivity|]. destruct (law_sem_init timer_expiry (k_timer_init timer_expiry s)) as (_ & _ & -> & _).
    by destruct (law_timer_init timer_expiry s) as (_ & _ & ->).
  - repeat apply Forall_cons_2; [..|apply Forall_nil_2]; apply passes_fresh; try done; intros s1 Hs1;
      [by apply fires_once|by apply soft_irq|by apply lock_masks].
  - destruct (p2_before_fresh s Hl) as (s1 & E & Hf & Hn). unfold passes.
    rewrite (then_returns _ _ _ _ _ E). intros Hshort. apply repeats; [done|]. unfold short in *. lia.
Qed.
End Tests.

(** ** A kernel that keeps the laws

    A tick is a millisecond; time passes in the waits, and each expiry is an interrupt
    of its own, taken as soon as it is due. *)

Record tick_kernel := mk_tick_kernel {
  i_now : Z;
  i_sem : N;
  i_armed : option (Z * Z);
  i_locked : bool
}.

Definition isr_world : world :=
  mk_world ∅ 0 (mk_csrs 0 MSTATUS_SIE MIP_STIP MIP_STIP 0 0 0 0 0) ∅ ∅
    (mk_trap_state 0 0 0 0 0 0 0 0 0 0 0) [] 0 [] None None false.
Definition isr_ctx : ctx := handler_ctx isr_world IRQ_S_TIMER 0.

Definition i_set (g : tick_kernel -> tick_kernel) (s : tick_kernel * p2) : tick_kernel * p2 := (g s.1, s.2).
Definition i_arm (a : option (Z * Z)) (k : tick_kernel) : tick_kernel :=
  mk_tick_kernel (i_now k) (i_sem k) a (i_locked k).
Definition i_count (n : N) (k : tick_kernel) : tick_kernel :=
  mk_tick_kernel (i_now k) n (i_armed k) (i_locked k).
Definition i_lock (b : bool) (k : tick_kernel) : tick_kernel :=
  mk_tick_kernel (i_now k) (i_sem k) (i_armed k) b.
Definition i_wait (t : Z) (k : tick_kernel) : tick_kernel :=
  mk_tick_kernel (i_now k + Z.max 0 t) (i_sem k) (i_armed k) (i_locked k).

(** At most [n] expiries, while one is due and interrupts are enabled. *)
Fixpoint i_irqs (f : ctx -> tick_kernel * p2 -> tick_kernel * p2) (n : nat) (s : tick_kernel * p2)
    : tick_kernel * p2 :=
  match n, i_armed s.1 with
  | S n', Some (d, p) =>
      if (d <=? i_now s.1) && negb (i_locked s.1)
      then i_irqs f n' (f isr_ctx (i_set (i_arm (if p =? 0 then None else Some (d + p, p))) s))
      else s
  | _, _ => s
  end.

(** The time [t] goes by. *)
Definition i_pass (f : ctx -> tick_kernel * p2 -> tick_kernel * p2) (t : Z) (s : tick_kernel * p2) :=
  i_irqs f (S (Z.to_nat t)) (i_set (i_wait t) s).

Definition i_ticks (us : Z) : Z := us / 1000 + 1.
Definition i_key (b : bool) : Z := if b then 1 else 0.

(** The next expiry comes before the end of the wait, or the wait ends. *)
Definition i_take (f : ctx -> tick_kernel * p2 -> tick_kernel * p2) (timeout : Z) (s : tick_kernel * p2)
    : Z * (tick_kernel * p2) :=
  let s :=
    match i_armed s.1 with
    | Some (d, _) =>
        if (0 <? i_sem s.1)%N then s
        else if d <=? i_now s.1 + i_ticks timeout then i_irqs f 1 (i_set (i_wait (d - i_now s.1)) s)
        else i_set (i_wait (i_ticks timeout)) s
    | None => if (0 <? i_sem s.1)%N then s else i_set (i_wait (i_ticks timeout)) s
    end in
  if (0 <? i_sem s.1)%N then (0, i_set (i_count (N.pred (i_sem s.1))) s) else (-11, s).

#[global] Instance tick_api : ClockApi tick_kernel := {|
  K_SEM_MAX_LIMIT := 2 ^ 32 - 1;
  timeout_ticks := i_ticks;
  now := i_now;
  sem k := Z.of_N (i_sem k);
  armed := i_armed;
  locked := i_locked;
  key_locked key := key =? 1;
  k_sem_give k := i_count (N.succ (i_sem k)) k;
  k_timer_init f := i_set (i_arm None);
  k_sem_init f := i_set (i_count 0);
  k_timer_start f d p :=
    i_set (fun k => i_arm (Some (i_now k + i_ticks d, if p =? 0 then 0 else i_ticks p)) k);
  k_timer_stop f := i_set (i_arm None);
  k_sem_reset f := i_set (i_count 0);
  k_sem_take := i_take;
  k_msleep f ms := i_pass f ms;
  k_busy_wait f us := i_pass f (i_ticks us);
  irq_lock f s := (i_key (i_locked s.1), i_set (i_lock true) s);
  irq_unlock f key s := i_pass f 0 (i_set (i_lock (key =? 1)) s);
  irq_offload f routine s := (s.1, routine isr_ctx s.2)
|}.

Lemma quiet_same (k : tick_kernel) : quiet k k.
Proof. split; (done || lia). Qed.

Lemma i_irqs_events f n : forall s, rtc (event f) s (i_irqs f n s).
Proof.
  induction n as [|n IH]; intros [k u]; cbn [i_irqs fst]; [done|].
  destruct (i_armed k) as [[d p]|] eqn:Ha; [|done].
  destruct (Z.leb_spec d (i_now k)) as [Hd|_]; [|done]. destruct (i_locked k) eqn:Hl; [done|]. cbn [andb negb].
  eapply rtc_l; [|apply IH].
  apply (ev_interrupt f isr_world IRQ_S_TIMER 0); [reflexivity|cbn; by rewrite Hl|].
  change (announced f isr_ctx (k, u) (f isr_ctx (i_set (i_arm (if p =? 0 then None else Some (d + p, p))) (k, u)))).
  apply (an_expiry f isr_ctx k (i_arm (if p =? 0 then None else Some (d + p, p)) k) u _ d p);
    try (done || cbn; lia).
  destruct (f isr_ctx _). apply an_end, quiet_same.
Qed.

Lemma i_wait_event f t s : rtc (event f) s (i_set (i_wait t) s).
Proof. destruct s as [k u]. apply rtc_once, ev_time. split; cbn; (done || lia). Qed.

Lemma i_pass_events f t s : rtc (event f) s (i_pass f t s).
Proof. etrans; [apply i_wait_event|apply i_irqs_events]. Qed.

(** A call whose effect comes first, or last. *)
Lemma i_does_first f g s s' (effect : tick_kernel -> tick_kernel -> Prop) :
  i_now s.1 <= i_now (g s.1) -> effect s.1 (g s.1) -> rtc (event f) (i_set g s) s' -> does f effect s s'.
Proof. intros Hn He Hs. exists s.1, s.2, (g s.1). destruct s. by split_and!. Qed.

Lemma i_does_last f g s s1 (effect : tick_kernel -> tick_kernel -> Prop) :
  rtc (event f) s s1 -> i_now s1.1 <= i_now (g s1.1) -> effect s1.1 (g s1.1) -> does f effect s (i_set g s1).
Proof. intros Hs Hn He. exists s1.1, s1.2, (g s1.1). destruct s1. by split_and!. Qed.

Lemma i_take_does f timeout s : 0 <= timeout -> i_locked s.1 = false -> gives f ->
  does f (fun k k' =>
    armed k' = armed k /\ locked k' = locked k /\
    (if (i_take f timeout s).1 =? 0 then 0 < sem k /\ sem k' = sem k - 1
     else sem k = 0 /\ sem k' = 0 /\
          forall d p, armed k = Some (d, p) -> now s.1 + timeout_ticks timeout < d)) s (i_take f timeout s).2.
Proof.
  intros Ht Hl Hg. unfold i_take. destruct s as [k u]. cbn [fst] in *.
  assert (forall s1, rtc (event f) (k, u) s1 ->
    (i_sem s1.1 = 0%N -> forall d p, i_armed s1.1 = Some (d, p) -> i_now k + i_ticks timeout < d) ->
    let r := if (0 <? i_sem s1.1)%N then (0, i_set (i_count (N.pred (i_sem s1.1))) s1) else (-11, s1) in
    does f (fun k1 k' => armed k' = armed k1 /\ locked k' = locked k1 /\
      (if r.1 =? 0 then 0 < sem k1 /\ sem k' = sem k1 - 1
       else sem k1 = 0 /\ sem k' = 0 /\ forall d p, armed k1 = Some (d, p) -> i_now k + i_ticks timeout < d))
      (k, u) r.2) as H.
  { intros s1 Hr Hq r. unfold r. clear r.
    destruct (N.ltb_spec 0 (i_sem s1.1)) as [Hs|Hs]; cbn [fst snd].
    - apply i_does_last; [done|cbn; lia|]. cbn. split_and!; (done || lia).
    - destruct s1 as [k1 u1]. exists k1, u1, k1. cbn in *. split_and!; try (done || lia). apply Hq. lia. }
  destruct (i_armed k) as [[d p]|] eqn:Ha.
  - destruct (N.ltb_spec 0 (i_sem k)) as [Hs|Hs]; [apply H; [done|cbn; lia]|].
    destruct (Z.leb_spec d (i_now k + i_ticks timeout)) as [Hd|Hd].
    + apply H; [etrans; [apply i_wait_event|apply i_irqs_events]|].
      cbn [i_irqs i_set fst snd i_wait i_armed i_now i_locked]. rewrite Ha, Hl.
      rewrite (proj2 (Z.leb_le d _)) by lia. cbn [andb negb]. rewrite Hg. cbn. lia.
    + apply H; [apply i_wait_event|]. cbn. rewrite Ha. intros _ d' p' [= -> ->]. exact Hd.
  - destruct (0 <? i_sem k)%N; (apply H; [done || apply i_wait_event|cbn; by rewrite Ha]).
Qed.

#[global] Instance tick_laws : ClockLaws tick_kernel.
Proof.
  split; try done; intros.
  1,2: cbn; unfold i_ticks; Z.div_mod_to_equations; lia.
  - cbn. split_and!; (done || lia).
  - assert (0 <= d / 1000 /\ 0 <= p / 1000) as [? ?] by (split; apply Z.div_pos; lia).
    apply (i_does_first f (fun k => i_arm (Some (i_now k + i_ticks d, if p =? 0 then 0 else i_ticks p)) k));
      [cbn; lia| |done]. cbn. split_and!; try done.
    eexists _, _. split; [done|]. unfold i_ticks. split; [lia|].
    destruct (Z.eqb_spec p 0) as [->|]; [by left|right; lia].
  - by apply (i_does_first f (i_arm None)).
  - by apply (i_does_first f (i_count 0)).
  - by apply i_take_does.
  - apply (i_does_first f id); [cbn; lia|done|]. destruct s. apply i_pass_events.
  - apply (i_does_first f id); [cbn; lia|done|]. destruct s. apply i_pass_events.
  - by apply (i_does_first f (i_lock true)).
  - cbn. by destruct (i_locked s.1).
  - apply (i_does_first f (i_lock (key =? 1))); [cbn; lia|by cbn|]. apply i_pass_events.
  - exists s.1, s.2, s.1, isr_ctx. destruct s. split_and!; (done || lia).
Qed.

(** ** On that kernel *)

Definition p2_start : tick_kernel * p2 :=
  (mk_tick_kernel 40 3 (Some (47, 1)) false, mk_p2 9 false 0 0 false false).

Lemma zephyr_p2_passes_witness :
  Forall (fun test => passes test p2_start)
    [test_timer_irq_fires_once; test_soft_irq_via_offload; test_irq_lock_masks_timer] /\
  passes test_timer_irq_repeats p2_start /\
  timer_count ((p2_before ;; test_timer_irq_repeats) p2_start).2.2 = 5.
Proof.
  destruct (zephyr_p2_passes (K := tick_kernel)) as (_ & H1 & H2).
  split; [by apply H1|]. split; [|vm_compute; reflexivity]. apply H2; [done|]. vm_compute. reflexivity.
Defined.
