(* ===== verification/App.v ===== *)
(** * The example application: [app/src/main.c], the blink and sensor drivers,
    the custom library

    The drivers and the application call the Zephyr kernel (GPIO, timers, logging,
    sleeping), which is not modelled: a run is the list of calls made, newest
    first, and the environment gives the value each call returns. *)

From S2P Require Import Prelude.

(** ** Calls to the kernel *)

Inductive kcall :=
| Gpio_configure_input
| Gpio_configure_led
| Gpio_get_input
| Gpio_set_led (v : Z)
| Gpio_toggle_led
| Timer_init
| Timer_start (duration period : Z)
| Timer_stop
| Sleep (ms : Z)
| Printk_period (ms : Z)
| Log_err (ret : Z).

(** Whether the devices are ready, and what the [n]-th call returns. *)
Record kenv := { input_ready : bool; led_ready : bool; sensor_ready : bool; blink_ready : bool;
                 ret : nat -> Z }.

Abbreviation trace := (list kcall).

Definition ENODEV : Z := 19.
Definition ENOTSUP : Z := 134.

Section App.
Context (k : kenv) (CONFIG_CUSTOM_GET_VALUE_DEFAULT : Z) (SENSOR_CHAN_PROX : Z).

Definition call (c : kcall) (t : trace) : Z * trace := (ret k (length t), c :: t).
Definition call_ (c : kcall) (t : trace) : trace := c :: t.

(** ** [lib/custom/custom.c] *)

Definition custom_get_value (val : Z) : Z :=
  if negb (val =? 0) then val else CONFIG_CUSTOM_GET_VALUE_DEFAULT.

(** ** [drivers/blink/gpio_led.c] *)

Definition blink_gpio_led_on_timer_expire (t : trace) : trace :=
  let '(ret, t) := call Gpio_toggle_led t in
  if ret <? 0 then call_ (Log_err ret) t else t.

Definition blink_gpio_led_set_period_ms (period_ms : Z) (t : trace) : Z * trace :=
  if period_ms =? 0 then call (Gpio_set_led 0) (call_ Timer_stop t)
  else (0, call_ (Timer_start period_ms period_ms) t).

Definition blink_gpio_led_init (period_ms : Z) (t : trace) : Z * trace :=
  if negb (led_ready k) then (- ENODEV, call_ (Log_err 0) t)
  else
    let '(ret, t) := call Gpio_configure_led t in
    if ret <? 0 then (ret, call_ (Log_err ret) t)
    else
      let t := call_ Timer_init t in
      (0, if 0 <? period_ms then call_ (Timer_start period_ms period_ms) t else t).

(** [include/app/drivers/blink.h] *)
Definition z_impl_blink_set_period_ms : Z -> trace -> Z * trace := blink_gpio_led_set_period_ms.
Definition blink_off (t : trace) : Z * trace := z_impl_blink_set_period_ms 0 t.

(** ** [drivers/sensor/example_sensor/example_sensor.c] *)

(** [struct example_sensor_data] is its one field, [state]. *)
Definition example_sensor_sample_fetch (t : trace) : Z * Z * trace :=
  let '(state, t) := call Gpio_get_input t in (0, state, t).
(** The returned [int] and [val->val1], left as it is on an error. *)
Definition example_sensor_channel_get (chan state val1 : Z) : Z * Z :=
  if negb (chan =? SENSOR_CHAN_PROX) then (- ENOTSUP, val1) else (0, state).
Definition example_sensor_init (t : trace) : Z * trace :=
  if negb (input_ready k) then (- ENODEV, call_ (Log_err 0) t)
  else
    let '(ret, t) := call Gpio_configure_input t in
    if ret <? 0 then (ret, call_ (Log_err ret) t) else (0, t).

(** ** [app/src/main.c] *)

Definition BLINK_PERIOD_MS_STEP : Z := 100.
Definition BLINK_PERIOD_MS_MAX : Z := 1000.

(** [last_val.val1], [period_ms] and the sensor's state. *)
Record app := mk_app { last_val : Z; period_ms : Z; sensor_state : Z; a_trace : trace }.

(** [period_ms] after a detection; an [unsigned int]. *)
Definition next_period (period_ms : Z) : Z :=
  if period_ms =? 0 then BLINK_PERIOD_MS_MAX else wrap32 (period_ms - BLINK_PERIOD_MS_STEP).

(** One turn of [while (1)]; [None] when [main] returns. *)
Definition main_turn (a : app) : option app * trace :=
  let '(ret, state, t) := example_sensor_sample_fetch (a_trace a) in
  if ret <? 0 then (None, call_ (Log_err ret) t)
  else
    let '(ret, val) := example_sensor_channel_get SENSOR_CHAN_PROX state 0 in
    if ret <? 0 then (None, call_ (Log_err ret) t)
    else
      let '(period_ms, t) :=
        if (last_val a =? 0) && (val =? 1) then
          let period_ms := next_period (period_ms a) in
          let t := call_ (Printk_period period_ms) t in
          (period_ms, snd (z_impl_blink_set_period_ms period_ms t))
        else (period_ms a, t) in
      let t := call_ (Sleep 100) t in
      (Some (mk_app val period_ms state t), t).

Fixpoint main_loop (turns : nat) (a : app) : option app :=
  match turns with
  | O => Some a
  | S n => match fst (main_turn a) with Some a => main_loop n a | None => None end
  end.

(** [main] up to its loop. *)
Definition main_start (t : trace) : option app * trace :=
  if negb (sensor_ready k) then (None, call_ (Log_err 0) t)
  else if negb (blink_ready k) then (None, call_ (Log_err 0) t)
  else
    let '(ret, t) := blink_off t in
    if ret <? 0 then (None, call_ (Log_err ret) t)
    else (Some (mk_app 0 BLINK_PERIOD_MS_MAX 0 t), t).

(** ** What they promise *)

(** [custom_get_value] returns its argument, or the default for 0. *)
Lemma custom_get_value_spec val :
  custom_get_value val = if decide (val = 0) then CONFIG_CUSTOM_GET_VALUE_DEFAULT else val.
Proof using.
  unfold custom_get_value. destruct (Z.eqb_spec val 0), (decide (val = 0)); try done.
Qed.

(** The period the LED blinks with after the calls so far: the last call to the
    timer decides. *)
Fixpoint blinking (t : trace) : option Z :=
  match t with
  | [] => None
  | Timer_start _ p :: _ => Some p
  | Timer_stop :: _ => None
  | Timer_init :: _ => None
  | _ :: t' => blinking t'
  end.

Lemma set_period_blinking p t :
  blinking (snd (blink_gpio_led_set_period_ms p t)) = if p =? 0 then None else Some p.
Proof using. unfold blink_gpio_led_set_period_ms. by destruct (p =? 0). Qed.

(** The period after [e] detections: down from 1000 by 100 to 0, and round. *)
Definition period_after (e : nat) : Z := 100 * (10 - Z.of_nat e mod 11).

Lemma period_after_range e : 0 <= period_after e <= 1000.
Proof using. unfold period_after. pose proof (Z.mod_pos_bound (Z.of_nat e) 11). lia. Qed.

Lemma next_period_after e : next_period (period_after e) = period_after (S e).
Proof using.
  unfold next_period, period_after, BLINK_PERIOD_MS_MAX, BLINK_PERIOD_MS_STEP, wrap32.
  rewrite Nat2Z.inj_succ. set (z := Z.of_nat e).
  pose proof (Z.mod_pos_bound z 11 ltac:(lia)) as Hb.
  destruct (Z.eqb_spec (100 * (10 - z mod 11)) 0).
  - replace (Z.succ z mod 11) with 0; [lia|]. Z.div_mod_to_equations. lia.
  - rewrite Z.mod_small by lia. replace (Z.succ z mod 11) with (z mod 11 + 1); [lia|].
    Z.div_mod_to_equations. lia.
Qed.

(** [main_turn] never returns from [main]: the two error checks are dead. *)
Lemma main_turn_runs a :
  let val := ret k (length (a_trace a)) in
  exists a', fst (main_turn a) = Some a' /\
    last_val a' = val /\
    period_ms a' = (if (last_val a =? 0) && (val =? 1) then next_period (period_ms a) else period_ms a) /\
    blinking (a_trace a') =
      (if (last_val a =? 0) && (val =? 1)
       then (if next_period (period_ms a) =? 0 then None else Some (next_period (period_ms a)))
       else blinking (a_trace a)).
Proof using.
  intros val. unfold main_turn, example_sensor_sample_fetch, example_sensor_channel_get, call.
  rewrite Z.eqb_refl. cbn [negb]. change (0 <? 0) with false. cbv iota. fold val.
  destruct ((last_val a =? 0) && (val =? 1)); eexists; (split; [reflexivity|]); split_and!; try done.
  cbn [a_trace call_ blinking]. apply set_period_blinking.
Qed.

(** The readings of the sensor in the successive turns of [main]. *)
Fixpoint readings (n : nat) (a : app) : list Z :=
  match n with
  | O => []
  | S n' =>
      ret k (length (a_trace a)) ::
      match fst (main_turn a) with Some a' => readings n' a' | None => [] end
  end.

(** Rising edges in a list of readings, from a last reading. *)
Fixpoint rising (last : Z) (l : list Z) : nat :=
  match l with
  | [] => 0
  | v :: l' => ((if (Z.eqb last 0) && (Z.eqb v 1) then 1 else 0) + rising v l')%nat
  end.

Definition led_matches (a : app) (started : bool) : Prop :=
  blinking (a_trace a) = if started then (if period_ms a =? 0 then None else Some (period_ms a)) else None.

Lemma main_loop_periods n a e :
  period_ms a = period_after e ->
  exists a', main_loop n a = Some a' /\
    period_ms a' = period_after (e + rising (last_val a) (readings n a)) /\
    (forall s, led_matches a s ->
       led_matches a' (s || negb (rising (last_val a) (readings n a) =? 0)%nat)).
Proof using.
  revert a e. induction n as [|n IH]; intros a e He.
  { exists a. cbn [main_loop readings rising]. rewrite Nat.add_0_r. split_and!; [done..|].
    intros s Hs. by rewrite orb_false_r. }
  cbn [main_loop readings rising].
  destruct (main_turn_runs a) as (a1 & Ht & Hl & Hp & Hb). rewrite Ht, <- Hl in *.
  destruct ((last_val a =? 0) && (last_val a1 =? 1)).
  - rewrite He, next_period_after in Hp, Hb. destruct (IH a1 (S e) Hp) as (a' & H1 & H2 & H3).
    exists a'. split_and!; [done|rewrite H2; f_equal; lia|]. intros s Hs.
    replace (s || _) with true by (by destruct s).
    specialize (H3 true). cbn [orb] in H3. apply H3. unfold led_matches. by rewrite Hb, Hp.
  - destruct (IH a1 e ltac:(congruence)) as (a' & H1 & H2 & H3).
    exists a'. split_and!; [done|done|]. intros s Hs. apply H3. unfold led_matches in *.
    by rewrite Hb, Hp.
Qed.

(** C39: [main] never leaves its loop; after any number of turns the period is the
    one the rising edges of the sensor's readings prescribe (1000 down to 0 in
    steps of 100, then 1000 again, so the unsigned subtraction never wraps), and
    the timer that toggles the LED runs with that period, or is stopped when it is 0. *)
Theorem main_period_follows_edges t a n :
  fst (main_start t) = Some a ->
  exists a', main_loop n a = Some a' /\
    let e := rising 0 (readings n a) in
    period_ms a' = period_after e /\ 0 <= period_ms a' <= 1000 /\
    blinking (a_trace a') = if (e =? 0)%nat || (period_ms a' =? 0) then None else Some (period_ms a').
Proof using.
  intros Hs. assert (period_ms a = period_after 0 /\ last_val a = 0 /\ led_matches a false) as (Hp & Hl & Hm).
  { unfold main_start, blink_off, z_impl_blink_set_period_ms, blink_gpio_led_set_period_ms, call in Hs.
    destruct (sensor_ready k); [|done]. destruct (blink_ready k); [|done].
    cbn [negb] in Hs. change (0 =? 0) with true in Hs. cbv iota in Hs.
    destruct (ret k (length (call_ Timer_stop t)) <? 0); [done|]. injection Hs as <-. by split_and!. }
  destruct (main_loop_periods n a 0 Hp) as (a' & H1 & H2 & H3). rewrite Hl in H2, H3.
  exists a'. split; [done|]. cbv zeta. split_and!.
  - exact H2.
  - rewrite H2. apply period_after_range.
  - rewrite H2. apply period_after_range.
  - specialize (H3 false Hm). unfold led_matches in H3. rewrite H3. cbn [orb].
    by destruct (rising 0 (readings n a) =? 0)%nat, (period_ms a' =? 0).
Qed.

End App.

(** ** At concrete inputs *)

Definition demo_env : kenv :=
  {| input_ready := true; led_ready := true; sensor_ready := true; blink_ready := true;
     ret := fun n => if (n mod 8 =? 4)%nat then 1 else 0 |}.

Lemma main_period_follows_edges_witness :
  exists a a', fst (main_start demo_env []) = Some a /\ main_loop demo_env 0 5 a = Some a' /\
    period_ms a' = 800 /\ blinking (a_trace a') = Some 800.
Proof.
  destruct (fst (main_start demo_env [])) as [a|] eqn:E; [|discriminate E].
  destruct (main_period_follows_edges demo_env 0 [] a 5 E) as (a' & H1 & H2 & _ & H3).
  exists a, a'. split; [reflexivity|]. split; [exact H1|].
  injection E as <-. rewrite H3, H2. split; vm_compute; reflexivity.
Defined.
